(* ===== verification/_CoqProject ===== *)
-Q . S2P
Prelude.v
GoStrings.v
Model.v
Health.v
Store.v
StoreSteps.v
StoreInv.v
StoreSpec.v
StoreLookup.v
StoreOps.v
StoreGC.v
StoreMerge.v
Watch.v
Protoconv.v
Cred.v
Server.v
SeedClient.v
Cache.v
Proxy.v
GoText.v
GoJson.v
GoMux.v
JsonType.v
ConsulFilter.v
Consul.v
DNS.v
RateLimit.v
Membership.v
GoCrypto.v
Config.v
Bootstrap.v
FakeClock.v
App.v
Monitor.v
GoNet.v
GrpcResolver.v
Resolver.v
CredFiles.v
Migrate.v
Readiness.v
ServiceDefs.v
Root.v
Observability.v
Agent.v
Gossip.v
Heartbeat.v
Loops.v
Blocking.v
Conns.v
Listen.v
Widths.v
Cli.v
ClientConns.v
DnsServe.v
ConsulJson.v
ConsulHttp.v
Migration.v
Cutover.v
Metrics.v
ClockApi.v
