(* ===== verification/Prelude.v ===== *)
(** * Yellow Pages: a verified model of the service registry

    Yellow Pages ([src/], Go) is a service-discovery system.  _Seeds_ keep an
    in-memory registry of nodes and their service instances, each under a lease;
    they serve it over gRPC, and over Consul-compatible HTTP and DNS.  _Agents_ run
    beside the applications: they register the local services on every seed,
    renew their leases, and answer lookups by asking the seeds and merging what
    they say.  Seeds do not coordinate on writes; optionally they pull each other's
    registry in the background.

    ** How the parts interact

    - An agent's write ([Proxy]) is stamped with the agent's node and fanned out
      to the seeds ([SeedClient.fanOut]); it succeeds when a quorum of them accepts.
      On a seed the authorization interceptor ([Server.UnaryAuthzInterceptor], with
      [Cred]) admits the request to the handler ([Server.handle]), which converts it
      from the wire ([Protoconv]) and calls the store ([Store]).
    - Every change of the store emits change events; the seed's watcher ([Watch])
      turns them into a monotonic index, wakes the blocking queries and feeds the
      subscriptions of the streams.  [Server.Seed] is the store with its watcher.
    - A lookup is answered by every seed from its store and merged by the agent with
      the last-writer-wins order on (generation, last seen) ([Health.MergeLWW]),
      directly or through the bounded-staleness cache ([Cache]).  The same order
      decides the merge of a peer's snapshot into the store ([StoreMerge]), which
      [Membership] runs on join and on every tick.
    - An agent over its seeds is [Agent]: the gRPC surface of the proxy and its Consul
      registry, the registries of the seeds its calls reach, and the SDK on top of it.
      [Monitor] probes the services an agent hosts and gates their renewals.
    - A node starts from a configuration ([Config.Parse]); [Root.RunE] sets up its
      security, builds the components of its role in order, and hands them to
      [App.Run], which starts them and stops them in reverse order.  What a server
      reports as its readiness is decided by [Readiness]: its start and stop, and the
      probe that counts reachable seeds, interleaved.
    - A seed may serve a sanitized configuration to a joining node that presents a signed
      token ([Bootstrap.GetConfig]); the commands that mint and use tokens are in [Root],
      and [Cli] runs all the commands from their arguments.
    - The interceptors of a gRPC server are the chain of [Observability]: recovery and
      metrics around the authorization around the audit around the handler.
    - The Consul HTTP handlers ([Consul]) are written against the interface
      [Consul.Registry]; [Consul.StoreRegistry] implements it over a seed and
      [Agent.ProxyRegistry] over an agent.  DNS ([DNS]) uses only the read path.
      [ServiceDefs] registers the definitions of a directory through it, and [Migrate]
      copies a Consul catalogue into it over HTTP.  In front of the handlers stand the
      routes ([ConsulHttp]) and the JSON of bodies and answers ([ConsulJson]); [Migration]
      puts the importer between two such surfaces, text to text.

    ** Files

    - [Prelude]: Go's integers, time, map iteration and sorting; the [yp] hints.
    - [GoStrings], [GoText]: the functions of Go's strings and strconv in use; [GoJson]:
      encoding/json between texts and documents; [JsonType]: its decoders and encoders of
      structs, slices and maps, with their round trips; [GoMux]: the routing of net/http.
    - [Model]: [internal/model] (model.go, health.go, tags.go).
    - [Health]: [internal/health/health.go], the filter and the merge.
    - [Store]: [internal/store/store.go], every operation of the [Store] interface as
      a function from the state to the result, the new state and the emitted events,
      and the state machine [reachable].  Its lemmas are in [StoreSteps] (what a
      step does to the maps and the index), [StoreInv] (the invariant [wf]),
      [StoreSpec] (the replay of events, claims on all reachable states),
      [StoreLookup], [StoreOps], [StoreGC] and [StoreMerge] (claims per operation).
    - [Watch]: [internal/watch] (watcher.go, persist.go).  [WaitForChange] is a step
      relation that interleaves the caller with the watcher's operations.
    - [Protoconv]: [internal/protoconv/protoconv.go] over records for the messages
      of [proto/discovery/v1/discovery.proto].
    - [Cred], [CredFiles]: [internal/cred] (acl.go, identity.go; nodeid.go, reload.go,
      credentials.go and the token file).
    - [Server]: [internal/server] (service.go, authz.go) and the seed's wiring in
      [cmd/yp/root.go] ([OnChange] to [Watcher.Notify]).
    - [SeedClient], [Cache], [Proxy]: [internal/seedclient] (client.go, cache.go,
      proxy.go, and the renew tick of loops.go), [internal/federation/pool.go], and the
      watch consumer of [client/sdk/sdk.go].
    - [ConsulFilter]: [internal/consul/filter.go]; [Consul]: handler.go, checks.go,
      catalog.go, storeregistry.go, activechecks.go and types.go of the same package;
      [ConsulJson]: the tags of its types, as decoders and encoders; [ConsulHttp]: the
      routes of [NewHandler] and the handlers from text to text.
    - [DNS]: [internal/consuldns] (parser.go, handler.go).
    - [RateLimit]: [internal/ratelimit/ratelimit.go].
    - [Membership]: [internal/membership/syncer.go].
    - [Config]: [internal/config/config.go], the tree, its defaults and validation.
    - [GoCrypto]: big-endian integers, base64, SHA-256 and HMAC, as Go's library has
      them; [Bootstrap]: [internal/bootstrap] (token.go, render.go, server.go).
    - [FakeClock]: [internal/clock/fake.go]; [ClockApi]: [internal/clock/clock.go];
      [App]: [internal/app/app.go].
    - [Monitor]: [internal/healthcheck] (check.go, monitor.go).
    - [GoNet]: the host and port functions of Go's net, with [internal/grpcx];
      [GrpcResolver]: [client/grpcresolver/resolver.go]; [Resolver]: [internal/resolver].
    - [Migrate]: [internal/migrate]; [Migration]: its JSON, and the import between two
      seeds; [Cutover]: the comparison that follows it, as [e2e/migrate_test.go] runs it.
    - [ServiceDefs]: [internal/consul/servicedef.go].
    - [Readiness]: [internal/observability/readiness.go], Start and Stop of
      [internal/server/component.go], the probe of [internal/seedclient/loops.go].
    - [Root]: [cmd/yp] (root.go with the level and format of the logger, bootstrap.go);
      [Cli]: the command tree of [cmd/yp] with its flags, import.go and [main].
    - [Observability]: [internal/observability] (interceptors.go, metrics.go,
      propagation.go), the audit, and the tick of [internal/store/gcloop.go]; [Metrics]:
      metrics_server.go.
    - [Agent]: the rest of [internal/seedclient] and of [client/sdk/sdk.go], composed.
    - [Gossip]: the pulls of [internal/membership/syncer.go] among any number of seeds.
    - [Heartbeat]: what a run of any operations does to one instance; [Loops]: the [Start]
      of every periodic component over a ticker of [FakeClock], and the renew loop with a
      seed: the clock runs freely, the renewals travel on a wire that may delay and lose
      them, and what is assumed of the wire's and the loop's pace is [prompt_step].
    - [Blocking]: concurrent blocking reads of [internal/consul/handler.go], each with its
      timer and its client, who may leave at any moment.
    - [Conns]: New, Close and Seeds of [internal/seedclient/client.go], the connections of
      [internal/federation/pool.go] and the deregistrar's drain.
    - [Listen]: [internal/httpcomp], [internal/transport], [internal/consuldns/component.go]
      and the assembly of [internal/server/component.go].
    - [ClientConns]: Dial, Wrap and Close of [client/sdk/sdk.go], the life of a resolver of
      [client/grpcresolver/resolver.go]; [DnsServe]: [ServeDNS] of
      [internal/consuldns/handler.go] with the client's address and the size of the answer.
    - [Widths]: the Go types of the registry's integers, kept by every operation.

    ** Conventions

    A struct is a record, an enumeration an inductive type, a map a [gmap], a slice a
    list (nil and empty are one value; where JSON tells them apart a parameter [nil] says
    which), a pointer that may be nil an [option].  An
    operation that changes state returns the new state; an error result is [option]
    or a sum.  A [uint64] is a [Z] whose arithmetic wraps ([u64]); a [time.Time] is a
    [Z] of nanoseconds (from the Unix epoch) and [Sub] saturates as Go's does.  A mutex-protected method is
    one atomic step; where a method releases the lock and goes on (the watcher's
    sends, the blocking wait, the HTTP read) the steps are separate.

    Go leaves the iteration order of maps open: every definition that ranges over a
    map takes the order from the class [MapRange], whose law is only that the
    entries are a permutation of the map's; the theorems hold for every instance.
    The clock is the argument [clk], the readings an operation makes in order, about
    which nothing is assumed.  What other code answers is an argument: the per-seed
    outcomes of a fan-out, [net] or [resolve] for a lookup, [dur] for
    [time.ParseDuration] (in [Bootstrap] the class [DurationText]), [parseIP] for [net.ParseIP], [shuffle] for [rand.Shuffle].

    Fuel: [GoStrings.FormatUint] prints with 20 digits, enough for 64 bits
    ([ParseUint_FormatUint]); the filter tokenizer gets one unit per byte and the
    parser five per token, which [parseFilter_total] shows to be enough; [emit] of
    the SDK needs two turns; [FakeClock.fire_ticks] gets the elapsed periods and two more,
    one for each tick due and the last test; the JSON parser gets two units per byte and
    two more ([GoJson.parse_fuel], [scan_value_fuel]: more changes nothing).  Every other
    recursion is structural.

    ** What the theorems show

    - The registry: the invariant of every reachable state, the replay of its events
      into its contents, the index, the capacity, and each operation on every branch
      ([StoreSpec], [StoreOps], [StoreLookup], [StoreGC]).
    - Convergence: the merges are joins of the last-writer-wins order, they never
      lose a newer version, and the pulls of any number of seeds, interleaved, make those
      agree that have heard of the same seeds ([StoreMerge], [Health], [Membership],
      [Gossip]).
    - The lease: an instance that is renewed in time stays discoverable and one that falls
      silent is evicted, whatever else happens; the agent's loop keeps the leases of its services while its renewals
      get through in time ([Heartbeat], [Loops]).
    - Distribution: a read that overlaps an accepted write sees it; a caller touches
      only its own node; the conversions to the wire lose nothing that matters
      ([SeedClient], [Server], [Protoconv]).
    - Notification: the index advances exactly for the queries concerned, no wake-up
      is lost, subscribers and SDK clients see the registry's changes ([Watch],
      [Server], [Proxy]); blocking reads are bounded and never stuck ([Blocking]).
    - Types: every integer fits the Go type that holds it ([Widths]).
    - The surfaces: the filter language, the HTTP writes and views, the DNS names,
      codes and records, the rate limit ([ConsulFilter], [Consul], [DNS],
      [RateLimit]); what any HTTP request can change, and that what a PUT registers a GET
      returns, as texts ([ConsulHttp], [Migration]).
    - Joining: what a configuration file must satisfy to load, when a bootstrap token is
      accepted, that a served configuration has no secrets and loads, and that three
      commands make a node join ([Config], [Bootstrap], [Cli]).
    - A deployment: what is registered at one agent is discovered at another, an agent
      writes only its own node, a stopped agent is gone; the resolver and the SDK follow
      the instances ([Agent], [Proxy], [GrpcResolver]).
    - The life of a node: what a start builds or why it fails, that enforcement reaches
      every surface with the tokens of the node's file, the order in which the shutdown
      calls the [Stop]s (a periodic component ends with the context, its [Stop] does
      nothing), its termination even when a [Stop] hangs, what readiness means
      while a probe, a start and a stop interleave ([Root], [App], [Readiness]); periodic
      components keep their pace and end, listeners close, connections have one owner
      ([Loops], [Listen], [Conns]).
    - Active checks: one loop per service, and that failing checks let the lease lapse
      ([Monitor]); timers ([FakeClock]); certificates and identities ([CredFiles]); seed
      discovery ([Resolver]).
    - Migration: the import writes every instance of a catalogue, the shadow diff is exact
      ([Migrate]); the import from one seed into another, over the routes and the JSON of
      both ([Migration]), validates, and lapses when nothing renews it ([Cutover]); service
      definitions ([ServiceDefs]).
    - Operation: the interceptors are transparent and their metrics and logs account for
      every call ([Observability]).
    - Some theorems state behaviour that differs from a comment or a document, on
      a concrete run or in general; their comments say so.

    ** Not modelled

    Network and file input/output (sockets, [net/http], the gRPC and DNS libraries, below
    the components of [Listen]), X.509 and YAML, what the logger writes, cobra's parsing of
    the arguments (what the commands rely on is the class [Cli.Cobra]), the time package
    below the system clock ([ClockApi]), how Prometheus gathers and prints its registry
    ([Metrics]), and code generated from the protocol description.  Of HTTP: the bodies of
    redirects and clients that follow them; of JSON: what a slice keeps behind its length
    when a document names it more than twice ([JsonType]). *)

From Stdlib Require Import ZArith Lia Ascii.
From stdpp Require Import sorting numbers base gmap strings list.

#[local] Open Scope Z_scope.

(** ** Machine integers

    Go's [uint64]/[uint32]/[uint16] arithmetic wraps around; [int64] (the
    representation of [time.Duration]) wraps around in two's complement. *)

Definition u64 (z : Z) : Z := z mod 2 ^ 64.

Definition minInt64 : Z := - 2 ^ 63.

Definition maxInt64 : Z := 2 ^ 63 - 1.

Definition i64 (z : Z) : Z := (z + 2 ^ 63) mod 2 ^ 64 - 2 ^ 63.

Definition is_u64 (z : Z) : Prop := 0 <= z < 2 ^ 64.

Definition is_i64 (z : Z) : Prop := minInt64 <= z <= maxInt64.

(** ** Time

    A [time.Time] is the instant in nanoseconds since the Unix epoch; the zero
    [time.Time] (January 1, year 1 UTC) is the constant [zeroTime].  A
    [time.Duration] is a signed 64-bit count of nanoseconds. *)

Definition second : Z := 1000000000.

Definition zeroTime : Z := - 62135596800 * second.

(** [time.Time.Sub]: the difference saturates at the range of a Duration. *)
Definition Time_Sub (t u : Z) : Z := Z.max minInt64 (Z.min maxInt64 (t - u)).

Definition Time_After (t u : Z) : bool := u <? t.

(** The readings of the clock seam ([clock.Clock.Now]) during one operation:
    [clk 0] is the reading at its entry, the others are the ones it makes while
    it builds its events.  Nothing is assumed of them unless a theorem says so. *)
Definition Clock := nat → Z.

Definition frozen (t : Z) : Clock := λ _, t.

(** ** Iteration over maps

    Go leaves the iteration order of a [range] over a map unspecified.  Every
    definition that ranges over a map is parametric in an enumeration of the
    map's entries; what the language promises of it is that each entry is
    produced exactly once. *)
Class MapRange := {
  range : ∀ {K V : Type} `{Countable K}, gmap K V → list (K * V);
  range_perm : ∀ {K V : Type} `{Countable K} (m : gmap K V), range m ≡ₚ map_to_list m
}.

(** One such order (used by the concrete runs). *)
Definition list_order : MapRange := {|
  range := λ K V _ _ m, map_to_list m;
  range_perm := λ K V _ _ m, reflexivity _
|}.

(** ** Sorting

    [sort.Slice] with a strict order [less]: the result is a permutation of the
    slice in which no element is [less] than one before it.  Where the keys are
    distinct this determines the result ([sort_slice_unique]). *)
Definition not_less {A} (less : A → A → bool) (x y : A) : Prop := less y x = false.

#[export] Instance not_less_dec {A} (less : A → A → bool) : RelDecision (not_less less).
Proof. intros x y. unfold not_less. apply _. Defined.

Definition sort_slice {A} (less : A → A → bool) (l : list A) : list A :=
  merge_sort (not_less less) l.

(** The order on pairs of strings by which [internal/health] and
    [internal/store] sort the entries. *)
Definition pair_less (a b : string * string) : bool :=
  if bool_decide (a.1 = b.1) then String.ltb a.2 b.2 else String.ltb a.1 b.1.

(** ** Tactics and hints *)

Create HintDb yp.

(** Case analysis on every test of the goal and the hypotheses. *)
Ltac split_ifs :=
  repeat first [ case_match | case_bool_decide | case_decide ]; simplify_eq.

(** Destruct the conjunctions and existentials of the context. *)
Ltac deep := repeat match goal with
  | H : ∃ _, _ |- _ => destruct H
  | H : _ ∧ _ |- _ => destruct H
  end.

(** ** Lemmas on integers *)

Lemma u64_range z : is_u64 (u64 z).
Proof. unfold is_u64, u64. apply Z.mod_pos_bound. lia. Qed.

Lemma u64_small z : is_u64 z → u64 z = z.
Proof. unfold is_u64, u64. intros. apply Z.mod_small. lia. Qed.

Lemma u64_add_l a b : u64 (u64 a + b) = u64 (a + b).
Proof. unfold u64. by rewrite Zplus_mod_idemp_l. Qed.

Lemma u64_idemp a : u64 (u64 a) = u64 a.
Proof. unfold u64. by rewrite Zmod_mod. Qed.

Lemma i64_small z : is_i64 z → i64 z = z.
Proof.
  unfold is_i64, i64, minInt64, maxInt64. intros.
  rewrite Z.mod_small; lia.
Qed.

Lemma i64_range z : is_i64 (i64 z).
Proof.
  unfold is_i64, i64, minInt64, maxInt64.
  pose proof (Z.mod_pos_bound (z + 2 ^ 63) (2 ^ 64)). lia.
Qed.

Lemma Time_Sub_range t u : is_i64 (Time_Sub t u).
Proof. unfold is_i64, Time_Sub, minInt64, maxInt64. lia. Qed.

Lemma Time_Sub_small t u : is_i64 (t - u) → Time_Sub t u = t - u.
Proof. unfold is_i64, Time_Sub. lia. Qed.

Lemma Time_Sub_diag t : Time_Sub t t = 0.
Proof. unfold Time_Sub, minInt64, maxInt64. lia. Qed.

Lemma Time_Sub_le t t' u : t <= t' → Time_Sub t u <= Time_Sub t' u.
Proof. unfold Time_Sub. lia. Qed.

#[export] Hint Resolve u64_range Time_Sub_range : yp.

(** ** Lemmas on map iteration *)

Section Range.
Context `{MapRange}.
Context {K V : Type} `{Countable K}.
Implicit Types (m : gmap K V).

Lemma elem_of_range m k v : (k, v) ∈ range m ↔ m !! k = Some v.
Proof. rewrite range_perm. apply elem_of_map_to_list. Qed.

Lemma NoDup_range m : NoDup (range m).
Proof. rewrite range_perm. apply NoDup_map_to_list. Qed.

Lemma NoDup_range_fst m : NoDup (range m).*1.
Proof. rewrite range_perm. apply NoDup_fst_map_to_list. Qed.

Lemma length_range m : length (range m) = size m.
Proof. rewrite range_perm. apply length_map_to_list. Qed.

End Range.

(** ** Lemmas on sorting *)

Section SortSlice.
Context {A : Type} (less : A → A → bool).

Lemma sort_slice_perm l : sort_slice less l ≡ₚ l.
Proof. apply merge_sort_Permutation. Qed.

Lemma elem_of_sort_slice x l : x ∈ sort_slice less l ↔ x ∈ l.
Proof. by rewrite sort_slice_perm. Qed.

Context `{!Transitive (not_less less), !Total (not_less less)}.

Lemma sort_slice_sorted l : StronglySorted (not_less less) (sort_slice less l).
Proof. unfold sort_slice. apply StronglySorted_merge_sort; apply _. Qed.

(** Any sorted permutation is the result, once incomparable elements are equal. *)
Lemma sort_slice_unique l l' :
  l ≡ₚ l' →
  StronglySorted (not_less less) l' →
  (∀ x y, x ∈ l' → y ∈ l' → not_less less x y → not_less less y x → x = y) →
  sort_slice less l = l'.
Proof.
  intros Hp Hs Hanti.
  apply (StronglySorted_unique_strong (not_less less)); [| apply sort_slice_sorted | done |].
  - intros x1 x2 Hx1 Hx2. apply Hanti; [|done].
    by rewrite elem_of_sort_slice, Hp in Hx1.
  - by rewrite sort_slice_perm.
Qed.

Lemma sort_slice_ext l l' :
  l ≡ₚ l' →
  (∀ x y, x ∈ l → y ∈ l → not_less less x y → not_less less y x → x = y) →
  sort_slice less l = sort_slice less l'.
Proof.
  intros Hp Hanti. apply sort_slice_unique.
  - by rewrite sort_slice_perm.
  - apply sort_slice_sorted.
  - intros x y. rewrite !elem_of_sort_slice, <-!Hp. by apply Hanti.
Qed.

End SortSlice.

(** The order on pairs of strings is total, and sorting by a pair key is
    determined where the keys are distinct. *)

Lemma ltb_leb a b : String.ltb a b = negb (String.leb b a).
Proof.
  unfold String.ltb, String.leb. rewrite String.compare_antisym.
  by destruct (String.compare b a).
Qed.

Lemma not_ltb_le a b : String.ltb a b = false ↔ String.le b a.
Proof. rewrite ltb_leb. unfold String.le. by destruct (String.leb b a). Qed.

Lemma not_less_pair a b :
  not_less pair_less a b ↔
  (a.1 = b.1 ∧ String.le a.2 b.2) ∨ (a.1 ≠ b.1 ∧ String.le a.1 b.1).
Proof.
  unfold not_less, pair_less. case_bool_decide; rewrite not_ltb_le; intuition congruence.
Qed.

#[export] Instance pair_less_trans : Transitive (not_less pair_less).
Proof.
  intros x y z. rewrite !not_less_pair.
  intros [[E1 L1]|[N1 L1]] [[E2 L2]|[N2 L2]].
  - left. split; [congruence|]. by trans y.2.
  - right. rewrite E1. done.
  - right. rewrite <-E2. done.
  - right. split; [|by trans y.1].
    intros E. apply N1. apply (anti_symm String.le); [done|]. by rewrite E.
Qed.

#[export] Instance pair_less_total : Total (not_less pair_less).
Proof.
  intros x y. rewrite !not_less_pair.
  destruct (decide (x.1 = y.1)) as [E|E];
    [destruct (total String.le x.2 y.2) | destruct (total String.le x.1 y.1)];
    naive_solver.
Qed.

Lemma pair_less_anti a b : not_less pair_less a b → not_less pair_less b a → a = b.
Proof.
  rewrite !not_less_pair. destruct a as [a1 a2], b as [b1 b2]; simpl.
  intros [[E1 L1]|[N1 L1]] [[E2 L2]|[N2 L2]]; simplify_eq; try done.
  - f_equal. by apply (anti_symm String.le).
  - destruct N1. by apply (anti_symm String.le).
Qed.

(** Sorting by a pair-valued key. *)
Definition key_less {A} (key : A → string * string) (x y : A) : bool :=
  pair_less (key x) (key y).

Section KeyLess.
Context {A : Type} (key : A → string * string).

#[export] Instance key_less_trans : Transitive (not_less (key_less key)).
Proof. intros x y z. apply pair_less_trans. Qed.

#[export] Instance key_less_total : Total (not_less (key_less key)).
Proof. intros x y. apply pair_less_total. Qed.

Lemma sort_by_key_ext (l l' : list A) :
  l ≡ₚ l' → NoDup (key <$> l) → sort_slice (key_less key) l = sort_slice (key_less key) l'.
Proof.
  intros Hp Hnd. apply sort_slice_ext; [apply _..|done|].
  intros x y Hx Hy H1 H2.
  pose proof (pair_less_anti _ _ H1 H2) as E.
  apply list_elem_of_lookup in Hx as [i Hi], Hy as [j Hj].
  assert (i = j) as <-; [|congruence].
  apply (NoDup_lookup (key <$> l) i j (key x)); [done|..];
    rewrite list_lookup_fmap; [by rewrite Hi | rewrite Hj; simpl; congruence].
Qed.

End KeyLess.

(** ** Lemmas on lists with keys *)

(** Two lists without repeated keys and with the same elements are permutations. *)
Lemma NoDup_key_perm {A K} (key : A → K) (l l' : list A) :
  NoDup (key <$> l) → NoDup (key <$> l') → (∀ x, x ∈ l ↔ x ∈ l') → l ≡ₚ l'.
Proof. intros H1%NoDup_fmap_1 H2%NoDup_fmap_1. by apply NoDup_Permutation. Qed.


Lemma NoDup_fmap_inj_on {A K} (key : A → K) (l : list A) x y :
  NoDup (key <$> l) → x ∈ l → y ∈ l → key x = key y → x = y.
Proof.
  intros Hnd [i Hi]%list_elem_of_lookup [j Hj]%list_elem_of_lookup E.
  assert (i = j) as <-; [|congruence].
  apply (NoDup_lookup (key <$> l) i j (key x)); [done|..];
    rewrite list_lookup_fmap; [by rewrite Hi | rewrite Hj; simpl; congruence].
Qed.

(** Sorting, by a key without repetitions, what a filter keeps. *)
Lemma StronglySorted_filter {A} (R : A → A → Prop) (P : A → Prop) `{!∀ x, Decision (P x)} l :
  StronglySorted R l → StronglySorted R (filter P l).
Proof.
  induction 1 as [|x l Hs IH Hf]; [constructor|]. rewrite filter_cons. case_decide; [|done].
  constructor; [done|]. apply Forall_forall. intros y [_ Hy]%list_elem_of_filter.
  by eapply Forall_forall in Hf.
Qed.

Lemma sort_slice_filter {A} (key : A → string * string) (P : A → Prop) `{!∀ x, Decision (P x)} l l' :
  NoDup (key <$> l) → NoDup (key <$> l') → (∀ x, x ∈ l ↔ P x ∧ x ∈ l') →
  sort_slice (key_less key) l = filter P (sort_slice (key_less key) l').
Proof.
  intros H1 H2 Hx. apply sort_slice_unique; [apply _..| | |].
  - apply NoDup_Permutation; [by eapply NoDup_fmap_1| |].
    + apply list.NoDup_filter. rewrite sort_slice_perm. by eapply NoDup_fmap_1.
    + intros x. by rewrite list_elem_of_filter, elem_of_sort_slice.
  - apply StronglySorted_filter, sort_slice_sorted; apply _.
  - intros x y [_ Hi]%list_elem_of_filter [_ Hj]%list_elem_of_filter L1 L2.
    rewrite elem_of_sort_slice in Hi, Hj.
    by apply (NoDup_fmap_inj_on key l'), pair_less_anti.
Qed.

(** Sorting commutes with a map that keeps the key. *)
Lemma sort_slice_fmap {A} (key : A → string * string) (f : A → A) l :
  (∀ x, key (f x) = key x) → NoDup (key <$> l) →
  f <$> sort_slice (key_less key) l = sort_slice (key_less key) (f <$> l).
Proof.
  intros Hf Hnd. symmetry. apply sort_slice_unique; [apply _..| | |].
  - by rewrite sort_slice_perm.
  - pose proof (sort_slice_sorted (key_less key) l) as Hs.
    induction Hs as [|x xs Hs IH Hx]; simpl; constructor; [done|].
    apply list.Forall_fmap. eapply list.Forall_impl; [exact Hx|].
    intros y. unfold not_less, key_less; simpl. by rewrite !Hf.
  - intros x y (x' & -> & Hx)%list_elem_of_fmap (y' & -> & Hy)%list_elem_of_fmap L1 L2.
    rewrite elem_of_sort_slice in Hx, Hy. f_equal. apply (NoDup_fmap_inj_on key l); [done..|].
    rewrite <-(Hf x'), <-(Hf y'). by apply pair_less_anti.
Qed.

(** A list without repetitions all of whose elements are [x]. *)
Lemma NoDup_singleton_list {A} (l : list A) x : NoDup l → x ∈ l → (∀ y, y ∈ l → y = x) → l = [x].
Proof.
  intros Hnd Hx Hall. destruct l as [|y [|z l]]; [set_solver|f_equal; apply Hall; set_solver|].
  apply list.NoDup_cons in Hnd as [Hy _]. destruct Hy.
  rewrite (Hall y), (Hall z) by set_solver. set_solver.
Qed.

Lemma all_not_elem_nil {A} (l : list A) : (∀ x, x ∉ l) → l = [].
Proof. destruct l as [|x l]; [done|]. intros Hx. destruct (Hx x). set_solver. Qed.
