(* ===== verification/GoStrings.v ===== *)
(** The functions of Go's [strings] and [strconv] packages that the sources use, on
    byte strings ([String.string]): cutting, prefixes and suffixes, trimming,
    joining, decimal numbers.  White space is that of the ASCII range; the Unicode
    spaces of [strings.TrimSpace] are outside the model.  Case folding and splitting
    are in [GoText]. *)

From Stdlib Require Import ZArith Lia Ascii.
From stdpp Require Import base list strings.
From S2P Require Import Prelude.

(** [s[n:]] and [s[:n]]. *)
Fixpoint str_drop (n : nat) (s : string) : string :=
  match n, s with
  | O, _ => s
  | S n', EmptyString => EmptyString
  | S n', String _ s' => str_drop n' s'
  end.

Fixpoint str_take (n : nat) (s : string) : string :=
  match n, s with
  | O, _ => EmptyString
  | S n', EmptyString => EmptyString
  | S n', String c s' => String c (str_take n' s')
  end.

(** [strings.Cut] at the first occurrence of a one-byte separator. *)
Fixpoint Cut (s : string) (sep : ascii) : string * string * bool :=
  match s with
  | EmptyString => (EmptyString, EmptyString, false)
  | String c s' =>
      if bool_decide (c = sep) then (EmptyString, s', true)
      else let '(before, after, found) := Cut s' sep in (String c before, after, found)
  end.

Definition HasPrefix (s p : string) : bool := String.prefix p s.

Definition TrimPrefix (s p : string) : string :=
  if HasPrefix s p then str_drop (String.length p) s else s.

Definition HasSuffix (s p : string) : bool :=
  (String.length p <=? String.length s)%nat &&
  bool_decide (str_drop (String.length s - String.length p) s = p).

Definition TrimSuffix (s p : string) : string :=
  if HasSuffix s p then str_take (String.length s - String.length p) s else s.

(** ** Lemmas *)

Lemma str_app_nil_l a : "" +:+ a = a.
Proof. done. Qed.

Lemma str_app_cons c a b : String c a +:+ b = String c (a +:+ b).
Proof. done. Qed.

#[export] Hint Rewrite str_app_nil_l str_app_cons : yp.

(** [simpl] that also unfolds the concatenation of constructors. *)
Ltac str_simpl := repeat (simpl; autorewrite with yp); simpl.

Lemma str_drop_app a b : str_drop (String.length a) (a +:+ b) = b.
Proof. induction a; str_simpl; auto. Qed.

Lemma str_take_app a b : str_take (String.length a) (a +:+ b) = a.
Proof. induction a; str_simpl; [by destruct b|]. by f_equal. Qed.

Lemma str_length_app a b : String.length (a +:+ b) = (String.length a + String.length b)%nat.
Proof. induction a; str_simpl; auto. Qed.

Lemma str_app_nil_r a : a +:+ "" = a.
Proof. induction a; str_simpl; congruence. Qed.

Lemma str_app_assoc a b c : (a +:+ b) +:+ c = a +:+ (b +:+ c).
Proof. induction a; str_simpl; congruence. Qed.

Lemma HasPrefix_app p s : HasPrefix (p +:+ s) p = true.
Proof.
  unfold HasPrefix. induction p as [|c p IH]; str_simpl; [by destruct s|].
  by destruct (ascii_dec c c).
Qed.

Lemma TrimPrefix_app p s : TrimPrefix (p +:+ s) p = s.
Proof. unfold TrimPrefix. by rewrite HasPrefix_app, str_drop_app. Qed.

Lemma HasSuffix_app p s : HasSuffix (s +:+ p) p = true.
Proof.
  unfold HasSuffix. rewrite str_length_app.
  replace (String.length s + String.length p - String.length p)%nat
    with (String.length s) by lia.
  rewrite str_drop_app, bool_decide_eq_true_2 by done.
  rewrite andb_true_r. apply Nat.leb_le. lia.
Qed.

Lemma TrimSuffix_app p s : TrimSuffix (s +:+ p) p = s.
Proof.
  unfold TrimSuffix. rewrite HasSuffix_app, str_length_app.
  replace (String.length s + String.length p - String.length p)%nat
    with (String.length s) by lia.
  apply str_take_app.
Qed.

(** The separator never occurs before the cut, and the parts rebuild the string. *)
Lemma Cut_found s sep before after :
  Cut s sep = (before, after, true) → s = before +:+ String sep after.
Proof.
  revert before. induction s as [|c s IH]; simpl; intros before; [done|].
  case_bool_decide; [intros; by simplify_eq|].
  destruct (Cut s sep) as [[b a] f]. intros; simplify_eq.
  by rewrite (IH b).
Qed.

Lemma Cut_not_found s sep before after :
  Cut s sep = (before, after, false) → before = s ∧ after = "".
Proof.
  revert before. induction s as [|c s IH]; simpl; intros before; [intros; by simplify_eq|].
  case_bool_decide; [done|].
  destruct (Cut s sep) as [[b a] f]. intros; simplify_eq.
  by destruct (IH b eq_refl) as [-> ->].
Qed.

(** ** White space and numbers *)

Definition is_space (c : ascii) : bool :=
  let n := N_of_ascii c in (n =? 32)%N || ((9 <=? n)%N && (n <=? 13)%N).

Fixpoint trim_left (s : string) : string :=
  match s with
  | String c s' => if is_space c then trim_left s' else s
  | EmptyString => EmptyString
  end.

Fixpoint trim_right (s : string) : string :=
  match s with
  | String c s' =>
      match trim_right s' with
      | EmptyString => if is_space c then EmptyString else String c EmptyString
      | r => String c r
      end
  | EmptyString => EmptyString
  end.

Definition newline : string := String (ascii_of_N 10) EmptyString.

Definition TrimSpace (s : string) : string := trim_right (trim_left s).

(** [strconv.FormatUint(n, 10)]: at most 20 digits for a [uint64]. *)
Definition digit (d : Z) : ascii := ascii_of_N (48 + Z.to_N d).

Fixpoint format_loop (fuel : nat) (n : Z) (acc : string) : string :=
  match fuel with
  | O => acc
  | S fuel' =>
      let acc := String (digit (n mod 10)) acc in
      if (n <? 10)%Z then acc else format_loop fuel' (n / 10) acc
  end.

Definition FormatUint (n : Z) : string := format_loop 20 n EmptyString.

Definition digit_val (c : ascii) : option Z :=
  let n := Z.of_N (N_of_ascii c) in
  if (48 <=? n)%Z && (n <=? 57)%Z then Some (n - 48)%Z else None.

(** The loop of [strconv.ParseUint] in base 10: [None] is a syntax or range error. *)
Fixpoint parse_loop (max : Z) (acc : Z) (s : string) : option Z :=
  match s with
  | EmptyString => Some acc
  | String c s' =>
      d ← digit_val c;
      if (max <? acc * 10 + d)%Z then None else parse_loop max (acc * 10 + d) s'
  end.

(** [strconv.ParseUint(s, 10, bits)]. *)
Definition ParseUint (s : string) (bits : Z) : option Z :=
  if bool_decide (s = EmptyString) then None else parse_loop (2 ^ bits - 1) 0 s.

#[local] Open Scope Z_scope.

Lemma digit_val_digit d : 0 <= d < 10 → digit_val (digit d) = Some d.
Proof.
  intros Hd.
  assert (Hc : d = 0 ∨ d = 1 ∨ d = 2 ∨ d = 3 ∨ d = 4 ∨ d = 5 ∨ d = 6 ∨ d = 7 ∨ d = 8 ∨ d = 9) by lia.
  by destruct_or! Hc; subst.
Qed.

Lemma digit_not_space d : 0 <= d < 10 → is_space (digit d) = false.
Proof.
  intros Hd.
  assert (Hc : d = 0 ∨ d = 1 ∨ d = 2 ∨ d = 3 ∨ d = 4 ∨ d = 5 ∨ d = 6 ∨ d = 7 ∨ d = 8 ∨ d = 9) by lia.
  by destruct_or! Hc; subst.
Qed.

Lemma parse_format_loop max fuel n s :
  0 <= n <= max → n < 10 ^ Z.of_nat fuel →
  parse_loop max 0 (format_loop fuel n s) = parse_loop max n s.
Proof.
  revert n s. induction fuel as [|fuel IH]; intros n s Hn Hf; [simpl in Hf; replace n with 0 by lia; done|].
  assert (Hm : 0 <= n mod 10 < 10) by (apply Z.mod_pos_bound; lia).
  cbn [format_loop]. destruct (Z.ltb_spec n 10).
  - cbn [parse_loop]. rewrite digit_val_digit by done. cbn [mbind option_bind].
    rewrite Z.mod_small by lia. destruct (Z.ltb_spec max (0 * 10 + n)); [lia|done].
  - pose proof (Z.div_mod n 10). rewrite IH; cycle 1.
    + split; [apply Z.div_pos; lia|]. apply Z.div_le_upper_bound; lia.
    + apply Z.div_lt_upper_bound; [lia|]. rewrite Nat2Z.inj_succ, Z.pow_succ_r in Hf by lia. lia.
    + cbn [parse_loop]. rewrite digit_val_digit by done. cbn [mbind option_bind].
      replace (n / 10 * 10 + n mod 10) with n by lia. destruct (Z.ltb_spec max n); [lia|done].
Qed.

Lemma format_loop_nonempty fuel n s : format_loop (S fuel) n s ≠ EmptyString.
Proof.
  revert n s. induction fuel as [|fuel IH]; intros n s; cbn [format_loop].
  - by destruct (n <? 10).
  - destruct (n <? 10); [done|]. apply IH.
Qed.

(** Printing and parsing a [uint64]. *)
Lemma ParseUint_FormatUint n : is_u64 n → ParseUint (FormatUint n) 64 = Some n.
Proof.
  unfold is_u64. intros Hn. unfold ParseUint, FormatUint.
  rewrite bool_decide_eq_false_2 by apply format_loop_nonempty.
  rewrite parse_format_loop; [done|lia|]. simpl. lia.
Qed.

(** The characters of a string. *)
Fixpoint no_space (s : string) : bool :=
  match s with
  | EmptyString => true
  | String c s' => negb (is_space c) && no_space s'
  end.

Lemma format_loop_no_space fuel n s : no_space s = true → no_space (format_loop fuel n s) = true.
Proof.
  revert n s. induction fuel as [|fuel IH]; intros n s Hs; cbn [format_loop]; [done|].
  assert (Hd : no_space (String (digit (n mod 10)) s) = true).
  { simpl. rewrite digit_not_space by (apply Z.mod_pos_bound; lia). done. }
  destruct (n <? 10); [done|]. by apply IH.
Qed.

Lemma TrimSpace_newline s :
  no_space s = true → TrimSpace (s +:+ newline) = s.
Proof.
  intros Hs. unfold TrimSpace.
  assert (Hr : ∀ s, no_space s = true → trim_right (s +:+ newline) = s).
  { clear. induction s as [|c s IH]; str_simpl; [done|]. intros [Hc Hs]%andb_true_iff.
    rewrite IH by done. apply negb_true_iff in Hc. rewrite Hc. by destruct s. }
  destruct s as [|c s]; [done|]. rewrite str_app_cons. simpl in Hs |- *.
  apply andb_true_iff in Hs as [Hc Hs]. apply negb_true_iff in Hc. rewrite Hc.
  change (String c (s +:+ newline)) with
    (String c s +:+ newline).
  apply Hr. simpl. by rewrite Hc.
Qed.

(** ** Joining *)

(** [strings.Join(l, sep)]. *)
Fixpoint Join (l : list string) (sep : string) : string :=
  match l with
  | [] => EmptyString
  | [s] => s
  | s :: rest => s +:+ sep +:+ Join rest sep
  end.

(** The string has no byte [c]. *)
Fixpoint no_byte (c : ascii) (s : string) : bool :=
  match s with
  | EmptyString => true
  | String a s' => negb (bool_decide (a = c)) && no_byte c s'
  end.

Lemma cut_byte_unique c a b x y :
  no_byte c a = true → no_byte c b = true →
  a +:+ String c x = b +:+ String c y → a = b ∧ x = y.
Proof.
  revert b. induction a as [|ca a IH]; intros [|cb b]; str_simpl; intros Ha Hb E; simplify_eq; try done.
  - by rewrite bool_decide_eq_true_2 in Hb.
  - by rewrite bool_decide_eq_true_2 in Ha.
  - apply andb_true_iff in Ha as [_ Ha], Hb as [_ Hb]. by destruct (IH b Ha Hb) as [-> ->].
Qed.

Lemma no_byte_cut c a x : no_byte c (a +:+ String c x) = false.
Proof.
  induction a as [|b a IH]; str_simpl; [by rewrite bool_decide_eq_true_2|]. rewrite IH. apply andb_false_r.
Qed.

(** Joining non-empty strings without the separator byte loses nothing. *)
Lemma Join_inj c l l' :
  Forall (λ s, no_byte c s = true ∧ s ≠ EmptyString) l →
  Forall (λ s, no_byte c s = true ∧ s ≠ EmptyString) l' →
  Join l (String c EmptyString) = Join l' (String c EmptyString) → l = l'.
Proof.
  intros Hl. revert l'. induction Hl as [|s l [Hs Hne] Hl IH]; intros l' Hl'.
  - destruct Hl' as [|s' l' [Hs' Hne'] Hl']; [done|]. simpl. destruct l'; [by intros <-|].
    by destruct s'.
  - destruct Hl' as [|s' l' [Hs' Hne'] Hl'].
    { simpl. destruct l; [by intros ->|]. by destruct s. }
    cbn [Join]. destruct l as [|x l], l' as [|y l'].
    + by intros ->.
    + rewrite str_app_cons, str_app_nil_l. intros ->. by rewrite no_byte_cut in Hs.
    + rewrite str_app_cons, str_app_nil_l. intros <-. by rewrite no_byte_cut in Hs'.
    + rewrite !str_app_cons, !str_app_nil_l. intros [-> E]%cut_byte_unique; [|done..].
      f_equal. by apply IH.
Qed.
