(* ===== verification/Model.v ===== *)
(** The domain model, [src/internal/model]: nodes, service instances with their
    lease data, entries, queries and change events, the tag functions, and the
    last-writer-wins order [WinsLWW] that both the cross-seed read merge and the
    seeds' anti-entropy use.  Slices are lists and maps are [gmap]s: a nil slice
    (map) and an empty one are the same value of the model. *)

From Stdlib Require Import ZArith Lia Ascii.
From stdpp Require Import base gmap list strings.
From S2P Require Import Prelude GoStrings.

#[local] Open Scope Z_scope.

(** ** model.go *)

Record Node := mkNode {
  Node_ID : string;
  Node_Name : string;
  Node_Address : string;
  Node_Datacenter : string;
  Node_Meta : gmap string string;
  Node_TaggedAddresses : gmap string string
}.

#[export] Instance Node_eq_dec : EqDecision Node.
Proof. solve_decision. Defined.

(** The zero value [model.Node{}]. *)
Definition zeroNode : Node := mkNode "" "" "" "" ∅ ∅.

Definition DisplayName (n : Node) : string :=
  if bool_decide (Node_Name n ≠ "") then Node_Name n else Node_ID n.

(** Both weights are [uint32]. *)
Record Weights := mkWeights { Passing : Z; Warning : Z }.

#[export] Instance Weights_eq_dec : EqDecision Weights.
Proof. solve_decision. Defined.

Definition DefaultWeights : Weights := mkWeights 1 1.

Definition IsZero (w : Weights) : bool := (Passing w =? 0) && (Warning w =? 0).

Definition OrDefault (w : Weights) : Weights :=
  if IsZero w then DefaultWeights else w.

(** [Svc_Port] is a [uint16], [Svc_TTL] a Duration, [Svc_LastSeen] an instant
    and [Svc_Generation] a [uint64]. *)
Record ServiceInstance := mkService {
  Svc_ID : string;
  Svc_Name : string;
  Svc_Address : string;
  Svc_Port : Z;
  Svc_Tags : list string;
  Svc_Meta : gmap string string;
  Svc_Weights : Weights;
  Svc_TTL : Z;
  Svc_LastSeen : Z;
  Svc_Generation : Z
}.

#[export] Instance ServiceInstance_eq_dec : EqDecision ServiceInstance.
Proof. solve_decision. Defined.

(** The zero value [model.ServiceInstance{}]. *)
Definition zeroService : ServiceInstance :=
  mkService "" "" "" 0 [] ∅ (mkWeights 0 0) 0 zeroTime 0.

(** Assignments to one field. *)
Definition with_ID (id : string) (s : ServiceInstance) : ServiceInstance :=
  mkService id (Svc_Name s) (Svc_Address s) (Svc_Port s) (Svc_Tags s) (Svc_Meta s)
    (Svc_Weights s) (Svc_TTL s) (Svc_LastSeen s) (Svc_Generation s).

Definition with_TTL (ttl : Z) (s : ServiceInstance) : ServiceInstance :=
  mkService (Svc_ID s) (Svc_Name s) (Svc_Address s) (Svc_Port s) (Svc_Tags s) (Svc_Meta s)
    (Svc_Weights s) ttl (Svc_LastSeen s) (Svc_Generation s).

Definition with_LastSeen (t : Z) (s : ServiceInstance) : ServiceInstance :=
  mkService (Svc_ID s) (Svc_Name s) (Svc_Address s) (Svc_Port s) (Svc_Tags s) (Svc_Meta s)
    (Svc_Weights s) (Svc_TTL s) t (Svc_Generation s).

Definition with_Generation (g : Z) (s : ServiceInstance) : ServiceInstance :=
  mkService (Svc_ID s) (Svc_Name s) (Svc_Address s) (Svc_Port s) (Svc_Tags s) (Svc_Meta s)
    (Svc_Weights s) (Svc_TTL s) (Svc_LastSeen s) g.

Definition WinsLWW (s other : ServiceInstance) : bool :=
  if bool_decide (Svc_Generation s ≠ Svc_Generation other)
  then Svc_Generation other <? Svc_Generation s
  else Time_After (Svc_LastSeen s) (Svc_LastSeen other).

Record Registration := mkRegistration {
  Reg_Node : Node;
  Reg_Services : list ServiceInstance;
  Reg_Generation : Z
}.

(** [model.HealthState] (health.go). *)
Inductive HealthState :=
  | HealthUnspecified
  | HealthPassing
  | HealthWarning
  | HealthCritical.

#[export] Instance HealthState_eq_dec : EqDecision HealthState.
Proof. solve_decision. Defined.

Definition HealthState_String (h : HealthState) : string :=
  match h with
  | HealthPassing => "passing"
  | HealthWarning => "warning"
  | HealthCritical => "critical"
  | HealthUnspecified => "unspecified"
  end.

Record ServiceEntry := mkEntry {
  Entry_Node : Node;
  Entry_Service : ServiceInstance;
  Entry_Health : HealthState;
  Entry_Maintenance : bool;
  Entry_CreateIndex : Z;
  Entry_ModifyIndex : Z
}.

#[export] Instance ServiceEntry_eq_dec : EqDecision ServiceEntry.
Proof. solve_decision. Defined.

(** The zero value [model.ServiceEntry{}]. *)
Definition zeroEntry : ServiceEntry :=
  mkEntry zeroNode zeroService HealthUnspecified false 0 0.

Definition ReachableAddress (e : ServiceEntry) : string :=
  if bool_decide (Svc_Address (Entry_Service e) ≠ "")
  then Svc_Address (Entry_Service e) else Node_Address (Entry_Node e).

Record LookupResult := mkLookup {
  Lookup_Entries : list ServiceEntry;
  Lookup_Index : Z
}.

#[export] Instance LookupResult_eq_dec : EqDecision LookupResult.
Proof. solve_decision. Defined.

Inductive Consistency :=
  | ConsistencyDefault
  | ConsistencyStale
  | ConsistencyConsistent.

#[export] Instance Consistency_eq_dec : EqDecision Consistency.
Proof. solve_decision. Defined.

Record Query := mkQuery {
  Query_Name : string;
  Query_Datacenter : string;
  Query_Tags : list string;
  Query_OnlyHealthy : bool
}.

#[export] Instance Query_eq_dec : EqDecision Query.
Proof. solve_decision. Defined.

(** The zero value [model.Query{}]: every service of every datacenter. *)
Definition zeroQuery : Query := mkQuery "" "" [] false.

Inductive ChangeType :=
  | ChangeUnspecified
  | ChangePut
  | ChangeDelete.

#[export] Instance ChangeType_eq_dec : EqDecision ChangeType.
Proof. solve_decision. Defined.

Definition ChangeType_String (c : ChangeType) : string :=
  match c with
  | ChangePut => "put"
  | ChangeDelete => "delete"
  | ChangeUnspecified => "unspecified"
  end.

Record ChangeEvent := mkEvent {
  Event_Type : ChangeType;
  Event_Entry : ServiceEntry;
  Event_Index : Z
}.

#[export] Instance ChangeEvent_eq_dec : EqDecision ChangeEvent.
Proof. solve_decision. Defined.

Record Principal := mkPrincipal {
  Principal_ID : string;
  Principal_Anonymous : bool;
  Principal_Attributes : gmap string string
}.

(** ** tags.go *)

(** The loop of [TagsMap], on the map built so far. *)
Fixpoint TagsMap_loop (tags : list string) (m : gmap string string) : gmap string string :=
  match tags with
  | [] => m
  | t :: rest =>
      let '(key, value, _) := Cut t "=" in
      match m !! key with
      | Some _ => TagsMap_loop rest m
      | None => TagsMap_loop rest (<[key := value]> m)
      end
  end.

Definition TagsMap (s : ServiceInstance) : gmap string string := TagsMap_loop (Svc_Tags s) ∅.

Fixpoint has_tag (tags : list string) (tag : string) : bool :=
  match tags with
  | [] => false
  | t :: rest => if bool_decide (t = tag) then true else has_tag rest tag
  end.

Definition HasTag (s : ServiceInstance) (tag : string) : bool := has_tag (Svc_Tags s) tag.

Fixpoint MatchesTags (s : ServiceInstance) (wanted : list string) : bool :=
  match wanted with
  | [] => true
  | w :: rest => if negb (HasTag s w) then false else MatchesTags s rest
  end.

(** ** Identity and the last-writer-wins key *)

(** Identity of an instance across seeds: (Node.ID, Service.ID). *)
Definition entry_key (e : ServiceEntry) : string * string :=
  (Node_ID (Entry_Node e), Svc_ID (Entry_Service e)).

Definition lww_key (s : ServiceInstance) : Z * Z := (Svc_Generation s, Svc_LastSeen s).

(** The lexicographic order [WinsLWW] decides. *)
Definition lww_lt (a b : Z * Z) : Prop := a.1 < b.1 ∨ (a.1 = b.1 ∧ a.2 < b.2).

#[export] Instance lww_lt_strict : StrictOrder lww_lt.
Proof.
  split.
  - intros [g t]; unfold complement, lww_lt; simpl; lia.
  - intros [??] [??] [??]; unfold lww_lt; simpl; lia.
Qed.

Lemma WinsLWW_lt s o : WinsLWW s o = true ↔ lww_lt (lww_key o) (lww_key s).
Proof.
  unfold WinsLWW, lww_lt, lww_key, Time_After. simpl.
  case_bool_decide; rewrite Z.ltb_lt; lia.
Qed.

Lemma WinsLWW_false s o : WinsLWW s o = false ↔ ¬ lww_lt (lww_key o) (lww_key s).
Proof. rewrite <-WinsLWW_lt. by destruct (WinsLWW s o). Qed.

Lemma WinsLWW_irrefl s : WinsLWW s s = false.
Proof. apply WinsLWW_false. apply irreflexivity. apply _. Qed.

Lemma WinsLWW_trans a b c : WinsLWW a b = true → WinsLWW b c = true → WinsLWW a c = true.
Proof. rewrite !WinsLWW_lt. intros ??. by trans (lww_key b). Qed.

(** Neither wins exactly when the keys agree. *)
Lemma WinsLWW_tie a b :
  WinsLWW a b = false → WinsLWW b a = false → lww_key a = lww_key b.
Proof.
  rewrite !WinsLWW_false. unfold lww_lt, lww_key; simpl. intros. f_equal; lia.
Qed.

(** Losing is transitive through any intermediate instance. *)
Lemma WinsLWW_false_trans a b c :
  WinsLWW a b = false → WinsLWW b c = false → WinsLWW a c = false.
Proof. rewrite !WinsLWW_false. unfold lww_lt, lww_key; simpl. lia. Qed.

Lemma WinsLWW_asym a b : WinsLWW a b = true → WinsLWW b a = false.
Proof. rewrite WinsLWW_lt, WinsLWW_false. unfold lww_lt. lia. Qed.

#[export] Hint Resolve WinsLWW_irrefl WinsLWW_asym : yp.

(** ** Tags *)

Lemma has_tag_spec tags t : has_tag tags t = true ↔ t ∈ tags.
Proof.
  induction tags as [|x l IH]; simpl; [set_solver|].
  case_bool_decide; rewrite elem_of_cons; naive_solver.
Qed.

Lemma MatchesTags_spec s wanted :
  MatchesTags s wanted = true ↔ ∀ w, w ∈ wanted → w ∈ Svc_Tags s.
Proof.
  induction wanted as [|w l IH]; simpl; [set_solver|].
  unfold HasTag. pose proof (has_tag_spec (Svc_Tags s) w) as Hw.
  destruct (has_tag (Svc_Tags s) w); simpl; [rewrite IH|]; set_solver.
Qed.

Lemma TagsMap_loop_app a b m : TagsMap_loop (a ++ b) m = TagsMap_loop b (TagsMap_loop a m).
Proof.
  revert m. induction a as [|t a IH]; intros m; simpl; [done|].
  destruct (Cut t "=") as [[k v] f]. destruct (m !! k); apply IH.
Qed.

Lemma TagsMap_loop_keep tags m k v :
  m !! k = Some v → TagsMap_loop tags m !! k = Some v.
Proof.
  revert m. induction tags as [|t l IH]; intros m Hm; simpl; [done|].
  destruct (Cut t "=") as [[k' v'] f]. destruct (m !! k') eqn:E; apply IH; [done|].
  rewrite lookup_insert_ne; [done|congruence].
Qed.

Lemma TagsMap_loop_lookup tags m k :
  m !! k = None →
  TagsMap_loop tags m !! k = snd <$> list_find (λ kv, kv.1 = k) ((λ t, fst (Cut t "=")) <$> tags)
    ≫= λ p, Some p.2.
Proof.
  revert m. induction tags as [|t l IH]; intros m Hm; simpl; [done|].
  destruct (Cut t "=") as [[k' v'] f] eqn:E; simpl. case_decide as Hk.
  - subst. rewrite Hm. rewrite (TagsMap_loop_keep _ _ _ v'); [done|].
    by rewrite lookup_insert_eq.
  - destruct (m !! k') eqn:E'.
    + rewrite IH by done. by destruct (list_find _ _) as [[]|].
    + rewrite IH by (by rewrite lookup_insert_ne). by destruct (list_find _ _) as [[]|].
Qed.
