(* ===== verification/Store.v ===== *)
(** The seed's in-memory registry, [src/internal/store/store.go]: the state of a
    [Memory], every operation of the [Store] contract, and the state machine
    they form.

    Each operation is the code's critical section (it runs under the store
    mutex), written as a function from the clock readings, the arguments and the
    state to the result, the new state and the change events it hands to
    [OnChange] after the mutex is released.  [clk 0] is the reading at entry and
    [clk (S k)] the one [putEvent] makes for the event that follows [k] others.
    Loops over maps use the enumeration of [MapRange]; the code only deletes the
    entry it is visiting, so the loop sees the entries present at its start. *)

From Stdlib Require Import ZArith Lia.
From stdpp Require Import base gmap list strings.
From S2P Require Import Prelude GoStrings Model Health.

#[local] Open Scope Z_scope.

(** ** Data *)

Inductive StoreError := ErrNotFound | ErrInvalid | ErrCapacity.

#[export] Instance StoreError_eq_dec : EqDecision StoreError.
Proof. solve_decision. Defined.

(** [MaxServices] is an [int], the TTLs are Durations, [StartIndex] a [uint64]. *)
Record Options := mkOptions {
  DefaultTTL : Z;
  MinTTL : Z;
  MaxTTL : Z;
  GracePeriod : Z;
  StartIndex : Z;
  MaxServices : Z
}.

Definition defaultTTL : Z := 30 * second.

Record service := mkSvc {
  def : ServiceInstance;
  maintenance : bool;
  failed : bool;
  lastState : HealthState;
  createIndex : Z;
  modifyIndex : Z
}.

Record node := mkStoreNode {
  meta : Node;
  services : gmap string service
}.

(** [svcRef]: a (node, service) pair of the name index. *)
Definition svcRef : Type := string * string.

Record Memory := mkMemory {
  opts : Options;
  nodes : gmap string node;
  byName : gmap string (gset (string * string));
  index : Z
}.

(** Assignments to one field. *)
Definition with_def (d : ServiceInstance) (s : service) : service :=
  mkSvc d (maintenance s) (failed s) (lastState s) (createIndex s) (modifyIndex s).

Definition with_maintenance (b : bool) (s : service) : service :=
  mkSvc (def s) b (failed s) (lastState s) (createIndex s) (modifyIndex s).

Definition with_failed (b : bool) (s : service) : service :=
  mkSvc (def s) (maintenance s) b (lastState s) (createIndex s) (modifyIndex s).

Definition with_lastState (h : HealthState) (s : service) : service :=
  mkSvc (def s) (maintenance s) (failed s) h (createIndex s) (modifyIndex s).

Definition with_modifyIndex (i : Z) (s : service) : service :=
  mkSvc (def s) (maintenance s) (failed s) (lastState s) (createIndex s) i.

Definition with_nodes (ns : gmap string node) (m : Memory) : Memory :=
  mkMemory (opts m) ns (byName m) (index m).

Definition with_byName (b : gmap string (gset (string * string))) (m : Memory) : Memory :=
  mkMemory (opts m) (nodes m) b (index m).

(** [n.services[id]] of the node [nodeID]. *)
Definition lookup_service (m : Memory) (nodeID id : string) : option service :=
  n ← nodes m !! nodeID; services n !! id.

(** [n.services[id] = svc] through the pointer [n = m.nodes[nodeID]]. *)
Definition put_service (nodeID id : string) (svc : service) (m : Memory) : Memory :=
  with_nodes (alter (λ n, mkStoreNode (meta n) (<[id := svc]> (services n))) nodeID (nodes m)) m.

(** [delete(n.services, id)]. *)
Definition del_service (nodeID id : string) (m : Memory) : Memory :=
  with_nodes (alter (λ n, mkStoreNode (meta n) (delete id (services n))) nodeID (nodes m)) m.

(** [m.nodes[meta.ID]] is created with no services, or its [meta] replaced. *)
Definition ensure_node (mt : Node) (m : Memory) : Memory :=
  match nodes m !! Node_ID mt with
  | None => with_nodes (<[Node_ID mt := mkStoreNode mt ∅]> (nodes m)) m
  | Some n => with_nodes (<[Node_ID mt := mkStoreNode mt (services n)]> (nodes m)) m
  end.

(** ** Construction and the small helpers *)

Definition NewMemory (o : Options) : Memory :=
  let o' := if DefaultTTL o <=? 0
            then mkOptions defaultTTL (MinTTL o) (MaxTTL o) (GracePeriod o)
                   (StartIndex o) (MaxServices o)
            else o in
  mkMemory o' ∅ ∅ (StartIndex o).

Definition Index (m : Memory) : Z := index m.

Definition sizeLocked `{MapRange} (m : Memory) : Z :=
  foldl (λ n p, n + Z.of_nat (size (services p.2))) 0 (range (nodes m)).

Definition Size `{MapRange} (m : Memory) : Z := sizeLocked m.

Definition next (m : Memory) : Z * Memory :=
  let i := u64 (index m + 1) in (i, mkMemory (opts m) (nodes m) (byName m) i).

Definition clampTTL (m : Memory) (d : Z) : Z :=
  let d := if d <=? 0 then DefaultTTL (opts m) else d in
  let d := if (0 <? MinTTL (opts m)) && (d <? MinTTL (opts m)) then MinTTL (opts m) else d in
  if (0 <? MaxTTL (opts m)) && (MaxTTL (opts m) <? d) then MaxTTL (opts m) else d.

Definition lease (m : Memory) (svc : service) (now : Z) : HealthState * bool :=
  if failed svc then (HealthCritical, false)
  else
    let age := Time_Sub now (Svc_LastSeen (def svc)) in
    if age <=? Svc_TTL (def svc) then (HealthPassing, false)
    else if age <=? i64 (Svc_TTL (def svc) + GracePeriod (opts m)) then (HealthCritical, false)
    else (HealthCritical, true).

Definition entry (mt : Node) (svc : service) (state : HealthState) : ServiceEntry :=
  mkEntry mt (def svc) state (maintenance svc) (createIndex svc) (modifyIndex svc).

Definition putEvent (m : Memory) (mt : Node) (svc : service) (now : Z) : ChangeEvent :=
  mkEvent ChangePut (entry mt svc (lease m svc now).1) (modifyIndex svc).

Definition deleteEvent (mt : Node) (svc : service) : ChangeEvent :=
  mkEvent ChangeDelete (entry mt svc HealthCritical) (modifyIndex svc).

(** [m.byName[name]], the nil map when absent. *)
Definition refs (m : Memory) (name : string) : gset (string * string) :=
  default ∅ (byName m !! name).

Definition indexName (nodeID : string) (d : ServiceInstance) (m : Memory) : Memory :=
  with_byName (<[Svc_Name d := {[ (nodeID, Svc_ID d) ]} ∪ refs m (Svc_Name d)]> (byName m)) m.

Definition unindexName (nodeID name serviceID : string) (m : Memory) : Memory :=
  match byName m !! name with
  | None => m
  | Some set =>
      let set' := set ∖ {[ (nodeID, serviceID) ]} in
      if bool_decide (set' = ∅) then with_byName (delete name (byName m)) m
      else with_byName (<[name := set']> (byName m)) m
  end.

Definition equalStrings (a b : list string) : bool :=
  if negb (length a =? length b)%nat then false
  else forallb (λ p, bool_decide (p.1 = p.2)) (zip a b).

(** A missing key reads as the empty string, as in Go.  The order of the
    conjunction does not matter. *)
Definition equalMap (a b : gmap string string) : bool :=
  if negb (size a =? size b)%nat then false
  else forallb (λ kv, bool_decide (default ""%string (b !! kv.1) = kv.2)) (map_to_list a).

Definition changed (a b : ServiceInstance) : bool :=
  if bool_decide (Svc_Name a ≠ Svc_Name b) || bool_decide (Svc_Address a ≠ Svc_Address b) ||
     bool_decide (Svc_Port a ≠ Svc_Port b) || bool_decide (Svc_TTL a ≠ Svc_TTL b) ||
     bool_decide (Svc_Generation a ≠ Svc_Generation b) ||
     bool_decide (Svc_Weights a ≠ Svc_Weights b)
  then true
  else negb (equalStrings (Svc_Tags a) (Svc_Tags b)) || negb (equalMap (Svc_Meta a) (Svc_Meta b)).

(** [m.opts.MaxServices > 0 && size >= m.opts.MaxServices]. *)
Definition at_capacity (m : Memory) (size : Z) : bool :=
  (0 <? MaxServices (opts m)) && (MaxServices (opts m) <=? size).

(** ** Register *)

(** The definition that is stored for an incoming service. *)
Definition incoming (m : Memory) (gen now : Z) (i : ServiceInstance) : ServiceInstance :=
  let d := if bool_decide (Svc_ID i = ""%string) then with_ID (Svc_Name i) i else i in
  with_Generation gen (with_LastSeen now (with_TTL (clampTTL m (Svc_TTL d)) d)).

(** A service is created: [next], the record, the name index. *)
Definition create_service (nodeID : string) (d : ServiceInstance) (m : Memory) : service * Memory :=
  let '(idx, m) := next m in
  let svc := mkSvc d false false HealthPassing idx idx in
  (svc, indexName nodeID d (put_service nodeID (Svc_ID d) svc m)).

(** A service is overwritten by [svc] under a new index, and re-indexed when its
    name changed. *)
Definition overwrite_service (nodeID : string) (oldName : string) (svc : service) (m : Memory)
  : service * Memory :=
  let '(idx, m) := next m in
  let svc := with_modifyIndex idx svc in
  let d := def svc in
  let m := put_service nodeID (Svc_ID d) svc m in
  (svc, if bool_decide (oldName ≠ Svc_Name d)
        then indexName nodeID d (unindexName nodeID oldName (Svc_ID d) m) else m).

Fixpoint register_loop (clk : Clock) (mt : Node) (gen now : Z) (ins : list ServiceInstance)
    (m : Memory) (size : Z) (events : list ChangeEvent)
  : option StoreError * Memory * list ChangeEvent :=
  match ins with
  | [] => (None, m, events)
  | i :: rest =>
      let nodeID := Node_ID mt in
      let d := incoming m gen now i in
      match lookup_service m nodeID (Svc_ID d) with
      | None =>
          if at_capacity m size then (Some ErrCapacity, m, events)
          else
            let '(svc, m) := create_service nodeID d m in
            register_loop clk mt gen now rest m (size + 1)
              (events ++ [putEvent m mt svc (clk (S (length events)))])
      | Some svc =>
          if changed (def svc) d then
            let oldName := Svc_Name (def svc) in
            let '(svc, m) :=
              overwrite_service nodeID oldName (with_lastState HealthPassing (with_def d svc)) m in
            register_loop clk mt gen now rest m size
              (events ++ [putEvent m mt svc (clk (S (length events)))])
          else
            register_loop clk mt gen now rest
              (put_service nodeID (Svc_ID d) (with_def (with_LastSeen now (def svc)) svc) m)
              size events
      end
  end.

Definition Register `{MapRange} (clk : Clock) (reg : Registration) (m : Memory)
  : option StoreError * Memory * list ChangeEvent :=
  if bool_decide (Node_ID (Reg_Node reg) = ""%string) then (Some ErrInvalid, m, [])
  else if existsb (λ i, bool_decide (Svc_Name i = ""%string)) (Reg_Services reg)
  then (Some ErrInvalid, m, [])
  else
    let now := clk O in
    let size := sizeLocked m in
    register_loop clk (Reg_Node reg) (Reg_Generation reg) now (Reg_Services reg)
      (ensure_node (Reg_Node reg) m) size [].

(** ** Merge *)

Fixpoint merge_loop (clk : Clock) (entries : list ServiceEntry)
    (m : Memory) (size : Z) (applied : Z) (events : list ChangeEvent)
  : Z * Memory * list ChangeEvent :=
  match entries with
  | [] => (applied, m, events)
  | e :: rest =>
      let mt := Entry_Node e in
      let nodeID := Node_ID mt in
      if bool_decide (nodeID = ""%string) || bool_decide (Svc_ID (Entry_Service e) = ""%string)
      then merge_loop clk rest m size applied events
      else
        let m := ensure_node mt m in
        let d := with_TTL (clampTTL m (Svc_TTL (Entry_Service e))) (Entry_Service e) in
        match lookup_service m nodeID (Svc_ID d) with
        | None =>
            if at_capacity m size then merge_loop clk rest m size applied events
            else
              let '(svc, m) := create_service nodeID d m in
              merge_loop clk rest m (size + 1) (applied + 1)
                (events ++ [putEvent m mt svc (clk (length events))])
        | Some svc =>
            if WinsLWW d (def svc) then
              let oldName := Svc_Name (def svc) in
              let '(svc, m) := overwrite_service nodeID oldName (with_def d svc) m in
              merge_loop clk rest m size (applied + 1)
                (events ++ [putEvent m mt svc (clk (length events))])
            else merge_loop clk rest m size applied events
        end
  end.

Definition Merge `{MapRange} (clk : Clock) (entries : list ServiceEntry) (m : Memory)
  : Z * Memory * list ChangeEvent :=
  merge_loop clk entries m (sizeLocked m) 0 [].

(** ** Renew and Fail *)

(** The lease refresh of one service: a renew also clears a failed check. *)
Definition renewed (now : Z) (svc : service) : service :=
  with_failed false (with_def (with_LastSeen now (def svc)) svc).

Fixpoint renew_loop (now : Z) (nodeID : string) (ids : list string) (m : Memory)
  : option StoreError * Memory :=
  match ids with
  | [] => (None, m)
  | id :: rest =>
      match lookup_service m nodeID id with
      | None => (Some ErrNotFound, m)
      | Some svc => renew_loop now nodeID rest (put_service nodeID id (renewed now svc) m)
      end
  end.

(** The loop over all the services of the node updates each of them once. *)
Definition Renew (clk : Clock) (nodeID : string) (serviceIDs : list string) (m : Memory)
  : option StoreError * Memory :=
  match nodes m !! nodeID with
  | None => (Some ErrNotFound, m)
  | Some n =>
      let now := clk O in
      match serviceIDs with
      | [] => (None, with_nodes
                (<[nodeID := mkStoreNode (meta n) (renewed now <$> services n)]> (nodes m)) m)
      | _ => renew_loop now nodeID serviceIDs m
      end
  end.

Definition Fail (clk : Clock) (nodeID serviceID : string) (m : Memory)
  : option StoreError * Memory * list ChangeEvent :=
  match nodes m !! nodeID with
  | None => (Some ErrNotFound, m, [])
  | Some n =>
      match services n !! serviceID with
      | None => (Some ErrNotFound, m, [])
      | Some svc =>
          if failed svc then (None, m, [])
          else
            let '(idx, m) := next m in
            let svc := with_modifyIndex idx (with_failed true svc) in
            let m := put_service nodeID serviceID svc m in
            (None, m, [putEvent m (meta n) svc (clk O)])
      end
  end.

(** ** Deregister, DeregisterService, SetMaintenance *)

Fixpoint deregister_loop (nodeID : string) (mt : Node) (svcs : list (string * service))
    (m : Memory) (events : list ChangeEvent) : Memory * list ChangeEvent :=
  match svcs with
  | [] => (m, events)
  | (id, svc) :: rest =>
      let '(idx, m) := next m in
      let svc := with_modifyIndex idx svc in
      deregister_loop nodeID mt rest (unindexName nodeID (Svc_Name (def svc)) id m)
        (events ++ [deleteEvent mt svc])
  end.

Definition Deregister `{MapRange} (nodeID : string) (m : Memory)
  : option StoreError * Memory * list ChangeEvent :=
  match nodes m !! nodeID with
  | None => (Some ErrNotFound, m, [])
  | Some n =>
      let '(m, events) := deregister_loop nodeID (meta n) (range (services n)) m [] in
      (None, with_nodes (delete nodeID (nodes m)) m, events)
  end.

(** [if len(n.services) == 0 { delete(m.nodes, nodeID) }]. *)
Definition drop_empty (nodeID : string) (m : Memory) : Memory :=
  match nodes m !! nodeID with
  | Some n => if bool_decide (services n = ∅) then with_nodes (delete nodeID (nodes m)) m else m
  | None => m
  end.

(** A service is removed: index, record, name index. *)
Definition remove_service (nodeID id : string) (svc : service) (m : Memory) : service * Memory :=
  let '(idx, m) := next m in
  let svc := with_modifyIndex idx svc in
  (svc, unindexName nodeID (Svc_Name (def svc)) id (del_service nodeID id m)).

Definition DeregisterService (nodeID serviceID : string) (m : Memory)
  : option StoreError * Memory * list ChangeEvent :=
  match nodes m !! nodeID with
  | None => (Some ErrNotFound, m, [])
  | Some n =>
      match services n !! serviceID with
      | None => (Some ErrNotFound, m, [])
      | Some svc =>
          let '(svc, m) := remove_service nodeID serviceID svc m in
          (None, drop_empty nodeID m, [deleteEvent (meta n) svc])
      end
  end.

Definition SetMaintenance (clk : Clock) (nodeID serviceID : string) (enabled : bool) (m : Memory)
  : option StoreError * Memory * list ChangeEvent :=
  match nodes m !! nodeID with
  | None => (Some ErrNotFound, m, [])
  | Some n =>
      match services n !! serviceID with
      | None => (Some ErrNotFound, m, [])
      | Some svc =>
          if bool_decide (maintenance svc = enabled) then (None, m, [])
          else
            let '(idx, m) := next m in
            let svc := with_modifyIndex idx (with_maintenance enabled svc) in
            let m := put_service nodeID serviceID svc m in
            (None, m, [putEvent m (meta n) svc (clk O)])
      end
  end.

(** ** Lookup *)

Definition visit (m : Memory) (q : Query) (now : Z) (n : node) (svc : service)
  : list ServiceEntry :=
  if bool_decide (Query_Datacenter q ≠ ""%string) &&
     bool_decide (Node_Datacenter (meta n) ≠ Query_Datacenter q) then []
  else if negb (MatchesTags (def svc) (Query_Tags q)) then []
  else let '(state, expired) := lease m svc now in
       if expired then [] else [entry (meta n) svc state].

(** The list path: every service of every node. *)
Definition visit_all `{MapRange} (m : Memory) (q : Query) (now : Z) : list ServiceEntry :=
  range (nodes m) ≫= λ p, range (services p.2) ≫= λ s, visit m q now p.2 s.2.

(** The named path: the references of the name index. *)
Definition visit_named `{MapRange} (m : Memory) (q : Query) (now : Z) : list ServiceEntry :=
  (range (gset_to_gmap () (refs m (Query_Name q)))).*1 ≫= λ ref,
    match nodes m !! ref.1 with
    | Some n => match services n !! ref.2 with
                | Some svc => visit m q now n svc
                | None => []
                end
    | None => []
    end.

Definition Lookup `{MapRange} (clk : Clock) (q : Query) (m : Memory) : LookupResult :=
  let now := clk O in
  let out := if bool_decide (Query_Name q = ""%string) then visit_all m q now
             else visit_named m q now in
  mkLookup (sort_entries out) (index m).

(** ** GC *)

Fixpoint gc_services (clk : Clock) (now : Z) (nodeID : string) (mt : Node)
    (svcs : list (string * service)) (m : Memory) (events : list ChangeEvent) (removed : Z)
  : Memory * list ChangeEvent * Z :=
  match svcs with
  | [] => (m, events, removed)
  | (id, svc) :: rest =>
      let '(state, expired) := lease m svc now in
      if expired then
        let '(svc, m) := remove_service nodeID id svc m in
        gc_services clk now nodeID mt rest m (events ++ [deleteEvent mt svc]) (removed + 1)
      else if bool_decide (state ≠ lastState svc) then
        let '(idx, m) := next m in
        let svc := with_modifyIndex idx (with_lastState state svc) in
        let m := put_service nodeID id svc m in
        gc_services clk now nodeID mt rest m
          (events ++ [putEvent m mt svc (clk (S (length events)))]) removed
      else gc_services clk now nodeID mt rest m events removed
  end.

Fixpoint gc_nodes `{MapRange} (clk : Clock) (now : Z) (ns : list (string * node))
    (m : Memory) (events : list ChangeEvent) (removed : Z) : Memory * list ChangeEvent * Z :=
  match ns with
  | [] => (m, events, removed)
  | (nodeID, n) :: rest =>
      let '(m, events, removed) :=
        gc_services clk now nodeID (meta n) (range (services n)) m events removed in
      gc_nodes clk now rest (drop_empty nodeID m) events removed
  end.

Definition GC `{MapRange} (clk : Clock) (m : Memory) : Z * Memory * list ChangeEvent :=
  let '(m, events, removed) := gc_nodes clk (clk O) (range (nodes m)) m [] 0 in
  (removed, m, events).

(** ** The state machine

    The operations that change the state, as the seed's surfaces call them. *)

Inductive Op :=
  | OpRegister (reg : Registration)
  | OpRenew (nodeID : string) (serviceIDs : list string)
  | OpDeregister (nodeID : string)
  | OpDeregisterService (nodeID serviceID : string)
  | OpSetMaintenance (nodeID serviceID : string) (enabled : bool)
  | OpFail (nodeID serviceID : string)
  | OpGC
  | OpMerge (entries : list ServiceEntry).

Definition apply `{MapRange} (clk : Clock) (op : Op) (m : Memory) : Memory * list ChangeEvent :=
  match op with
  | OpRegister reg => let '(_, m, evs) := Register clk reg m in (m, evs)
  | OpRenew nodeID ids => ((Renew clk nodeID ids m).2, [])
  | OpDeregister nodeID => let '(_, m, evs) := Deregister nodeID m in (m, evs)
  | OpDeregisterService nodeID id =>
      let '(_, m, evs) := DeregisterService nodeID id m in (m, evs)
  | OpSetMaintenance nodeID id b =>
      let '(_, m, evs) := SetMaintenance clk nodeID id b m in (m, evs)
  | OpFail nodeID id => let '(_, m, evs) := Fail clk nodeID id m in (m, evs)
  | OpGC => let '(_, m, evs) := GC clk m in (m, evs)
  | OpMerge entries => let '(_, m, evs) := Merge clk entries m in (m, evs)
  end.

(** One critical section, under any iteration order and any clock readings. *)
Inductive step (m : Memory) (op : Op) : Memory → list ChangeEvent → Prop :=
  | step_apply (o : MapRange) (clk : Clock) :
      step m op (@apply o clk op m).1 (@apply o clk op m).2.

(** The states a store built by [NewMemory] reaches, with all the events emitted. *)
Inductive reachable (o : Options) : Memory → list ChangeEvent → Prop :=
  | reach_new : reachable o (NewMemory o) []
  | reach_step m evs op m' evs' :
      reachable o m evs → step m op m' evs' → reachable o m' (evs ++ evs').
