(* ===== verification/StoreSteps.v ===== *)
(** The micro-steps of the store: every operation of [Store.v] is a sequence of
    the elementary updates of [prim] (create, overwrite, refresh, flag, remove a
    service; create, update, drop a node; deregister a node), each with the
    events it emits.  [apply_prims] is the decomposition; the invariants of
    [StoreInv.v] are proved once per micro-step and lifted by rule induction. *)

From Stdlib Require Import ZArith Lia.
From stdpp Require Import base gmap list strings.
From S2P Require Import Prelude GoStrings Model Health Store.

#[local] Open Scope Z_scope.

#[local] Arguments create_service : simpl never.
#[local] Arguments overwrite_service : simpl never.
#[local] Arguments remove_service : simpl never.

(** ** How the helpers read and write the state *)

Section Lookups.
Implicit Types (m : Memory) (nid id : string) (svc : service).

Lemma lookup_service_node m nid id n :
  nodes m !! nid = Some n → lookup_service m nid id = services n !! id.
Proof. unfold lookup_service. by intros ->. Qed.

Lemma lookup_service_is_Some m nid id svc :
  lookup_service m nid id = Some svc → ∃ n, nodes m !! nid = Some n ∧ services n !! id = Some svc.
Proof. unfold lookup_service. destruct (nodes m !! nid); simpl; [eauto|done]. Qed.

Lemma lookup_put_service m nid id svc nid' id' :
  is_Some (nodes m !! nid) →
  lookup_service (put_service nid id svc m) nid' id' =
    if decide ((nid, id) = (nid', id')) then Some svc else lookup_service m nid' id'.
Proof.
  intros [n Hn]. unfold lookup_service, put_service; simpl. rewrite lookup_alter.
  destruct (decide (nid = nid')) as [<-|Hne].
  - rewrite Hn; simpl. rewrite lookup_insert. case_decide; case_decide; naive_solver.
  - case_decide; naive_solver.
Qed.

Lemma lookup_del_service m nid id nid' id' :
  lookup_service (del_service nid id m) nid' id' =
    if decide ((nid, id) = (nid', id')) then None else lookup_service m nid' id'.
Proof.
  unfold lookup_service, del_service; simpl. rewrite lookup_alter.
  destruct (decide (nid = nid')) as [<-|Hne].
  - destruct (nodes m !! nid) as [n|]; simpl; [|by case_decide].
    rewrite lookup_delete. case_decide; case_decide; naive_solver.
  - case_decide; naive_solver.
Qed.

Lemma lookup_ensure_node m mt nid id :
  lookup_service (ensure_node mt m) nid id = lookup_service m nid id.
Proof.
  unfold ensure_node, lookup_service. destruct (nodes m !! Node_ID mt) as [n|] eqn:E; simpl;
    rewrite lookup_insert; case_decide; subst; rewrite ?E; simpl; by rewrite ?lookup_empty.
Qed.

Lemma ensure_node_lookup m mt :
  ∃ n, nodes (ensure_node mt m) !! Node_ID mt = Some n ∧ meta n = mt.
Proof.
  unfold ensure_node. destruct (nodes m !! Node_ID mt) as [n|]; simpl;
    rewrite lookup_insert_eq; eauto.
Qed.

Lemma ensure_node_ne m mt nid :
  nid ≠ Node_ID mt → nodes (ensure_node mt m) !! nid = nodes m !! nid.
Proof.
  intros. unfold ensure_node. destruct (nodes m !! Node_ID mt); simpl;
    by rewrite lookup_insert_ne.
Qed.

Lemma put_service_nodes m nid id svc nid' :
  nodes (put_service nid id svc m) !! nid' =
    (λ n, if decide (nid = nid') then mkStoreNode (meta n) (<[id := svc]> (services n)) else n)
      <$> nodes m !! nid'.
Proof.
  unfold put_service; simpl. rewrite lookup_alter.
  destruct (decide (nid = nid')) as [->|]; by destruct (nodes m !! nid').
Qed.

Lemma del_service_nodes m nid id nid' :
  nodes (del_service nid id m) !! nid' =
    (λ n, if decide (nid = nid') then mkStoreNode (meta n) (delete id (services n)) else n)
      <$> nodes m !! nid'.
Proof.
  unfold del_service; simpl. rewrite lookup_alter.
  destruct (decide (nid = nid')) as [->|]; by destruct (nodes m !! nid').
Qed.

Lemma lookup_drop_empty m nid nid' id :
  lookup_service (drop_empty nid m) nid' id = lookup_service m nid' id.
Proof.
  unfold drop_empty. destruct (nodes m !! nid) as [n|] eqn:E; [|done].
  case_bool_decide as Hs; [|done]. unfold lookup_service; simpl.
  rewrite lookup_delete. case_decide; [subst|done]. rewrite E; simpl. by rewrite Hs, lookup_empty.
Qed.

Lemma drop_empty_nodes m nid nid' n :
  nodes (drop_empty nid m) !! nid' = Some n → nodes m !! nid' = Some n.
Proof.
  unfold drop_empty. destruct (nodes m !! nid) as [n'|]; [|done].
  case_bool_decide; [|done]. simpl. rewrite lookup_delete. by case_decide.
Qed.

Lemma drop_empty_ne m nid nid' :
  nid ≠ nid' → nodes (drop_empty nid m) !! nid' = nodes m !! nid'.
Proof.
  intros. unfold drop_empty. destruct (nodes m !! nid); [|done].
  case_bool_decide; [|done]. simpl. by rewrite lookup_delete_ne.
Qed.

(** *** The name index *)

Lemma refs_indexName m nid d name :
  refs (indexName nid d m) name =
    if decide (Svc_Name d = name) then {[ (nid, Svc_ID d) ]} ∪ refs m name else refs m name.
Proof.
  unfold indexName, refs at 1; simpl. rewrite lookup_insert. case_decide; by subst.
Qed.

Lemma refs_unindexName m nid nm id name :
  refs (unindexName nid nm id m) name =
    if decide (nm = name) then refs m name ∖ {[ (nid, id) ]} else refs m name.
Proof.
  unfold unindexName. destruct (byName m !! nm) as [s|] eqn:E.
  - assert (Hs : refs m nm = s) by (unfold refs; by rewrite E).
    case_bool_decide as He; unfold refs at 1; simpl.
    + rewrite lookup_delete. case_decide; [subst|done]. simpl. set_solver.
    + rewrite lookup_insert. case_decide; [by subst|done].
  - case_decide; [|done]. subst. unfold refs. rewrite E; simpl. set_solver.
Qed.

(** No name is mapped to an empty set. *)
Definition no_empty (m : Memory) : Prop := ∀ name s, byName m !! name = Some s → s ≠ ∅.

Lemma no_empty_indexName m nid d : no_empty m → no_empty (indexName nid d m).
Proof.
  intros Hm name s. unfold indexName; simpl. rewrite lookup_insert.
  case_decide; [intros [= <-]; set_solver | apply Hm].
Qed.

Lemma no_empty_unindexName m nid nm id : no_empty m → no_empty (unindexName nid nm id m).
Proof.
  intros Hm name s. unfold unindexName. destruct (byName m !! nm) as [s'|]; [|apply Hm].
  case_bool_decide; simpl.
  - rewrite lookup_delete. case_decide; [done|apply Hm].
  - rewrite lookup_insert. case_decide; [intros [= <-]; done|apply Hm].
Qed.

Lemma nodes_indexName m nid d : nodes (indexName nid d m) = nodes m.
Proof. done. Qed.

Lemma nodes_unindexName m nid nm id : nodes (unindexName nid nm id m) = nodes m.
Proof. unfold unindexName. destruct (byName m !! nm); [|done]. by case_bool_decide. Qed.

Lemma index_unindexName m nid nm id : index (unindexName nid nm id m) = index m.
Proof. unfold unindexName. destruct (byName m !! nm); [|done]. by case_bool_decide. Qed.

Lemma opts_unindexName m nid nm id : opts (unindexName nid nm id m) = opts m.
Proof. unfold unindexName. destruct (byName m !! nm); [|done]. by case_bool_decide. Qed.

Lemma index_ensure_node m mt : index (ensure_node mt m) = index m.
Proof. unfold ensure_node. by destruct (nodes m !! Node_ID mt). Qed.

Lemma opts_ensure_node m mt : opts (ensure_node mt m) = opts m.
Proof. unfold ensure_node. by destruct (nodes m !! Node_ID mt). Qed.

Lemma byName_ensure_node m mt : byName (ensure_node mt m) = byName m.
Proof. unfold ensure_node. by destruct (nodes m !! Node_ID mt). Qed.

Lemma index_drop_empty m nid : index (drop_empty nid m) = index m.
Proof. unfold drop_empty. destruct (nodes m !! nid); [|done]. by case_bool_decide. Qed.

Lemma opts_drop_empty m nid : opts (drop_empty nid m) = opts m.
Proof. unfold drop_empty. destruct (nodes m !! nid); [|done]. by case_bool_decide. Qed.

Lemma byName_drop_empty m nid : byName (drop_empty nid m) = byName m.
Proof. unfold drop_empty. destruct (nodes m !! nid); [|done]. by case_bool_decide. Qed.

End Lookups.

#[export] Hint Rewrite nodes_indexName nodes_unindexName index_unindexName opts_unindexName
  index_ensure_node opts_ensure_node byName_ensure_node
  index_drop_empty opts_drop_empty byName_drop_empty : store.

(** ** The number of instances *)

Definition node_size (p : string * node) : nat := size (services p.2).

Definition total (m : Memory) : Z :=
  Z.of_nat (sum_list_with node_size (map_to_list (nodes m))).

Lemma sum_list_with_perm {A} (f : A → nat) l l' :
  l ≡ₚ l' → sum_list_with f l = sum_list_with f l'.
Proof. induction 1; simpl; lia. Qed.

Lemma sizeLocked_total `{MapRange} m : sizeLocked m = total m.
Proof.
  unfold sizeLocked, total. rewrite <-(sum_list_with_perm _ _ _ (range_perm (nodes m))).
  assert (Hf : ∀ l z, foldl (λ n p, n + Z.of_nat (size (services p.2))) z l =
            z + Z.of_nat (sum_list_with node_size l)).
  { induction l as [|p l IH]; intros z; simpl; [lia|]. rewrite IH. unfold node_size at 2. lia. }
  by rewrite Hf.
Qed.

(** Replacing the record of one node changes the total by its size difference. *)
Lemma total_insert m nid n n' :
  nodes m !! nid = Some n →
  total (with_nodes (<[nid := n']> (nodes m)) m) =
    total m + Z.of_nat (size (services n')) - Z.of_nat (size (services n)).
Proof.
  intros Hn. unfold total; simpl.
  rewrite <-insert_delete_eq.
  rewrite (sum_list_with_perm node_size (map_to_list (<[nid := n']> _))
             ((nid, n') :: map_to_list (delete nid (nodes m))))
    by (apply map_to_list_insert, lookup_delete_eq).
  rewrite <-(insert_delete_id (nodes m) nid n Hn) at 2.
  rewrite (sum_list_with_perm node_size (map_to_list (<[nid := n]> _))
             ((nid, n) :: map_to_list (delete nid (nodes m))))
    by (apply map_to_list_insert, lookup_delete_eq).
  simpl. unfold node_size at 1 3; simpl. lia.
Qed.

Lemma total_insert_new m nid mt :
  nodes m !! nid = None → total (with_nodes (<[nid := mkStoreNode mt ∅]> (nodes m)) m) = total m.
Proof.
  intros Hn. unfold total; simpl.
  rewrite (sum_list_with_perm node_size (map_to_list (<[nid := _]> _))
             ((nid, mkStoreNode mt ∅) :: map_to_list (nodes m))) by (by apply map_to_list_insert).
  simpl. unfold node_size at 1; simpl. rewrite map_size_empty. lia.
Qed.

Lemma total_delete m nid n :
  nodes m !! nid = Some n →
  total (with_nodes (delete nid (nodes m)) m) = total m - Z.of_nat (size (services n)).
Proof.
  intros Hn. unfold total; simpl.
  rewrite <-(insert_delete_id (nodes m) nid n Hn) at 2.
  rewrite (sum_list_with_perm node_size (map_to_list (<[nid := n]> _))
             ((nid, n) :: map_to_list (delete nid (nodes m))))
    by (apply map_to_list_insert, lookup_delete_eq).
  simpl. unfold node_size at 2; simpl. lia.
Qed.

Lemma total_nodes_eq m m' : nodes m = nodes m' → total m = total m'.
Proof. unfold total. by intros ->. Qed.

Lemma alter_lookup_insert {V} (f : V → V) (k : string) (ns : gmap string V) x :
  ns !! k = Some x → alter f k ns = <[k := f x]> ns.
Proof. intros Hx. apply map_eq. intros j. rewrite lookup_alter, lookup_insert, Hx. by case_decide. Qed.

Lemma total_put_service m nid n id svc :
  nodes m !! nid = Some n →
  total (put_service nid id svc m) =
    total m + (if services n !! id is Some _ then 0 else 1).
Proof.
  intros Hn. unfold put_service.
  rewrite (total_nodes_eq _ (with_nodes
    (<[nid := mkStoreNode (meta n) (<[id := svc]> (services n))]> (nodes m)) m)).
  - rewrite (total_insert m nid n) by done. simpl.
    destruct (services n !! id) eqn:E.
    + rewrite map_size_insert_Some by eauto. lia.
    + rewrite map_size_insert_None by done. lia.
  - simpl. by rewrite (alter_lookup_insert _ _ _ n).
Qed.

Lemma total_ensure_node m mt : total (ensure_node mt m) = total m.
Proof.
  unfold ensure_node. destruct (nodes m !! Node_ID mt) as [n|] eqn:E.
  - rewrite (total_insert m _ n) by done. simpl. lia.
  - by apply total_insert_new.
Qed.

Lemma total_del_service m nid n id svc :
  nodes m !! nid = Some n → services n !! id = Some svc →
  total (del_service nid id m) = total m - 1.
Proof.
  intros Hn Hs. unfold del_service.
  rewrite (total_nodes_eq _ (with_nodes
    (<[nid := mkStoreNode (meta n) (delete id (services n))]> (nodes m)) m)).
  - rewrite (total_insert m nid n) by done. simpl.
    rewrite map_size_delete_Some by eauto.
    assert (size (services n) ≠ 0%nat); [|lia].
    rewrite map_size_ne_0_lookup. eauto.
  - simpl. by rewrite (alter_lookup_insert _ _ _ n).
Qed.

Lemma total_drop_empty m nid : total (drop_empty nid m) = total m.
Proof.
  unfold drop_empty. destruct (nodes m !! nid) as [n|] eqn:E; [|done].
  case_bool_decide as Hs; [|done]. rewrite (total_delete m nid n E), Hs, map_size_empty. lia.
Qed.

(** ** Micro-steps *)

(** A stored TTL is the result of [clampTTL]. *)
Definition clamped (m : Memory) (d : ServiceInstance) : Prop := ∃ x, Svc_TTL d = clampTTL m x.

(** A lease refresh changes [LastSeen] and possibly the failed flag. *)
Definition refreshed (old new : service) : Prop :=
  ∃ t b, new = with_failed b (with_def (with_LastSeen t (def old)) old).

Inductive prim (m : Memory) : list ChangeEvent → Memory → Prop :=
  | prim_node mt : Node_ID mt ≠ ""%string → prim m [] (ensure_node mt m)
  | prim_create mt n d svc m' t :
      nodes m !! Node_ID mt = Some n → meta n = mt →
      services n !! Svc_ID d = None → Svc_ID d ≠ ""%string → clamped m d →
      at_capacity m (total m) = false →
      create_service (Node_ID mt) d m = (svc, m') →
      prim m [putEvent m' mt svc t] m'
  | prim_overwrite mt n old svc svc' m' t :
      nodes m !! Node_ID mt = Some n → meta n = mt →
      services n !! Svc_ID (def svc) = Some old → clamped m (def svc) →
      createIndex svc = createIndex old → maintenance svc = maintenance old →
      overwrite_service (Node_ID mt) (Svc_Name (def old)) svc m = (svc', m') →
      prim m [putEvent m' mt svc' t] m'
  | prim_refresh nid n id old new :
      nodes m !! nid = Some n → services n !! id = Some old → refreshed old new →
      prim m [] (put_service nid id new m)
  | prim_flag nid n id old svc idx m1 t :
      nodes m !! nid = Some n → services n !! id = Some old →
      def svc = def old → createIndex svc = createIndex old →
      next m = (idx, m1) →
      prim m [putEvent (put_service nid id (with_modifyIndex idx svc) m1) (meta n)
                (with_modifyIndex idx svc) t]
        (put_service nid id (with_modifyIndex idx svc) m1)
  | prim_remove nid n id svc svc' m' :
      nodes m !! nid = Some n → services n !! id = Some svc →
      remove_service nid id svc m = (svc', m') →
      prim m [deleteEvent (meta n) svc'] m'
  | prim_drop nid : prim m [] (drop_empty nid m)
  | prim_deregister (o : MapRange) nid n :
      nodes m !! nid = Some n →
      prim m (deregister_loop nid (meta n) (range (services n)) m []).2
        (with_nodes (delete nid (nodes m))
           (deregister_loop nid (meta n) (range (services n)) m []).1).

Inductive prims (m : Memory) : list ChangeEvent → Memory → Prop :=
  | prims_nil : prims m [] m
  | prims_snoc evs m' evs' m'' :
      prims m evs m' → prim m' evs' m'' → prims m (evs ++ evs') m''.

Lemma prims_one m evs m' : prim m evs m' → prims m evs m'.
Proof. intros. rewrite <-(app_nil_l evs). econstructor; [constructor|done]. Qed.

Lemma prims_app m evs m' evs' m'' :
  prims m evs m' → prims m' evs' m'' → prims m (evs ++ evs') m''.
Proof.
  intros H1 H2. induction H2 as [|evs2 m2 evs3 m3 _ IH Hp]; [by rewrite app_nil_r|].
  rewrite (assoc (++)). by econstructor.
Qed.

Lemma prims_cons m evs m' evs' m'' :
  prim m evs m' → prims m' evs' m'' → prims m (evs ++ evs') m''.
Proof. intros ?%prims_one. by apply prims_app. Qed.

(** What a micro-step leaves of the node record it works on. *)

Lemma create_service_spec nid d m svc m' n :
  nodes m !! nid = Some n → create_service nid d m = (svc, m') →
  opts m' = opts m ∧
  nodes m' !! nid = Some (mkStoreNode (meta n) (<[Svc_ID d := svc]> (services n))) ∧
  (services n !! Svc_ID d = None → total m' = total m + 1).
Proof.
  intros Hn. unfold create_service, next. intros [= <- <-]. split; [done|]. split.
  - simpl. by rewrite (alter_lookup_insert _ _ _ n), lookup_insert_eq.
  - intros Hs. rewrite (total_nodes_eq _ (put_service nid (Svc_ID d)
      (mkSvc d false false HealthPassing (u64 (index m + 1)) (u64 (index m + 1))) m)) by done.
    by rewrite (total_put_service m nid n), Hs.
Qed.

Lemma overwrite_service_nodes nid nm svc m svc' m' :
  overwrite_service nid nm svc m = (svc', m') →
  svc' = with_modifyIndex (u64 (index m + 1)) svc ∧ opts m' = opts m ∧
  index m' = u64 (index m + 1) ∧ nodes m' = nodes (put_service nid (Svc_ID (def svc)) svc' m).
Proof.
  unfold overwrite_service, next. intros [= <- <-]. split; [done|].
  case_bool_decide; simpl; by autorewrite with store.
Qed.

Lemma overwrite_service_spec nid nm svc m svc' m' n old :
  nodes m !! nid = Some n → services n !! Svc_ID (def svc) = Some old →
  overwrite_service nid nm svc m = (svc', m') →
  opts m' = opts m ∧ total m' = total m ∧
  nodes m' !! nid = Some (mkStoreNode (meta n) (<[Svc_ID (def svc) := svc']> (services n))).
Proof.
  intros Hn Hs Ho. apply overwrite_service_nodes in Ho as (-> & Hop & _ & Hnodes).
  split; [done|]. split.
  - rewrite (total_nodes_eq _ _ Hnodes), (total_put_service m nid n), Hs by done. lia.
  - rewrite Hnodes. simpl. by rewrite (alter_lookup_insert _ _ _ n), lookup_insert_eq.
Qed.

Lemma put_service_lookup_node nid id svc m n :
  nodes m !! nid = Some n →
  nodes (put_service nid id svc m) !! nid = Some (mkStoreNode (meta n) (<[id := svc]> (services n))).
Proof. intros Hn. rewrite put_service_nodes, Hn. simpl. by rewrite decide_True. Qed.

Lemma put_service_total m nid n id svc old :
  nodes m !! nid = Some n → services n !! id = Some old → total (put_service nid id svc m) = total m.
Proof. intros Hn Hs. rewrite (total_put_service m nid n), Hs by done. lia. Qed.

Lemma incoming_ID m gen now i : Svc_Name i ≠ ""%string → Svc_ID (incoming m gen now i) ≠ ""%string.
Proof. unfold incoming. case_bool_decide; simpl; done. Qed.

Lemma incoming_clamped m gen now i : clamped m (incoming m gen now i).
Proof. unfold incoming, clamped. case_bool_decide; simpl; eauto. Qed.

(** ** Every operation is a sequence of micro-steps *)

Lemma register_loop_prims clk mt gen now ins m size events n :
  nodes m !! Node_ID mt = Some n → meta n = mt → size = total m →
  Forall (λ i, Svc_Name i ≠ ""%string) ins →
  ∃ err m' evs, register_loop clk mt gen now ins m size events = (err, m', events ++ evs) ∧
    prims m evs m'.
Proof.
  revert m size events n. induction ins as [|i ins IH]; intros m size events n Hn Hmt -> Hnames.
  { eexists _, _, []. rewrite app_nil_r. split; [done|constructor]. }
  apply Forall_cons in Hnames as [Hi Hnames]. cbn [register_loop].
  set (d := incoming m gen now i).
  assert (Hcl : clamped m d) by apply incoming_clamped.
  rewrite (lookup_service_node m _ _ n) by done.
  destruct (services n !! Svc_ID d) as [svc|] eqn:Hs; [destruct (changed (def svc) d)|].
  - destruct (overwrite_service _ _ _ m) as [svc' m1] eqn:Ho.
    destruct (overwrite_service_spec _ _ (with_lastState HealthPassing (with_def d svc)) _ _ _ n svc
      Hn Hs Ho) as (Hop & Ht & Hn1). simpl in Hn1.
    destruct (IH m1 (total m) (events ++ [putEvent m1 mt svc' (clk (S (length events)))])
                (mkStoreNode mt (<[Svc_ID d := svc']> (services n))))
      as (err & m' & evs & -> & Hp); [by rewrite Hn1, Hmt|done|done|done|].
    eexists err, m', (_ :: evs). rewrite <-(assoc (++)). split; [done|].
    eapply (prims_cons _ [_]); [|done].
    eapply (prim_overwrite _ mt n svc (with_lastState HealthPassing (with_def d svc))); done.
  - destruct (IH (put_service (Node_ID mt) (Svc_ID d) (with_def (with_LastSeen now (def svc)) svc) m)
                (total m) events (mkStoreNode mt (<[Svc_ID d := with_def (with_LastSeen now (def svc)) svc]> (services n))))
      as (err & m' & evs & -> & Hp); [| |by rewrite (put_service_total m _ n _ _ svc)|done|].
    { by rewrite (put_service_lookup_node _ _ _ _ n), Hmt. }
    { done. }
    exists err, m', evs. split; [done|].
    eapply (prims_cons _ []); [|done]. eapply prim_refresh; [exact Hn|exact Hs|].
    exists now, (failed svc). by destruct svc.
  - destruct (at_capacity m (total m)) eqn:Hcap.
    { eexists _, _, []. rewrite app_nil_r. split; [done|constructor]. }
    destruct (create_service _ d m) as [svc m1] eqn:Hc.
    destruct (create_service_spec _ _ _ _ _ n Hn Hc) as (Hop & Hn1 & Ht).
    destruct (IH m1 (total m + 1) (events ++ [putEvent m1 mt svc (clk (S (length events)))])
                (mkStoreNode mt (<[Svc_ID d := svc]> (services n))))
      as (err & m' & evs & -> & Hp); [by rewrite Hn1, Hmt|done|by rewrite Ht|done|].
    eexists err, m', (_ :: evs). rewrite <-(assoc (++)). split; [done|].
    eapply (prims_cons _ [_]); [|done].
    eapply prim_create; [exact Hn|done|exact Hs|by apply incoming_ID|exact Hcl|done|exact Hc].
Qed.

Lemma Register_prims `{MapRange} clk reg m :
  ∃ err m' evs, Register clk reg m = (err, m', evs) ∧ prims m evs m'.
Proof.
  unfold Register. case_bool_decide as Hid; [eexists _, _, _; split; [done|constructor]|].
  destruct (existsb _ _) eqn:He; [eexists _, _, _; split; [done|constructor]|].
  destruct (ensure_node_lookup m (Reg_Node reg)) as (n & Hn & Hmt).
  destruct (register_loop_prims clk (Reg_Node reg) (Reg_Generation reg) (clk O)
     (Reg_Services reg) (ensure_node (Reg_Node reg) m) (sizeLocked m) [] n)
    as (err & m' & evs & -> & Hp); [done|done| | |].
  - by rewrite sizeLocked_total, total_ensure_node.
  - apply Forall_forall. intros i Hi Hn0.
    assert (existsb (λ i, bool_decide (Svc_Name i = "")) (Reg_Services reg) = true); [|congruence].
    apply existsb_exists. exists i. split; [by apply list_elem_of_In|].
    by apply bool_decide_eq_true.
  - exists err, m', evs. split; [done|]. eapply (prims_cons _ []); [|done]. by constructor.
Qed.

Lemma merge_loop_prims clk entries m size applied events :
  size = total m →
  ∃ k m' evs, merge_loop clk entries m size applied events = (k, m', events ++ evs) ∧
    prims m evs m' ∧ k = applied + Z.of_nat (length evs).
Proof.
  revert m size applied events.
  induction entries as [|e entries IH]; intros m size applied events ->.
  { eexists _, _, []. rewrite app_nil_r. split_and!; [done|constructor|simpl; lia]. }
  cbn [merge_loop]. set (mt := Entry_Node e).
  destruct (bool_decide (Node_ID mt = "")) eqn:E1; cbn [orb]; [by apply IH|].
  destruct (bool_decide (Svc_ID (Entry_Service e) = "")) eqn:E2; cbn [orb]; [by apply IH|].
  apply bool_decide_eq_false in E1, E2.
  set (m0 := ensure_node mt m).
  assert (Hp0 : prim m [] m0) by (by constructor).
  assert (Ht0 : total m0 = total m) by apply total_ensure_node.
  destruct (ensure_node_lookup m mt) as (n & Hn & Hmt). fold m0 in Hn.
  set (d := with_TTL (clampTTL m0 (Svc_TTL (Entry_Service e))) (Entry_Service e)).
  assert (Hcl : clamped m0 d) by (by exists (Svc_TTL (Entry_Service e))).
  rewrite (lookup_service_node m0 _ _ n) by done.
  change (Svc_ID (Entry_Service e)) with (Svc_ID d).
  destruct (services n !! Svc_ID d) as [svc|] eqn:Hs; [destruct (WinsLWW d (def svc))|].
  - destruct (overwrite_service _ _ _ m0) as [svc' m1] eqn:Ho.
    destruct (overwrite_service_spec _ _ (with_def d svc) _ _ _ n svc Hn Hs Ho) as (_ & Ht & _).
    destruct (IH m1 (total m) (applied + 1) (events ++ [putEvent m1 mt svc' (clk (length events))]))
      as (k & m' & evs & -> & Hp & ->); [congruence|].
    eexists _, m', (_ :: evs). rewrite <-(assoc (++)). split; [done|]. split; [|simpl; lia].
    eapply (prims_cons _ []); [exact Hp0|]. eapply (prims_cons _ [_]); [|done].
    by eapply (prim_overwrite _ mt n svc (with_def d svc)).
  - destruct (IH m0 (total m) applied events) as (k & m' & evs & -> & Hp & ->); [done|].
    eexists _, m', evs. split_and!; [done|by eapply (prims_cons _ [])|done].
  - replace (total m) with (total m0). destruct (at_capacity m0 (total m0)) eqn:Hcap.
    + destruct (IH m0 (total m0) applied events) as (k & m' & evs & -> & Hp & ->); [done|].
      eexists _, m', evs. split_and!; [done|by eapply (prims_cons _ [])|done].
    + destruct (create_service _ d m0) as [svc m1] eqn:Hc.
      destruct (create_service_spec _ _ _ _ _ n Hn Hc) as (_ & _ & Ht).
      destruct (IH m1 (total m0 + 1) (applied + 1) (events ++ [putEvent m1 mt svc (clk (length events))]))
        as (k & m' & evs & -> & Hp & ->); [by rewrite Ht|].
      eexists _, m', (_ :: evs). rewrite <-(assoc (++)). split; [done|]. split; [|simpl; lia].
      eapply (prims_cons _ []); [exact Hp0|]. eapply (prims_cons _ [_]); [|done].
      by eapply (prim_create _ mt n d).
Qed.

Lemma Merge_prims `{MapRange} clk entries m :
  ∃ k m' evs, Merge clk entries m = (k, m', evs) ∧ prims m evs m' ∧ k = Z.of_nat (length evs).
Proof.
  unfold Merge.
  destruct (merge_loop_prims clk entries m (sizeLocked m) 0 []) as (k & m' & evs & -> & Hp & ->);
    [apply sizeLocked_total|]. by eexists _, m', evs.
Qed.

Lemma renewed_refreshed now svc : refreshed svc (renewed now svc).
Proof. by exists now, false. Qed.

Lemma renew_loop_prims now nid ids m : prims m [] (renew_loop now nid ids m).2.
Proof.
  revert m. induction ids as [|id ids IH]; intros m; simpl; [constructor|].
  destruct (lookup_service m nid id) as [svc|] eqn:E; [|constructor].
  apply lookup_service_is_Some in E as (n & Hn & Hs).
  eapply (prims_cons _ []); [|apply IH]. eapply prim_refresh; eauto using renewed_refreshed.
Qed.

(** Renewing all the services of a node is renewing them one after the other. *)
Lemma renew_all_prims now nid n m (todo : list (string * service)) :
  nodes m !! nid = Some n →
  NoDup todo.*1 → (∀ id svc, (id, svc) ∈ todo → services n !! id = Some svc) →
  prims m [] (with_nodes (<[nid := mkStoreNode (meta n)
     (list_to_map ((λ p, (p.1, renewed now p.2)) <$> todo) ∪ services n)]> (nodes m)) m).
Proof.
  intros Hn Hnd. induction todo as [|[id svc] todo IH]; intros Hin.
  - simpl. rewrite (left_id_L ∅ (∪)).
    replace (mkStoreNode (meta n) (services n)) with n by (by destruct n).
    rewrite insert_id by done. destruct m; constructor.
  - simpl in Hnd. apply NoDup_cons in Hnd as [Hid Hnd]. simpl.
    set (rest := list_to_map ((λ p, (p.1, renewed now p.2)) <$> todo) : gmap string service).
    assert (Hr : rest !! id = None).
    { apply not_elem_of_list_to_map_1. rewrite <-list_fmap_compose.
      intros Hx. apply Hid. by rewrite (list_fmap_ext _ fst) in Hx. }
    eapply (prims_app _ []); [apply IH; [done|]|].
    { intros. apply Hin. set_solver. }
    fold rest. rewrite <-insert_union_l.
    apply prims_one.
    set (n' := mkStoreNode (meta n) (rest ∪ services n)).
    set (m' := with_nodes _ m).
    assert (Hn' : nodes m' !! nid = Some n') by (simpl; by rewrite lookup_insert_eq).
    replace (with_nodes (<[nid := mkStoreNode (meta n) (<[id := renewed now svc]> (rest ∪ services n))]>
        (nodes m)) m) with (put_service nid id (renewed now svc) m').
    + eapply prim_refresh; [exact Hn'| |apply renewed_refreshed].
      simpl. rewrite lookup_union_r by done. apply Hin. set_solver.
    + unfold put_service, with_nodes; simpl. f_equal.
      rewrite (alter_lookup_insert _ _ _ n') by exact Hn'. simpl.
      by rewrite insert_insert_eq.
Qed.

Lemma Renew_prims clk nid ids m : prims m [] (Renew clk nid ids m).2.
Proof.
  unfold Renew. destruct (nodes m !! nid) as [n|] eqn:Hn; [|constructor].
  destruct ids as [|id ids]; [|apply renew_loop_prims].
  simpl. pose proof (renew_all_prims (clk O) nid n m (map_to_list (services n)) Hn) as Hp.
  replace (renewed (clk O) <$> services n) with
    (list_to_map ((λ p, (p.1, renewed (clk O) p.2)) <$> map_to_list (services n)) ∪ services n).
  - apply Hp; [apply NoDup_fst_map_to_list|]. intros id svc. apply elem_of_map_to_list.
  - apply map_eq. intros k.
    assert (Hl : (list_to_map ((λ p, (p.1, renewed (clk O) p.2)) <$> map_to_list (services n))
              : gmap string service) = renewed (clk O) <$> services n).
    { rewrite <-(list_to_map_to_list (renewed (clk O) <$> services n)).
      by rewrite map_to_list_fmap. }
    rewrite Hl, lookup_union, lookup_fmap. by destruct (services n !! k).
Qed.

Lemma Fail_prims clk nid id m : ∃ err m' evs, Fail clk nid id m = (err, m', evs) ∧ prims m evs m'.
Proof.
  unfold Fail. destruct (nodes m !! nid) as [n|] eqn:Hn;
    [|eexists _, _, _; split; [done|constructor]].
  destruct (services n !! id) as [svc|] eqn:Hs; [|eexists _, _, _; split; [done|constructor]].
  destruct (failed svc); [eexists _, _, _; split; [done|constructor]|].
  eexists _, _, _. split; [done|]. apply prims_one. by eapply (prim_flag m nid n id svc).
Qed.

Lemma SetMaintenance_prims clk nid id b m :
  ∃ err m' evs, SetMaintenance clk nid id b m = (err, m', evs) ∧ prims m evs m'.
Proof.
  unfold SetMaintenance. destruct (nodes m !! nid) as [n|] eqn:Hn;
    [|eexists _, _, _; split; [done|constructor]].
  destruct (services n !! id) as [svc|] eqn:Hs; [|eexists _, _, _; split; [done|constructor]].
  case_bool_decide; [eexists _, _, _; split; [done|constructor]|].
  eexists _, _, _. split; [done|]. apply prims_one. by eapply (prim_flag m nid n id svc).
Qed.

Lemma Deregister_prims `{MapRange} nid m :
  ∃ err m' evs, Deregister nid m = (err, m', evs) ∧ prims m evs m'.
Proof.
  unfold Deregister. destruct (nodes m !! nid) as [n|] eqn:Hn;
    [|eexists _, _, _; split; [done|constructor]].
  destruct (deregister_loop nid (meta n) (range (services n)) m []) as [m1 evs] eqn:E.
  eexists _, _, _. split; [done|]. apply prims_one.
  pose proof (prim_deregister m _ nid n Hn) as Hp. rewrite E in Hp. simpl in Hp.
  replace (nodes m1) with (nodes m); [done|].
  clear Hp. revert E. generalize (@nil ChangeEvent). generalize (range (services n)) as l.
  intros l. revert m Hn. induction l as [|[id svc] l IH]; intros m Hn evs0; simpl; [by intros [= -> _]|].
  intros E. apply IH in E; [|by rewrite nodes_unindexName]. by rewrite <-E, nodes_unindexName.
Qed.

Lemma DeregisterService_prims nid id m :
  ∃ err m' evs, DeregisterService nid id m = (err, m', evs) ∧ prims m evs m'.
Proof.
  unfold DeregisterService. destruct (nodes m !! nid) as [n|] eqn:Hn;
    [|eexists _, _, _; split; [done|constructor]].
  destruct (services n !! id) as [svc|] eqn:Hs; [|eexists _, _, _; split; [done|constructor]].
  destruct (remove_service nid id svc m) as [svc' m'] eqn:Hr.
  eexists _, _, _. split; [done|]. eapply (prims_cons _ [_]).
  - by eapply (prim_remove m nid n id svc).
  - apply prims_one. constructor.
Qed.

(** *** Garbage collection *)

Lemma remove_service_nodes nid id svc m svc' m' :
  remove_service nid id svc m = (svc', m') →
  svc' = with_modifyIndex (u64 (index m + 1)) svc ∧ opts m' = opts m ∧
  index m' = u64 (index m + 1) ∧ nodes m' = nodes (del_service nid id m).
Proof.
  unfold remove_service, next. intros [= <- <-]. by autorewrite with store.
Qed.

Lemma lease_opts m m' svc now : opts m = opts m' → lease m svc now = lease m' svc now.
Proof. unfold lease. by intros ->. Qed.

(** The services still to visit are present in the node record [n]. *)
Definition pending (n : node) (svcs : list (string * service)) : Prop :=
  NoDup svcs.*1 ∧ ∀ id svc, (id, svc) ∈ svcs → services n !! id = Some svc.

Lemma pending_cons n id svc svcs (f : gmap string service → gmap string service) :
  pending n ((id, svc) :: svcs) → (∀ s id', id' ≠ id → f s !! id' = s !! id') →
  services n !! id = Some svc ∧ pending (mkStoreNode (meta n) (f (services n))) svcs.
Proof.
  intros [Hnd Hin] Hf. apply NoDup_cons in Hnd as [Hid Hnd]. split; [apply Hin; set_solver|].
  split; [done|]. simpl. intros id' svc' Hi. rewrite Hf; [apply Hin; set_solver|].
  intros ->. apply Hid. apply list_elem_of_fmap. by exists (id, svc').
Qed.

Lemma gc_services_prims clk now nid svcs m events removed n :
  nodes m !! nid = Some n → pending n svcs →
  ∃ m' evs k n', gc_services clk now nid (meta n) svcs m events removed = (m', events ++ evs, k) ∧
    prims m evs m' ∧ nodes m' !! nid = Some n' ∧ meta n' = meta n ∧ opts m' = opts m ∧
    (∀ nid', nid' ≠ nid → nodes m' !! nid' = nodes m !! nid').
Proof.
  revert m events removed n. induction svcs as [|[id svc] svcs IH]; intros m events removed n Hn Hpen.
  { eexists _, [], _, n. rewrite app_nil_r. split_and!; try done. constructor. }
  cbn [gc_services].
  destruct (lease m svc now) as [state expired]; destruct expired; [|case_bool_decide].
  - destruct (pending_cons n id svc svcs (delete id) Hpen) as [Hs Hpen'].
    { intros. by rewrite lookup_delete_ne. }
    destruct (remove_service nid id svc m) as [svc' m1] eqn:Hr.
    destruct (remove_service_nodes _ _ _ _ _ _ Hr) as (_ & Hop & _ & Hnodes).
    destruct (IH m1 (events ++ [deleteEvent (meta n) svc']) (removed + 1) (mkStoreNode (meta n) (delete id (services n))))
      as (m' & evs & k & n' & Hgc & Hp & Hn' & Hmt & Hop' & Hne); [|exact Hpen'|].
    { rewrite Hnodes, del_service_nodes, Hn. simpl. by rewrite decide_True. }
    simpl in Hgc. rewrite Hgc.
    eexists m', (_ :: evs), k, n'. rewrite <-(assoc (++)).
    split_and!; [done| |done|done|congruence|].
    + eapply (prims_cons _ [_]); [|done]. by eapply (prim_remove m nid n id svc).
    + intros nid' Hnid. rewrite Hne by done. rewrite Hnodes, del_service_nodes.
      destruct (nodes m !! nid'); simpl; [by rewrite decide_False|done].
  - destruct (next m) as [idx m1] eqn:Hnx.
    assert (Hn1 : nodes m1 = nodes m ∧ opts m1 = opts m) by (by injection Hnx as _ <-).
    destruct Hn1 as [Hn1 Hop1].
    set (svc' := with_modifyIndex idx (with_lastState state svc)).
    destruct (pending_cons n id svc svcs (<[id := svc']>) Hpen) as [Hs Hpen'].
    { intros. by rewrite lookup_insert_ne. }
    destruct (IH (put_service nid id svc' m1)
      (events ++ [putEvent (put_service nid id svc' m1) (meta n) svc' (clk (S (length events)))]) removed
      (mkStoreNode (meta n) (<[id := svc']> (services n))))
      as (m' & evs & k & n' & Hgc & Hp & Hn' & Hmt & Hop' & Hne); [|exact Hpen'|].
    { apply put_service_lookup_node. congruence. }
    simpl in Hgc. rewrite Hgc.
    eexists m', (_ :: evs), k, n'. rewrite <-(assoc (++)).
    split_and!; [done| |done|done|by rewrite Hop'|].
    + eapply (prims_cons _ [_]); [|done].
      by eapply (prim_flag m nid n id svc (with_lastState state svc)).
    + intros nid' Hnid. rewrite Hne by done. rewrite put_service_nodes, Hn1.
      destruct (nodes m !! nid'); simpl; [by rewrite decide_False|done].
  - apply (IH m _ _ n Hn). destruct Hpen as [Hnd Hin]. apply NoDup_cons in Hnd as [_ Hnd].
    split; [done|]. set_solver.
Qed.

Lemma gc_nodes_prims `{MapRange} clk now ns m events removed :
  NoDup ns.*1 → (∀ nid n, (nid, n) ∈ ns → nodes m !! nid = Some n) →
  ∃ m' evs k, gc_nodes clk now ns m events removed = (m', events ++ evs, k) ∧ prims m evs m'.
Proof.
  revert m events removed. induction ns as [|[nid n] ns IH]; intros m events removed Hnd Hin.
  { eexists _, [], _. rewrite app_nil_r. split; [done|constructor]. }
  cbn [gc_nodes]. simpl in Hnd. apply NoDup_cons in Hnd as [Hnid Hnd].
  edestruct (gc_services_prims clk now nid (range (services n)) m events removed n)
    as (m1 & evs1 & k1 & n1 & -> & Hp1 & _ & _ & _ & Hne).
  { apply Hin. set_solver. }
  { split; [apply NoDup_range_fst|]. intros. by apply elem_of_range. }
  edestruct (IH (drop_empty nid m1)) as (m' & evs & k & -> & Hp); [done| |].
  { intros nid' n' Hn'. assert (nid' ≠ nid).
    { intros ->. apply Hnid. apply list_elem_of_fmap. by exists (nid, n'). }
    rewrite drop_empty_ne, Hne by done. apply Hin. set_solver. }
  eexists m', (evs1 ++ evs), k. rewrite <-(assoc (++)). split; [done|].
  eapply prims_app; [done|]. eapply (prims_cons _ []); [constructor|done].
Qed.

Lemma GC_prims `{MapRange} clk m :
  ∃ k m' evs, GC clk m = (k, m', evs) ∧ prims m evs m'.
Proof.
  unfold GC. destruct (gc_nodes_prims clk (clk O) (range (nodes m)) m [] 0)
    as (m' & evs & k & -> & Hp).
  - apply NoDup_range_fst.
  - intros. by apply elem_of_range.
  - by eexists _, _, _.
Qed.

(** The decomposition of every operation. *)
Lemma apply_prims `{MapRange} clk op m :
  prims m (apply clk op m).2 (apply clk op m).1.
Proof.
  destruct op; cbn [apply].
  - destruct (Register_prims clk reg m) as (? & ? & ? & -> & ?). done.
  - apply Renew_prims.
  - destruct (Deregister_prims nodeID m) as (? & ? & ? & -> & ?). done.
  - destruct (DeregisterService_prims nodeID serviceID m) as (? & ? & ? & -> & ?). done.
  - destruct (SetMaintenance_prims clk nodeID serviceID enabled m) as (? & ? & ? & -> & ?). done.
  - destruct (Fail_prims clk nodeID serviceID m) as (? & ? & ? & -> & ?). done.
  - destruct (GC_prims clk m) as (? & ? & ? & -> & ?). done.
  - destruct (Merge_prims clk entries m) as (? & ? & ? & -> & ? & ?). done.
Qed.

(** Rule induction: what every micro-step preserves, every step preserves. *)
Lemma prims_preserve (P : Memory → Prop) m evs m' :
  (∀ a ev b, P a → prim a ev b → P b) → prims m evs m' → P m → P m'.
Proof. intros Hstep. induction 1; eauto. Qed.

Lemma step_prims m op m' evs : step m op m' evs → prims m evs m'.
Proof. intros [o clk]. apply apply_prims. Qed.

Lemma reachable_prims o m evs : reachable o m evs → prims (NewMemory o) evs m.
Proof.
  induction 1 as [|m evs op m' evs' _ IH Hs]; [constructor|].
  eapply prims_app; [done|]. by eapply step_prims.
Qed.
