(* ===== verification/StoreInv.v ===== *)
(** The invariants of the seed registry, by rule induction on the micro-steps:
    the name index mirrors the records exactly, identities and leases are well
    formed, the service cap holds, the registry index counts the emitted events,
    stored indexes are bounded and distinct, and replaying the event stream
    rebuilds the registry. *)

From Stdlib Require Import ZArith Lia.
From stdpp Require Import base gmap list strings.
From S2P Require Import Prelude GoStrings Model Health Store StoreSteps.

#[local] Open Scope Z_scope.

(** ** Lease windows *)

(** The bounds [clampTTL] enforces: positive, at most [MaxTTL] when it is set,
    at least [MinTTL] when the two bounds are compatible. *)
Record ttl_ok (o : Options) (ttl : Z) : Prop := {
  ttl_pos : 0 < ttl;
  ttl_max : 0 < MaxTTL o → ttl <= MaxTTL o;
  ttl_min : MinTTL o <= MaxTTL o ∨ MaxTTL o <= 0 → MinTTL o <= ttl
}.

Lemma clampTTL_ok m d : 0 < DefaultTTL (opts m) → ttl_ok (opts m) (clampTTL m d).
Proof.
  intros Hd. unfold clampTTL.
  destruct (Z.leb_spec d 0);
    [set (d' := DefaultTTL (opts m)) in * | set (d' := d) in *];
    (destruct (Z.ltb_spec 0 (MinTTL (opts m))); simpl;
      [destruct (Z.ltb_spec d' (MinTTL (opts m)))|]);
    (destruct (Z.ltb_spec 0 (MaxTTL (opts m))); simpl;
      [case_match eqn:E; [apply Z.ltb_lt in E|apply Z.ltb_ge in E]|]);
    split; lia.
Qed.

(** ** The well-formedness invariant *)

Record wf (m : Memory) : Prop := {
  wf_default : 0 < DefaultTTL (opts m);
  wf_node : ∀ nid n, nodes m !! nid = Some n → Node_ID (meta n) = nid ∧ nid ≠ ""%string;
  wf_svc : ∀ nid id svc, lookup_service m nid id = Some svc →
    Svc_ID (def svc) = id ∧ id ≠ ""%string ∧ ttl_ok (opts m) (Svc_TTL (def svc));
  wf_refs : ∀ name nid id, (nid, id) ∈ refs m name ↔
    ∃ svc, lookup_service m nid id = Some svc ∧ Svc_Name (def svc) = name;
  wf_no_empty : no_empty m
}.

Lemma wf_new o : wf (NewMemory o).
Proof.
  unfold NewMemory. split; simpl.
  - destruct (Z.leb_spec (DefaultTTL o) 0); simpl; unfold defaultTTL, second; lia.
  - intros ??. by rewrite lookup_empty.
  - intros ???. unfold lookup_service; simpl. by rewrite lookup_empty.
  - intros. unfold refs, lookup_service; simpl. rewrite !lookup_empty. simpl. set_solver.
  - intros ??. simpl. by rewrite lookup_empty.
Qed.

(** The general form of an update of one record: the lookups change at one key
    only, and the references change accordingly. *)
Lemma wf_update m m' nid id (old new : option service) :
  wf m → opts m' = opts m →
  (∀ nid n, nodes m' !! nid = Some n → Node_ID (meta n) = nid ∧ nid ≠ ""%string) →
  lookup_service m nid id = old →
  (∀ nid' id', lookup_service m' nid' id' =
     if decide ((nid, id) = (nid', id')) then new else lookup_service m nid' id') →
  (∀ svc, new = Some svc →
     Svc_ID (def svc) = id ∧ id ≠ ""%string ∧ ttl_ok (opts m) (Svc_TTL (def svc))) →
  (∀ name r, r ∈ refs m' name ↔
     if decide (r = (nid, id)) then ∃ svc, new = Some svc ∧ Svc_Name (def svc) = name
     else r ∈ refs m name) →
  no_empty m' → wf m'.
Proof.
  intros [Hd Hn Hs Hr He] Hop Hn' Hold Hl Hnew Hr' He'. split; [by rewrite Hop|done|..|done].
  - intros nid' id' svc. rewrite Hl, Hop. case_decide; [simplify_eq; apply Hnew|apply Hs].
  - intros name nid' id'. rewrite Hr', Hl. case_decide; case_decide; simplify_eq; done || apply Hr.
Qed.

Lemma meta_put_service m nid id svc nid' n :
  nodes (put_service nid id svc m) !! nid' = Some n →
  ∃ n0, nodes m !! nid' = Some n0 ∧ meta n0 = meta n.
Proof.
  rewrite put_service_nodes. destruct (nodes m !! nid') as [n0|]; simpl; [|done].
  intros [= <-]. exists n0. by case_decide.
Qed.

Lemma meta_del_service m nid id nid' n :
  nodes (del_service nid id m) !! nid' = Some n →
  ∃ n0, nodes m !! nid' = Some n0 ∧ meta n0 = meta n.
Proof.
  rewrite del_service_nodes. destruct (nodes m !! nid') as [n0|]; simpl; [|done].
  intros [= <-]. exists n0. by case_decide.
Qed.

Lemma wf_prim_node m mt : Node_ID mt ≠ ""%string → wf m → wf (ensure_node mt m).
Proof.
  intros Hmt [Hd Hn Hs Hr He]. split; autorewrite with store; try done.
  - intros nid n. destruct (decide (nid = Node_ID mt)) as [->|Hne].
    + destruct (ensure_node_lookup m mt) as (n' & -> & Hm). intros [= <-]. by rewrite Hm.
    + rewrite ensure_node_ne by done. apply Hn.
  - intros nid id svc. rewrite lookup_ensure_node. apply Hs.
  - intros name nid id. setoid_rewrite lookup_ensure_node.
    unfold refs. rewrite byName_ensure_node. apply Hr.
  - intros name s. rewrite byName_ensure_node. apply He.
Qed.

Lemma wf_prim_put m nid n id old svc :
  nodes m !! nid = Some n → services n !! id = Some old →
  Svc_ID (def svc) = Svc_ID (def old) → Svc_Name (def svc) = Svc_Name (def old) →
  Svc_TTL (def svc) = Svc_TTL (def old) →
  wf m → wf (put_service nid id svc m).
Proof.
  intros Hn Hs Hid Hnm Httl Hwf.
  assert (Hl : lookup_service m nid id = Some old) by (by rewrite (lookup_service_node _ _ _ n)).
  apply (wf_update m _ nid id (Some old) (Some svc)); try done.
  - intros nid' n' (n0 & H0 & <-)%meta_put_service. by apply (wf_node _ Hwf).
  - intros. apply lookup_put_service. eauto.
  - intros ? [= <-]. rewrite Hid, Httl. by apply (wf_svc _ Hwf nid).
  - intros name [nid' id']. case_decide; simplify_eq; [|done].
    etrans; [apply (wf_refs _ Hwf)|]. rewrite Hl. naive_solver.
  - apply (wf_no_empty _ Hwf).
Qed.

Lemma clamped_ok m d : wf m → clamped m d → ttl_ok (opts m) (Svc_TTL d).
Proof. intros Hwf [x ->]. apply clampTTL_ok, Hwf. Qed.

Lemma wf_prim_create m nid n d svc m' :
  nodes m !! nid = Some n → services n !! Svc_ID d = None → Svc_ID d ≠ ""%string →
  clamped m d → create_service nid d m = (svc, m') → wf m → wf m'.
Proof.
  intros Hn Hs Hid Hcl. unfold create_service, next. intros [= <- <-] Hwf.
  set (m1 := mkMemory _ _ _ _). set (svc := mkSvc _ _ _ _ _ _).
  assert (Hl : lookup_service m nid (Svc_ID d) = None) by (by rewrite (lookup_service_node _ _ _ n)).
  apply (wf_update m _ nid (Svc_ID d) None (Some svc)); try done.
  - intros nid' n' (n0 & H0 & <-)%meta_put_service. by apply (wf_node _ Hwf).
  - intros. rewrite <-(lookup_put_service m1) by (simpl; eauto). done.
  - intros ? [= <-]. split_and!; [done|done|]. by apply clamped_ok.
  - intros name [nid' id']. rewrite refs_indexName. unfold refs at 1 2; simpl. fold (refs m name).
    pose proof (wf_refs _ Hwf name nid (Svc_ID d)) as Hr. rewrite Hl in Hr.
    case_decide; case_decide; simplify_eq; set_solver.
  - apply no_empty_indexName. apply (wf_no_empty _ Hwf).
Qed.

Lemma wf_prim_overwrite m nid n old svc svc' m' :
  nodes m !! nid = Some n → services n !! Svc_ID (def svc) = Some old →
  clamped m (def svc) →
  overwrite_service nid (Svc_Name (def old)) svc m = (svc', m') → wf m → wf m'.
Proof.
  intros Hn Hs Hcl. unfold overwrite_service, next. intros [= <- <-] Hwf.
  set (m1 := mkMemory _ _ _ _). set (svc' := with_modifyIndex _ svc).
  assert (Hl : lookup_service m nid (Svc_ID (def svc)) = Some old)
    by (by rewrite (lookup_service_node _ _ _ n)).
  destruct (wf_svc _ Hwf _ _ _ Hl) as (Hid & Hne & _).
  set (m2 := put_service nid (Svc_ID (def svc')) svc' m1).
  assert (Hm2 : wf m1) by (destruct Hwf; by split).
  apply (wf_update m _ nid (Svc_ID (def svc)) (Some old) (Some svc')); try done.
  - case_bool_decide; simpl; by autorewrite with store.
  - intros nid' n'. case_bool_decide; simpl; autorewrite with store;
      intros (n0 & H0 & <-)%(meta_put_service m1); by apply (wf_node _ Hwf).
  - intros. rewrite <-(lookup_put_service m1) by (simpl; eauto).
    unfold lookup_service. case_bool_decide; simpl; by autorewrite with store.
  - intros ? [= <-]. split_and!; [done|done|]. by apply clamped_ok.
  - intros name [nid' id']. pose proof (wf_refs _ Hwf name nid (Svc_ID (def svc))) as Hr.
    rewrite Hl in Hr. case_bool_decide as Hnm.
    + rewrite refs_indexName, refs_unindexName.
      change (refs m2 name) with (refs m name). simpl in Hnm |- *.
      repeat case_decide; simplify_eq; set_solver.
    + simpl in Hnm. case_decide; simplify_eq; [|done].
      etrans; [exact Hr|]. simpl. naive_solver.
  - case_bool_decide; [apply no_empty_indexName, no_empty_unindexName|]; apply (wf_no_empty _ Hwf).
Qed.

Lemma wf_prim_remove m nid n id svc svc' m' :
  nodes m !! nid = Some n → services n !! id = Some svc →
  remove_service nid id svc m = (svc', m') → wf m → wf m'.
Proof.
  intros Hn Hs. unfold remove_service, next. intros [= <- <-] Hwf.
  set (m1 := mkMemory _ _ _ _).
  assert (Hl : lookup_service m nid id = Some svc) by (by rewrite (lookup_service_node _ _ _ n)).
  apply (wf_update m _ nid id (Some svc) None); try done.
  - by autorewrite with store.
  - intros nid' n'. autorewrite with store.
    intros (n0 & H0 & <-)%(meta_del_service m1). by apply (wf_node _ Hwf).
  - intros. rewrite <-(lookup_del_service m1). unfold lookup_service. by autorewrite with store.
  - intros name [nid' id']. rewrite refs_unindexName.
    change (refs (del_service nid id m1) name) with (refs m name). simpl.
    pose proof (wf_refs _ Hwf name nid id) as Hr. rewrite Hl in Hr.
    repeat case_decide; simplify_eq; set_solver.
  - apply no_empty_unindexName. apply (wf_no_empty _ Hwf).
Qed.

Lemma wf_prim_drop m nid : wf m → wf (drop_empty nid m).
Proof.
  intros [Hd Hn Hs Hr He]. split; autorewrite with store; try done.
  - intros nid' n ?%drop_empty_nodes. by apply Hn.
  - intros nid' id svc. rewrite lookup_drop_empty. apply Hs.
  - intros name nid' id. rewrite lookup_drop_empty. unfold refs.
    rewrite byName_drop_empty. apply Hr.
  - intros name s. rewrite byName_drop_empty. apply He.
Qed.

(** *** Deregistration of a node *)

(** The delete events of a deregistration, the registry index being [i] before. *)
Fixpoint delete_events (mt : Node) (i : Z) (svcs : list (string * service)) : list ChangeEvent :=
  match svcs with
  | [] => []
  | (_, svc) :: rest =>
      deleteEvent mt (with_modifyIndex (u64 (i + 1)) svc) :: delete_events mt (u64 (i + 1)) rest
  end.

Record deregistered (nid : string) (mt : Node) (svcs : list (string * service)) (m m' : Memory)
    (evs evs' : list ChangeEvent) : Prop := {
  dereg_nodes : nodes m' = nodes m;
  dereg_opts : opts m' = opts m;
  dereg_index : index m' = foldl (λ i _, u64 (i + 1)) (index m) svcs;
  dereg_events : evs' = evs ++ delete_events mt (index m) svcs;
  dereg_no_empty : no_empty m → no_empty m';
  dereg_refs : ∀ name r, r ∈ refs m' name ↔
    r ∈ refs m name ∧ ¬ ∃ id svc, (id, svc) ∈ svcs ∧ r = (nid, id) ∧ Svc_Name (def svc) = name
}.

Lemma deregister_loop_spec nid mt svcs m evs :
  deregistered nid mt svcs m (deregister_loop nid mt svcs m evs).1 evs
    (deregister_loop nid mt svcs m evs).2.
Proof.
  revert m evs. induction svcs as [|[id svc] svcs IH]; intros m evs; simpl.
  { split; try done; [by rewrite app_nil_r|]. set_solver. }
  edestruct IH as [H1 H2 H3 H4 H5 H6]; clear IH. split.
  - rewrite H1. by rewrite nodes_unindexName.
  - rewrite H2. by rewrite opts_unindexName.
  - rewrite H3. by rewrite index_unindexName.
  - rewrite H4, <-(assoc (++)). by rewrite index_unindexName.
  - intros He. apply H5, no_empty_unindexName, He.
  - intros name r. rewrite H6, refs_unindexName. simpl. setoid_rewrite elem_of_cons.
    change (refs {| opts := opts m; nodes := nodes m; byName := byName m;
      index := u64 (index m + 1) |} name) with (refs m name).
    case_decide as Hn; [rewrite elem_of_difference, elem_of_singleton|]; naive_solver.
Qed.

Lemma wf_prim_deregister (o : MapRange) m nid n :
  nodes m !! nid = Some n → wf m →
  wf (with_nodes (delete nid (nodes m)) (deregister_loop nid (meta n) (range (services n)) m []).1).
Proof.
  intros Hn Hwf.
  destruct (deregister_loop_spec nid (meta n) (range (services n)) m []) as [H1 H2 _ _ H5 H6].
  set (m1 := (deregister_loop _ _ _ _ _).1) in *.
  assert (Hl : ∀ nid' id', lookup_service (with_nodes (delete nid (nodes m)) m1) nid' id' =
            if decide (nid = nid') then None else lookup_service m nid' id').
  { intros. unfold lookup_service; simpl. rewrite lookup_delete. by case_decide. }
  split; simpl.
  - rewrite H2. apply Hwf.
  - intros nid' n'. rewrite lookup_delete. case_decide; [done|]. apply Hwf.
  - intros nid' id' svc. rewrite Hl, H2. case_decide; [done|]. apply Hwf.
  - intros name nid' id'. rewrite Hl.
    change (refs (with_nodes (delete nid (nodes m)) m1) name) with (refs m1 name).
    rewrite H6, (wf_refs _ Hwf). case_decide as Hd.
    + subst nid'. split; [|naive_solver]. intros [(svc & Hs & Hnm) Hno]. destruct Hno.
      exists id', svc. split_and!; [|done|done]. apply elem_of_range.
      by rewrite (lookup_service_node m nid id' n Hn) in Hs.
    + split; [naive_solver|]. intros Hex. split; [done|]. naive_solver.
  - apply H5, Hwf.
Qed.

(** Every micro-step preserves well-formedness. *)
Lemma wf_prim m evs m' : wf m → prim m evs m' → wf m'.
Proof.
  intros Hwf Hp. destruct Hp as [mt|mt n d svc m' t Hn Hmt Hs Hid Hcl Hcap Hc
    |mt n old svc svc' m' t Hn Hmt Hs Hcl Hci Hmn Ho|nid n id old new Hn Hs (t & b & ->)
    |nid n id old svc idx m1 t Hn Hs Hd Hci Hnx|nid n id svc svc' m' Hn Hs Hr|nid|o nid n Hn].
  - by apply wf_prim_node.
  - eapply wf_prim_create; eauto.
  - eapply wf_prim_overwrite; eauto.
  - by eapply wf_prim_put.
  - assert (wf m1) by (injection Hnx as <- <-; destruct Hwf; by split).
    assert (nodes m1 = nodes m) as E by (by injection Hnx as _ <-).
    eapply (wf_prim_put _ nid n id old); rewrite ?E; simpl; rewrite ?Hd; done.
  - eapply wf_prim_remove; eauto.
  - by apply wf_prim_drop.
  - by apply wf_prim_deregister.
Qed.

Lemma wf_prims m evs m' : prims m evs m' → wf m → wf m'.
Proof. apply (prims_preserve wf). intros. by eapply wf_prim. Qed.

Lemma wf_reachable o m evs : reachable o m evs → wf m.
Proof. intros ?%reachable_prims. eapply wf_prims; [done|apply wf_new]. Qed.

Lemma wf_apply `{MapRange} clk op m : wf m → wf (apply clk op m).1.
Proof. eapply wf_prims, apply_prims. Qed.

(** ** The service cap *)

Definition capped (m : Memory) : Prop := 0 < MaxServices (opts m) → total m <= MaxServices (opts m).

Lemma prim_opts m evs m' : prim m evs m' → opts m' = opts m.
Proof.
  intros Hp. destruct Hp as [mt|mt n d svc m' t Hn Hmt Hs Hid Hcl Hcap Hc
    |mt n old svc svc' m' t Hn Hmt Hs Hcl Hci Hmn Ho|nid n id old new Hn Hs (t & b & ->)
    |nid n id old svc idx m1 t Hn Hs Hd Hci Hnx|nid n id svc svc' m' Hn Hs Hr|nid|o nid n Hn];
    simpl; autorewrite with store; try done.
  - by injection Hc as _ <-.
  - by eapply overwrite_service_nodes.
  - by injection Hnx as _ <-.
  - by eapply remove_service_nodes.
  - apply deregister_loop_spec.
Qed.

Lemma prims_opts m evs m' : prims m evs m' → opts m' = opts m.
Proof. induction 1 as [|evs m' evs' m'' _ IH Hp]; [done|]. rewrite <-IH. by eapply prim_opts. Qed.

(** A micro-step adds an instance only below the cap. *)
Lemma prim_total m evs m' :
  prim m evs m' → total m' <= total m ∨ (total m' = total m + 1 ∧ at_capacity m (total m) = false).
Proof.
  intros Hp. destruct Hp as [mt|mt n d svc m' t Hn Hmt Hs Hid Hcl Hcap Hc
    |mt n old svc svc' m' t Hn Hmt Hs Hcl Hci Hmn Ho|nid n id old new Hn Hs (t & b & ->)
    |nid n id old svc idx m1 t Hn Hs Hd Hci Hnx|nid n id svc svc' m' Hn Hs Hr|nid|o nid n Hn].
  - left. rewrite total_ensure_node. lia.
  - right. destruct (create_service_spec _ _ _ _ _ n Hn Hc) as (_ & _ & Ht). by rewrite Ht.
  - left. destruct (overwrite_service_spec _ _ _ _ _ _ n old Hn Hs Ho) as (_ & -> & _). lia.
  - left. rewrite (put_service_total m nid n id _ old) by done. lia.
  - left. assert (nodes m1 = nodes m) as E by (by injection Hnx as _ <-).
    rewrite (put_service_total m1 nid n id _ old) by (rewrite ?E; done).
    rewrite (total_nodes_eq _ _ E). lia.
  - left. apply remove_service_nodes in Hr as (_ & _ & _ & Hnodes).
    rewrite (total_nodes_eq _ _ Hnodes), (total_del_service m nid n id svc) by done. lia.
  - left. rewrite total_drop_empty. lia.
  - left. rewrite (total_nodes_eq _ (with_nodes (delete nid (nodes m)) m)) by done.
    rewrite (total_delete m nid n) by done. lia.
Qed.

Lemma capped_prim m evs m' : capped m → prim m evs m' → capped m'.
Proof.
  unfold capped. intros Hc Hp Hpos. rewrite (prim_opts _ _ _ Hp) in *.
  specialize (Hc Hpos). destruct (prim_total _ _ _ Hp) as [Ht|[Ht Hcap]]; [lia|].
  unfold at_capacity in Hcap. apply andb_false_iff in Hcap as [Hcap|Hcap];
    [apply Z.ltb_ge in Hcap|apply Z.leb_gt in Hcap]; lia.
Qed.

(** ** Index accounting *)

(** The registry index after [evs] more events. *)
Definition advance (i : Z) (evs : list ChangeEvent) : Z := foldl (λ i _, u64 (i + 1)) i evs.

(** The events carry consecutive indexes, each the ModifyIndex of its entry. *)
Fixpoint numbered (i : Z) (evs : list ChangeEvent) : Prop :=
  match evs with
  | [] => True
  | ev :: rest =>
      Event_Index ev = u64 (i + 1) ∧ Entry_ModifyIndex (Event_Entry ev) = u64 (i + 1) ∧
      numbered (u64 (i + 1)) rest
  end.

Lemma advance_app i a b : advance i (a ++ b) = advance (advance i a) b.
Proof. apply foldl_app. Qed.

Lemma numbered_app i a b : numbered i a → numbered (advance i a) b → numbered i (a ++ b).
Proof. revert i. induction a as [|ev a IH]; intros i; simpl; [done|]. naive_solver. Qed.

Lemma advance_u64 i evs : is_u64 i → advance i evs = u64 (i + Z.of_nat (length evs)).
Proof.
  revert i. induction evs as [|ev evs IH]; intros i Hi; simpl.
  - unfold advance; simpl. by rewrite Z.add_0_r, u64_small.
  - change (advance i (ev :: evs)) with (advance (u64 (i + 1)) evs).
    rewrite IH, u64_add_l by auto with yp. f_equal. lia.
Qed.

Lemma numbered_lookup i evs k ev :
  is_u64 i → numbered i evs → evs !! k = Some ev → Event_Index ev = u64 (i + Z.of_nat k + 1).
Proof.
  revert i k. induction evs as [|e evs IH]; intros i k Hi Hn; [done|].
  destruct Hn as (H1 & _ & H2). destruct k as [|k]; simpl.
  - intros [= <-]. rewrite H1. f_equal. lia.
  - intros Hk. rewrite (IH _ _ (u64_range _) H2 Hk), <-Z.add_assoc, u64_add_l. f_equal. lia.
Qed.

Lemma delete_events_numbered mt i svcs : numbered i (delete_events mt i svcs).
Proof. revert i. induction svcs as [|[id svc] svcs IH]; intros i; simpl; done. Qed.

Lemma delete_events_advance mt i svcs :
  advance i (delete_events mt i svcs) = foldl (λ i _, u64 (i + 1)) i svcs.
Proof. revert i. induction svcs as [|[id svc] svcs IH]; intros i; [done|]. apply (IH (u64 (i + 1))). Qed.

Lemma prim_index m evs m' :
  prim m evs m' → index m' = advance (index m) evs ∧ numbered (index m) evs.
Proof.
  intros Hp. destruct Hp as [mt|mt n d svc m' t Hn Hmt Hs Hid Hcl Hcap Hc
    |mt n old svc svc' m' t Hn Hmt Hs Hcl Hci Hmn Ho|nid n id old new Hn Hs (t & b & ->)
    |nid n id old svc idx m1 t Hn Hs Hd Hci Hnx|nid n id svc svc' m' Hn Hs Hr|nid|o nid n Hn];
    simpl; autorewrite with store; try done.
  - by injection Hc as <- <-.
  - apply overwrite_service_nodes in Ho as (-> & _ & -> & _). done.
  - by injection Hnx as <- <-.
  - apply remove_service_nodes in Hr as (-> & _ & -> & _). done.
  - destruct (deregister_loop_spec nid (meta n) (range (services n)) m []) as [_ _ Hi He _ _].
    rewrite He, Hi. simpl. rewrite delete_events_advance. split; [done|]. apply delete_events_numbered.
Qed.

Lemma prims_index m evs m' :
  prims m evs m' → index m' = advance (index m) evs ∧ numbered (index m) evs.
Proof.
  induction 1 as [|evs m' evs' m'' _ [IH1 IH2] [Hp1 Hp2]%prim_index]; [done|].
  rewrite advance_app, <-IH1. split; [done|]. apply numbered_app; [done|]. by rewrite <-IH1.
Qed.

(** ** What a micro-step does to the records

    The effect of a micro-step on the record store, as a reader of
    [lookup_service] sees it: nothing but lease refreshes; one record written
    under the next index and announced by a Put; one record removed and announced
    by a Delete; all the records of a node removed, each announced. *)

Inductive effect (m : Memory) : list ChangeEvent → Memory → Prop :=
  | effect_silent m' :
      index m' = index m →
      (∀ nid id, lookup_service m' nid id = lookup_service m nid id ∨
         ∃ old new, lookup_service m nid id = Some old ∧ lookup_service m' nid id = Some new ∧
           refreshed old new) →
      effect m [] m'
  | effect_put m' mt id svc t :
      index m' = u64 (index m + 1) → modifyIndex svc = u64 (index m + 1) →
      Svc_ID (def svc) = id →
      createIndex svc = match lookup_service m (Node_ID mt) id with
                        | Some old => createIndex old | None => u64 (index m + 1) end →
      (∀ nid' id', lookup_service m' nid' id' =
         if decide ((Node_ID mt, id) = (nid', id')) then Some svc else lookup_service m nid' id') →
      effect m [putEvent m' mt svc t] m'
  | effect_delete m' mt id svc :
      index m' = u64 (index m + 1) → Svc_ID (def svc) = id →
      lookup_service m (Node_ID mt) id = Some svc →
      (∀ nid' id', lookup_service m' nid' id' =
         if decide ((Node_ID mt, id) = (nid', id')) then None else lookup_service m nid' id') →
      effect m [deleteEvent mt (with_modifyIndex (u64 (index m + 1)) svc)] m'
  | effect_deregister m' mt svcs :
      index m' = foldl (λ i _, u64 (i + 1)) (index m) svcs →
      (∀ id svc, (id, svc) ∈ svcs ↔ lookup_service m (Node_ID mt) id = Some svc) →
      (∀ nid' id', lookup_service m' nid' id' =
         if decide (Node_ID mt = nid') then None else lookup_service m nid' id') →
      effect m (delete_events mt (index m) svcs) m'.

Lemma lookup_service_nodes m m' nid id :
  nodes m = nodes m' → lookup_service m nid id = lookup_service m' nid id.
Proof. unfold lookup_service. by intros ->. Qed.

Lemma prim_effect m evs m' : wf m → prim m evs m' → effect m evs m'.
Proof.
  intros Hwf Hp. destruct Hp as [mt|mt n d svc m' t Hn Hmt Hs Hid Hcl Hcap Hc
    |mt n old svc svc' m' t Hn Hmt Hs Hcl Hci Hmn Ho|nid n id old new Hn Hs Href
    |nid n id old svc idx m1 t Hn Hs Hd Hci Hnx|nid n id svc svc' m' Hn Hs Hr|nid|o nid n Hn];
    try (assert (Hnid : Node_ID (meta n) = nid) by (by apply (wf_node _ Hwf))).
  - apply effect_silent; [by autorewrite with store|]. setoid_rewrite lookup_ensure_node. eauto.
  - injection Hc as <- <-. apply (effect_put m _ mt (Svc_ID d)); try done.
    + by rewrite (lookup_service_node _ _ _ n), Hs.
    + intros. rewrite <-(lookup_put_service m) by eauto. done.
  - apply overwrite_service_nodes in Ho as (-> & _ & Hix & Hnodes).
    apply (effect_put m _ mt (Svc_ID (def svc))); try done.
    + by rewrite (lookup_service_node _ _ _ n), Hs.
    + intros. rewrite <-(lookup_put_service m) by eauto. by apply lookup_service_nodes.
  - apply effect_silent; [done|]. intros nid' id'. rewrite lookup_put_service by eauto.
    case_decide; simplify_eq; [|by left]. right. exists old, new.
    by rewrite (lookup_service_node _ _ _ n).
  - injection Hnx as <- <-.
    assert (Hl : lookup_service m nid id = Some old) by (by rewrite (lookup_service_node _ _ _ n)).
    apply (effect_put m _ (meta n) id); try done; rewrite ?Hnid.
    + simpl. rewrite Hd. by eapply (wf_svc _ Hwf).
    + by rewrite Hl.
    + intros. rewrite <-(lookup_put_service m) by eauto. done.
  - apply remove_service_nodes in Hr as (-> & _ & Hix & Hnodes).
    assert (Hl : lookup_service m nid id = Some svc) by (by rewrite (lookup_service_node _ _ _ n)).
    apply (effect_delete m _ (meta n) id); try done; rewrite ?Hnid; [by eapply (wf_svc _ Hwf)|done|].
    intros. rewrite <-lookup_del_service. by apply lookup_service_nodes.
  - apply effect_silent; [by autorewrite with store|]. setoid_rewrite lookup_drop_empty. eauto.
  - destruct (deregister_loop_spec nid (meta n) (range (services n)) m []) as [_ _ Hi -> _ _].
    apply effect_deregister; simpl; [done|..].
    + intros id svc. rewrite elem_of_range, Hnid. by rewrite (lookup_service_node _ _ _ n).
    + intros nid' id'. unfold lookup_service; simpl. rewrite lookup_delete, Hnid. by case_decide.
Qed.

(** ** Stored indexes

    As long as the counter does not wrap around, every stored index lies in the
    range handed out so far, and no two records share a ModifyIndex. *)

Record idx_ok (m : Memory) : Prop := {
  idx_range : 0 <= index m;
  idx_stored : ∀ nid id svc, lookup_service m nid id = Some svc →
    createIndex svc <= modifyIndex svc <= index m;
  idx_distinct : ∀ nid id svc nid' id' svc',
    lookup_service m nid id = Some svc → lookup_service m nid' id' = Some svc' →
    modifyIndex svc = modifyIndex svc' → (nid, id) = (nid', id')
}.

Lemma idx_ok_sub m m' :
  idx_ok m → index m <= index m' →
  (∀ nid id svc, lookup_service m' nid id = Some svc →
     ∃ svc0, lookup_service m nid id = Some svc0 ∧
       createIndex svc = createIndex svc0 ∧ modifyIndex svc = modifyIndex svc0) →
  idx_ok m'.
Proof.
  intros [H1 H2 H3] Hi Hl. split; [lia|..].
  - intros nid id svc (svc0 & Hs & -> & ->)%Hl. apply H2 in Hs. lia.
  - intros nid id svc nid' id' svc' (s0 & Hs & _ & ->)%Hl (s1 & Hs' & _ & ->)%Hl.
    by eapply H3.
Qed.

Lemma idx_ok_new m m' nid id svc :
  idx_ok m → index m' = index m + 1 → modifyIndex svc = index m + 1 →
  createIndex svc <= index m + 1 →
  (∀ nid' id', lookup_service m' nid' id' =
     if decide ((nid, id) = (nid', id')) then Some svc else lookup_service m nid' id') →
  idx_ok m'.
Proof.
  intros [H1 H2 H3] Hi Hm Hc Hl. split; [lia|..].
  - intros nid' id' svc'. rewrite Hl, Hi. case_decide; [intros; simplify_eq; lia|].
    intros ?%H2. lia.
  - intros n1 i1 s1 n2 i2 s2. rewrite !Hl.
    repeat case_decide; intros E1 E2; simplify_eq; try done.
    + apply H2 in E2. lia.
    + apply H2 in E1. lia.
    + by eapply H3.
Qed.

Lemma u64_succ i : 0 <= i → i + 1 < 2 ^ 64 → u64 (i + 1) = i + 1.
Proof. intros. apply u64_small. unfold is_u64. lia. Qed.

Lemma idx_ok_effect m evs m' :
  effect m evs m' → index m + Z.of_nat (length evs) < 2 ^ 64 → advance (index m) evs = index m' →
  idx_ok m → idx_ok m'.
Proof.
  intros He Hlt Hi Hok. pose proof (idx_range _ Hok) as H0.
  assert (Hix : index m' = index m + Z.of_nat (length evs)).
  { rewrite <-Hi, advance_u64 by (unfold is_u64; lia). apply u64_small. unfold is_u64. lia. }
  destruct He as [m' _ Hl|m' mt id svc t _ Hm Hid Hc Hl|m' mt id svc _ Hid Hs Hl|m' mt svcs _ Hs Hl];
    simpl in Hlt, Hix.
  - apply (idx_ok_sub m); [done|lia|]. intros nid id svc Hs.
    destruct (Hl nid id) as [E|(old & new & E1 & E2 & t & b & ->)]; [rewrite E in Hs; eauto|].
    rewrite E2 in Hs. injection Hs as <-. exists old. done.
  - rewrite u64_succ in Hm, Hc by lia. apply (idx_ok_new m m' (Node_ID mt) id svc); [done|lia..| |done].
    rewrite Hc. destruct (lookup_service m (Node_ID mt) id) eqn:E; [|lia].
    apply (idx_stored _ Hok) in E. lia.
  - apply (idx_ok_sub m); [done|lia|]. intros nid' id' svc'. rewrite Hl. case_decide; [done|eauto].
  - apply (idx_ok_sub m); [done|lia|]. intros nid' id' svc'. rewrite Hl. case_decide; [done|eauto].
Qed.

Lemma idx_ok_prims m evs m' :
  prims m evs m' → wf m → index m + Z.of_nat (length evs) < 2 ^ 64 → idx_ok m →
  idx_ok m' ∧ index m' = index m + Z.of_nat (length evs).
Proof.
  induction 1 as [|evs m' evs' m'' Hps IH Hp]; intros Hwf Hlt Hok; [simpl; split; [done|lia]|].
  rewrite length_app in *. destruct IH as [IH1 IH2]; [done|lia|done|].
  pose proof (idx_range _ Hok). destruct (prim_index _ _ _ Hp) as [Hi _]. split.
  - eapply idx_ok_effect; [eapply prim_effect; [by eapply wf_prims|done]|lia|done|done].
  - rewrite Hi, advance_u64, u64_small by (unfold is_u64; lia). lia.
Qed.
