(* ===== verification/StoreSpec.v ===== *)
(** What the seed registry promises, proved of every state a store reaches
    ([Store.v]) from the invariants of [StoreInv.v]: the name index, the leases
    and identities are well formed; the cap holds; indexes count the events; the
    event stream, replayed, rebuilds the registry; a lookup answers exactly the
    matching live instances, by name index or by scan alike. *)

From Stdlib Require Import ZArith Lia.
From stdpp Require Import sorting base gmap list strings.
From S2P Require Import Prelude GoStrings Model Health Store StoreSteps StoreInv.

#[local] Open Scope Z_scope.

(** ** Replaying the event stream

    The contract of the change events, as an abstract registry: a Put stores the
    entry under its identity, a Delete removes it. *)

Definition replay1 (r : gmap (string * string) ServiceEntry) (ev : ChangeEvent)
  : gmap (string * string) ServiceEntry :=
  match Event_Type ev with
  | ChangePut => <[entry_key (Event_Entry ev) := Event_Entry ev]> r
  | ChangeDelete => delete (entry_key (Event_Entry ev)) r
  | _ => r
  end.

Definition replay (evs : list ChangeEvent) : gmap (string * string) ServiceEntry :=
  foldl replay1 ∅ evs.

(** What an entry, and a record, say of an instance apart from its lease: a
    renewal emits no event, and the health is recomputed at every read. *)
Definition entry_view (e : ServiceEntry) : ServiceInstance * bool * Z * Z :=
  (with_LastSeen zeroTime (Entry_Service e), Entry_Maintenance e,
   Entry_CreateIndex e, Entry_ModifyIndex e).

Definition record_view (svc : service) : ServiceInstance * bool * Z * Z :=
  (with_LastSeen zeroTime (def svc), maintenance svc, createIndex svc, modifyIndex svc).

Definition replays (r : gmap (string * string) ServiceEntry) (m : Memory) : Prop :=
  ∀ nid id, entry_view <$> r !! (nid, id) = record_view <$> lookup_service m nid id.

Lemma refreshed_view old new : refreshed old new → record_view new = record_view old.
Proof. by intros (t & b & ->). Qed.

Lemma replay_deletes mt svcs i r k :
  foldl replay1 r (delete_events mt i svcs) !! k =
    if decide (k ∈ (λ p, (Node_ID mt, Svc_ID (def p.2))) <$> svcs) then None else r !! k.
Proof.
  revert i r. induction svcs as [|[id svc] svcs IH]; intros i r; [done|].
  cbn [delete_events foldl]. rewrite IH. unfold replay1; simpl. rewrite lookup_delete.
  unfold entry_key; simpl. repeat case_decide; set_solver.
Qed.

Lemma replays_effect m evs m' r :
  wf m → effect m evs m' → replays r m → replays (foldl replay1 r evs) m'.
Proof.
  intros Hwf He Hr nid id. specialize (Hr nid id).
  destruct He as [m' _ Hl|m' mt sid svc t _ Hm Hid Hc Hl|m' mt sid svc _ Hid Hs Hl|m' mt svcs _ Hs Hl];
    simpl.
  - destruct (Hl nid id) as [->|(old & new & E1 & -> & Href)]; [done|].
    rewrite Hr, E1. simpl. by rewrite (refreshed_view old new).
  - rewrite Hl. unfold replay1; simpl. rewrite lookup_insert. unfold entry_key; simpl. rewrite Hid.
    by case_decide.
  - rewrite Hl. unfold replay1; simpl. rewrite lookup_delete. unfold entry_key; simpl. rewrite Hid.
    by case_decide.
  - rewrite replay_deletes, Hl. case_decide as Hin; case_decide as Hn; try done.
    + apply list_elem_of_fmap in Hin as ([? ?] & ? & ?). simplify_eq.
    + rewrite Hr. destruct (lookup_service m nid id) as [svc|] eqn:E; [|done].
      destruct Hin. apply list_elem_of_fmap. exists (id, svc).
      destruct (wf_svc _ Hwf _ _ _ E) as [Hid _]. simpl. rewrite Hid, Hn. split; [done|].
      by rewrite Hs, Hn.
Qed.

Lemma replays_prims m evs m' r :
  prims m evs m' → wf m → replays r m → replays (foldl replay1 r evs) m'.
Proof.
  induction 1 as [|evs m' evs' m'' Hps IH Hp]; intros Hwf Hr; [done|].
  rewrite foldl_app. assert (wf m') by (by eapply wf_prims).
  eapply replays_effect; [done|by apply prim_effect|auto].
Qed.

(** ** A concrete run (used by the witnesses) *)

Definition sampleOptions : Options := mkOptions (30 * second) 0 0 (60 * second) 100 10.

Definition sampleNode (nid : string) : Node := mkNode nid nid "10.0.0.1" "dc1" ∅ ∅.

Definition sampleService (id name : string) (tags : list string) : ServiceInstance :=
  mkService id name "10.0.0.1" 8080 tags ∅ DefaultWeights 0 zeroTime 0.

Definition sampleOp : Op :=
  OpRegister (mkRegistration (sampleNode "n1")
    [sampleService "" "web" ["v1"%string]; sampleService "db-1" "db" []] 1).

Definition sampleRun : Memory * list ChangeEvent :=
  @apply list_order (frozen (1000 * second)) sampleOp (NewMemory sampleOptions).

Lemma reachable_first (r : MapRange) o clk op :
  reachable o (apply clk op (NewMemory o)).1 (apply clk op (NewMemory o)).2.
Proof.
  apply (reach_step o (NewMemory o) [] op); [constructor|]. apply (step_apply _ op r clk).
Qed.

Lemma sampleRun_reachable : reachable sampleOptions sampleRun.1 sampleRun.2.
Proof. exact (reachable_first list_order sampleOptions (frozen (1000 * second)) sampleOp). Qed.

(** ** Claims *)

(** C1: in every state the registry reaches, under any interleaving of its
    operations, any clock and any map iteration order: nodes are stored under their
    own non-empty ID, instances under their own non-empty ID with a TTL inside the
    configured bounds, and the name index holds exactly the stored (node, service)
    pairs of each name, with no empty bucket. *)
Theorem registry_invariant (o : Options) (m : Memory) (evs : list ChangeEvent) :
  reachable o m evs → wf m.
Proof. apply wf_reachable. Qed.

Lemma registry_invariant_witness : wf sampleRun.1.
Proof. apply (registry_invariant sampleOptions _ sampleRun.2), sampleRun_reachable. Defined.

(** The number of stored instances never exceeds a configured [MaxServices],
    through Register and through Merge alike, and [Size] reports that number. *)
Theorem registry_cap `{MapRange} (o : Options) (m : Memory) (evs : list ChangeEvent) :
  reachable o m evs →
  Size m = total m ∧ (0 < MaxServices o → Size m <= MaxServices o).
Proof.
  intros Hr%reachable_prims. unfold Size. rewrite sizeLocked_total. split; [done|].
  assert (Hc : capped m).
  { eapply (prims_preserve capped); [intros; by eapply capped_prim|done|].
    intros ?. change (total (NewMemory o)) with 0. lia. }
  unfold capped in Hc. rewrite (prims_opts _ _ _ Hr) in Hc.
  unfold NewMemory in Hc. simpl in Hc. destruct (DefaultTTL o <=? 0); done.
Qed.

Lemma registry_cap_witness :
  @Size list_order sampleRun.1 = 2 ∧ @Size list_order sampleRun.1 <= 10.
Proof.
  split; [vm_compute; reflexivity|].
  apply (@registry_cap list_order sampleOptions _ sampleRun.2); [apply sampleRun_reachable|].
  vm_compute; reflexivity.
Defined.

(** The registry index is the start index plus the number of events emitted
    (modulo 2^64): every change takes exactly one index, the k-th event ever
    emitted carries the k-th index, and its entry's ModifyIndex is that index. *)
Theorem index_counts_events (o : Options) (m : Memory) (evs : list ChangeEvent) :
  is_u64 (StartIndex o) → reachable o m evs →
  Index m = u64 (StartIndex o + Z.of_nat (length evs)) ∧ numbered (StartIndex o) evs ∧
  ∀ k ev, evs !! k = Some ev → Event_Index ev = u64 (StartIndex o + Z.of_nat k + 1).
Proof.
  intros Hs [Hi Hn]%reachable_prims%prims_index.
  unfold Index. rewrite Hi. simpl in *. rewrite advance_u64 by done.
  split_and!; [done|done|]. intros k ev. by apply numbered_lookup.
Qed.

Lemma index_counts_events_witness :
  Index sampleRun.1 = 102 ∧ Index sampleRun.1 = u64 (100 + Z.of_nat (length sampleRun.2)).
Proof.
  split; [vm_compute; reflexivity|].
  apply (index_counts_events sampleOptions); [unfold is_u64; simpl; lia|apply sampleRun_reachable].
Defined.

(** Until the 64-bit index wraps around, every stored CreateIndex is at most
    its ModifyIndex, which is at most the registry index, and no two instances
    share a ModifyIndex. *)
Theorem stored_indexes_bounded (o : Options) (m : Memory) (evs : list ChangeEvent) :
  0 <= StartIndex o → StartIndex o + Z.of_nat (length evs) < 2 ^ 64 →
  reachable o m evs → idx_ok m.
Proof.
  intros H0 Hlt Hr%reachable_prims.
  eapply idx_ok_prims; [done|apply wf_new|done|].
  split; [done|..]; intros; unfold lookup_service in *; simpl in *;
    by rewrite lookup_empty in *.
Qed.

Lemma stored_indexes_bounded_witness : idx_ok sampleRun.1.
Proof.
  apply (stored_indexes_bounded sampleOptions _ sampleRun.2);
    [simpl; lia|vm_compute; reflexivity|apply sampleRun_reachable].
Defined.

(** C2: the event stream is complete: replaying all the events a registry ever
    emitted (Put stores, Delete removes, by identity) rebuilds every stored
    instance, with its definition, maintenance flag and indexes, and nothing
    else; only lease refreshes are silent. *)
Theorem events_rebuild_registry (o : Options) (m : Memory) (evs : list ChangeEvent) :
  reachable o m evs →
  ∀ nid id, entry_view <$> replay evs !! (nid, id) = record_view <$> lookup_service m nid id.
Proof.
  intros Hr%reachable_prims. apply (replays_prims _ _ _ ∅ Hr); [apply wf_new|].
  intros nid id. unfold lookup_service; simpl. by rewrite !lookup_empty.
Qed.

Lemma events_rebuild_registry_witness :
  entry_view <$> replay sampleRun.2 !! ("n1", "web")%string =
    record_view <$> lookup_service sampleRun.1 "n1" "web" ∧
  is_Some (lookup_service sampleRun.1 "n1" "web").
Proof.
  split; [|vm_compute; eexists; reflexivity].
  apply (events_rebuild_registry sampleOptions), sampleRun_reachable.
Defined.
