(* ===== verification/StoreLookup.v ===== *)
(** The read path of the registry: [Lookup] answers exactly the matching live
    instances, once each and in order; the named path through [byName] and the
    scan agree; the answer does not depend on map iteration order. *)

From Stdlib Require Import ZArith Lia.
From stdpp Require Import sorting base gmap list strings.
From S2P Require Import Prelude GoStrings Model Health Store StoreSteps StoreInv StoreSpec.

#[local] Open Scope Z_scope.

(** ** What a query asks for *)

(** The instance [svc] of node [n] is to be answered at [now]. *)
Record answers (m : Memory) (q : Query) (now : Z) (n : node) (svc : service) : Prop := {
  ans_name : Query_Name q = ""%string ∨ Svc_Name (def svc) = Query_Name q;
  ans_dc : Query_Datacenter q = ""%string ∨ Node_Datacenter (meta n) = Query_Datacenter q;
  ans_tags : ∀ t, t ∈ Query_Tags q → t ∈ Svc_Tags (def svc);
  ans_live : (lease m svc now).2 = false
}.

(** The tests of [visit], apart from the name. *)
Definition visited (m : Memory) (q : Query) (now : Z) (n : node) (svc : service) : Prop :=
  (Query_Datacenter q = ""%string ∨ Node_Datacenter (meta n) = Query_Datacenter q) ∧
  (∀ t, t ∈ Query_Tags q → t ∈ Svc_Tags (def svc)) ∧ (lease m svc now).2 = false.

Lemma elem_of_visit m q now n svc e :
  e ∈ visit m q now n svc ↔
  visited m q now n svc ∧ e = entry (meta n) svc (lease m svc now).1.
Proof.
  unfold visit, visited. destruct (MatchesTags (def svc) (Query_Tags q)) eqn:Ht;
    [pose proof (proj1 (MatchesTags_spec _ _) Ht)
    |assert (¬ ∀ t, t ∈ Query_Tags q → t ∈ Svc_Tags (def svc))
       by (rewrite <-MatchesTags_spec, Ht; done)];
    destruct (lease m svc now) as [st []]; repeat case_bool_decide; simpl;
    rewrite ?list_elem_of_singleton, ?elem_of_nil; naive_solver.
Qed.

Lemma visit_NoDup m q now n svc : NoDup (visit m q now n svc).
Proof. unfold visit. repeat case_match; repeat constructor; set_solver. Qed.

Section Lookup.
Context `{MapRange}.
Implicit Types (m : Memory) (q : Query).

Lemma elem_of_visit_all m q now e :
  e ∈ visit_all m q now ↔
  ∃ nid n id svc, nodes m !! nid = Some n ∧ services n !! id = Some svc ∧
    visited m q now n svc ∧ e = entry (meta n) svc (lease m svc now).1.
Proof.
  unfold visit_all. rewrite list_elem_of_bind. split.
  - intros ([nid n] & ([id svc] & He & Hs)%list_elem_of_bind & Hn).
    apply elem_of_range in Hn, Hs. apply elem_of_visit in He. naive_solver.
  - intros (nid & n & id & svc & Hn & Hs & Hv & ->). exists (nid, n). simpl.
    rewrite elem_of_range, list_elem_of_bind. split; [|done]. exists (id, svc).
    by rewrite elem_of_range, elem_of_visit.
Qed.

Lemma elem_of_ref_keys m name r :
  r ∈ (range (gset_to_gmap () (refs m name))).*1 ↔ r ∈ refs m name.
Proof.
  rewrite list_elem_of_fmap. split.
  - intros ([r' []] & -> & Hr%elem_of_range). by apply lookup_gset_to_gmap_Some in Hr as [? _].
  - intros Hr. exists (r, ()). split; [done|]. apply elem_of_range. by rewrite lookup_gset_to_gmap_Some.
Qed.

Lemma elem_of_visit_named m q now e :
  wf m →
  e ∈ visit_named m q now ↔
  ∃ nid n id svc, nodes m !! nid = Some n ∧ services n !! id = Some svc ∧
    Svc_Name (def svc) = Query_Name q ∧
    visited m q now n svc ∧ e = entry (meta n) svc (lease m svc now).1.
Proof.
  intros Hwf. unfold visit_named. rewrite list_elem_of_bind. split.
  - intros ([nid id] & He & Hr%elem_of_ref_keys). simpl in He.
    apply (wf_refs _ Hwf) in Hr as (svc & (n & Hn & Hs)%lookup_service_is_Some & Hnm).
    rewrite Hn, Hs, elem_of_visit in He. naive_solver.
  - intros (nid & n & id & svc & Hn & Hs & Hnm & Hv). exists (nid, id). simpl.
    rewrite Hn, Hs, elem_of_visit. split; [done|]. apply elem_of_ref_keys, (wf_refs _ Hwf).
    exists svc. by rewrite (lookup_service_node _ _ _ n).
Qed.

(** A visited entry carries the identity under which its record is stored. *)
Lemma visit_key m q now nid n id svc e :
  wf m → nodes m !! nid = Some n → services n !! id = Some svc →
  e ∈ visit m q now n svc → entry_key e = (nid, id).
Proof.
  intros Hwf Hn Hs [_ ->]%elem_of_visit. unfold entry_key; simpl.
  rewrite (proj1 (wf_node _ Hwf _ _ Hn)).
  f_equal. eapply (wf_svc _ Hwf). by rewrite (lookup_service_node _ _ _ n).
Qed.

Lemma visit_all_NoDup m q now : wf m → NoDup (visit_all m q now).
Proof.
  intros Hwf. unfold visit_all. apply NoDup_bind; [| |apply NoDup_range].
  - intros [n1 x1] [n2 x2] e Hn1%elem_of_range Hn2%elem_of_range
      ([i1 s1] & Hv1 & Hs1%elem_of_range)%list_elem_of_bind
      ([i2 s2] & Hv2 & Hs2%elem_of_range)%list_elem_of_bind. simpl in *.
    pose proof (visit_key _ _ _ _ _ _ _ _ Hwf Hn1 Hs1 Hv1).
    pose proof (visit_key _ _ _ _ _ _ _ _ Hwf Hn2 Hs2 Hv2). congruence.
  - intros [n x] Hn%elem_of_range. apply NoDup_bind; [|intros; apply visit_NoDup|apply NoDup_range].
    intros [i1 s1] [i2 s2] e Hs1%elem_of_range Hs2%elem_of_range Hv1 Hv2; simpl in *.
    pose proof (visit_key _ _ _ _ _ _ _ _ Hwf Hn Hs1 Hv1).
    pose proof (visit_key _ _ _ _ _ _ _ _ Hwf Hn Hs2 Hv2). congruence.
Qed.

Lemma visit_named_NoDup m q now : wf m → NoDup (visit_named m q now).
Proof.
  intros Hwf. unfold visit_named. apply NoDup_bind; [| |apply NoDup_range_fst].
  - intros [n1 i1] [n2 i2] e _ _. simpl.
    destruct (nodes m !! n1) as [x1|] eqn:Hn1; [|set_solver].
    destruct (services x1 !! i1) as [s1|] eqn:Hs1; [|set_solver].
    destruct (nodes m !! n2) as [x2|] eqn:Hn2; [|set_solver].
    destruct (services x2 !! i2) as [s2|] eqn:Hs2; [|set_solver]. intros Hv1 Hv2.
    pose proof (visit_key _ _ _ _ _ _ _ _ Hwf Hn1 Hs1 Hv1).
    pose proof (visit_key _ _ _ _ _ _ _ _ Hwf Hn2 Hs2 Hv2). congruence.
  - intros [n1 i1] _. simpl. destruct (nodes m !! n1); [|constructor].
    destruct (services _ !! i1); [apply visit_NoDup|constructor].
Qed.

(** The entries before sorting, on either path. *)
Definition found (m : Memory) (q : Query) (now : Z) : list ServiceEntry :=
  if bool_decide (Query_Name q = ""%string) then visit_all m q now else visit_named m q now.

Lemma elem_of_found m q now e :
  wf m →
  e ∈ found m q now ↔
  ∃ nid n id svc, nodes m !! nid = Some n ∧ services n !! id = Some svc ∧
    answers m q now n svc ∧ e = entry (meta n) svc (lease m svc now).1.
Proof.
  intros Hwf. unfold found. case_bool_decide as Hq.
  - rewrite elem_of_visit_all. unfold visited.
    split; intros (nid & n & id & svc & H1 & H2 & H3 & H4); exists nid, n, id, svc.
    + split; [done|]. split; [done|]. split; [split; naive_solver|done].
    + destruct H3. split_and!; done.
  - rewrite elem_of_visit_named by done. unfold visited.
    split; [intros (nid & n & id & svc & H1 & H2 & H3 & H4 & H5)
           |intros (nid & n & id & svc & H1 & H2 & H3 & H4)]; exists nid, n, id, svc.
    + split; [done|]. split; [done|]. split; [split; naive_solver|done].
    + destruct H3. split_and!; naive_solver.
Qed.

Lemma found_NoDup_keys m q now : wf m → NoDup (entry_key <$> found m q now).
Proof.
  intros Hwf. apply NoDup_fmap_2_strong.
  - intros e1 e2 (n1 & x1 & i1 & s1 & Hn1 & Hs1 & Ha1 & ->)%elem_of_found
      (n2 & x2 & i2 & s2 & Hn2 & Hs2 & Ha2 & ->)%elem_of_found; [|done|done].
    intros Hk.
    assert (Hkey : ∀ nid n id svc, nodes m !! nid = Some n → services n !! id = Some svc →
              entry_key (entry (meta n) svc (lease m svc now).1) = (nid, id)).
    { intros nid n id svc Hn Hs. unfold entry_key; simpl.
      rewrite (proj1 (wf_node _ Hwf _ _ Hn)). f_equal.
      eapply (wf_svc _ Hwf). by rewrite (lookup_service_node _ _ _ n). }
    rewrite (Hkey _ _ _ _ Hn1 Hs1), (Hkey _ _ _ _ Hn2 Hs2) in Hk. congruence.
  - unfold found. case_bool_decide; [by apply visit_all_NoDup|by apply visit_named_NoDup].
Qed.

Lemma Lookup_found clk q m : Lookup clk q m = mkLookup (sort_entries (found m q (clk O))) (index m).
Proof. done. Qed.

End Lookup.

Lemma elem_of_Lookup `{MapRange} clk q m e :
  wf m →
  e ∈ Lookup_Entries (Lookup clk q m) ↔
  ∃ nid n id svc, nodes m !! nid = Some n ∧ services n !! id = Some svc ∧
    answers m q (clk O) n svc ∧ e = entry (meta n) svc (lease m svc (clk O)).1.
Proof.
  intros Hwf. rewrite Lookup_found. simpl. unfold sort_entries. rewrite elem_of_sort_slice.
  by apply elem_of_found.
Qed.

(** C6: a lookup answers exactly the stored instances whose name, datacenter and
    tags match the query and whose lease has not run out of its grace period, each
    once, sorted by (node, service), with the health of its lease, together with
    the current registry index; the answer is the same for every map iteration
    order. *)
Theorem Lookup_correct `{MapRange} (clk : Clock) (q : Query) (m : Memory) :
  wf m →
  Lookup_Index (Lookup clk q m) = index m ∧
  (∀ e, e ∈ Lookup_Entries (Lookup clk q m) ↔
     ∃ nid n id svc, nodes m !! nid = Some n ∧ services n !! id = Some svc ∧
       answers m q (clk O) n svc ∧ e = entry (meta n) svc (lease m svc (clk O)).1) ∧
  NoDup (entry_key <$> Lookup_Entries (Lookup clk q m)) ∧
  StronglySorted (not_less (key_less entry_key)) (Lookup_Entries (Lookup clk q m)) ∧
  (∀ o o' : MapRange, @Lookup o clk q m = @Lookup o' clk q m).
Proof.
  intros Hwf. split_and!; [done|intros; by apply elem_of_Lookup| | |].
  - simpl. unfold sort_entries. rewrite sort_slice_perm. by apply found_NoDup_keys.
  - apply sort_slice_sorted; apply _.
  - intros o o'. rewrite !Lookup_found. 
    enough (Hs : sort_entries (@found o m q (clk O)) = sort_entries (@found o' m q (clk O)))
      by (by rewrite Hs).
    apply sort_by_key_ext; [|by apply found_NoDup_keys].
    apply (NoDup_key_perm entry_key); [by apply found_NoDup_keys..|].
    intros e. by rewrite !elem_of_found.
Qed.

Lemma Lookup_correct_witness :
  @Lookup list_order (frozen (1010 * second)) (mkQuery "web" "dc1" ["v1"%string] false) sampleRun.1 =
    mkLookup [mkEntry (sampleNode "n1")
      (mkService "web" "web" "10.0.0.1" 8080 ["v1"%string] ∅ DefaultWeights (30 * second)
         (1000 * second) 1) HealthPassing false 101 101] 102 ∧
  NoDup (entry_key <$> Lookup_Entries (@Lookup list_order (frozen (1010 * second)) zeroQuery sampleRun.1)).
Proof.
  split; [vm_compute; reflexivity|].
  apply (@Lookup_correct list_order), (wf_reachable sampleOptions _ sampleRun.2), sampleRun_reachable.
Defined.

(** The name index is an optimisation only: a named lookup returns the same
    slice as scanning the whole registry and keeping the entries of that name. *)
Theorem Lookup_named_is_scan `{MapRange} (clk : Clock) (q : Query) (m : Memory) :
  wf m → Query_Name q ≠ ""%string →
  Lookup_Entries (Lookup clk q m) =
  filter (λ e, Svc_Name (Entry_Service e) = Query_Name q)
    (Lookup_Entries (Lookup clk
       (mkQuery "" (Query_Datacenter q) (Query_Tags q) (Query_OnlyHealthy q)) m)).
Proof.
  intros Hwf Hq. rewrite !Lookup_found. simpl. set (q0 := mkQuery _ _ _ _).
  apply (sort_slice_filter entry_key); [by apply found_NoDup_keys..|].
  intros e. rewrite !elem_of_found by done. simpl. split.
  - intros (nid & n & id & svc & Hn & Hs & [H1 H2 H3 H4] & ->). split.
    + simpl. naive_solver.
    + exists nid, n, id, svc. split_and!; [done|done| |done]. split; simpl; auto.
  - intros [Hnm (nid & n & id & svc & Hn & Hs & [H1 H2 H3 H4] & ->)].
    exists nid, n, id, svc. split_and!; [done|done| |done]. split; auto.
Qed.

Lemma Lookup_named_is_scan_witness :
  Lookup_Entries (@Lookup list_order (frozen (1010 * second)) (mkQuery "db" "" [] false) sampleRun.1) =
  filter (λ e, Svc_Name (Entry_Service e) = "db"%string)
    (Lookup_Entries (@Lookup list_order (frozen (1010 * second)) zeroQuery sampleRun.1)).
Proof.
  apply (@Lookup_named_is_scan list_order _ (mkQuery "db" "" [] false));
    [apply (wf_reachable sampleOptions _ sampleRun.2), sampleRun_reachable|discriminate].
Defined.
