(* ===== verification/StoreOps.v ===== *)
(** The functional behaviour of the registry's write operations, on every branch:
    what [Register] stores and when it is silent, what a renewal, a failed check,
    maintenance and a deregistration do to the records, and what they leave alone. *)

From Stdlib Require Import ZArith Lia.
From stdpp Require Import base gmap list strings.
From S2P Require Import Prelude GoStrings Model Health Store StoreSteps StoreInv StoreSpec.

#[local] Open Scope Z_scope.

#[local] Arguments create_service : simpl never.
#[local] Arguments overwrite_service : simpl never.
#[local] Arguments remove_service : simpl never.

(** ** Comparison of two definitions *)

Lemma equalStrings_spec a b : equalStrings a b = true ↔ a = b.
Proof.
  unfold equalStrings. destruct (Nat.eqb_spec (length a) (length b)) as [E|E]; simpl.
  - revert b E. induction a as [|x a IH]; intros [|y b] E; simpl in *; try done.
    rewrite andb_true_iff, IH by lia. case_bool_decide; naive_solver.
  - split; [done|]. intros ->. done.
Qed.

Lemma equalMap_refl a : equalMap a a = true.
Proof.
  unfold equalMap. rewrite Nat.eqb_refl. simpl. apply forallb_forall.
  intros [k v] Hin%list_elem_of_In%elem_of_map_to_list. simpl. rewrite Hin. simpl.
  by apply bool_decide_eq_true.
Qed.

(** Without empty values in the first map, the comparison is equality. *)
Lemma equalMap_eq a b :
  (∀ k, a !! k ≠ Some ""%string) → equalMap a b = true ↔ a = b.
Proof.
  intros Hne. split; [|intros ->; apply equalMap_refl].
  unfold equalMap. destruct (Nat.eqb_spec (size a) (size b)) as [E|E]; simpl; [|done].
  rewrite forallb_forall. intros Hall.
  assert (Hsub : a ⊆ b).
  { apply map_subseteq_spec. intros k v Hk.
    assert (Hin : In (k, v) (map_to_list a)) by (by apply list_elem_of_In, elem_of_map_to_list).
    specialize (Hall _ Hin). apply bool_decide_eq_true in Hall. simpl in Hall.
    destruct (b !! k); simpl in Hall; [congruence|]. subst v. by destruct (Hne k). }
  apply map_subseteq_size_eq; [done|lia].
Qed.

(** The lease instant plays no part in the comparison. *)
Lemma changed_LastSeen a b t u : changed (with_LastSeen t a) (with_LastSeen u b) = changed a b.
Proof. done. Qed.

Lemma changed_refl a : changed a a = false.
Proof.
  unfold changed. repeat (case_bool_decide; [done|]). simpl.
  rewrite equalMap_refl. by rewrite (proj2 (equalStrings_spec _ _)).
Qed.

(** ** Register *)

(** The ID under which an incoming service is stored. *)
Definition reg_id (i : ServiceInstance) : string :=
  if bool_decide (Svc_ID i = ""%string) then Svc_Name i else Svc_ID i.

Lemma incoming_id m gen now i : Svc_ID (incoming m gen now i) = reg_id i.
Proof. unfold incoming, reg_id. by case_bool_decide. Qed.

Lemma incoming_opts m m' gen now i : opts m = opts m' → incoming m gen now i = incoming m' gen now i.
Proof. unfold incoming, clampTTL. by intros ->. Qed.

Lemma incoming_LastSeen m gen now now' i :
  with_LastSeen now' (incoming m gen now i) = incoming m gen now' i.
Proof. done. Qed.

(** The record kept for the definition [d] registered at [now], when [old] was the
    record under its ID: a fresh one; the old one with the new definition and the
    health state reset; or the old one with its lease refreshed. *)
Definition stored (old : option service) (now : Z) (d : ServiceInstance) (svc : service) : Prop :=
  match old with
  | None => ∃ idx, svc = mkSvc d false false HealthPassing idx idx
  | Some s =>
      if changed (def s) d
      then ∃ idx, svc = with_modifyIndex idx (with_lastState HealthPassing (with_def d s))
      else svc = with_def (with_LastSeen now (def s)) s
  end.

Record registered1 (clk : Clock) (mt : Node) (gen now : Z) (i : ServiceInstance)
    (m : Memory) (events : list ChangeEvent) (m1 : Memory) (events1 : list ChangeEvent) : Prop := {
  r1_opts : opts m1 = opts m;
  r1_node : ∃ n1, nodes m1 !! Node_ID mt = Some n1 ∧ meta n1 = mt;
  r1_lookup : ∃ svc, stored (lookup_service m (Node_ID mt) (reg_id i)) now (incoming m gen now i) svc ∧
    ∀ nid' id', lookup_service m1 nid' id' =
      if decide ((Node_ID mt, reg_id i) = (nid', id')) then Some svc else lookup_service m nid' id';
  r1_silent : (∃ old, lookup_service m (Node_ID mt) (reg_id i) = Some old ∧
      changed (def old) (incoming m gen now i) = false) →
    events1 = events ∧ index m1 = index m
}.

(** One iteration of the loop: the cap stops it, or one record is stored. *)
Lemma register_loop_cons clk mt gen now i ins m size events n :
  nodes m !! Node_ID mt = Some n → meta n = mt →
  (lookup_service m (Node_ID mt) (reg_id i) = None ∧ at_capacity m size = true ∧
   register_loop clk mt gen now (i :: ins) m size events = (Some ErrCapacity, m, events)) ∨
  ∃ m1 size1 events1,
    register_loop clk mt gen now (i :: ins) m size events =
      register_loop clk mt gen now ins m1 size1 events1 ∧
    registered1 clk mt gen now i m events m1 events1 ∧ (size = total m → size1 = total m1) ∧
    size1 = size + (if lookup_service m (Node_ID mt) (reg_id i) is Some _ then 0 else 1) ∧
    (lookup_service m (Node_ID mt) (reg_id i) = None → at_capacity m size = false).
Proof.
  intros Hn Hmt. cbn [register_loop]. rewrite incoming_id.
  set (d := incoming m gen now i). assert (Hid : Svc_ID d = reg_id i) by apply incoming_id.
  pose proof (lookup_service_node m _ (reg_id i) n Hn) as Hsn.
  destruct (lookup_service m (Node_ID mt) (reg_id i)) as [svc|] eqn:Hs; [destruct (changed (def svc) d) eqn:Hch|].
  - right. destruct (overwrite_service _ _ _ m) as [svc' m1] eqn:Ho. eexists _, _, _. split; [done|].
    destruct (overwrite_service_spec _ _ (with_lastState HealthPassing (with_def d svc)) _ _ _ n svc
      Hn ltac:(cbn [def with_lastState with_def]; by rewrite Hid, <-Hsn) Ho) as (_ & Ht & _).
    split; [|split_and!; [by rewrite Ht|lia|done]].
    apply overwrite_service_nodes in Ho as (Hsvc & Hop & Hix & Hnodes).
    cbn [def with_lastState with_def] in Hnodes. rewrite Hid in Hnodes. split.
    + done.
    + rewrite Hnodes, put_service_nodes, Hn. simpl. rewrite decide_True by done. eauto.
    + exists svc'. split; [unfold stored; rewrite Hs; fold d; rewrite Hch; eauto|].
      intros. rewrite (lookup_service_nodes _ _ _ _ Hnodes). by apply lookup_put_service.
    + intros (old & Ho & Hc). fold d in Hc. congruence.
  - right. eexists _, _, _. split; [done|].
    split; [|split_and!; [rewrite (put_service_total m _ n _ _ svc); [done|done|by rewrite <-Hsn]|lia|done]].
    split.
    + done.
    + rewrite (put_service_lookup_node _ _ _ _ n) by done. eauto.
    + eexists. split; [unfold stored; rewrite Hs; fold d; rewrite Hch; done|].
      intros. by apply lookup_put_service.
    + done.
  - destruct (at_capacity m size) eqn:Hcap; [by left|]. right.
    destruct (create_service _ d m) as [svc m1] eqn:Hc. eexists _, _, _. split; [done|].
    destruct (create_service_spec _ _ _ _ _ n Hn Hc) as (Hop & Hn1 & Ht).
    split; [|split_and!; [rewrite Ht; [by intros ->|by rewrite Hid, <-Hsn]|done|done]]. split.
    + done.
    + rewrite Hn1. eauto.
    + unfold create_service in Hc. injection Hc as Hsvc Hm1. exists svc. rewrite Hs. simpl.
      split; [eauto|]. intros. rewrite <-Hid, <-(lookup_put_service m) by eauto.
      apply lookup_service_nodes. by rewrite <-Hm1, Hsvc.
    + intros (old & Ho & _). congruence.
Qed.

Record registered (mt : Node) (gen now : Z) (ins : list ServiceInstance) (m : Memory)
    (err : option StoreError) (m' : Memory) : Prop := {
  rg_opts : opts m' = opts m;
  rg_node : ∃ n', nodes m' !! Node_ID mt = Some n' ∧ meta n' = mt;
  rg_frame : ∀ nid id, nid ≠ Node_ID mt ∨ id ∉ reg_id <$> ins →
    lookup_service m' nid id = lookup_service m nid id;
  rg_err : err = None ∨
    (err = Some ErrCapacity ∧ 0 < MaxServices (opts m) ∧ MaxServices (opts m) <= total m');
  rg_stored : err = None → NoDup (reg_id <$> ins) → ∀ i, i ∈ ins → ∃ svc,
    lookup_service m' (Node_ID mt) (reg_id i) = Some svc ∧
    stored (lookup_service m (Node_ID mt) (reg_id i)) now (incoming m gen now i) svc
}.

Lemma register_loop_spec clk mt gen now ins m size events n err m' evs :
  nodes m !! Node_ID mt = Some n → meta n = mt → size = total m →
  register_loop clk mt gen now ins m size events = (err, m', evs) →
  registered mt gen now ins m err m'.
Proof.
  revert m size events n. induction ins as [|i ins IH]; intros m size events n Hn Hmt Hsz.
  { intros [= <- <- <-]. split; [done|eauto|done|by left|]. intros _ _ i Hi. by apply elem_of_nil in Hi. }
  destruct (register_loop_cons clk mt gen now i ins m size events n Hn Hmt)
    as [(Hl & Hcap & ->)|(m1 & size1 & events1 & -> & [Hop (n1 & Hn1 & Hmt1) (svc & Hst & Hl) _] & Ht & _)].
  { intros [= <- <- <-]. unfold at_capacity in Hcap. apply andb_true_iff in Hcap as [H1 H2].
    apply Z.ltb_lt in H1. apply Z.leb_le in H2. split; [done|eauto|done|right; split_and!; [done|lia..]|done]. }
  intros [Hop' Hn' Hfr Herr Hsto]%(IH _ _ _ n1); [|done..|auto]. split.
  - by rewrite Hop'.
  - done.
  - intros nid id Hne. rewrite Hfr by set_solver. rewrite Hl. case_decide; [|done]. set_solver.
  - by rewrite Hop in Herr.
  - intros He [Hi Hnd]%NoDup_cons j [->|Hj]%elem_of_cons.
    + exists svc. split; [|done]. rewrite Hfr by (by right). rewrite Hl. by rewrite decide_True.
    + destruct (Hsto He Hnd j Hj) as (svc' & Hl' & Hst'). exists svc'. split; [done|].
      rewrite Hl, (incoming_opts m1 m) in Hst' by done. case_decide as Hd; [|done].
      injection Hd as Hd. destruct Hi. rewrite Hd. by apply list_elem_of_fmap_2.
Qed.

Definition valid_registration (reg : Registration) : Prop :=
  Node_ID (Reg_Node reg) ≠ ""%string ∧ ∀ i, i ∈ Reg_Services reg → Svc_Name i ≠ ""%string.

Lemma existsb_empty_name ins :
  existsb (λ i, bool_decide (Svc_Name i = ""%string)) ins = true ↔
  ∃ i, i ∈ ins ∧ Svc_Name i = ""%string.
Proof.
  rewrite existsb_exists. split.
  - intros (i & Hi%list_elem_of_In & E%bool_decide_eq_true). eauto.
  - intros (i & Hi & E). exists i. split; [by apply list_elem_of_In|by apply bool_decide_eq_true].
Qed.

(** A valid registration runs the loop from the state with the node in place. *)
Lemma Register_valid `{MapRange} clk reg m :
  valid_registration reg →
  Register clk reg m = register_loop clk (Reg_Node reg) (Reg_Generation reg) (clk O)
    (Reg_Services reg) (ensure_node (Reg_Node reg) m) (total (ensure_node (Reg_Node reg) m)) [].
Proof.
  intros [H1 H2]. unfold Register. rewrite bool_decide_eq_false_2 by done.
  destruct (existsb _ _) eqn:E; [apply existsb_empty_name in E; naive_solver|].
  by rewrite total_ensure_node, sizeLocked_total.
Qed.

Lemma Register_invalid `{MapRange} clk reg m :
  Node_ID (Reg_Node reg) = ""%string ∨ (∃ i, i ∈ Reg_Services reg ∧ Svc_Name i = ""%string) →
  Register clk reg m = (Some ErrInvalid, m, []).
Proof.
  intros Hinv. unfold Register. case_bool_decide; [done|].
  destruct (existsb _ _) eqn:E; [done|]. apply not_true_iff_false in E. destruct E.
  apply existsb_empty_name. naive_solver.
Qed.

Lemma Register_spec `{MapRange} clk reg m err m' evs :
  valid_registration reg → Register clk reg m = (err, m', evs) →
  registered (Reg_Node reg) (Reg_Generation reg) (clk O) (Reg_Services reg) m err m'.
Proof.
  intros Hv. rewrite Register_valid by done.
  destruct (ensure_node_lookup m (Reg_Node reg)) as (n & Hn & Hmt).
  intros [H1 H2 H3 H4 H5]%(register_loop_spec _ _ _ _ _ _ _ _ n); [|done..].
  rewrite opts_ensure_node in *. split; [done|done|..].
  - intros. by rewrite <-(lookup_ensure_node m (Reg_Node reg)), <-H3.
  - done.
  - intros He Hnd i Hi. destruct (H5 He Hnd i Hi) as (svc & Hl & Hst).
    rewrite lookup_ensure_node, (incoming_opts _ m) in Hst by (by rewrite opts_ensure_node). eauto.
Qed.

(** The incoming services are already stored, with the same data. *)
Definition up_to_date (m : Memory) (mt : Node) (gen now : Z) (ins : list ServiceInstance) : Prop :=
  ∀ i, i ∈ ins → ∃ svc, lookup_service m (Node_ID mt) (reg_id i) = Some svc ∧
    changed (def svc) (incoming m gen now i) = false.

Lemma register_loop_silent clk mt gen now ins m size events n :
  nodes m !! Node_ID mt = Some n → meta n = mt → size = total m →
  NoDup (reg_id <$> ins) → up_to_date m mt gen now ins →
  ∃ m', register_loop clk mt gen now ins m size events = (None, m', events) ∧ index m' = index m.
Proof.
  revert m size events n. induction ins as [|i ins IH]; intros m size events n Hn Hmt Hsz Hnd Hup.
  { by eexists. }
  apply NoDup_cons in Hnd as [Hi Hnd]. destruct (Hup i) as (old & Hold & Hch); [set_solver|].
  destruct (register_loop_cons clk mt gen now i ins m size events n Hn Hmt)
    as [(Hl & _ & _)|(m1 & size1 & events1 & -> & [Hop (n1 & Hn1 & Hmt1) (svc & Hst & Hl) Hs] & Ht & _)];
    [congruence|].
  destruct Hs as [-> Hix]; [eauto|].
  destruct (IH m1 size1 events n1) as (m' & -> & Hix'); [done..|auto|done| |exists m'; split; [done|congruence]].
  intros j Hj. destruct (Hup j) as (svc' & Hl' & Hc'); [set_solver|]. exists svc'.
  rewrite Hl, (incoming_opts m1 m) by done. split; [|done]. rewrite decide_False; [done|].
  intros [= Hd]. destruct Hi. rewrite Hd. by apply list_elem_of_fmap_2.
Qed.

(** What [stored] keeps is not [changed] by the same definition, at any time. *)
Lemma stored_up_to_date old now d svc t :
  stored old now d svc → changed (def svc) (with_LastSeen t d) = false.
Proof.
  destruct old as [s|]; simpl.
  - destruct (changed (def s) d) eqn:E.
    + intros (idx & ->). exact (changed_refl d).
    + intros ->. exact E.
  - intros (idx & ->). exact (changed_refl d).
Qed.

(** *** What [Register] promises, in the terms of the registration *)

(** The TTL granted for the TTL [d] asked. *)
Definition granted (o : Options) (d : Z) : Z :=
  let base := if d <=? 0 then DefaultTTL o else d in
  let low := if 0 <? MinTTL o then Z.max (MinTTL o) base else base in
  if 0 <? MaxTTL o then Z.min (MaxTTL o) low else low.

(** The definition to store for the service [i] of a registration received at
    [now] under the generation [gen]. *)
Definition wanted (o : Options) (gen now : Z) (i : ServiceInstance) : ServiceInstance :=
  mkService (reg_id i) (Svc_Name i) (Svc_Address i) (Svc_Port i) (Svc_Tags i) (Svc_Meta i)
    (Svc_Weights i) (granted o (Svc_TTL i)) now gen.

(** Equal but for the identity and the last-seen instant; a key the second map
    lacks reads as the empty string. *)
Record same_data (a b : ServiceInstance) : Prop := {
  sd_name : Svc_Name a = Svc_Name b;
  sd_address : Svc_Address a = Svc_Address b;
  sd_port : Svc_Port a = Svc_Port b;
  sd_tags : Svc_Tags a = Svc_Tags b;
  sd_meta : size (Svc_Meta a) = size (Svc_Meta b) ∧
    ∀ k v, Svc_Meta a !! k = Some v → default ""%string (Svc_Meta b !! k) = v;
  sd_weights : Svc_Weights a = Svc_Weights b;
  sd_TTL : Svc_TTL a = Svc_TTL b;
  sd_generation : Svc_Generation a = Svc_Generation b
}.

(** The record kept for [d], received at [now], where [old] was stored: a new one;
    the old one with its lease refreshed, when the data are the same; the old one
    with the new data, its health passing again and its maintenance flag, failed
    mark and CreateIndex kept, when they are not. *)
Definition kept (old : option service) (now : Z) (d : ServiceInstance) (svc : service) : Prop :=
  match old with
  | None => ∃ idx, svc = mkSvc d false false HealthPassing idx idx
  | Some s =>
      (same_data (def s) d ∧
       svc = mkSvc (with_LastSeen now (def s)) (maintenance s) (failed s) (lastState s)
               (createIndex s) (modifyIndex s)) ∨
      (¬ same_data (def s) d ∧
       ∃ idx, svc = mkSvc d (maintenance s) (failed s) HealthPassing (createIndex s) idx)
  end.

(** The services of a registration that are not stored under the node yet. *)
Definition fresh (m : Memory) (nid : string) (ins : list ServiceInstance) : list ServiceInstance :=
  filter (λ i, lookup_service m nid (reg_id i) = None) ins.

(** What a registration of the services [ins] with distinct IDs does: it succeeds
    exactly when the registry has room for the new ones (or no cap), and stores
    every one; otherwise it stops at the first new one past the cap, with the ones
    before it stored, the others as they were, and the registry full. *)
Record admitted (mt : Node) (gen now : Z) (ins : list ServiceInstance) (m : Memory)
    (err : option StoreError) (m' : Memory) : Prop := {
  ad_fits : err = None ↔ MaxServices (opts m) <= 0 ∨ fresh m (Node_ID mt) ins = [] ∨
    total m + Z.of_nat (length (fresh m (Node_ID mt) ins)) <= MaxServices (opts m);
  ad_total : total m' =
    if decide (err = None) then total m + Z.of_nat (length (fresh m (Node_ID mt) ins))
    else Z.max (total m) (MaxServices (opts m));
  ad_split : ∃ pre rest, ins = pre ++ rest ∧
    (if decide (err = None) then rest = []
     else ∃ i rest', rest = i :: rest' ∧ lookup_service m (Node_ID mt) (reg_id i) = None) ∧
    (∀ i, i ∈ pre → ∃ svc, lookup_service m' (Node_ID mt) (reg_id i) = Some svc ∧
       kept (lookup_service m (Node_ID mt) (reg_id i)) now (wanted (opts m) gen now i) svc) ∧
    ∀ i, i ∈ rest →
      lookup_service m' (Node_ID mt) (reg_id i) = lookup_service m (Node_ID mt) (reg_id i)
}.

Lemma clampTTL_granted m d : clampTTL m d = granted (opts m) d.
Proof.
  unfold clampTTL, granted. repeat case_match; try done;
    rewrite ?andb_true_iff, ?andb_false_iff, ?Z.ltb_lt, ?Z.ltb_ge, ?Z.leb_le, ?Z.leb_gt in *; lia.
Qed.

Lemma incoming_wanted m gen now i : incoming m gen now i = wanted (opts m) gen now i.
Proof.
  unfold incoming, wanted, reg_id. rewrite clampTTL_granted. destruct i; simpl.
  by repeat case_bool_decide.
Qed.

Lemma equalMap_spec a b : equalMap a b = true ↔
  size a = size b ∧ ∀ k v, a !! k = Some v → default ""%string (b !! k) = v.
Proof.
  unfold equalMap. destruct (Nat.eqb_spec (size a) (size b)) as [E|E]; simpl; [|naive_solver].
  rewrite forallb_forall. split.
  - intros Hall. split; [done|]. intros k v Hk%elem_of_map_to_list%list_elem_of_In.
    specialize (Hall _ Hk). by apply bool_decide_eq_true in Hall.
  - intros [_ Hall] [k v] Hin%list_elem_of_In%elem_of_map_to_list. by apply bool_decide_eq_true, Hall.
Qed.

Lemma changed_same_data a b : changed a b = false ↔ same_data a b.
Proof.
  unfold changed. split.
  - repeat (case_bool_decide; [done|]). simpl. rewrite orb_false_iff, !negb_false_iff.
    rewrite equalStrings_spec, equalMap_spec. intros [? ?]. split; try done; by apply dec_stable.
  - intros [-> -> -> Ht Hm -> -> ->]. repeat (rewrite bool_decide_eq_false_2 by naive_solver). simpl.
    by rewrite (proj2 (equalStrings_spec _ _) Ht), (proj2 (equalMap_spec _ _) Hm).
Qed.

Lemma stored_kept old m gen now i svc :
  stored old now (incoming m gen now i) svc → kept old now (wanted (opts m) gen now i) svc.
Proof.
  rewrite incoming_wanted. unfold stored, kept. destruct old as [s|]; [|done].
  destruct (changed _ _) eqn:E.
  - intros (idx & ->). right. split; [|by exists idx]. intros Hs%changed_same_data. congruence.
  - intros ->. left. split; [by apply changed_same_data|done].
Qed.

(** One iteration extends an outcome of the rest of the services. *)
Lemma admitted_cons mt gen now i ins m m1 svc err m' :
  NoDup (reg_id <$> i :: ins) → opts m1 = opts m →
  stored (lookup_service m (Node_ID mt) (reg_id i)) now (incoming m gen now i) svc →
  (∀ nid' id', lookup_service m1 nid' id' =
      if decide ((Node_ID mt, reg_id i) = (nid', id')) then Some svc else lookup_service m nid' id') →
  total m1 = total m + (if lookup_service m (Node_ID mt) (reg_id i) is Some _ then 0 else 1) →
  (lookup_service m (Node_ID mt) (reg_id i) = None → at_capacity m (total m) = false) →
  (∀ nid id, id ∉ reg_id <$> ins → lookup_service m' nid id = lookup_service m1 nid id) →
  admitted mt gen now ins m1 err m' → admitted mt gen now (i :: ins) m err m'.
Proof.
  intros [Hi Hnd]%NoDup_cons Hop Hst Hl Ht Hcap Hfr [Hfits Htot (pre & rest & -> & Hrest & Hpre & Hpost)].
  assert (Hsame : ∀ j, j ∈ pre ++ rest →
            lookup_service m1 (Node_ID mt) (reg_id j) = lookup_service m (Node_ID mt) (reg_id j)).
  { intros j Hj. rewrite Hl, decide_False; [done|]. intros [= E]. apply Hi. rewrite E.
    by apply list_elem_of_fmap_2. }
  assert (Hfresh : fresh m1 (Node_ID mt) (pre ++ rest) = fresh m (Node_ID mt) (pre ++ rest)).
  { unfold fresh. clear -Hsame. induction (pre ++ rest) as [|j l IH]; [done|]. rewrite !filter_cons.
    rewrite IH, Hsame by set_solver. done. }
  rewrite Hop, Hfresh in *. unfold at_capacity in Hcap.
  split.
  - rewrite Hfits. unfold fresh at 3 4. rewrite filter_cons. fold (fresh m (Node_ID mt) (pre ++ rest)).
    rewrite Ht. destruct (lookup_service m (Node_ID mt) (reg_id i)) eqn:E.
    + rewrite decide_False by done. by rewrite Z.add_0_r.
    + rewrite decide_True by done. simpl. specialize (Hcap eq_refl).
      rewrite andb_false_iff, Z.ltb_ge, Z.leb_gt in Hcap. 
      destruct (fresh m (Node_ID mt) (pre ++ rest)); simpl; split; intros [?|[?|?]]; try done; lia || (left; lia) || (right; right; lia) || auto.
  - rewrite Htot, Ht. unfold fresh at 2. rewrite filter_cons. fold (fresh m (Node_ID mt) (pre ++ rest)).
    destruct (lookup_service m (Node_ID mt) (reg_id i)) eqn:E.
    + rewrite (decide_False (P := Some _ = None)) by done. by rewrite Z.add_0_r.
    + rewrite (decide_True (P := None = None)) by done. specialize (Hcap eq_refl).
      rewrite andb_false_iff, Z.ltb_ge, Z.leb_gt in Hcap.
      case_decide as He; [simpl; lia|].
      assert (0 < MaxServices (opts m)) by (destruct (decide (MaxServices (opts m) <= 0)); [|lia];
        destruct He; apply Hfits; by left). lia.
  - exists (i :: pre), rest. split; [done|]. split.
    { case_decide; [done|]. destruct Hrest as (j & rest' & -> & Hj). exists j, rest'. split; [done|].
      rewrite <-Hj. symmetry. apply Hsame. set_solver. }
    split.
    + intros j [->|Hj]%elem_of_cons.
      * exists svc. split; [|by apply stored_kept]. rewrite Hfr by done. rewrite Hl. by rewrite decide_True.
      * destruct (Hpre j Hj) as (svc' & H1 & H2). exists svc'. split; [done|].
        rewrite <-Hsame by set_solver. done.
    + intros j Hj. rewrite Hpost by done. apply Hsame. set_solver.
Qed.
Lemma register_loop_admitted clk mt gen now ins m size events n err m' evs :
  nodes m !! Node_ID mt = Some n → meta n = mt → size = total m → NoDup (reg_id <$> ins) →
  register_loop clk mt gen now ins m size events = (err, m', evs) →
  admitted mt gen now ins m err m'.
Proof.
  revert m size events n. induction ins as [|i ins IH]; intros m size events n Hn Hmt Hsz Hnd.
  { intros [= <- <- <-]. split; [naive_solver|rewrite decide_True by done; simpl; lia|].
    exists [], []. split_and!; [done..|set_solver|done]. }
  destruct (register_loop_cons clk mt gen now i ins m size events n Hn Hmt)
    as [(Hl & Hcap & ->)|(m1 & size1 & events1 & -> & [Hop (n1 & Hn1 & Hmt1) (svc & Hst & Hl) _] & Ht & Hs1 & Hroom)].
  { intros [= <- <- <-]. unfold at_capacity in Hcap. apply andb_true_iff in Hcap as [H1 H2].
    apply Z.ltb_lt in H1. apply Z.leb_le in H2. split.
    - split; [done|]. unfold fresh. rewrite filter_cons, decide_True by done. simpl.
      intros [?|[?|?]]; [lia|done|lia].
    - rewrite decide_False by done. lia.
    - exists [], (i :: ins). split; [done|]. rewrite decide_False by done.
      split; [by exists i, ins|]. split; [set_solver|done]. }
  intros Hloop. subst size.
  assert (Ha : admitted mt gen now ins m1 err m').
  { eapply (IH m1 size1 events1 n1); [done|done|auto| |done]. by apply NoDup_cons in Hnd as [_ ?]. }
  pose proof (register_loop_spec _ _ _ _ _ _ _ _ _ _ _ _ Hn1 Hmt1 (Ht eq_refl) Hloop) as [_ _ Hfr _ _].
  eapply (admitted_cons _ _ _ _ _ m m1 svc); [done..| | | |done].
  - rewrite <-Ht; done.
  - done.
  - intros nid id Hid. apply Hfr. by right.
Qed.

(** The loop never takes the registry past its cap. *)
Lemma register_loop_cap clk mt gen now ins m size events n err m' evs :
  nodes m !! Node_ID mt = Some n → meta n = mt → size = total m → 0 < MaxServices (opts m) →
  register_loop clk mt gen now ins m size events = (err, m', evs) →
  total m' <= Z.max (total m) (MaxServices (opts m)).
Proof.
  revert m size events n. induction ins as [|i ins IH]; intros m size events n Hn Hmt Hsz Hpos.
  { intros [= <- <- <-]. lia. }
  destruct (register_loop_cons clk mt gen now i ins m size events n Hn Hmt)
    as [(Hl & Hcap & ->)|(m1 & size1 & events1 & -> & [Hop (n1 & Hn1 & Hmt1) _ _] & Ht & Hs1 & Hroom)].
  { intros [= <- <- <-]. lia. }
  intros Hc%(IH _ _ _ n1); [|done|done|auto|congruence].
  rewrite Hop, <-(Ht Hsz), Hs1, Hsz in Hc.
  destruct (lookup_service m (Node_ID mt) (reg_id i)); [lia|]. specialize (Hroom eq_refl).
  unfold at_capacity in Hroom. rewrite andb_false_iff, Z.ltb_ge, Z.leb_gt in Hroom. lia.
Qed.

Lemma admitted_ensure_node mt gen now ins m err m' :
  admitted mt gen now ins (ensure_node mt m) err m' → admitted mt gen now ins m err m'.
Proof.
  intros [H1 H2 (pre & rest & -> & Hr & Hp & Hq)].
  assert (Hf : fresh (ensure_node mt m) (Node_ID mt) (pre ++ rest) = fresh m (Node_ID mt) (pre ++ rest)).
  { apply list_filter_iff. intros j. by rewrite lookup_ensure_node. }
  rewrite Hf, opts_ensure_node, total_ensure_node in *. split; [done|done|].
  exists pre, rest. split; [done|]. split; [|split].
  - case_decide; [done|]. by setoid_rewrite lookup_ensure_node in Hr.
  - by setoid_rewrite lookup_ensure_node in Hp.
  - by setoid_rewrite lookup_ensure_node in Hq.
Qed.

Lemma Register_admitted `{MapRange} clk reg m err m' evs :
  valid_registration reg → Register clk reg m = (err, m', evs) →
  (0 < MaxServices (opts m) → total m' <= Z.max (total m) (MaxServices (opts m))) ∧
  (NoDup (reg_id <$> Reg_Services reg) →
   admitted (Reg_Node reg) (Reg_Generation reg) (clk O) (Reg_Services reg) m err m').
Proof.
  intros Hv. rewrite Register_valid by done.
  destruct (ensure_node_lookup m (Reg_Node reg)) as (n & Hn & Hmt). intros E. split.
  - intros Hpos. rewrite <-(total_ensure_node m (Reg_Node reg)), <-(opts_ensure_node m (Reg_Node reg)) in *.
    by eapply register_loop_cap.
  - intros Hnd. apply admitted_ensure_node. by eapply register_loop_admitted.
Qed.

(** C17: [Register] refuses, without any effect, a registration with no node ID or
    with a nameless service.  A valid one leaves records of other nodes and of
    other IDs untouched, the node carrying the registered metadata, and never takes
    the registry past its cap.  With distinct service IDs it succeeds exactly when
    the services not stored yet fit under [MaxServices] (or there is no cap, or
    none of them is new), and then every service is stored under the node with the
    registration's data, the granted TTL, the generation and this instant as the
    last one seen: as a new record; as the old record with the new data, keeping
    its maintenance flag and CreateIndex, when the data changed; as the old record
    with its lease refreshed when they did not.  Otherwise it stops at the first
    new service past the cap: those before it are stored, it and those after it
    are left as they were. *)
Theorem Register_correct `{MapRange} (clk : Clock) (reg : Registration) (m : Memory) :
  (¬ valid_registration reg → Register clk reg m = (Some ErrInvalid, m, [])) ∧
  (valid_registration reg → ∃ err m' evs, Register clk reg m = (err, m', evs) ∧
     registered (Reg_Node reg) (Reg_Generation reg) (clk O) (Reg_Services reg) m err m' ∧
     (0 < MaxServices (opts m) → total m' <= Z.max (total m) (MaxServices (opts m))) ∧
     (NoDup (reg_id <$> Reg_Services reg) →
      admitted (Reg_Node reg) (Reg_Generation reg) (clk O) (Reg_Services reg) m err m')).
Proof.
  split.
  - intros Hv. apply Register_invalid.
    destruct (decide (Node_ID (Reg_Node reg) = ""%string)) as [|Hid]; [by left|right].
    destruct (decide (Exists (λ i, Svc_Name i = ""%string) (Reg_Services reg))) as [He|Hne];
      [by apply list.Exists_exists in He|].
    destruct Hv. split; [done|]. intros i Hi E. apply Hne. apply list.Exists_exists. eauto.
  - intros Hv. destruct (Register clk reg m) as [[err m'] evs] eqn:E.
    exists err, m', evs. split; [done|]. split; [by eapply Register_spec|by eapply Register_admitted].
Qed.

Definition sampleReg : Registration :=
  mkRegistration (sampleNode "n1") [sampleService "" "web" ["v1"%string]; sampleService "db-1" "db" []] 1.

Lemma sampleReg_valid : valid_registration sampleReg.
Proof.
  split; [discriminate|]. intros i Hi.
  repeat (apply elem_of_cons in Hi as [->|Hi]; [discriminate|]). by apply elem_of_nil in Hi.
Qed.

Lemma Register_correct_witness :
  @Register list_order (frozen 0) (mkRegistration zeroNode [] 0) (NewMemory sampleOptions) =
    (Some ErrInvalid, NewMemory sampleOptions, []) ∧
  (∃ err m' evs, @Register list_order (frozen 5) sampleReg (NewMemory sampleOptions) = (err, m', evs) ∧
    registered (sampleNode "n1") 1 5 (Reg_Services sampleReg) (NewMemory sampleOptions) err m' ∧
    admitted (sampleNode "n1") 1 5 (Reg_Services sampleReg) (NewMemory sampleOptions) err m') ∧
  (@Register list_order (frozen 5) sampleReg (NewMemory (mkOptions second 0 0 second 0 1))).1.1 = Some ErrCapacity.
Proof.
  split; [|split].
  - apply (@Register_correct list_order). intros [Hv _]. by apply Hv.
  - destruct (proj2 (@Register_correct list_order (frozen 5) sampleReg (NewMemory sampleOptions))
      sampleReg_valid) as (err & m' & evs & E & Hr & _ & Ha).
    exists err, m', evs. split; [exact E|]. split; [exact Hr|]. apply Ha.
    vm_compute. repeat constructor; set_solver.
  - vm_compute. reflexivity.
Defined.

(** A repeated registration is silent: registering the same services again
    (an agent's heartbeat), at any later time and in the state the first call
    left, succeeds without an event and without advancing the index, so it wakes
    no watcher. *)
Theorem Register_idempotent `{MapRange} (clk clk' : Clock) (reg : Registration) (m m' : Memory) evs :
  valid_registration reg → NoDup (reg_id <$> Reg_Services reg) →
  Register clk reg m = (None, m', evs) →
  ∃ m'', Register clk' reg m' = (None, m'', []) ∧ Index m'' = Index m'.
Proof.
  intros Hv Hnd [Hop Hn Hfr Herr Hsto]%Register_spec; [|done].
  rewrite Register_valid by done.
  destruct (ensure_node_lookup m' (Reg_Node reg)) as (n' & Hn' & Hmt').
  destruct (register_loop_silent clk' (Reg_Node reg) (Reg_Generation reg) (clk' O) (Reg_Services reg)
    (ensure_node (Reg_Node reg) m') (total (ensure_node (Reg_Node reg) m')) [] n')
    as (m'' & -> & Hix); [done..| |].
  - intros i Hi. destruct (Hsto eq_refl Hnd i Hi) as (svc & Hl & Hst). exists svc.
    rewrite lookup_ensure_node. split; [done|].
    rewrite (incoming_opts _ m) by (by rewrite opts_ensure_node).
    rewrite <-(incoming_LastSeen m _ (clk O)). by eapply stored_up_to_date.
  - exists m''. split; [done|]. unfold Index. by rewrite Hix, index_ensure_node.
Qed.

Lemma Register_idempotent_witness :
  ∃ m'', @Register list_order (frozen 900) sampleReg
    (@Register list_order (frozen 5) sampleReg (NewMemory sampleOptions)).1.2 = (None, m'', []) ∧
  Index m'' = 102.
Proof.
  edestruct (@Register_idempotent list_order (frozen 5) (frozen 900) sampleReg (NewMemory sampleOptions)
    (@Register list_order (frozen 5) sampleReg (NewMemory sampleOptions)).1.2
    (@Register list_order (frozen 5) sampleReg (NewMemory sampleOptions)).2) as (m'' & E & Hi).
  - apply sampleReg_valid.
  - vm_compute. repeat constructor; set_solver.
  - vm_compute. reflexivity.
  - exists m''. split; [exact E|]. rewrite Hi. vm_compute. reflexivity.
Defined.

(** ** Renew *)

(** The IDs before the first one that is not stored under the node. *)
Fixpoint found_ids (m : Memory) (nid : string) (ids : list string) : list string :=
  match ids with
  | [] => []
  | id :: rest => if lookup_service m nid id is Some _ then id :: found_ids m nid rest else []
  end.

Lemma renewed_idemp now svc : renewed now (renewed now svc) = renewed now svc.
Proof. done. Qed.

Lemma found_ids_ext m m' nid ids :
  (∀ id, is_Some (lookup_service m nid id) ↔ is_Some (lookup_service m' nid id)) →
  found_ids m nid ids = found_ids m' nid ids.
Proof.
  intros He. induction ids as [|id ids IH]; simpl; [done|]. specialize (He id). rewrite IH.
  destruct (lookup_service m nid id), (lookup_service m' nid id); try done;
    exfalso; destruct He as [H1 H2]; (by destruct (H1 (mk_is_Some _ _ eq_refl))) ||
      by destruct (H2 (mk_is_Some _ _ eq_refl)).
Qed.

Record renewal (now : Z) (nid : string) (ids : list string) (m m' : Memory) : Prop := {
  rn_lookup : ∀ nid' id', lookup_service m' nid' id' =
    if decide (nid' = nid ∧ id' ∈ ids) then renewed now <$> lookup_service m nid' id'
    else lookup_service m nid' id';
  rn_index : index m' = index m;
  rn_opts : opts m' = opts m;
  rn_byName : byName m' = byName m
}.

Lemma renew_loop_spec now nid ids m :
  renewal now nid (found_ids m nid ids) m (renew_loop now nid ids m).2 ∧
  (renew_loop now nid ids m).1 =
    (if decide (found_ids m nid ids = ids) then None else Some ErrNotFound).
Proof.
  revert m. induction ids as [|id ids IH]; intros m; cbn [renew_loop found_ids].
  { rewrite decide_True by done. split; [|done]. split; try done.
    intros. rewrite decide_False; [done|]. set_solver. }
  destruct (lookup_service m nid id) as [svc|] eqn:Hs.
  - pose proof (lookup_service_is_Some _ _ _ _ Hs) as (n & Hn & _).
    set (m1 := put_service nid id (renewed now svc) m).
    assert (Hl : ∀ nid' id', lookup_service m1 nid' id' =
      if decide ((nid, id) = (nid', id')) then Some (renewed now svc) else lookup_service m nid' id')
      by (intros; apply lookup_put_service; eauto).
    assert (Hf : found_ids m1 nid ids = found_ids m nid ids).
    { apply found_ids_ext. intros id'. rewrite Hl. case_decide; simplify_eq; [|done].
      rewrite Hs. by split; eauto. }
    destruct (IH m1) as [[H1 H2 H3 H4] He]. rewrite Hf in *. split.
    + split; [|done..]. intros nid' id'. rewrite H1, Hl.
      destruct (decide ((nid, id) = (nid', id'))) as [E|E]; [injection E as <- <-|].
      * rewrite Hs. rewrite (decide_True (P := nid = nid ∧ id ∈ id :: _)) by set_solver.
        destruct (decide (nid = nid ∧ _)); reflexivity.
      * clear He. repeat case_decide; set_solver.
    + rewrite He. repeat case_decide; simplify_eq; congruence.
  - rewrite decide_False by done. split; [|done]. split; try done.
    intros. rewrite decide_False; [done|]. set_solver.
Qed.

Lemma renew_all_spec now nid n m :
  nodes m !! nid = Some n →
  ∀ nid' id', lookup_service
      (with_nodes (<[nid := mkStoreNode (meta n) (renewed now <$> services n)]> (nodes m)) m) nid' id' =
    if decide (nid' = nid) then renewed now <$> lookup_service m nid' id'
    else lookup_service m nid' id'.
Proof.
  intros Hn nid' id'. unfold lookup_service; simpl. rewrite lookup_insert.
  repeat case_decide; simplify_eq; [|done]. rewrite Hn; simpl. by rewrite lookup_fmap.
Qed.

Lemma lease_renewed m now svc : 0 <= Svc_TTL (def svc) → lease m (renewed now svc) now = (HealthPassing, false).
Proof.
  intros Ht. unfold lease, renewed; simpl. rewrite Time_Sub_diag. by destruct (Z.leb_spec 0 (Svc_TTL (def svc))); [|lia].
Qed.

(** [Renew] refreshes leases and nothing else: no event, no index, no change of
    the name index.  An unknown node is [ErrNotFound] without effect; with no IDs
    every service of the node is refreshed; with IDs they are refreshed in order
    up to the first unknown one, and the call fails exactly when there is one.  A
    refreshed service is passing at the renewal instant, a failed check cleared. *)
Theorem Renew_correct (clk : Clock) (nid : string) (ids : list string) (m : Memory) :
  (nodes m !! nid = None → Renew clk nid ids m = (Some ErrNotFound, m)) ∧
  (is_Some (nodes m !! nid) →
     let m' := (Renew clk nid ids m).2 in
     index m' = index m ∧ byName m' = byName m ∧
     (ids = [] → (Renew clk nid ids m).1 = None ∧
        ∀ nid' id', lookup_service m' nid' id' =
          if decide (nid' = nid) then renewed (clk O) <$> lookup_service m nid' id'
          else lookup_service m nid' id') ∧
     (ids ≠ [] →
        ((Renew clk nid ids m).1 = None ↔ ∀ id, id ∈ ids → is_Some (lookup_service m nid id)) ∧
        ((Renew clk nid ids m).1 = None ∨ (Renew clk nid ids m).1 = Some ErrNotFound) ∧
        renewal (clk O) nid (found_ids m nid ids) m m')) ∧
  (wf m → ∀ svc id, lookup_service m nid id = Some svc →
     lease m (renewed (clk O) svc) (clk O) = (HealthPassing, false)).
Proof.
  split_and!.
  - unfold Renew. by intros ->.
  - intros [n Hn]. unfold Renew. rewrite Hn. destruct ids as [|id ids].
    + simpl. split_and!; [done|done| |done]. intros _. split; [done|]. by apply renew_all_spec.
    + destruct (renew_loop_spec (clk O) nid (id :: ids) m) as [Hr He].
      split_and!; [apply Hr|apply Hr|done|]. intros _. rewrite He. split_and!; [|case_decide; auto|done].
      clear. generalize (id :: ids) as l. intros l. split.
      * case_decide as Hd; [|done]. intros _. revert Hd. induction l as [|x l IH]; [set_solver|].
        simpl. destruct (lookup_service m nid x) eqn:E; [|done]. intros [= Hd] y [->|Hy]%elem_of_cons; eauto.
      * intros Hall. rewrite decide_True; [done|]. induction l as [|x l IH]; simpl; [done|].
        destruct (Hall x) as [? ->]; [set_solver|]. f_equal. apply IH. set_solver.
  - intros Hwf svc id Hs. apply lease_renewed. destruct (wf_svc _ Hwf _ _ _ Hs) as (_ & _ & [Hp _ _]). lia.
Qed.

Lemma Renew_correct_witness :
  Renew (frozen 7) "nope" [] sampleRun.1 = (Some ErrNotFound, sampleRun.1) ∧
  ((Renew (frozen 7) "n1" ["web"; "gone"; "db-1"]%string sampleRun.1).1 = Some ErrNotFound ∧
   index (Renew (frozen 7) "n1" ["web"; "gone"; "db-1"]%string sampleRun.1).2 = index sampleRun.1).
Proof.
  split; [apply (Renew_correct (frozen 7) "nope" [] sampleRun.1); vm_compute; reflexivity|].
  split; [vm_compute; reflexivity|].
  destruct (Renew_correct (frozen 7) "n1" ["web"; "gone"; "db-1"]%string sampleRun.1) as (_ & Hr & _).
  apply (λ Hn, proj1 (Hr Hn)). vm_compute. eexists; reflexivity.
Defined.

(** ** Fail and SetMaintenance *)

(** One record is replaced, under the next index, and announced. *)
Definition replaced (nid id : string) (svc : service) (m : Memory) (m' : Memory) : Prop :=
  index m' = u64 (index m + 1) ∧ opts m' = opts m ∧ byName m' = byName m ∧
  ∀ nid' id', lookup_service m' nid' id' =
    if decide ((nid, id) = (nid', id')) then Some (with_modifyIndex (u64 (index m + 1)) svc)
    else lookup_service m nid' id'.

Lemma replaced_put nid id n svc m idx m1 :
  nodes m !! nid = Some n → next m = (idx, m1) →
  replaced nid id svc m (put_service nid id (with_modifyIndex idx svc) m1).
Proof.
  intros Hn [= <- <-]. split_and!; [done..|]. intros. rewrite <-(lookup_put_service m) by eauto. done.
Qed.

(** A failed instance is critical and outlives every grace period. *)
Lemma lease_failed m svc now : failed svc = true → lease m svc now = (HealthCritical, false).
Proof. unfold lease. by intros ->. Qed.

(** [Fail] marks a known instance critical at once, whatever its lease, with
    one Put event under the next index, and is silent when it is already marked;
    an unknown instance is [ErrNotFound] without effect.  A failed instance stays
    critical, and unexpired, at every instant until it is renewed. *)
Theorem Fail_correct (clk : Clock) (nid id : string) (m : Memory) :
  match lookup_service m nid id with
  | None => Fail clk nid id m = (Some ErrNotFound, m, [])
  | Some svc =>
      if failed svc then Fail clk nid id m = (None, m, [])
      else ∃ m' n, nodes m !! nid = Some n ∧ replaced nid id (with_failed true svc) m m' ∧
        Fail clk nid id m = (None, m', [mkEvent ChangePut
          (entry (meta n) (with_modifyIndex (u64 (index m + 1)) (with_failed true svc)) HealthCritical)
          (u64 (index m + 1))])
  end ∧
  (∀ svc now, failed svc = true → lease m svc now = (HealthCritical, false)).
Proof.
  split; [|intros; by apply lease_failed].
  unfold Fail, lookup_service. destruct (nodes m !! nid) as [n|] eqn:Hn; simpl; [|done].
  destruct (services n !! id) as [svc|] eqn:Hs; [|done].
  destruct (failed svc) eqn:Hf; [done|]. eexists _, n. split; [done|]. split; [by eapply replaced_put|].
  by unfold putEvent; rewrite lease_failed.
Qed.

(** [SetMaintenance] sets the flag of a known instance with one Put event under
    the next index, is silent when the flag has that value already, and is
    [ErrNotFound] without effect on an unknown instance; turning the flag on and
    off again restores the record up to its ModifyIndex. *)
Theorem SetMaintenance_correct (clk : Clock) (nid id : string) (b : bool) (m : Memory) :
  match lookup_service m nid id with
  | None => SetMaintenance clk nid id b m = (Some ErrNotFound, m, [])
  | Some svc =>
      if bool_decide (maintenance svc = b) then SetMaintenance clk nid id b m = (None, m, [])
      else ∃ m' ev, replaced nid id (with_maintenance b svc) m m' ∧
        SetMaintenance clk nid id b m = (None, m', [ev]) ∧
        Event_Type ev = ChangePut ∧ Event_Index ev = u64 (index m + 1) ∧
        Entry_Maintenance (Event_Entry ev) = b ∧
        ∃ m'' ev', SetMaintenance clk nid id (negb b) m' = (None, m'', [ev']) ∧
          lookup_service m'' nid id = Some (with_modifyIndex (u64 (index m' + 1)) svc)
  end.
Proof.
  unfold lookup_service at 1. destruct (nodes m !! nid) as [n|] eqn:Hn; simpl;
    [|unfold SetMaintenance; by rewrite Hn].
  destruct (services n !! id) as [svc|] eqn:Hs; [|unfold SetMaintenance; by rewrite Hn, Hs].
  unfold SetMaintenance at 1 2. rewrite Hn, Hs. case_bool_decide as Hb; [done|].
  destruct (next m) as [idx m1] eqn:Hnx.
  pose proof (replaced_put nid id n (with_maintenance b svc) m idx m1 Hn Hnx) as Hr.
  set (m' := put_service _ _ _ _) in *. eexists m', _. split; [done|]. split; [done|].
  assert (Hix : idx = u64 (index m + 1)) by (by injection Hnx as <- _).
  split_and!; [done|done|done|].
  assert (Hn' : nodes m' !! nid = Some (mkStoreNode (meta n)
            (<[id := with_modifyIndex idx (with_maintenance b svc)]> (services n)))).
  { unfold m'. apply put_service_lookup_node. by injection Hnx as _ <-. }
  unfold SetMaintenance. rewrite Hn'. simpl. rewrite lookup_insert_eq. simpl.
  rewrite bool_decide_eq_false_2 by (by destruct b). eexists _, _. split; [done|].
  rewrite lookup_put_service by (eexists; exact Hn'). rewrite decide_True by done.
  f_equal. unfold with_modifyIndex, with_maintenance; simpl. f_equal.
  destruct (maintenance svc), b; done.
Qed.

(** ** Deregister and DeregisterService *)

Lemma remove_service_wf m nid n id svc :
  wf m → nodes m !! nid = Some n → services n !! id = Some svc →
  let m' := drop_empty nid (remove_service nid id svc m).2 in
  wf m' ∧ index m' = u64 (index m + 1) ∧
  ∀ nid' id', lookup_service m' nid' id' =
    if decide ((nid, id) = (nid', id')) then None else lookup_service m nid' id'.
Proof.
  intros Hwf Hn Hs. destruct (remove_service nid id svc m) as [svc' m1] eqn:Hr. simpl.
  split; [eapply wf_prim_drop, wf_prim_remove; eauto|].
  apply remove_service_nodes in Hr as (_ & _ & Hix & Hnodes). rewrite index_drop_empty. split; [done|].
  intros. rewrite lookup_drop_empty, (lookup_service_nodes _ _ _ _ Hnodes). apply lookup_del_service.
Qed.

(** [DeregisterService] removes exactly the named instance, with one Delete
    event under the next index, and drops the node with its last instance;
    [Deregister] removes the node and exactly its instances, with one Delete event
    each; both are [ErrNotFound] without effect on an unknown target. *)
Theorem Deregister_correct `{MapRange} (nid id : string) (m : Memory) :
  wf m →
  (lookup_service m nid id = None → DeregisterService nid id m = (Some ErrNotFound, m, [])) ∧
  (nodes m !! nid = None → Deregister nid m = (Some ErrNotFound, m, [])) ∧
  (∀ svc, lookup_service m nid id = Some svc → ∃ m' ev,
     DeregisterService nid id m = (None, m', [ev]) ∧
     Event_Type ev = ChangeDelete ∧ entry_key (Event_Entry ev) = (nid, id) ∧
     Event_Index ev = u64 (index m + 1) ∧ index m' = u64 (index m + 1) ∧
     (∀ n', nodes m' !! nid = Some n' → services n' ≠ ∅) ∧
     ∀ nid' id', lookup_service m' nid' id' =
       if decide ((nid, id) = (nid', id')) then None else lookup_service m nid' id') ∧
  (∀ n, nodes m !! nid = Some n → ∃ m' evs,
     Deregister nid m = (None, m', evs) ∧ nodes m' = delete nid (nodes m) ∧
     length evs = size (services n) ∧
     ∀ k, k ∈ entry_key ∘ Event_Entry <$> evs ↔ k.1 = nid ∧ is_Some (lookup_service m nid k.2)).
Proof.
  intros Hwf. split_and!.
  - unfold lookup_service, DeregisterService. destruct (nodes m !! nid) as [n|]; [|done]. simpl. by intros ->.
  - unfold Deregister. by intros ->.
  - intros svc Hl. pose proof (lookup_service_is_Some _ _ _ _ Hl) as (n & Hn & Hs).
    unfold DeregisterService. rewrite Hn, Hs.
    destruct (remove_service_wf m nid n id svc Hwf Hn Hs) as (_ & Hix & Hlk).
    destruct (remove_service nid id svc m) as [svc' m1] eqn:Hr. simpl in *. eexists _, _.
    split; [done|]. apply remove_service_nodes in Hr as (-> & _ & _ & _).
    split_and!; [done| |done|done| |done].
    + unfold entry_key; simpl. destruct (wf_svc _ Hwf _ _ _ Hl) as [-> _].
      by rewrite (proj1 (wf_node _ Hwf _ _ Hn)).
    + intros n'. unfold drop_empty. destruct (nodes m1 !! nid) as [n1|] eqn:E; [|congruence].
      case_bool_decide; simpl; [by rewrite lookup_delete_eq|congruence].
  - intros n Hn. unfold Deregister. rewrite Hn.
    destruct (deregister_loop_spec nid (meta n) (range (services n)) m []) as [H1 _ _ H4 _ _].
    destruct (deregister_loop _ _ _ _ _) as [m1 evs]. simpl in *. eexists _, _. split; [done|].
    split; [simpl; by rewrite H1|]. subst evs.
    assert (Hd : ∀ i svcs, entry_key ∘ Event_Entry <$> delete_events (meta n) i svcs =
              (λ p, (Node_ID (meta n), Svc_ID (def p.2))) <$> svcs).
    { intros i svcs. revert i. induction svcs as [|[? ?] svcs IH]; intros i; simpl; [done|].
      f_equal. apply IH. }
    split.
    + rewrite <-(length_fmap (entry_key ∘ Event_Entry)), Hd, length_fmap. apply length_range.
    + intros [k1 k2]. rewrite Hd, list_elem_of_fmap. simpl.
      rewrite (proj1 (wf_node _ Hwf _ _ Hn)), (lookup_service_node _ _ _ n Hn).
      assert (Hid : ∀ id svc, services n !! id = Some svc → Svc_ID (def svc) = id).
      { intros i svc Hi. eapply (wf_svc _ Hwf nid). by rewrite (lookup_service_node _ _ _ n Hn). }
      split.
      * intros ([i svc] & [= -> ->] & Hi%elem_of_range). simpl. rewrite (Hid _ _ Hi). eauto.
      * intros [-> [svc Hi]]. exists (k2, svc). simpl. rewrite (Hid _ _ Hi). split; [done|].
        by apply elem_of_range.
Qed.

Lemma Deregister_correct_witness :
  ∃ m' evs, @Deregister list_order "n1" sampleRun.1 = (None, m', evs) ∧
    nodes m' = delete "n1"%string (nodes sampleRun.1) ∧ length evs = 2%nat.
Proof.
  destruct (@Deregister_correct list_order "n1" "web" sampleRun.1) as (_ & _ & _ & Hd).
  { apply (wf_reachable sampleOptions _ sampleRun.2), sampleRun_reachable. }
  edestruct Hd as (m' & evs & H1 & H2 & H3 & _); [vm_compute; reflexivity|].
  exists m', evs. split; [exact H1|]. split; [exact H2|]. rewrite H3. vm_compute. reflexivity.
Defined.
