(* ===== verification/StoreGC.v ===== *)
(** The reaper, [Memory.GC]: what one pass does to every record, that it is
    idempotent at an instant, and that readers cannot tell whether it ran. *)

From Stdlib Require Import ZArith Lia.
From stdpp Require Import base gmap list strings.
From S2P Require Import Prelude GoStrings Model Health Store StoreSteps StoreInv StoreSpec StoreLookup.

#[local] Open Scope Z_scope.

#[local] Arguments create_service : simpl never.
#[local] Arguments overwrite_service : simpl never.
#[local] Arguments remove_service : simpl never.

(** The outcome of a pass at [now] for one record: gone when its lease ran out of
    the grace period, untouched while its state is the last one announced, and
    otherwise announced in its new state. *)
Definition gc_after (m : Memory) (now : Z) (svc : service) (new : option service) : Prop :=
  if (lease m svc now).2 then new = None
  else if bool_decide ((lease m svc now).1 = lastState svc) then new = Some svc
  else ∃ idx, new = Some (with_modifyIndex idx (with_lastState (lease m svc now).1 svc)).

Lemma gc_after_opts m m' now svc new :
  opts m = opts m' → gc_after m now svc new → gc_after m' now svc new.
Proof. unfold gc_after. intros E. by rewrite (lease_opts m m'). Qed.

(** A pass has something to say of a record: its lease ran out of the grace
    period, or its state is not the last one announced. *)
Definition gc_due (m : Memory) (now : Z) (svc : service) : bool :=
  (lease m svc now).2 || bool_decide ((lease m svc now).1 ≠ lastState svc).

(** What the event of a record whose pass left [new] says: a deletion of the
    instance that was stored under the node [mt], or the record now stored, in
    the state its lease has at a reading of the clock. *)
Definition announces (clk : Clock) (m : Memory) (mt : Node) (svc : service) (new : option service)
    (ev : ChangeEvent) : Prop :=
  match new with
  | None => Event_Type ev = ChangeDelete ∧ Entry_Node (Event_Entry ev) = mt ∧
      Entry_Service (Event_Entry ev) = def svc ∧ Event_Index ev = Entry_ModifyIndex (Event_Entry ev)
  | Some svc' => ∃ i, ev = mkEvent ChangePut
      (mkEntry mt (def svc) (lease m svc (clk i)).1 (maintenance svc) (createIndex svc) (modifyIndex svc'))
      (modifyIndex svc')
  end.

Lemma gc_due_opts m m' now svc : opts m = opts m' → gc_due m now svc = gc_due m' now svc.
Proof. unfold gc_due. intros E. by rewrite (lease_opts m m'). Qed.

Lemma announces_opts clk m m' mt svc new ev :
  opts m = opts m' → announces clk m mt svc new ev → announces clk m' mt svc new ev.
Proof.
  unfold announces. intros E. destruct new; [|done]. intros (i & ->). exists i. by rewrite (lease_opts m m').
Qed.

(** The events [evs'] say exactly what is due of the records [svcs] of a node, in
    their order. *)
Definition said (clk : Clock) (m : Memory) (now : Z) (nid : string) (mt : Node)
    (svcs : list (string * service)) (m' : Memory) (evs' : list ChangeEvent) : Prop :=
  Forall2 (λ p ev, announces clk m mt p.2 (lookup_service m' nid p.1) ev)
    (filter (λ p, gc_due m now p.2 = true) svcs) evs'.

Lemma said_ext clk m m1 now nid mt svcs m' m'' evs :
  opts m = opts m1 → (∀ id svc, (id, svc) ∈ svcs → lookup_service m' nid id = lookup_service m'' nid id) →
  said clk m now nid mt svcs m' evs → said clk m1 now nid mt svcs m'' evs.
Proof.
  intros Ho Hl. unfold said.
  assert (E : filter (λ p, gc_due m now p.2 = true) svcs = filter (λ p, gc_due m1 now p.2 = true) svcs).
  { apply list_filter_iff. intros p. by rewrite (gc_due_opts m m1). }
  rewrite E. intros HF. apply Forall2_same_length_lookup_2; [by eapply Forall2_length|].
  intros i [id svc] ev Hi He. pose proof (Forall2_lookup_lr _ _ _ _ _ _ HF Hi He) as Ha.
  simpl in *. rewrite <-(Hl id svc); [by eapply announces_opts|].
  apply list_elem_of_lookup_2, list_elem_of_filter in Hi. by destruct Hi.
Qed.

(** Node metadata are kept as long as the node is. *)
Definition keeps_meta (m m' : Memory) : Prop :=
  ∀ nid n', nodes m' !! nid = Some n' → ∃ n, nodes m !! nid = Some n ∧ meta n = meta n'.

Lemma keeps_meta_trans m m1 m2 : keeps_meta m m1 → keeps_meta m1 m2 → keeps_meta m m2.
Proof. intros H1 H2 nid n2 (n1 & Hn1 & <-)%H2. by apply H1. Qed.

Lemma keeps_meta_drop m nid : keeps_meta m (drop_empty nid m).
Proof. intros nid' n' Hn%drop_empty_nodes. eauto. Qed.

Record gc_node (clk : Clock) (now : Z) (nid : string) (mt : Node) (svcs : list (string * service))
    (m : Memory) (events : list ChangeEvent) (removed : Z)
    (m' : Memory) (events' : list ChangeEvent) (removed' : Z) : Prop := {
  gn_opts : opts m' = opts m;
  gn_meta : keeps_meta m m';
  gn_total : removed' - removed = total m - total m';
  gn_frame : ∀ nid' id', nid' ≠ nid ∨ id' ∉ svcs.*1 →
    lookup_service m' nid' id' = lookup_service m nid' id';
  gn_after : ∀ id svc, (id, svc) ∈ svcs → gc_after m now svc (lookup_service m' nid id);
  gn_said : ∃ evs', events' = events ++ evs' ∧ said clk m now nid mt svcs m' evs'
}.

(** One record: the state after it, from which the loop goes on. *)
Lemma gc_services_cons clk now nid id svc svcs m events removed n :
  nodes m !! nid = Some n → services n !! id = Some svc →
  ∃ m1 events1 removed1,
    gc_services clk now nid (meta n) ((id, svc) :: svcs) m events removed =
      gc_services clk now nid (meta n) svcs m1 events1 removed1 ∧
    (∃ n1, nodes m1 !! nid = Some n1 ∧ meta n1 = meta n ∧
       ∀ id', id' ≠ id → services n1 !! id' = services n !! id') ∧
    gc_node clk now nid (meta n) [(id, svc)] m events removed m1 events1 removed1.
Proof.
  intros Hn Hs. cbn [gc_services].
  destruct (lease m svc now) as [state expired] eqn:Hls.
  assert (Hl : lookup_service m nid id = Some svc) by (by rewrite (lookup_service_node _ _ _ n)).
  destruct expired; [|case_bool_decide as Hst].
  - destruct (remove_service nid id svc m) as [svc' m1] eqn:Hr. eexists m1, _, _. split; [done|].
    apply remove_service_nodes in Hr as (Hsv & Hop & _ & Hnodes).
    assert (Hlk : ∀ nid' id', lookup_service m1 nid' id' =
      if decide ((nid, id) = (nid', id')) then None else lookup_service m nid' id').
    { intros. rewrite (lookup_service_nodes _ _ _ _ Hnodes). apply lookup_del_service. }
    split.
    { eexists. rewrite Hnodes, del_service_nodes, Hn. simpl. rewrite decide_True by done.
      split; [done|]. split; [done|]. simpl. intros. by rewrite lookup_delete_ne. }
    split; [done| | | | |].
    + intros nid' n'. rewrite Hnodes. apply meta_del_service.
    + rewrite (total_nodes_eq _ _ Hnodes), (total_del_service m nid n id svc) by done. lia.
    + intros nid' id' Hne. rewrite Hlk, decide_False; [done|]. simpl in Hne. set_solver.
    + intros ? ? [= -> ->]%list_elem_of_singleton. unfold gc_after. rewrite Hls. simpl.
      by rewrite Hlk, decide_True.
    + eexists. split; [done|]. unfold said, gc_due. rewrite filter_cons_True by (simpl; by rewrite Hls). simpl.
      constructor; [|constructor]. rewrite Hlk, decide_True by done.
      unfold announces, deleteEvent, entry; simpl. by rewrite Hsv.
  - destruct (next m) as [idx m1] eqn:Hnx. eexists _, _, _. split; [done|].
    assert (Hn1 : nodes m1 = nodes m ∧ opts m1 = opts m) by (by injection Hnx as _ <-).
    destruct Hn1 as [Hn1 Hop1]. split.
    { eexists. rewrite put_service_nodes, Hn1, Hn. simpl. rewrite decide_True by done.
      split; [done|]. split; [done|]. simpl. intros. by rewrite lookup_insert_ne. }
    assert (Hlk : ∀ nid' id' s, lookup_service (put_service nid id s m1) nid' id' =
      if decide ((nid, id) = (nid', id')) then Some s else lookup_service m nid' id').
    { intros. rewrite <-(lookup_service_nodes _ _ nid' id' Hn1). apply lookup_put_service.
      rewrite Hn1. eauto. }
    split; [done| | | | |].
    + intros nid' n'. rewrite <-Hn1. apply meta_put_service.
    + rewrite (put_service_total m1 nid n id _ svc), (total_nodes_eq _ _ Hn1) by (by rewrite ?Hn1). lia.
    + intros nid' id' Hne. rewrite Hlk, decide_False; [done|]. simpl in Hne. set_solver.
    + intros ? ? [= -> ->]%list_elem_of_singleton. unfold gc_after. rewrite Hls. simpl.
      rewrite bool_decide_eq_false_2 by done. rewrite Hlk, decide_True by done. eauto.
    + eexists. split; [done|]. unfold said, gc_due.
      rewrite filter_cons_True by (simpl; by rewrite Hls, bool_decide_eq_true_2 by done). simpl.
      constructor; [|constructor]. rewrite Hlk, decide_True by done.
      eexists. unfold putEvent, entry; simpl. by erewrite (lease_opts _ m).
  - exists m, events, removed. split; [done|]. split; [by eauto|].
    split; [done|intros ???; eauto|lia|done| |].
    + intros ? ? [= -> ->]%list_elem_of_singleton. unfold gc_after. rewrite Hls. simpl.
      rewrite bool_decide_eq_true_2; done.
    + exists []. rewrite app_nil_r. split; [done|]. unfold said, gc_due.
      rewrite filter_cons_False by (simpl; rewrite Hls, bool_decide_eq_false_2; naive_solver). constructor.
Qed.

Lemma said_cons clk m now nid mt p svcs m' evs1 evs2 :
  said clk m now nid mt [p] m' evs1 → said clk m now nid mt svcs m' evs2 →
  said clk m now nid mt (p :: svcs) m' (evs1 ++ evs2).
Proof.
  unfold said. intros H1 H2. change (p :: svcs) with ([p] ++ svcs). rewrite filter_app. by apply Forall2_app.
Qed.

Lemma gc_services_spec clk now nid svcs m events removed n m' evs k :
  nodes m !! nid = Some n → pending n svcs →
  gc_services clk now nid (meta n) svcs m events removed = (m', evs, k) →
  gc_node clk now nid (meta n) svcs m events removed m' evs k.
Proof.
  revert m events removed n. induction svcs as [|[id svc] svcs IH]; intros m events removed n Hn Hpen.
  { intros [= <- <- <-]. split; [done|intros ???; eauto|lia|done|set_solver|].
    exists []. rewrite app_nil_r. split; [done|constructor]. }
  destruct Hpen as [[Hid Hnd]%NoDup_cons Hin].
  destruct (gc_services_cons clk now nid id svc svcs m events removed n Hn)
    as (m1 & events1 & removed1 & -> & (n1 & Hn1 & Hmt1 & Hs1) & [Hop1 Hme1 Ht1 Hfr1 Haf1 Hsd1]);
    [apply Hin; set_solver|].
  rewrite <-Hmt1. intros [Hop Hme Ht Hfr Haf Hsd]%IH; [|done|].
  - rewrite Hmt1 in *. split; [congruence|by eapply keeps_meta_trans|lia| | |].
    + intros nid' id' Hne. rewrite Hfr, Hfr1; set_solver.
    + intros id' svc' [[= -> ->]|Hi]%elem_of_cons.
      * rewrite Hfr by (by right). apply Haf1. set_solver.
      * apply (gc_after_opts m1); [done|]. by apply Haf.
    + destruct Hsd as (evs2 & -> & Hsd), Hsd1 as (evs1 & -> & Hsd1). exists (evs1 ++ evs2).
      rewrite app_assoc. split; [done|]. apply said_cons.
      * apply (said_ext clk m m _ _ _ _ m1 m'); [done| |done]. intros ? ? [= -> ->]%list_elem_of_singleton.
        symmetry. apply Hfr. by right.
      * by apply (said_ext clk m1 m _ _ _ _ m' m').
  - split; [done|]. intros id' svc' Hi. rewrite Hs1; [apply Hin; set_solver|].
    intros ->. apply Hid. apply list_elem_of_fmap. by exists (id, svc').
Qed.

(** The records of the nodes [ns] a pass has something to say of, in the order in
    which it visits them. *)
Definition gc_dues `{MapRange} (m : Memory) (now : Z) (ns : list (string * node))
  : list (string * node * (string * service)) :=
  ns ≫= λ p, pair p <$> filter (λ q, gc_due m now q.2 = true) (range (services p.2)).

Definition says (clk : Clock) (m m' : Memory) (d : string * node * (string * service)) (ev : ChangeEvent)
  : Prop :=
  announces clk m (meta d.1.2) d.2.2 (lookup_service m' d.1.1 d.2.1) ev.

Record gc_pass `{MapRange} (clk : Clock) (now : Z) (ns : list (string * node))
    (m : Memory) (events : list ChangeEvent) (removed : Z)
    (m' : Memory) (events' : list ChangeEvent) (removed' : Z) : Prop := {
  gp_opts : opts m' = opts m;
  gp_meta : keeps_meta m m';
  gp_total : removed' - removed = total m - total m';
  gp_frame : ∀ nid, nid ∉ ns.*1 → nodes m' !! nid = nodes m !! nid;
  gp_after : ∀ nid n, (nid, n) ∈ ns →
    (∀ id, services n !! id = None → lookup_service m' nid id = None) ∧
    (∀ id svc, services n !! id = Some svc → gc_after m now svc (lookup_service m' nid id));
  gp_empty : ∀ nid n', nid ∈ ns.*1 → nodes m' !! nid = Some n' → services n' ≠ ∅;
  gp_said : ∃ evs', events' = events ++ evs' ∧ Forall2 (says clk m m') (gc_dues m now ns) evs'
}.

Lemma gc_dues_opts `{MapRange} m m' now ns : opts m = opts m' → gc_dues m now ns = gc_dues m' now ns.
Proof.
  intros E. unfold gc_dues. induction ns as [|p ns IH]; [done|].
  cbn [mbind list_bind]. f_equal; [f_equal|exact IH]. apply list_filter_iff. intros q. by rewrite (gc_due_opts m m').
Qed.

Lemma drop_empty_nonempty nid m n : nodes (drop_empty nid m) !! nid = Some n → services n ≠ ∅.
Proof.
  unfold drop_empty. destruct (nodes m !! nid) as [n1|] eqn:E; [|congruence].
  case_bool_decide; simpl; [by rewrite lookup_delete_eq|congruence].
Qed.

Lemma gc_nodes_spec `{MapRange} clk now ns m events removed m' evs k :
  NoDup ns.*1 → (∀ nid n, (nid, n) ∈ ns → nodes m !! nid = Some n) →
  gc_nodes clk now ns m events removed = (m', evs, k) →
  gc_pass clk now ns m events removed m' evs k.
Proof.
  revert m events removed. induction ns as [|[nid n] ns IH]; intros m events removed Hnd Hin.
  { intros [= <- <- <-]. split; [done|intros ???; eauto|lia|done|set_solver|set_solver|].
    exists []. rewrite app_nil_r. split; [done|constructor]. }
  cbn [gc_nodes]. simpl in Hnd. apply NoDup_cons in Hnd as [Hnid Hnd].
  assert (Hn : nodes m !! nid = Some n) by (apply Hin; set_solver).
  assert (Hpen : pending n (range (services n))).
  { split; [apply NoDup_range_fst|]. intros. by apply elem_of_range. }
  destruct (gc_services_prims clk now nid (range (services n)) m events removed n Hn Hpen)
    as (m1 & evs1 & k1 & n1 & Hgc & _ & _ & _ & _ & Hne1).
  rewrite Hgc. pose proof (gc_services_spec _ _ _ _ _ _ _ _ _ _ _ Hn Hpen Hgc) as [Hop1 Hme1 Ht1 Hfr1 Haf1 Hsd1].
  assert (Hnin : ∀ nid' n', (nid', n') ∈ ns → nid' ≠ nid).
  { intros nid' n' Hi ->. apply Hnid. apply list_elem_of_fmap. by exists (nid, n'). }
  intros [Hop Hme Ht Hfr Haf Hem Hsd]%IH; [|done|].
  - rewrite total_drop_empty in Ht. rewrite opts_drop_empty in Hop.
    assert (Hown : ∀ id, lookup_service m' nid id = lookup_service m1 nid id).
    { intros id. rewrite <-(lookup_drop_empty m1 nid). unfold lookup_service. by rewrite Hfr. }
    split; [congruence| |lia| | | |].
    + eapply keeps_meta_trans; [done|]. eapply keeps_meta_trans; [apply keeps_meta_drop|done].
    + intros nid' [Hx Hy]%not_elem_of_cons. simpl in Hx. rewrite Hfr, drop_empty_ne by done. by apply Hne1.
    + intros nid' n' [[= -> ->]|Hi]%elem_of_cons.
      * split; intros id; rewrite Hown.
        -- intros Hs. rewrite Hfr1; [by rewrite (lookup_service_node _ _ _ n)|].
           right. intros ([? svc] & -> & Hi%elem_of_range)%list_elem_of_fmap. simpl in Hs. congruence.
        -- intros svc Hs. apply Haf1. by apply elem_of_range.
      * destruct (Haf nid' n' Hi) as [H1 H2]. split; [done|]. intros id svc Hs.
        apply (gc_after_opts (drop_empty nid m1)); [rewrite opts_drop_empty; congruence|]. by apply H2.
    + intros nid' n' [->|Hi]%elem_of_cons; [|by apply Hem]. simpl.
      rewrite Hfr by done. apply drop_empty_nonempty.
    + destruct Hsd as (evs3 & -> & Hsd), Hsd1 as (evs2 & -> & Hsd1). exists (evs2 ++ evs3).
      rewrite app_assoc. split; [done|]. cbn [gc_dues mbind list_bind]. apply Forall2_app.
      * apply Forall2_fmap_l. eapply Forall2_impl; [exact Hsd1|]. intros [id svc] ev.
        unfold says, compose; simpl. by rewrite Hown.
      * fold (gc_dues m now ns).
        rewrite (gc_dues_opts m (drop_empty nid m1)) by (rewrite opts_drop_empty; congruence).
        eapply Forall2_impl; [exact Hsd|]. intros d ev. apply announces_opts.
        rewrite opts_drop_empty; congruence.
  - intros nid' n' Hi. pose proof (Hnin _ _ Hi). rewrite drop_empty_ne, Hne1 by done.
    apply Hin. set_solver.
Qed.

(** A state in which a pass at [now] has nothing to do. *)
Definition gc_settled (m : Memory) (now : Z) : Prop :=
  (∀ nid id svc, lookup_service m nid id = Some svc → lease m svc now = (lastState svc, false)) ∧
  (∀ nid n, nodes m !! nid = Some n → services n ≠ ∅).

Lemma gc_services_settled clk now nid mt svcs m events removed :
  (∀ id svc, (id, svc) ∈ svcs → lease m svc now = (lastState svc, false)) →
  gc_services clk now nid mt svcs m events removed = (m, events, removed).
Proof.
  induction svcs as [|[id svc] svcs IH]; intros Hall; [done|]. cbn [gc_services].
  rewrite (Hall id svc) by set_solver. rewrite bool_decide_eq_false_2 by auto.
  apply IH. set_solver.
Qed.

Lemma GC_settled `{MapRange} clk m : gc_settled m (clk O) → GC clk m = (0, m, []).
Proof.
  intros [Hall Hne]. unfold GC.
  assert (Hns : ∀ ns, (∀ nid n, (nid, n) ∈ ns → nodes m !! nid = Some n) →
            gc_nodes clk (clk O) ns m [] 0 = (m, [], 0)).
  { induction ns as [|[nid n] ns IH]; intros Hin; [done|]. cbn [gc_nodes].
    assert (Hn : nodes m !! nid = Some n) by (apply Hin; set_solver).
    rewrite gc_services_settled.
    - unfold drop_empty. rewrite Hn, bool_decide_eq_false_2 by (by eapply Hne). apply IH. set_solver.
    - intros id svc Hs%elem_of_range. apply (Hall nid id). by rewrite (lookup_service_node _ _ _ n). }
  rewrite Hns; [done|]. intros. by apply elem_of_range.
Qed.

Record gc_result (now : Z) (m m' : Memory) (k : Z) : Prop := {
  gr_opts : opts m' = opts m;
  gr_meta : keeps_meta m m';
  gr_count : k = total m - total m';
  gr_none : ∀ nid id, lookup_service m nid id = None → lookup_service m' nid id = None;
  gr_some : ∀ nid id svc, lookup_service m nid id = Some svc →
    gc_after m now svc (lookup_service m' nid id);
  gr_empty : ∀ nid n, nodes m' !! nid = Some n → services n ≠ ∅
}.

(** What the events of a pass announce: one list of the (node, service) pairs with
    a record to speak of, without repetition, and one event for each of them. *)
Definition gc_announced (clk : Clock) (m m' : Memory) (evs : list ChangeEvent) : Prop :=
  ∃ ids : list (string * string), NoDup ids ∧
    (∀ nid id, (nid, id) ∈ ids ↔ ∃ svc, lookup_service m nid id = Some svc ∧ gc_due m (clk O) svc = true) ∧
    Forall2 (λ p ev, ∃ n svc, nodes m !! p.1 = Some n ∧ services n !! p.2 = Some svc ∧
      announces clk m (meta n) svc (lookup_service m' p.1 p.2) ev) ids evs.

Lemma elem_of_gc_dues `{MapRange} m now ns nid n id svc :
  (nid, n, (id, svc)) ∈ gc_dues m now ns ↔
  (nid, n) ∈ ns ∧ services n !! id = Some svc ∧ gc_due m now svc = true.
Proof.
  unfold gc_dues. rewrite list_elem_of_bind. split.
  - intros ([nid' n'] & (q & [= <- <- <-] & Hq)%list_elem_of_fmap & Hin). simpl in Hq.
    apply list_elem_of_filter in Hq as [Hd Hq%elem_of_range]. done.
  - intros (Hin & Hs & Hd). exists (nid, n). split; [|done]. apply list_elem_of_fmap. exists (id, svc).
    split; [done|]. apply list_elem_of_filter. split; [done|]. by apply elem_of_range.
Qed.

Definition due_id (d : string * node * (string * service)) : string * string := (d.1.1, d.2.1).

Lemma gc_dues_NoDup `{MapRange} m now ns : NoDup ns.*1 → NoDup (due_id <$> gc_dues m now ns).
Proof.
  induction ns as [|[nid n] ns IH]; [constructor|]. intros [Hn Hnd]%NoDup_cons.
  cbn [gc_dues mbind list_bind]. rewrite fmap_app. apply NoDup_app. split_and!.
  - rewrite <-list_fmap_compose.
    change (due_id ∘ pair (nid, n)) with (pair nid ∘ (fst : string * service → string)).
    rewrite (list_fmap_compose fst (pair nid)). apply NoDup_fmap_2; [intros ?? [= ->]; done|].
    eapply sublist_NoDup; [apply (NoDup_range_fst (services n))|].
    apply fmap_sublist, sublist_filter.
  - intros [nid' id'] (d1 & [= -> ->] & H1)%list_elem_of_fmap (d2 & [= E1 E2] & H2)%list_elem_of_fmap.
    apply list_elem_of_fmap in H1 as (q & -> & _). simpl in *. subst. apply Hn.
    destruct d2 as [[nid2 n2] [id2 svc2]]. apply elem_of_gc_dues in H2 as [H2 _].
    apply list_elem_of_fmap. by exists (nid2, n2).
  - by apply IH.
Qed.

Lemma gc_announced_intro `{MapRange} clk m m' evs :
  Forall2 (says clk m m') (gc_dues m (clk O) (range (nodes m))) evs → gc_announced clk m m' evs.
Proof.
  intros HF. exists (due_id <$> gc_dues m (clk O) (range (nodes m))). split_and!.
  - apply gc_dues_NoDup, NoDup_range_fst.
  - intros nid id. rewrite list_elem_of_fmap. split.
    + intros ([[? n] [? svc]] & [= -> ->] & (Hn%elem_of_range & Hs & Hd)%elem_of_gc_dues).
      exists svc. split; [|done]. by rewrite (lookup_service_node _ _ _ n).
    + intros (svc & (n & Hn & Hs)%lookup_service_is_Some & Hd). exists (nid, n, (id, svc)).
      split; [done|]. apply elem_of_gc_dues. by rewrite elem_of_range.
  - apply Forall2_fmap_l. apply Forall2_same_length_lookup_2; [by eapply Forall2_length|].
    intros i [[nid n] [id svc]] ev Hi He. pose proof (Forall2_lookup_lr _ _ _ _ _ _ HF Hi He) as Ha.
    apply list_elem_of_lookup_2, elem_of_gc_dues in Hi as (Hn%elem_of_range & Hs & _).
    exists n, svc. done.
Qed.

Lemma GC_spec `{MapRange} clk m k m' evs : GC clk m = (k, m', evs) → gc_result (clk O) m m' k.
Proof.
  unfold GC. destruct (gc_nodes _ _ _ _ _ _) as [[m1 evs1] k1] eqn:E. intros [= <- <- <-].
  apply gc_nodes_spec in E as [Hop Hme Ht Hfr Haf Hem _]; [|apply NoDup_range_fst|intros; by apply elem_of_range].
  assert (Hin : ∀ nid n, nodes m !! nid = Some n → nid ∈ (range (nodes m)).*1).
  { intros nid n Hn. apply list_elem_of_fmap. exists (nid, n). by rewrite elem_of_range. }
  assert (Hout : ∀ nid, nodes m !! nid = None → nodes m1 !! nid = None).
  { intros nid Hn. rewrite Hfr; [done|]. intros ([? n] & -> & Hi%elem_of_range)%list_elem_of_fmap.
    simpl in Hn. congruence. }
  split; [done|done|lia|..].
  - intros nid id Hl. destruct (nodes m !! nid) as [n|] eqn:Hn.
    + rewrite (lookup_service_node _ _ _ n Hn) in Hl.
      by apply (proj1 (Haf nid n ltac:(by apply elem_of_range))).
    + unfold lookup_service. by rewrite Hout.
  - intros nid id svc (n & Hn & Hs)%lookup_service_is_Some.
    by apply (proj2 (Haf nid n ltac:(by apply elem_of_range))).
  - intros nid n Hn. destruct (nodes m !! nid) as [n0|] eqn:Hn0.
    + apply (Hem nid); [by eapply Hin|done].
    + rewrite Hout in Hn by done. done.
Qed.

Lemma GC_events `{MapRange} clk m k m' evs : GC clk m = (k, m', evs) → gc_announced clk m m' evs.
Proof.
  unfold GC. destruct (gc_nodes _ _ _ _ _ _) as [[m1 evs1] k1] eqn:E. intros [= <- <- <-].
  apply gc_nodes_spec in E as [_ _ _ _ _ _ (evs' & -> & HF)];
    [|apply NoDup_range_fst|intros; by apply elem_of_range].
  by apply gc_announced_intro.
Qed.

Lemma gc_after_settled m now svc new svc' :
  gc_after m now svc new → new = Some svc' → lease m svc' now = (lastState svc', false).
Proof.
  unfold gc_after. destruct (lease m svc now) as [st ex] eqn:E; simpl. destruct ex; [congruence|].
  case_bool_decide; intros Hn Hs; [by simplify_eq|].
  destruct Hn as [idx ->]. injection Hs as <-. exact E.
Qed.

Lemma gc_result_settled now m m' k : gc_result now m m' k → gc_settled m' now.
Proof.
  intros [Hop _ _ Hnone Hsome Hem]. split; [|done]. intros nid id svc Hl.
  rewrite (lease_opts m' m) by done.
  destruct (lookup_service m nid id) as [old|] eqn:E; [|by rewrite (Hnone _ _ E) in Hl].
  eapply gc_after_settled; [by apply Hsome|done].
Qed.

(** ** What readers see *)

(** An entry without its ModifyIndex. *)
Definition unversioned (e : ServiceEntry) : ServiceEntry :=
  mkEntry (Entry_Node e) (Entry_Service e) (Entry_Health e) (Entry_Maintenance e) (Entry_CreateIndex e) 0.

Lemma gc_after_entry m now svc new :
  gc_after m now svc new →
  ((lease m svc now).2 = true ∧ new = None) ∨
  (∃ svc', new = Some svc' ∧ def svc' = def svc ∧ lease m svc' now = lease m svc now ∧
     ∀ mt h, unversioned (entry mt svc' h) = unversioned (entry mt svc h)).
Proof.
  unfold gc_after. destruct (lease m svc now) as [st ex] eqn:E; simpl.
  destruct ex; [by left|]. intros Hn. right. case_bool_decide.
  - exists svc. done.
  - destruct Hn as [idx ->]. eexists. split; [done|]. split; [done|]. split; [exact E|done].
Qed.

Lemma answers_ext m m' q now n n' svc svc' :
  meta n = meta n' → def svc = def svc' → (lease m svc now).2 = (lease m' svc' now).2 →
  answers m q now n svc → answers m' q now n' svc'.
Proof. intros E1 E2 E3 [H1 H2 H3 H4]. split; by rewrite <-?E1, <-?E2, <-?E3. Qed.

Lemma gc_found_sub `{MapRange} q now m m' k e :
  wf m → wf m' → gc_result now m m' k →
  e ∈ unversioned <$> found m q now ↔ e ∈ unversioned <$> found m' q now.
Proof.
  intros Hwf Hwf' [Hop Hme _ Hnone Hsome _]. rewrite !list_elem_of_fmap. split.
  - intros (x & -> & Hx). apply elem_of_found in Hx as (nid & n & id & svc & Hn & Hs & Ha & ->); [|done].
    assert (Hl : lookup_service m nid id = Some svc) by (by rewrite (lookup_service_node _ _ _ n)).
    destruct (gc_after_entry _ _ _ _ (Hsome _ _ _ Hl)) as [[Hex _]|(svc' & Hl' & Hd & Hls & He)].
    { destruct Ha. congruence. }
    apply lookup_service_is_Some in Hl' as (n' & Hn' & Hs').
    destruct (Hme _ _ Hn') as (n0 & Hn0 & Hmt). assert (n0 = n) as -> by congruence.
    assert (Hls' : lease m' svc' now = lease m svc now) by (by rewrite (lease_opts m' m)).
    exists (entry (meta n') svc' (lease m' svc' now).1). split.
    + by rewrite He, Hmt, Hls'.
    + apply elem_of_found; [done|]. exists nid, n', id, svc'. split_and!; [done..| |done].
      by eapply (answers_ext m m' q now n n' svc); rewrite ?Hls'.
  - intros (x & -> & Hx). apply elem_of_found in Hx as (nid & n' & id & svc' & Hn' & Hs' & Ha & ->); [|done].
    assert (Hl' : lookup_service m' nid id = Some svc') by (by rewrite (lookup_service_node _ _ _ n')).
    destruct (lookup_service m nid id) as [svc|] eqn:Hl; [|by rewrite (Hnone _ _ Hl) in Hl'].
    destruct (gc_after_entry _ _ _ _ (Hsome _ _ _ Hl)) as [[_ Hx]|(svc2 & Hl2 & Hd & Hls & He)];
      [congruence|]. assert (svc2 = svc') as -> by congruence.
    destruct (Hme _ _ Hn') as (n & Hn & Hmt).
    rewrite (lookup_service_node _ _ _ n Hn) in Hl.
    assert (Hls' : lease m' svc' now = lease m svc now) by (by rewrite (lease_opts m' m)).
    exists (entry (meta n) svc (lease m svc now).1). split.
    + by rewrite He, Hmt, Hls'.
    + apply elem_of_found; [done|]. exists nid, n, id, svc. split_and!; [done..| |done].
      by eapply (answers_ext m' m q now n' n svc'); rewrite ?Hls'.
Qed.

(** ** Claims *)

(** C16: one pass of the reaper removes exactly the records whose lease ran out of
    the grace period at its instant, counts them, marks the records whose health
    differs from the one last announced, leaves every other record as it was, and
    leaves no node without a service behind.  It emits exactly one event for each
    removed and each marked record, and no other: a deletion that carries the
    removed instance under its node, or a put that carries the record as it is now
    stored, its new ModifyIndex included. *)
Theorem GC_correct `{MapRange} (clk : Clock) (m : Memory) :
  ∃ k m' evs, GC clk m = (k, m', evs) ∧ gc_result (clk O) m m' k ∧ gc_announced clk m m' evs.
Proof.
  destruct (GC clk m) as [[k m'] evs] eqn:E. exists k, m', evs. split; [done|].
  split; [by eapply GC_spec|by eapply GC_events].
Qed.

(** The reaper is idempotent at an instant: after a pass, a second one at the
    same time removes nothing, emits nothing and leaves the state as it is. *)
Theorem GC_idempotent `{MapRange} (clk clk' : Clock) (m : Memory) (k : Z) (m' : Memory) evs :
  GC clk m = (k, m', evs) → clk' O = clk O → GC clk' m' = (0, m', []).
Proof. intros Hr%GC_spec Ht. apply GC_settled. rewrite Ht. by eapply gc_result_settled. Qed.

Lemma GC_idempotent_witness :
  let r := @GC list_order (frozen (1050 * second)) sampleRun.1 in
  (r.1.1 = 0 ∧ length r.2 = 2%nat) ∧
  @GC list_order (frozen (1050 * second)) r.1.2 = (0, r.1.2, []).
Proof.
  split; [vm_compute; split; reflexivity|].
  apply (@GC_idempotent list_order (frozen (1050 * second)) (frozen (1050 * second)) sampleRun.1 
           (@GC list_order (frozen (1050 * second)) sampleRun.1).1.1 _
           (@GC list_order (frozen (1050 * second)) sampleRun.1).2); [|reflexivity].
  by destruct (@GC list_order (frozen (1050 * second)) sampleRun.1) as [[? ?] ?].
Defined.

(** Readers cannot tell whether the reaper ran: at the instant of a pass every
    lookup answers the same entries before and after it, apart from the
    ModifyIndex of the records it announced. *)
Theorem GC_invisible_to_lookup `{MapRange} (clk : Clock) (q : Query) (m : Memory) :
  wf m →
  unversioned <$> Lookup_Entries (Lookup clk q (GC clk m).1.2) =
  unversioned <$> Lookup_Entries (Lookup clk q m).
Proof.
  intros Hwf. pose proof (wf_apply clk OpGC m Hwf) as Hwf'. cbn [apply] in Hwf'.
  destruct (GC clk m) as [[k m'] evs] eqn:E. simpl. apply GC_spec in E.
  rewrite !(sort_slice_fmap entry_key unversioned) by (done || by apply found_NoDup_keys).
  apply sort_by_key_ext.
  - apply (NoDup_key_perm entry_key); [rewrite <-list_fmap_compose; by apply found_NoDup_keys..|].
    intros e. symmetry. by eapply gc_found_sub.
  - rewrite <-list_fmap_compose. by apply found_NoDup_keys.
Qed.

Lemma GC_invisible_to_lookup_witness :
  unversioned <$> Lookup_Entries (@Lookup list_order (frozen (1050 * second)) zeroQuery
     (@GC list_order (frozen (1050 * second)) sampleRun.1).1.2) =
  unversioned <$> Lookup_Entries (@Lookup list_order (frozen (1050 * second)) zeroQuery sampleRun.1).
Proof.
  apply (@GC_invisible_to_lookup list_order), (wf_reachable sampleOptions _ sampleRun.2),
    sampleRun_reachable.
Defined.
