(* ===== verification/StoreMerge.v ===== *)
(** Anti-entropy, [Memory.Merge]: merging a peer's entries is the last-writer-wins
    join of the records, it never loses a newer local record, it is idempotent,
    and two registries that exchange their contents converge. *)

From Stdlib Require Import ZArith Lia.
From stdpp Require Import base gmap list strings.
From S2P Require Import Prelude GoStrings Model Health Store StoreSteps StoreInv StoreSpec StoreLookup.

#[local] Open Scope Z_scope.

#[local] Arguments create_service : simpl never.
#[local] Arguments overwrite_service : simpl never.
#[local] Arguments remove_service : simpl never.

(** ** One entry *)

(** The entry as the local registry would store it. *)
Definition offered (m : Memory) (e : ServiceEntry) : ServiceInstance :=
  with_TTL (clampTTL m (Svc_TTL (Entry_Service e))) (Entry_Service e).

(** Entries without a node or service ID are skipped. *)
Definition mergeable (e : ServiceEntry) : Prop := (entry_key e).1 ≠ ""%string ∧ (entry_key e).2 ≠ ""%string.

#[export] Instance mergeable_dec e : Decision (mergeable e).
Proof. unfold mergeable. apply _. Defined.

(** The record after the entry, from the one before it. *)
Definition merged1 (d : ServiceInstance) (full : bool) (old new : option service) : Prop :=
  match old with
  | None => if full then new = None
            else ∃ idx, new = Some (mkSvc d false false HealthPassing idx idx)
  | Some s => if WinsLWW d (def s) then ∃ idx, new = Some (with_modifyIndex idx (with_def d s))
              else new = Some s
  end.

Lemma offered_opts m m' e : opts m = opts m' → offered m e = offered m' e.
Proof. unfold offered, clampTTL. by intros ->. Qed.

Record merge_step (e : ServiceEntry) (m m1 : Memory) (size size1 applied applied1 : Z)
    (events events1 : list ChangeEvent) : Prop := {
  ms_opts : opts m1 = opts m;
  ms_size : size = total m → size1 = total m1;
  ms_lookup : ∃ new, (if decide (mergeable e)
      then merged1 (offered m e) (at_capacity m size)
        (lookup_service m (entry_key e).1 (entry_key e).2) new
      else new = lookup_service m (entry_key e).1 (entry_key e).2) ∧
    ∀ nid' id', lookup_service m1 nid' id' =
      if decide (entry_key e = (nid', id')) then new else lookup_service m nid' id';
  ms_silent : (mergeable e → ∃ s, lookup_service m (entry_key e).1 (entry_key e).2 = Some s ∧
      WinsLWW (offered m e) (def s) = false) →
    applied1 = applied ∧ events1 = events ∧ index m1 = index m
}.

Lemma merge_step_skip e m size applied events :
  ¬ mergeable e → merge_step e m m size size applied applied events events.
Proof.
  intros Hm. split; [done|done| |intros _; split_and!; reflexivity].
  exists (lookup_service m (entry_key e).1 (entry_key e).2). rewrite decide_False by done.
  split; [done|]. intros nid' id'. destruct (decide (entry_key e = (nid', id'))) as [E|E]; [by rewrite E|done].
Qed.

Lemma merge_loop_cons clk e entries m size applied events :
  ∃ m1 size1 applied1 events1,
    merge_loop clk (e :: entries) m size applied events =
      merge_loop clk entries m1 size1 applied1 events1 ∧
    merge_step e m m1 size size1 applied applied1 events events1.
Proof.
  cbn [merge_loop]. set (mt := Entry_Node e). set (sid := Svc_ID (Entry_Service e)).
  assert (Hk : entry_key e = (Node_ID mt, sid)) by done.
  destruct (bool_decide (Node_ID mt = "") || bool_decide (sid = "")) eqn:Hskip.
  { eexists m, _, _, _. split; [done|]. apply merge_step_skip. intros [H1 H2]. rewrite Hk in H1, H2.
    simpl in *. repeat case_bool_decide; done. }
  apply orb_false_iff in Hskip as [E1%bool_decide_eq_false E2%bool_decide_eq_false].
  assert (Hm : mergeable e) by (by split; rewrite Hk).
  set (m0 := ensure_node mt m).
  destruct (ensure_node_lookup m mt) as (n & Hn & Hmt). fold m0 in Hn.
  assert (Hop0 : opts m0 = opts m) by apply opts_ensure_node.
  assert (Ht0 : total m0 = total m) by apply total_ensure_node.
  assert (Hi0 : index m0 = index m) by apply index_ensure_node.
  assert (Hl0 : ∀ a b, lookup_service m0 a b = lookup_service m a b) by (intros; apply lookup_ensure_node).
  change (with_TTL (clampTTL m0 (Svc_TTL (Entry_Service e))) (Entry_Service e)) with (offered m0 e).
  rewrite (offered_opts m0 m) by done. set (d := offered m e).
  change (Svc_ID d) with sid. rewrite Hl0.
  pose proof (lookup_service_node m0 _ sid n Hn) as Hsn. rewrite Hl0 in Hsn.
  assert (Hcap0 : at_capacity m0 size = at_capacity m size) by (unfold at_capacity; by rewrite Hop0).
  destruct (lookup_service m (Node_ID mt) sid) as [svc|] eqn:Hs; [destruct (WinsLWW d (def svc)) eqn:Hw|].
  - destruct (overwrite_service _ _ _ m0) as [svc' m1] eqn:Ho. eexists m1, _, _, _. split; [done|].
    destruct (overwrite_service_spec _ _ (with_def d svc) _ _ _ n svc Hn (eq_sym Hsn) Ho) as (Hop & Ht & _).
    apply overwrite_service_nodes in Ho as (-> & _ & Hix & Hnodes).
    split; [congruence|intros ->; congruence| |].
    + eexists. rewrite decide_True, Hk by done. simpl. rewrite Hs; simpl. fold d. rewrite Hw.
      split; [eauto|]. intros. rewrite (lookup_service_nodes _ _ _ _ Hnodes).
      change (Svc_ID (def (with_def d svc))) with sid.
      rewrite lookup_put_service by eauto. by rewrite Hl0.
    + intros Hx. destruct (Hx Hm) as (s & Hs' & Hw'). rewrite Hk in Hs'. simpl in Hs'. fold d in Hw'. congruence.
  - eexists m0, _, _, _. split; [done|]. split; [done|by rewrite Ht0| |intros _; split_and!; done].
    eexists. rewrite decide_True, Hk by done. simpl. rewrite Hs; simpl. fold d. rewrite Hw.
    split; [done|]. intros. rewrite Hl0. case_decide; [by simplify_eq|done].
  - rewrite Hcap0. destruct (at_capacity m size) eqn:Hcap.
    + eexists m0, _, _, _. split; [done|]. split; [done|by rewrite Ht0| |intros _; split_and!; done].
      eexists. rewrite decide_True, Hk by done. simpl. rewrite Hs, Hcap; simpl.
      split; [done|]. intros. rewrite Hl0. case_decide; [by simplify_eq|done].
    + destruct (create_service _ d m0) as [svc m1] eqn:Hc. eexists m1, _, _, _. split; [done|].
      destruct (create_service_spec _ _ _ _ _ n Hn Hc) as (Hop & Hn1 & Ht).
      unfold create_service in Hc. injection Hc as Hsvc Hm1.
      split; [congruence|intros ->; rewrite Ht; [by rewrite Ht0|done]| |].
      * eexists. rewrite decide_True, Hk by done. simpl. rewrite Hs, Hcap; simpl.
        split; [eauto|]. intros. rewrite <-Hl0. fold d. rewrite <-(lookup_put_service m0) by eauto.
        apply lookup_service_nodes. by rewrite <-Hm1.
      * intros Hx. destruct (Hx Hm) as (s & Hs' & Hw'). rewrite Hk in Hs'. simpl in Hs'. congruence.
Qed.

(** ** The join *)

(** The last-writer-wins join of the current definition with an offered one. *)
Definition lww_join (cur : option ServiceInstance) (d : ServiceInstance) : option ServiceInstance :=
  Some (match cur with
        | None => d
        | Some c => if WinsLWW d c then d else c
        end).

(** What a list of entries offers under an identity. *)
Definition offers (m : Memory) (k : string * string) (entries : list ServiceEntry)
  : list ServiceInstance :=
  offered m <$> filter (λ e, mergeable e ∧ entry_key e = k) entries.

Lemma offers_opts m m' k entries : opts m = opts m' → offers m k entries = offers m' k entries.
Proof. intros E. apply list_fmap_ext. intros i e _. by apply offered_opts. Qed.

Lemma join_ge cur ds r :
  foldl lww_join cur ds = Some r →
  (∀ d, d ∈ ds → WinsLWW d r = false) ∧ (∀ c, cur = Some c → WinsLWW c r = false).
Proof.
  revert cur. induction ds as [|d ds IH]; intros cur; simpl.
  { intros ->. split; [set_solver|]. intros c [= ->]. auto with yp. }
  intros Hr. destruct (IH _ Hr) as [H1 H2]. unfold lww_join in H2. split.
  - intros x [->|Hx]%elem_of_cons; [|by apply H1]. specialize (H2 _ eq_refl).
    destruct cur as [c|]; [|done]. destruct (WinsLWW d c) eqn:E; [done|].
    by eapply WinsLWW_false_trans.
  - intros c ->. specialize (H2 _ eq_refl). simpl in H2. destruct (WinsLWW d c) eqn:E; [|done].
    eapply WinsLWW_false_trans; [|done]. auto with yp.
Qed.

Lemma join_cons_Some cur d ds : foldl lww_join cur (d :: ds) ≠ None.
Proof. revert cur d. induction ds as [|y ds IH]; intros cur d; [done|]. apply (IH (lww_join cur d) y). Qed.

Lemma at_capacity_uncapped m size : MaxServices (opts m) <= 0 → at_capacity m size = false.
Proof. unfold at_capacity. intros. by destruct (Z.ltb_spec 0 (MaxServices (opts m))); [lia|]. Qed.

Lemma merged1_join d old new :
  merged1 d false old new → def <$> new = lww_join (def <$> old) d.
Proof.
  destruct old as [s|]; simpl; [|by intros [idx ->]].
  unfold lww_join; simpl. destruct (WinsLWW d (def s)); [by intros [idx ->]|by intros ->].
Qed.

Lemma merge_loop_join clk entries m size applied events k m' evs :
  MaxServices (opts m) <= 0 →
  merge_loop clk entries m size applied events = (k, m', evs) →
  opts m' = opts m ∧
  ∀ nid id, def <$> lookup_service m' nid id =
    foldl lww_join (def <$> lookup_service m nid id) (offers m (nid, id) entries).
Proof.
  revert m size applied events. induction entries as [|e entries IH]; intros m size applied events Hun.
  { by intros [= <- <- <-]. }
  destruct (merge_loop_cons clk e entries m size applied events)
    as (m1 & size1 & applied1 & events1 & -> & [Hop _ (new & Hnew & Hl) _]).
  intros [Hop' Hj]%IH; [|by rewrite Hop]. split; [congruence|]. intros nid id.
  rewrite Hj, (offers_opts m1 m) by done. rewrite Hl.
  rewrite at_capacity_uncapped in Hnew by done. unfold offers. rewrite filter_cons.
  destruct (decide (entry_key e = (nid, id))) as [Hk|Hk].
  - rewrite Hk in Hnew. simpl in Hnew. destruct (decide (mergeable e)) as [Hm|Hm].
    + rewrite decide_True by done. simpl. by rewrite (merged1_join _ _ _ Hnew).
    + rewrite decide_False by tauto. by subst new.
  - rewrite decide_False by tauto. done.
Qed.

(** A record survives, and changes only to a strictly newer definition. *)
Definition not_regressed (s s' : service) : Prop :=
  (def s' = def s ∨ lww_lt (lww_key (def s)) (lww_key (def s'))) ∧
  maintenance s' = maintenance s ∧ failed s' = failed s ∧ lastState s' = lastState s ∧
  createIndex s' = createIndex s.

Lemma not_regressed_trans a b c : not_regressed a b → not_regressed b c → not_regressed a c.
Proof.
  unfold not_regressed. intros (D1 & H1) (D2 & H2). split; [|intuition congruence].
  destruct D1 as [E1|L1], D2 as [E2|L2]; [left; congruence|right; congruence|right; congruence|].
  right. by trans (lww_key (def b)).
Qed.

Lemma merge_loop_keeps clk entries m size applied events nid id s :
  lookup_service m nid id = Some s →
  ∃ s', lookup_service (merge_loop clk entries m size applied events).1.2 nid id = Some s' ∧
    not_regressed s s'.
Proof.
  revert m size applied events s. induction entries as [|e entries IH]; intros m size applied events s Hs.
  { exists s. split; [done|]. split; auto. }
  destruct (merge_loop_cons clk e entries m size applied events)
    as (m1 & size1 & applied1 & events1 & -> & [Hop _ (new & Hnew & Hl) _]).
  assert (∃ s1, lookup_service m1 nid id = Some s1 ∧ not_regressed s s1) as (s1 & Hs1 & Hr1).
  { rewrite Hl. destruct (decide (entry_key e = (nid, id))) as [Hk|]; [|exists s; split; [done|split; auto]].
    rewrite Hk in Hnew. simpl in Hnew. rewrite Hs in Hnew. destruct (decide (mergeable e)); simpl in Hnew.
    - destruct (WinsLWW (offered m e) (def s)) eqn:Hw; [|exists s; split; [done|split; auto]].
      destruct Hnew as [idx ->]. eexists. split; [done|]. split; [right; by apply WinsLWW_lt|done].
    - exists s. split; [done|split; auto]. }
  destruct (IH m1 size1 applied1 events1 s1 Hs1) as (s' & Hs' & Hr). exists s'.
  split; [done|]. by eapply not_regressed_trans.
Qed.

Lemma merge_loop_silent clk entries m size applied events :
  (∀ e, e ∈ entries → mergeable e →
     ∃ s, lookup_service m (entry_key e).1 (entry_key e).2 = Some s ∧
       WinsLWW (offered m e) (def s) = false) →
  ∃ m', merge_loop clk entries m size applied events = (applied, m', events) ∧ index m' = index m ∧
    ∀ nid id, lookup_service m' nid id = lookup_service m nid id.
Proof.
  revert m size. induction entries as [|e entries IH]; intros m size Hall.
  { by exists m. }
  destruct (merge_loop_cons clk e entries m size applied events)
    as (m1 & size1 & applied1 & events1 & -> & [Hop _ (new & Hnew & Hl) Hsil]).
  destruct Hsil as (-> & -> & Hix); [apply Hall; set_solver|].
  assert (Hl1 : ∀ nid id, lookup_service m1 nid id = lookup_service m nid id).
  { intros nid id. rewrite Hl. destruct (decide (entry_key e = (nid, id))) as [Hk|]; [|done].
    rewrite Hk in Hnew. simpl in Hnew. destruct (decide (mergeable e)) as [Hm|]; [|done].
    destruct (Hall e) as (s & Hs & Hw); [set_solver|done|]. rewrite Hk in Hs. simpl in Hs.
    rewrite Hs in *. simpl in Hnew. by rewrite Hw in Hnew. }
  destruct (IH m1 size1) as (m' & -> & Hi' & Hl').
  - intros x Hx Hm. destruct (Hall x) as (s & Hs & Hw); [set_solver|done|]. exists s.
    by rewrite Hl1, (offered_opts m1 m).
  - exists m'. split; [done|]. split; [congruence|]. intros. by rewrite Hl'.
Qed.

Lemma clampTTL_min_max m d :
  0 < d → 0 < DefaultTTL (opts m) →
  clampTTL m d =
    let z := if 0 <? MinTTL (opts m) then Z.max d (MinTTL (opts m)) else d in
    if 0 <? MaxTTL (opts m) then Z.min z (MaxTTL (opts m)) else z.
Proof.
  intros Hd Hdef. unfold clampTTL. destruct (Z.leb_spec d 0); [lia|]. cbv zeta.
  destruct (Z.ltb_spec 0 (MinTTL (opts m))); cbn [andb];
    [destruct (Z.ltb_spec d (MinTTL (opts m)))|];
    (destruct (Z.ltb_spec 0 (MaxTTL (opts m))); cbn [andb]; [|lia]);
    match goal with |- context [?a <? ?b] => destruct (Z.ltb_spec a b) end; lia.
Qed.

(** A TTL inside compatible bounds is left as it is. *)
Lemma clampTTL_id m x :
  0 < DefaultTTL (opts m) → ttl_ok (opts m) x →
  MinTTL (opts m) <= MaxTTL (opts m) ∨ MaxTTL (opts m) <= 0 → clampTTL m x = x.
Proof.
  intros Hdef [Hp Hmax Hmin] Hsane. rewrite clampTTL_min_max by done. cbv zeta.
  specialize (Hmin Hsane).
  destruct (Z.ltb_spec 0 (MinTTL (opts m))), (Z.ltb_spec 0 (MaxTTL (opts m))); lia.
Qed.

(** ** Exchange of contents *)

(** The snapshot a seed hands to its peers. *)
Definition dump `{MapRange} (clk : Clock) (m : Memory) : list ServiceEntry :=
  Lookup_Entries (Lookup clk zeroQuery m).

(** No lease has run out of its grace period. *)
Definition all_live (m : Memory) (now : Z) : Prop :=
  ∀ nid id svc, lookup_service m nid id = Some svc → (lease m svc now).2 = false.

Lemma offers_dump `{MapRange} clk a m nid id :
  wf m → all_live m (clk O) →
  offers a (nid, id) (dump clk m) =
    match lookup_service m nid id with
    | Some s => [with_TTL (clampTTL a (Svc_TTL (def s))) (def s)]
    | None => []
    end.
Proof.
  intros Hwf Hlive. unfold offers.
  assert (Hkey : ∀ e, e ∈ dump clk m → ∀ n svc i, nodes m !! i = Some n →
            e = entry (meta n) svc (lease m svc (clk O)).1 → (entry_key e).1 = i).
  { intros e _ n svc i Hn ->. unfold entry_key; simpl. apply (wf_node _ Hwf _ _ Hn). }
  destruct (lookup_service m nid id) as [s|] eqn:Hs.
  - pose proof (lookup_service_is_Some _ _ _ _ Hs) as (n & Hn & Hsn).
    destruct (wf_svc _ Hwf _ _ _ Hs) as (Hid & Hne & _).
    destruct (wf_node _ Hwf _ _ Hn) as (Hnid & Hnne).
    set (x := entry (meta n) s (lease m s (clk O)).1).
    assert (Hkx : entry_key x = (nid, id)) by (unfold entry_key; simpl; by rewrite Hid, Hnid).
    rewrite (NoDup_singleton_list (filter _ (dump clk m)) x); [done|..].
    + apply list.NoDup_filter. eapply NoDup_fmap_1. unfold dump. rewrite Lookup_found. simpl.
      unfold sort_entries. rewrite sort_slice_perm. by apply found_NoDup_keys.
    + apply list_elem_of_filter. split; [split; [split; by rewrite Hkx|done]|].
      apply elem_of_Lookup; [done|]. exists nid, n, id, s. split_and!; [done..| |done].
      split; [by left|by left|set_solver|by eapply Hlive].
    + intros y [[_ Hy] Hin]%list_elem_of_filter.
      apply elem_of_Lookup in Hin as (i & n' & j & s' & Hn' & Hs' & _ & ->); [|done].
      unfold entry_key in Hy; simpl in Hy. injection Hy as Hy1 Hy2.
      rewrite (proj1 (wf_node _ Hwf _ _ Hn')) in Hy1. subst i. assert (n' = n) as -> by congruence.
      assert (Hj : lookup_service m nid j = Some s') by (by rewrite (lookup_service_node _ _ _ n)).
      destruct (wf_svc _ Hwf _ _ _ Hj) as (Hid' & _). assert (j = id) as -> by congruence.
      by assert (s' = s) as -> by congruence.
  - destruct (filter _ (dump clk m)) as [|y l] eqn:E; [done|]. exfalso.
    assert (Hy : y ∈ y :: l) by set_solver. rewrite <-E in Hy.
    apply list_elem_of_filter in Hy as [[_ Hk] Hin].
    apply elem_of_Lookup in Hin as (i & n' & j & s' & Hn' & Hs' & _ & ->); [|done].
    assert (Hj : lookup_service m i j = Some s') by (by rewrite (lookup_service_node _ _ _ n')).
    destruct (wf_svc _ Hwf _ _ _ Hj) as (Hid' & _).
    unfold entry_key in Hk; simpl in Hk. rewrite Hid', (proj1 (wf_node _ Hwf _ _ Hn')) in Hk. congruence.
Qed.

(** Both sides keep the larger version. *)
Lemma join_sym (oa ob : option ServiceInstance) :
  let ja := foldl lww_join oa (option_list ob) in
  let jb := foldl lww_join ob (option_list oa) in
  lww_key <$> ja = lww_key <$> jb ∧
  ((∀ x y, oa = Some x → ob = Some y → lww_key x = lww_key y → x = y) → ja = jb).
Proof.
  destruct oa as [a|], ob as [b|]; simpl; [|done..]. unfold lww_join.
  destruct (WinsLWW b a) eqn:E1, (WinsLWW a b) eqn:E2; simpl.
  - apply WinsLWW_lt in E1, E2. destruct (irreflexivity lww_lt (lww_key a)). by trans (lww_key b).
  - done.
  - done.
  - pose proof (WinsLWW_tie _ _ E1 E2) as Hk. split; [by rewrite Hk|]. intros Ht.
    by rewrite (Ht a b).
Qed.

(** ** Claims *)

(** Without a cap, a merge is the last-writer-wins join: under every identity
    the stored definition is the highest (Generation, LastSeen) version among the
    local one and the offered ones (with their TTL clamped), the local one on a
    tie; the reported count is the number of events. *)
Theorem Merge_is_join `{MapRange} (clk : Clock) (entries : list ServiceEntry) (m : Memory) :
  MaxServices (opts m) <= 0 →
  ∃ k m' evs, Merge clk entries m = (k, m', evs) ∧ k = Z.of_nat (length evs) ∧
    ∀ nid id, def <$> lookup_service m' nid id =
      foldl lww_join (def <$> lookup_service m nid id) (offers m (nid, id) entries).
Proof.
  intros Hun. destruct (Merge_prims clk entries m) as (k & m' & evs & HM & _ & Hk).
  exists k, m', evs. split; [done|]. split; [done|]. by eapply merge_loop_join.
Qed.

Definition uncappedOptions : Options := mkOptions (30 * second) 0 0 (60 * second) 100 0.

Lemma Merge_is_join_witness :
  ∃ k m' evs, @Merge list_order (frozen 9) [sample "n" "a" "10.0.0.1" 1 5; sample "n" "a" "10.0.0.2" 2 3]
      (NewMemory uncappedOptions) = (k, m', evs) ∧ k = Z.of_nat (length evs) ∧
    ∀ nid id, def <$> lookup_service m' nid id =
      foldl lww_join (def <$> lookup_service (NewMemory uncappedOptions) nid id)
        (offers (NewMemory uncappedOptions) (nid, id)
           [sample "n" "a" "10.0.0.1" 1 5; sample "n" "a" "10.0.0.2" 2 3]).
Proof. apply (@Merge_is_join list_order). vm_compute. discriminate. Defined.

(** A merge never loses local data, capped or not: every stored record is still
    stored, with the same definition or a strictly newer one, and with its
    maintenance flag, its failed check and its CreateIndex untouched. *)
Theorem Merge_never_regresses `{MapRange} (clk : Clock) (entries : list ServiceEntry) (m : Memory)
    (nid id : string) (s : service) :
  lookup_service m nid id = Some s →
  ∃ s', lookup_service (Merge clk entries m).1.2 nid id = Some s' ∧ not_regressed s s'.
Proof. apply merge_loop_keeps. Qed.

Lemma Merge_never_regresses_witness :
  ∃ s s', lookup_service sampleRun.1 "n1" "web" = Some s ∧
    lookup_service (@Merge list_order (frozen 9) [sample "n1" "web" "10.9.9.9" 0 5] sampleRun.1).1.2
      "n1" "web" = Some s' ∧ not_regressed s s'.
Proof.
  eexists. edestruct (@Merge_never_regresses list_order (frozen 9) [sample "n1" "web" "10.9.9.9" 0 5]
    sampleRun.1 "n1" "web") as (s' & H1 & H2); [vm_compute; reflexivity|].
  exists s'. split; [vm_compute; reflexivity|]. split; [exact H1|exact H2].
Defined.

(** Without a cap, a merge is idempotent: pulling the same entries again
    applies nothing, emits nothing and changes no record, so anti-entropy between
    two seeds that agree is silent. *)
Theorem Merge_idempotent `{MapRange} (clk clk' : Clock) (entries : list ServiceEntry) (m m' : Memory) k evs :
  MaxServices (opts m) <= 0 → Merge clk entries m = (k, m', evs) →
  ∃ m'', Merge clk' entries m' = (0, m'', []) ∧ Index m'' = Index m' ∧
    ∀ nid id, lookup_service m'' nid id = lookup_service m' nid id.
Proof.
  intros Hun HM. destruct (merge_loop_join _ _ _ _ _ _ _ _ _ Hun HM) as [Hop Hj].
  apply merge_loop_silent. intros e He Hm.
  assert (Hin : offered m e ∈ offers m (entry_key e) entries).
  { apply list_elem_of_fmap_2, list_elem_of_filter. done. }
  specialize (Hj (entry_key e).1 (entry_key e).2). rewrite <-surjective_pairing in Hj.
  destruct (lookup_service m' (entry_key e).1 (entry_key e).2) as [s|] eqn:Hs; simpl in Hj.
  - exists s. split; [done|]. rewrite (offered_opts m' m) by done.
    by apply (proj1 (join_ge _ _ _ (eq_sym Hj))).
  - exfalso. destruct (offers m (entry_key e) entries) as [|d ds]; [by apply elem_of_nil in Hin|].
    by apply eq_sym, join_cons_Some in Hj.
Qed.

Lemma Merge_idempotent_witness :
  let es := [sample "n" "a" "10.0.0.1" 1 5; sample "n" "b" "10.0.0.2" 2 3] in
  let m1 := (@Merge list_order (frozen 9) es (NewMemory uncappedOptions)).1.2 in
  ∃ m'', @Merge list_order (frozen 10) es m1 = (0, m'', []) ∧ Index m'' = Index m1 ∧
    ∀ nid id, lookup_service m'' nid id = lookup_service m1 nid id.
Proof.
  intros es m1. eapply (@Merge_idempotent list_order (frozen 9) (frozen 10) es (NewMemory uncappedOptions) m1).
  - vm_compute. discriminate.
  - vm_compute. reflexivity.
Defined.

(** Anti-entropy converges: two uncapped seeds with the same options that pull
    each other's snapshot, with no lease run out, afterwards hold the same
    identities at the same versions; and the same definitions, when equal versions
    carry equal data. *)
Theorem anti_entropy_converges `{MapRange} (clk : Clock) (a b : Memory) :
  wf a → wf b → opts a = opts b → MaxServices (opts a) <= 0 →
  MinTTL (opts a) <= MaxTTL (opts a) ∨ MaxTTL (opts a) <= 0 →
  all_live a (clk O) → all_live b (clk O) →
  let a' := (Merge clk (dump clk b) a).1.2 in
  let b' := (Merge clk (dump clk a) b).1.2 in
  ∀ nid id,
    lww_key ∘ def <$> lookup_service a' nid id = lww_key ∘ def <$> lookup_service b' nid id ∧
    ((∀ x y, lookup_service a nid id = Some x → lookup_service b nid id = Some y →
        lww_key (def x) = lww_key (def y) → def x = def y) →
     def <$> lookup_service a' nid id = def <$> lookup_service b' nid id).
Proof.
  intros Hwa Hwb Hop Hun Hsane Hla Hlb a' b' nid id.
  assert (Hoff : ∀ x y, wf y → opts x = opts y → all_live y (clk O) →
            MinTTL (opts y) <= MaxTTL (opts y) ∨ MaxTTL (opts y) <= 0 →
            offers x (nid, id) (dump clk y) = option_list (def <$> lookup_service y nid id)).
  { intros x y Hwy Hxy Hly Hsn. rewrite offers_dump by done.
    destruct (lookup_service y nid id) as [s|] eqn:Hs; [|done]. simpl. f_equal.
    assert (Hcl : clampTTL x (Svc_TTL (def s)) = Svc_TTL (def s)).
    { apply clampTTL_id; rewrite ?Hxy; [apply (wf_default _ Hwy)| |done].
      by destruct (wf_svc _ Hwy _ _ _ Hs) as (_ & _ & ?). }
    rewrite Hcl. by destruct s as [[] ? ? ? ? ?]. }
  assert (Ha : def <$> lookup_service a' nid id =
            foldl lww_join (def <$> lookup_service a nid id) (option_list (def <$> lookup_service b nid id))).
  { rewrite <-(Hoff a b) by (rewrite <-?Hop; done). unfold a'.
    destruct (Merge clk (dump clk b) a) as [[k m'] evs] eqn:E. by eapply merge_loop_join. }
  assert (Hb : def <$> lookup_service b' nid id =
            foldl lww_join (def <$> lookup_service b nid id) (option_list (def <$> lookup_service a nid id))).
  { rewrite <-(Hoff b a) by done. unfold b'.
    destruct (Merge clk (dump clk a) b) as [[k m'] evs] eqn:E. eapply merge_loop_join; [by rewrite <-Hop|done]. }
  destruct (join_sym (def <$> lookup_service a nid id) (def <$> lookup_service b nid id)) as [H1 H2].
  split.
  - rewrite !option_fmap_compose, Ha, Hb. exact H1.
  - intros Ht. rewrite Ha, Hb. apply H2. intros x y.
    destruct (lookup_service a nid id) as [sa|], (lookup_service b nid id) as [sb|]; simpl; try done.
    intros [= <-] [= <-] Hk. by apply Ht.
Qed.

Lemma wf_Merge `{MapRange} clk es m : wf m → wf (Merge clk es m).1.2.
Proof.
  intros Hwf. pose proof (wf_apply clk (OpMerge es) m Hwf) as Hw. cbn [apply] in Hw.
  by destruct (Merge clk es m) as [[? ?] ?].
Qed.

(** A check of [all_live] by evaluation. *)
Lemma all_live_check m now :
  forallb (λ p, forallb (λ s, negb (lease m s.2 now).2) (map_to_list (services p.2)))
    (map_to_list (nodes m)) = true → all_live m now.
Proof.
  rewrite forallb_forall. intros Hall nid id svc (n & Hn & Hs)%lookup_service_is_Some.
  apply elem_of_map_to_list, list_elem_of_In in Hn, Hs. specialize (Hall _ Hn). simpl in Hall.
  rewrite forallb_forall in Hall. specialize (Hall _ Hs). simpl in Hall. by destruct (lease m svc now).2.
Qed.

Lemma anti_entropy_converges_witness :
  let clk := frozen (1000 * second) in
  let a := (@Merge list_order clk [sample "n" "a" "10.0.0.1" 1 (1000 * second)] (NewMemory uncappedOptions)).1.2 in
  let b := (@Merge list_order clk [sample "n" "a" "10.0.0.2" 2 (1000 * second)] (NewMemory uncappedOptions)).1.2 in
  lww_key ∘ def <$> lookup_service (@Merge list_order clk (@dump list_order clk b) a).1.2 "n" "a" =
  lww_key ∘ def <$> lookup_service (@Merge list_order clk (@dump list_order clk a) b).1.2 "n" "a".
Proof.
  intros clk a b.
  apply (@anti_entropy_converges list_order clk a b);
    [apply wf_Merge, wf_new|apply wf_Merge, wf_new|vm_compute; reflexivity|vm_compute; discriminate
    |left; vm_compute; discriminate|apply all_live_check; vm_compute; reflexivity..].
Defined.
