(* ===== verification/Watch.v ===== *)
(** The blocking/streaming surface over registry changes, [src/internal/watch]:
    the [Watcher] with its own monotonic index, per-name keys, subscriptions and
    the blocking [WaitForChange] loop (watcher.go), and the persistence of the
    index across restarts (persist.go).

    The [bump] channel, closed and replaced at every change, is the number of
    replacements: a waiter that captured generation [g] finds its channel closed
    exactly when the current generation is greater.  Event channels are buffers
    in a heap of their own, since a cancelled subscription's channel outlives its
    entry in [subs].  [WaitForChange] runs concurrently with the writers: its loop
    is a step relation interleaved with the watcher's own operations. *)

From Stdlib Require Import ZArith Lia.
From stdpp Require Import base gmap list strings.
From S2P Require Import Prelude GoStrings Model Store.

#[local] Open Scope Z_scope.

(** ** watcher.go: data *)

(** [ch] names a buffered channel of the heap. *)
Record subscription := mkSub { sub_query : Query; sub_ch : nat }.

Record Watcher := mkWatcher {
  w_index : Z;
  nameIndex : gmap string Z;
  bump : nat;
  subs : gmap nat subscription;
  nextID : nat
}.

(** The channel heap: the events buffered in each channel, oldest first. *)
Notation Chans := (gmap nat (list ChangeEvent)).

(** The buffer size of a subscription's channel. *)
Definition chan_cap : nat := 64.

Definition New (base : Z) : Watcher := mkWatcher base ∅ 0 ∅ 0.

Definition atLeastOne (x : Z) : Z := if x <? 1 then 1 else x.

Definition Watcher_Index (w : Watcher) : Z := atLeastOne (w_index w).

Definition matches (q : Query) (e : ServiceEntry) : bool :=
  if bool_decide (Query_Name q ≠ ""%string) && bool_decide (Query_Name q ≠ Svc_Name (Entry_Service e))
  then false
  else if bool_decide (Query_Datacenter q ≠ ""%string) &&
          bool_decide (Query_Datacenter q ≠ Node_Datacenter (Entry_Node e))
  then false
  else MatchesTags (Entry_Service e) (Query_Tags q).

Definition signalLocked (w : Watcher) : Watcher :=
  mkWatcher (w_index w) (nameIndex w) (S (bump w)) (subs w) (nextID w).

(** [w.index++] and [w.nameIndex[name] = w.index]. *)
Definition advance_name (name : string) (w : Watcher) : Watcher :=
  let i := u64 (w_index w + 1) in
  mkWatcher i (<[name := i]> (nameIndex w)) (bump w) (subs w) (nextID w).

Definition with_index (i : Z) (ev : ChangeEvent) : ChangeEvent :=
  mkEvent (Event_Type ev) (Event_Entry ev) i.

(** ** watcher.go: operations *)

Record delivery := mkDelivery { dl_ch : nat; dl_event : ChangeEvent }.

(** The loop of [Notify] under the mutex. *)
Fixpoint notify_loop `{MapRange} (events : list ChangeEvent) (w : Watcher) (deliver : list delivery)
  : Watcher * list delivery :=
  match events with
  | [] => (w, deliver)
  | ev :: rest =>
      let w := advance_name (Svc_Name (Entry_Service (Event_Entry ev))) w in
      let out := with_index (w_index w) ev in
      notify_loop rest w
        (deliver ++ ((λ p, mkDelivery (sub_ch p.2) out) <$>
                       filter (λ p, matches (sub_query p.2) (Event_Entry ev) = true) (range (subs w))))
  end.

(** The non-blocking send: dropped when the buffer is full. *)
Definition send (c : Chans) (d : delivery) : Chans :=
  match c !! dl_ch d with
  | Some buf => if (length buf <? chan_cap)%nat then <[dl_ch d := buf ++ [dl_event d]]> c else c
  | None => c
  end.

(** [Notify] under the mutex, and its sends after it. *)
Definition notify_locked `{MapRange} (events : list ChangeEvent) (w : Watcher) : Watcher * list delivery :=
  let '(w, deliver) := notify_loop events w [] in (signalLocked w, deliver).

Definition Notify `{MapRange} (events : list ChangeEvent) (w : Watcher) (c : Chans) : Watcher * Chans :=
  match events with
  | [] => (w, c)
  | _ => let '(w, deliver) := notify_locked events w in (w, foldl send c deliver)
  end.

Definition NotifyNames (names : list string) (w : Watcher) : Watcher :=
  match names with
  | [] => w
  | _ => signalLocked (foldl (λ w name, advance_name name w) w names)
  end.

(** [Subscribe] returns the subscription's id, from which its cancel function is made. *)
Definition Subscribe (q : Query) (w : Watcher) (c : Chans) : nat * Watcher * Chans :=
  let id := nextID w in
  (id, mkWatcher (w_index w) (nameIndex w) (bump w) (<[id := mkSub q id]> (subs w)) (S id),
   <[id := []]> c).

Definition cancel (id : nat) (w : Watcher) : Watcher :=
  mkWatcher (w_index w) (nameIndex w) (bump w) (delete id (subs w)) (nextID w).

Definition currentIndexLocked (w : Watcher) (q : Query) : Z :=
  if bool_decide (Query_Name q ≠ ""%string) then
    match nameIndex w !! Query_Name q with
    | Some idx => atLeastOne idx
    | None => atLeastOne (w_index w)
    end
  else atLeastOne (w_index w).

Definition CurrentIndex (w : Watcher) (q : Query) : Z := currentIndexLocked w q.

(** ** WaitForChange

    A caller of [WaitForChange] is checking the index, waiting on the channel of
    the generation it captured (with the index it read), or done. *)
Inductive waiter :=
  | Checking
  | Waiting (cur : Z) (ch : nat)
  | Done (ret : Z).

(** One iteration up to the [select]. *)
Definition wait_check (w : Watcher) (q : Query) (minIndex : Z) : waiter :=
  let cur := currentIndexLocked w q in
  if (minIndex =? 0) || negb (cur =? minIndex) then Done cur else Waiting cur (bump w).

(** The watcher's own operations. *)
Inductive w_op `{MapRange} (w : Watcher) : Watcher → Prop :=
  | w_notify events : events ≠ [] → w_op w (notify_locked events w).1
  | w_notify_names names : names ≠ [] → w_op w (NotifyNames names w)
  | w_subscribe q c : w_op w (Subscribe q w c).1.2
  | w_cancel id : w_op w (cancel id w).

(** The steps of a caller, interleaved with the watcher's operations. *)
Inductive wait_step `{MapRange} (q : Query) (minIndex : Z) : Watcher * waiter → Watcher * waiter → Prop :=
  | wait_env w w' s : w_op w w' → wait_step q minIndex (w, s) (w', s)
  | wait_checks w : wait_step q minIndex (w, Checking) (w, wait_check w q minIndex)
  | wait_woken w cur ch : (ch < bump w)%nat → wait_step q minIndex (w, Waiting cur ch) (w, Checking)
  | wait_timer w cur ch : wait_step q minIndex (w, Waiting cur ch) (w, Done cur)
  | wait_cancelled w cur ch : wait_step q minIndex (w, Waiting cur ch) (w, Done cur).

Inductive wait_reach `{MapRange} (q : Query) (minIndex : Z) (w0 : Watcher) : Watcher * waiter → Prop :=
  | wait_start : wait_reach q minIndex w0 (w0, Checking)
  | wait_next s s' : wait_reach q minIndex w0 s → wait_step q minIndex s s' → wait_reach q minIndex w0 s'.

(** ** persist.go

    The file system is a map from paths to contents.  [os.MkdirAll] may fail, and
    [os.WriteFile] may fail leaving the file untouched or with some other content. *)
Definition indexFile : string := "agent-index".

Notation FS := (gmap string string).

Inductive write_outcome := WriteOK | WriteFailed (content : option string).

(** [filepath.Join(dataDir, indexFile)] for a clean [dataDir]. *)
Definition index_path (dataDir : string) : string := dataDir +:+ "/" +:+ indexFile.

Definition LoadBase (fs : FS) (dataDir : string) : Z :=
  if bool_decide (dataDir = ""%string) then 0
  else match fs !! index_path dataDir with
       | None => 0
       | Some data => default 0 (ParseUint (TrimSpace data) 64)
       end.

(** The result says whether the call returned nil. *)
Definition SaveBase (mkdir_ok : bool) (out : write_outcome) (fs : FS) (dataDir : string) (index : Z)
  : bool * FS :=
  if bool_decide (dataDir = ""%string) then (true, fs)
  else if negb mkdir_ok then (false, fs)
  else match out with
       | WriteFailed None => (false, fs)
       | WriteFailed (Some s) => (false, <[index_path dataDir := s]> fs)
       | WriteOK => (true, <[index_path dataDir := FormatUint index +:+ newline]> fs)
       end.

Definition flush (mkdir_ok : bool) (out : write_outcome) (fs : FS) (dataDir : string) (w : Watcher) : FS :=
  (SaveBase mkdir_ok out fs dataDir (Watcher_Index w)).2.

(** [Stop]: one more flush, of the last index. *)
Definition Flusher_Stop : bool → write_outcome → FS → string → Watcher → FS := flush.

(** ** The index *)

(** The per-name keys lie in the range handed out so far. *)
Definition wf_watcher (w : Watcher) : Prop :=
  is_u64 (w_index w) ∧ ∀ name i, nameIndex w !! name = Some i → 1 <= i <= w_index w.

Lemma advance_name_wf name w :
  wf_watcher w → w_index w + 1 < 2 ^ 64 →
  wf_watcher (advance_name name w) ∧ w_index (advance_name name w) = w_index w + 1.
Proof.
  intros [Hi Hn] Hlt. unfold advance_name, is_u64 in *; simpl.
  rewrite u64_small by (unfold is_u64; lia). split; [|done]. split; [unfold is_u64; simpl; lia|].
  intros nm i. simpl. rewrite lookup_insert. case_decide; [intros [= <-]; lia|].
  intros ?%Hn. lia.
Qed.

(** Advancing one name after the other: the state both notification paths reach. *)
Definition advance_names (names : list string) (w : Watcher) : Watcher :=
  foldl (λ w name, advance_name name w) w names.

Lemma advance_names_spec names w :
  wf_watcher w → w_index w + Z.of_nat (length names) < 2 ^ 64 →
  let w' := advance_names names w in
  wf_watcher w' ∧ w_index w' = w_index w + Z.of_nat (length names) ∧
  bump w' = bump w ∧ subs w' = subs w ∧
  ∀ name, if decide (name ∈ names)
    then ∃ i, nameIndex w' !! name = Some i ∧ w_index w < i
    else nameIndex w' !! name = nameIndex w !! name.
Proof.
  revert w. induction names as [|nm names IH]; intros w Hwf Hlt; cbn [advance_names foldl].
  { split; [done|]. split; [simpl; lia|]. split_and!; [done..|]. intros name.
    rewrite decide_False by set_solver. done. }
  simpl in Hlt. destruct (advance_name_wf nm w Hwf) as [Hwf1 Hi1]; [lia|].
  destruct (IH (advance_name nm w) Hwf1) as (H1 & H2 & H3 & H4 & H5); [lia|].
  fold (advance_names names (advance_name nm w)). split_and!; [done| |done|done|].
  - rewrite H2, Hi1. simpl. lia.
  - intros name. specialize (H5 name). destruct (decide (name ∈ nm :: names)) as [Hin|Hin].
    + destruct (decide (name ∈ names)) as [Hx|Hx].
      * destruct H5 as (i & Hi & Hl). exists i. split; [done|]. lia.
      * apply elem_of_cons in Hin as [->|]; [|done]. exists (w_index (advance_name nm w)).
        rewrite H5. simpl. rewrite lookup_insert_eq. split; [done|]. unfold advance_name in Hi1. simpl in *. lia.
    + rewrite decide_False in H5 by set_solver. rewrite H5. simpl.
      apply not_elem_of_cons in Hin as [Hne _]. by rewrite lookup_insert_ne.
Qed.

Definition event_name (ev : ChangeEvent) : string := Svc_Name (Entry_Service (Event_Entry ev)).

Lemma notify_loop_state `{MapRange} events w deliver :
  (notify_loop events w deliver).1 = advance_names (event_name <$> events) w.
Proof. revert w deliver. induction events as [|ev events IH]; intros w deliver; [done|]. apply IH. Qed.

Lemma notify_locked_state `{MapRange} events w :
  (notify_locked events w).1 = signalLocked (advance_names (event_name <$> events) w).
Proof.
  unfold notify_locked. pose proof (notify_loop_state events w []) as Hs.
  destruct (notify_loop events w []) as [w' ds]. simpl in *. by rewrite Hs.
Qed.

(** Both notification paths reach the same state. *)
Lemma Notify_NotifyNames `{MapRange} events w c :
  (Notify events w c).1 = NotifyNames (event_name <$> events) w.
Proof.
  destruct events as [|ev events]; [done|].
  change (NotifyNames (event_name <$> ev :: events) w) with
    (signalLocked (advance_names (event_name <$> ev :: events) w)).
  rewrite <-notify_locked_state. unfold Notify. by destruct (notify_locked (ev :: events) w).
Qed.

(** Whether the names concern the query: its own name, or any name when it lists
    services or asks for one not seen yet. *)
Definition concerns (w : Watcher) (q : Query) (names : list string) : Prop :=
  names ≠ [] ∧
  (Query_Name q = ""%string ∨ nameIndex w !! Query_Name q = None ∨ Query_Name q ∈ names).

Lemma atLeastOne_id x : 1 <= x → atLeastOne x = x.
Proof. unfold atLeastOne. intros. by destruct (Z.ltb_spec x 1); [lia|]. Qed.

Lemma NotifyNames_index names w :
  wf_watcher w → w_index w + Z.of_nat (length names) < 2 ^ 64 →
  let w' := NotifyNames names w in
  wf_watcher w' ∧ w_index w' = w_index w + Z.of_nat (length names) ∧
  ∀ name, if decide (name ∈ names)
    then ∃ i, nameIndex w' !! name = Some i ∧ w_index w < i
    else nameIndex w' !! name = nameIndex w !! name.
Proof.
  intros Hwf Hlt. destruct names as [|nm names].
  { split; [done|]. split; [simpl; lia|]. intros. by rewrite decide_False by set_solver. }
  destruct (advance_names_spec (nm :: names) w Hwf Hlt) as (H1 & H2 & _ & _ & H5).
  by split_and!.
Qed.

(** ** Waiting *)

Lemma bump_advance_names l w : bump (advance_names l w) = bump w.
Proof. revert w. induction l as [|x l IH]; intros w; [done|]. apply (IH (advance_name x w)). Qed.

Lemma w_op_index `{MapRange} w w' q :
  w_op w w' → bump w' = bump w → currentIndexLocked w' q = currentIndexLocked w q.
Proof.
  intros [events|names|q' c|id]; [..|done|done].
  - rewrite notify_locked_state. simpl. rewrite bump_advance_names. lia.
  - destruct names as [|nm names]; [done|].
    change (S (bump (advance_names (nm :: names) w)) = bump w → currentIndexLocked
      (NotifyNames (nm :: names) w) q = currentIndexLocked w q). rewrite bump_advance_names. lia.
Qed.

Lemma w_op_bump `{MapRange} w w' : w_op w w' → (bump w <= bump w')%nat.
Proof.
  intros [events|names|q' c|id]; [..|done|done].
  - rewrite notify_locked_state. simpl. rewrite bump_advance_names. lia.
  - destruct names as [|nm names]; [done|].
    change (bump w <= S (bump (advance_names (nm :: names) w)))%nat. rewrite bump_advance_names. lia.
Qed.

(** A waiting caller read exactly the index it was given, and its channel is
    still open only if the index has not changed since. *)
Definition wait_inv (q : Query) (minIndex : Z) (s : Watcher * waiter) : Prop :=
  match s.2 with
  | Waiting cur ch => cur = minIndex ∧ (ch <= bump s.1)%nat ∧
      (ch = bump s.1 → currentIndexLocked s.1 q = cur)
  | _ => True
  end.

Lemma wait_inv_reach `{MapRange} q minIndex w0 s :
  wait_reach q minIndex w0 s → wait_inv q minIndex s.
Proof.
  induction 1 as [|s s' _ IH Hs]; [done|].
  destruct Hs as [w w' [|cur ch|ret] Hop|w| | |]; unfold wait_inv in *; simpl in *; try done.
  - destruct IH as (-> & Hle & Hcur). pose proof (w_op_bump _ _ Hop). split_and!; [done|lia|].
    intros ->. rewrite (w_op_index w w' q Hop) by lia. apply Hcur. lia.
  - unfold wait_check. destruct (_ || _) eqn:E; [done|]. apply orb_false_iff in E as [_ E].
    apply negb_false_iff, Z.eqb_eq in E. done.
Qed.

(** ** Delivery *)

(** The events of a batch that match a query, with the watcher's indexes from [i]. *)
Fixpoint stream (i : Z) (q : Query) (events : list ChangeEvent) : list ChangeEvent :=
  match events with
  | [] => []
  | ev :: rest =>
      let i := u64 (i + 1) in
      (if matches q (Event_Entry ev) then [with_index i ev] else []) ++ stream i q rest
  end.

(** Every subscription has a channel of its own. *)
Definition subs_ok (w : Watcher) : Prop := ∀ id s, subs w !! id = Some s → sub_ch s = id.

Lemma sends_chan ds c ch buf :
  c !! ch = Some buf → (length buf <= chan_cap)%nat →
  foldl send c ds !! ch =
    Some (buf ++ take (chan_cap - length buf) (dl_event <$> filter (λ d, dl_ch d = ch) ds)).
Proof.
  revert c buf. induction ds as [|d ds IH]; intros c buf Hc Hlen; cbn [foldl].
  { rewrite filter_nil. simpl. by rewrite take_nil, app_nil_r. }
  rewrite filter_cons. destruct (decide (dl_ch d = ch)) as [Hd|Hd].
  - unfold send at 2. rewrite Hd, Hc. destruct (Nat.ltb_spec (length buf) chan_cap) as [Hl|Hl].
    + rewrite (IH _ (buf ++ [dl_event d])); [|by rewrite lookup_insert_eq|rewrite length_app; simpl; lia].
      rewrite length_app. cbn [fmap list_fmap length].
      replace (chan_cap - length buf)%nat with (S (chan_cap - (length buf + 1))) by lia.
      cbn [take]. by rewrite <-(assoc (++)).
    + rewrite (IH _ buf) by done. replace (chan_cap - length buf)%nat with 0%nat by lia. done.
  - apply IH; [|done]. unfold send. destruct (c !! dl_ch d); [|done].
    destruct (_ <? _)%nat; [by rewrite lookup_insert_ne|done].
Qed.

Lemma filter_singleton_sub `{MapRange} (m : gmap nat subscription) ch s (P : nat * subscription → Prop)
    `{!∀ x, Decision (P x)} :
  (∀ id s, m !! id = Some s → sub_ch s = id) → m !! ch = Some s →
  filter (λ p, sub_ch p.2 = ch) (filter P (range m)) = if decide (P (ch, s)) then [(ch, s)] else [].
Proof.
  intros Hok Hs.
  assert (Hall : ∀ p, p ∈ filter (λ p, sub_ch p.2 = ch) (filter P (range m)) → p = (ch, s) ∧ P p).
  { intros [i s'] [Hc [Hp Hi%elem_of_range]%list_elem_of_filter]%list_elem_of_filter.
    simpl in Hc. rewrite (Hok _ _ Hi) in Hc. split; [congruence|done]. }
  case_decide as Hp.
  - apply NoDup_singleton_list; [do 2 apply list.NoDup_filter; apply NoDup_range| |naive_solver].
    apply list_elem_of_filter. split; [by eapply Hok|]. apply list_elem_of_filter.
    split; [done|]. by apply elem_of_range.
  - apply all_not_elem_nil. intros p [-> ?]%Hall. done.
Qed.

Lemma notify_loop_stream `{MapRange} events w deliver ch s :
  subs_ok w → subs w !! ch = Some s →
  dl_event <$> filter (λ d, dl_ch d = ch) (notify_loop events w deliver).2 =
    (dl_event <$> filter (λ d, dl_ch d = ch) deliver) ++ stream (w_index w) (sub_query s) events.
Proof.
  revert w deliver. induction events as [|ev events IH]; intros w deliver Hok Hs; cbn [notify_loop stream].
  { by rewrite app_nil_r. }
  rewrite IH by done. simpl. rewrite filter_app, fmap_app, <-(assoc (++)). f_equal. f_equal.
  set (i := u64 (w_index w + 1)).
  assert (Hf : ∀ l : list (nat * subscription), filter (λ d, dl_ch d = ch)
            ((λ p, mkDelivery (sub_ch p.2) (with_index i ev)) <$> l) =
          (λ p, mkDelivery (sub_ch p.2) (with_index i ev)) <$> filter (λ p, sub_ch p.2 = ch) l).
  { induction l as [|p l IHl]; [done|]. rewrite fmap_cons, !filter_cons. cbn [dl_ch].
    destruct (decide (sub_ch p.2 = ch)); [by rewrite fmap_cons, IHl|done]. }
  rewrite Hf, (filter_singleton_sub (subs w) ch s) by done. simpl.
  case_decide as Hm; [by rewrite Hm|]. by destruct (matches (sub_query s) (Event_Entry ev)).
Qed.

(** ** Claims *)

(** Once the watcher has a positive base, a notification advances the index of
    a query exactly when the changed names concern it (its own name, or any name
    for a list query or a name not seen yet), and otherwise leaves it as it is, so
    a blocking caller sees every change that concerns it and no other. *)
Theorem Notify_advances_exactly `{MapRange} (events : list ChangeEvent) (w : Watcher) (c : Chans) (q : Query) :
  wf_watcher w → 1 <= w_index w → w_index w + Z.of_nat (length events) < 2 ^ 64 →
  let w' := (Notify events w c).1 in
  wf_watcher w' ∧ Watcher_Index w' = Watcher_Index w + Z.of_nat (length events) ∧
  (concerns w q (event_name <$> events) → CurrentIndex w q < CurrentIndex w' q) ∧
  (¬ concerns w q (event_name <$> events) → CurrentIndex w' q = CurrentIndex w q).
Proof.
  intros Hwf H1 Hlt. rewrite Notify_NotifyNames. set (names := event_name <$> events).
  assert (Hlen : length names = length events) by apply length_fmap. rewrite <-Hlen in *.
  destruct (NotifyNames_index names w Hwf Hlt) as (Hwf' & Hi & Hn). cbv zeta.
  unfold Watcher_Index, CurrentIndex, currentIndexLocked.
  rewrite !(atLeastOne_id (w_index _)) by lia. split_and!; [done|lia|..].
  - intros [Hne Hc]. assert (length names ≠ 0%nat) by (by destruct names).
    specialize (Hn (Query_Name q)). case_bool_decide as Hq; [|lia].
    destruct (decide (Query_Name q ∈ names)) as [Hin|Hin].
    + destruct Hn as (i & -> & Hl). rewrite (atLeastOne_id i) by lia.
      destruct (nameIndex w !! Query_Name q) as [j|] eqn:Ej; [|lia].
      pose proof (proj2 Hwf _ _ Ej). rewrite atLeastOne_id; lia.
    + assert (nameIndex w !! Query_Name q = None) as Hx by naive_solver. rewrite Hn, Hx. lia.
  - intros Hnc. destruct names as [|nm names']; [done|].
    unfold concerns in Hnc. case_bool_decide as Hq; [|naive_solver].
    specialize (Hn (Query_Name q)). rewrite decide_False in Hn by naive_solver.
    rewrite Hn. destruct (nameIndex w !! Query_Name q) eqn:Ej; [done|naive_solver].
Qed.

Definition sampleEvent (name : string) : ChangeEvent :=
  mkEvent ChangePut (mkEntry zeroNode (mkService name name "" 0 [] ∅ DefaultWeights 0 0 0)
    HealthPassing false 1 1) 7.

Lemma Notify_advances_exactly_witness :
  let w' := (@Notify list_order [sampleEvent "web"] (New 5) ∅).1 in
  CurrentIndex (New 5) (mkQuery "web" "" [] false) < CurrentIndex w' (mkQuery "web" "" [] false).
Proof.
  apply (@Notify_advances_exactly list_order [sampleEvent "web"] (New 5) ∅ (mkQuery "web" "" [] false)).
  - split; [unfold is_u64; simpl; lia|]. intros nm i. simpl. by rewrite lookup_empty.
  - simpl. lia.
  - simpl. lia.
  - split; [done|]. right. left. reflexivity.
Defined.

(** With the base 0 every fresh watcher starts from, the reported index is 1
    both before and after the first change, so a list query (or one for a service
    not seen yet) that read index 1 does not return on that change: it goes back to
    waiting although the registry changed. *)
Theorem first_change_not_observed `{MapRange} (ev : ChangeEvent) (c : Chans) (q : Query) :
  let w' := (Notify [ev] (New 0) c).1 in
  CurrentIndex (New 0) q = 1 ∧ CurrentIndex w' q = 1 ∧ w_index w' ≠ w_index (New 0) ∧
  wait_check (New 0) q 1 = Waiting 1 0 ∧ wait_check w' q 1 = Waiting 1 1.
Proof.
  assert (Hc : CurrentIndex (Notify [ev] (New 0) c).1 q = 1).
  { rewrite Notify_NotifyNames. unfold CurrentIndex, currentIndexLocked; simpl.
    case_bool_decide; [|done]. rewrite lookup_insert. case_decide; [done|]. by rewrite lookup_empty. }
  assert (H0 : CurrentIndex (New 0) q = 1).
  { unfold CurrentIndex, currentIndexLocked; simpl. case_bool_decide; [|done]. by rewrite lookup_empty. }
  cbv zeta. unfold wait_check. fold (CurrentIndex (New 0) q). fold (CurrentIndex (Notify [ev] (New 0) c).1 q).
  by rewrite Hc, H0, Notify_NotifyNames.
Qed.

(** C14: no wake-up is lost: in every interleaving of a [WaitForChange] call with the
    watcher's operations, a caller that is still waiting although the index of its
    query differs from the one it was given has its channel closed, and its next
    two steps return the current index. *)
Theorem no_lost_wakeup `{MapRange} (q : Query) (minIndex : Z) (w0 w : Watcher) (cur : Z) (ch : nat) :
  wait_reach q minIndex w0 (w, Waiting cur ch) → CurrentIndex w q ≠ minIndex →
  wait_step q minIndex (w, Waiting cur ch) (w, Checking) ∧
  wait_step q minIndex (w, Checking) (w, Done (CurrentIndex w q)).
Proof.
  intros (-> & Hle & Hcur)%wait_inv_reach Hne. simpl in *. split.
  - constructor. destruct (decide (ch = bump w)) as [->|]; [|lia]. destruct Hne. by apply Hcur.
  - assert (Hchk : wait_check w q minIndex = Done (CurrentIndex w q)); [|rewrite <-Hchk; constructor].
    unfold wait_check. fold (CurrentIndex w q).
    destruct (Z.eqb_spec (CurrentIndex w q) minIndex); [done|]. by rewrite orb_true_r.
Qed.

Lemma no_lost_wakeup_witness :
  let q := zeroQuery in
  let w := NotifyNames ["web"%string] (New 5) in
  @wait_step list_order q 5 (w, Waiting 5 0) (w, Checking) ∧
  @wait_step list_order q 5 (w, Checking) (w, Done 6).
Proof.
  apply (@no_lost_wakeup list_order zeroQuery 5 (New 5) (NotifyNames ["web"%string] (New 5)) 5 0).
  - eapply wait_next; [eapply wait_next; [apply wait_start|apply wait_checks]|].
    apply wait_env. by constructor.
  - vm_compute. discriminate.
Defined.

(** A subscriber whose channel has room receives exactly the events of a batch
    that match its query, in order and with the watcher's consecutive indexes; only
    when its buffer fills up is the rest of the batch dropped. *)
Theorem Notify_delivers `{MapRange} (events : list ChangeEvent) (w : Watcher) (c : Chans) id q buf :
  subs_ok w → subs w !! id = Some (mkSub q id) → c !! id = Some buf → (length buf <= chan_cap)%nat →
  (Notify events w c).2 !! id =
    Some (buf ++ take (chan_cap - length buf) (stream (w_index w) q events)).
Proof.
  intros Hok Hs Hc Hlen. destruct events as [|ev events]; [simpl; by rewrite take_nil, app_nil_r|].
  unfold Notify, notify_locked.
  pose proof (notify_loop_stream (ev :: events) w [] id (mkSub q id) Hok Hs) as Hst.
  destruct (notify_loop (ev :: events) w []) as [w' ds]. simpl snd in *.
  rewrite (sends_chan _ _ _ buf) by done. by rewrite Hst.
Qed.

Lemma Notify_delivers_witness :
  let '(id, w, c) := Subscribe (mkQuery "web" "" [] false) (New 5) ∅ in
  (@Notify list_order [sampleEvent "db"; sampleEvent "web"] w c).2 !! id =
    Some [with_index 7 (sampleEvent "web")].
Proof.
  change (let '(id, w, c) := Subscribe (mkQuery "web" "" [] false) (New 5) ∅ in
    (@Notify list_order [sampleEvent "db"; sampleEvent "web"] w c).2 !! id =
      Some ([] ++ take (chan_cap - 0) (stream 5 (mkQuery "web" "" [] false)
              [sampleEvent "db"; sampleEvent "web"]))).
  apply (@Notify_delivers list_order); [|reflexivity|reflexivity|vm_compute; lia].
  intros id s. simpl. rewrite lookup_insert. case_decide; [by intros [= <-]|]. by rewrite lookup_empty.
Defined.

(** A restart does not regress: the index a flush wrote is the base the next
    start loads, for every 64-bit index, so the new watcher reports the index the
    old one reported. *)
Theorem index_survives_restart (fs : FS) (dataDir : string) (w : Watcher) :
  dataDir ≠ ""%string → is_u64 (w_index w) →
  Watcher_Index (New (LoadBase (Flusher_Stop true WriteOK fs dataDir w) dataDir)) = Watcher_Index w.
Proof.
  intros Hd Hu. unfold Flusher_Stop, flush, SaveBase, LoadBase. rewrite bool_decide_eq_false_2 by done. simpl.
  rewrite lookup_insert_eq, TrimSpace_newline by (by apply format_loop_no_space).
  rewrite ParseUint_FormatUint.
  - simpl. unfold Watcher_Index; simpl. unfold atLeastOne.
    destruct (Z.ltb_spec (w_index w) 1); [done|]. by destruct (Z.ltb_spec (w_index w) 1); [lia|].
  - unfold Watcher_Index, atLeastOne, is_u64 in *. destruct (Z.ltb_spec (w_index w) 1); lia.
Qed.

Lemma index_survives_restart_witness :
  Watcher_Index (New (LoadBase (Flusher_Stop true WriteOK ∅ "/var/lib/yp" (New 1234567)) "/var/lib/yp")) = 1234567.
Proof.
  apply (index_survives_restart ∅ "/var/lib/yp" (New 1234567)); [discriminate|unfold is_u64; simpl; lia].
Defined.
