(* ===== verification/Protoconv.v ===== *)
(** The boundary between the discovery.v1 wire types and the domain model,
    [src/internal/protoconv]: the wire messages, the conversions in both
    directions, the clamps of TTLs and ports, and what survives a round trip. *)

From Stdlib Require Import ZArith Lia.
From stdpp Require Import base gmap list strings.
From S2P Require Import Prelude GoStrings Model Health.

#[local] Open Scope Z_scope.

(** ** Wire types

    The messages of discovery.proto.  A nil message pointer is [None]; the getters
    of a nil message return zero values.  Enums are open: any [int32] may arrive. *)

Record PbWeights := mkPbWeights { pbw_passing : Z; pbw_warning : Z }.

Record PbNode := mkPbNode {
  pbn_id : string;
  pbn_name : string;
  pbn_address : string;
  pbn_datacenter : string;
  pbn_meta : gmap string string;
  pbn_tagged_addresses : gmap string string
}.

Record PbService := mkPbService {
  pbs_id : string;
  pbs_name : string;
  pbs_address : string;
  pbs_port : Z;
  pbs_tags : list string;
  pbs_meta : gmap string string;
  pbs_weights : option PbWeights;
  pbs_ttl_seconds : Z
}.

Record PbRegistration := mkPbRegistration {
  pbr_node : option PbNode;
  pbr_services : list (option PbService);
  pbr_generation : Z
}.

Record PbEntry := mkPbEntry {
  pbe_node : option PbNode;
  pbe_service : option PbService;
  pbe_health : Z;
  pbe_maintenance : bool;
  pbe_generation : Z;
  pbe_last_seen_unix_nano : Z
}.

Record PbQuery := mkPbQuery {
  pbq_name : string;
  pbq_datacenter : string;
  pbq_tags : list string;
  pbq_only_healthy : bool
}.

Record PbChangeEvent := mkPbChangeEvent { pbc_type : Z; pbc_entry : option PbEntry }.

Record PbLookupResponse := mkPbLookupResponse { pbl_entries : list (option PbEntry); pbl_index : Z }.

(** ** Helpers *)

Definition maxUint32 : Z := 2 ^ 32 - 1.

Definition maxUint16 : Z := 2 ^ 16 - 1.

(** Go's integer division truncates towards zero. *)
Definition ttlToSeconds (d : Z) : Z :=
  let secs := Z.quot d second in
  if secs <? 0 then 0 else if maxUint32 <? secs then maxUint32 else secs.

Definition portFromProto (p : Z) : Z := if maxUint16 <? p then maxUint16 else p.

(** [t.UnixNano()] is the low 64 bits of the instant. *)
Definition toUnixNano (t : Z) : Z := if t =? zeroTime then 0 else i64 t.

Definition fromUnixNano (n : Z) : Z := if n =? 0 then zeroTime else n.

(** Copies: the nil and the empty slice (map) are the same value of the model. *)
Definition copySlice (l : list string) : list string := if (length l =? 0)%nat then [] else l.

Definition copyMap (m : gmap string string) : gmap string string := if (size m =? 0)%nat then ∅ else m.

(** ** Conversions *)

Definition NodeToProto (n : Node) : PbNode :=
  mkPbNode (Node_ID n) (Node_Name n) (Node_Address n) (Node_Datacenter n)
    (copyMap (Node_Meta n)) (copyMap (Node_TaggedAddresses n)).

Definition NodeFromProto (p : option PbNode) : Node :=
  match p with
  | None => zeroNode
  | Some p => mkNode (pbn_id p) (pbn_name p) (pbn_address p) (pbn_datacenter p)
                (copyMap (pbn_meta p)) (copyMap (pbn_tagged_addresses p))
  end.

Definition WeightsToProto (w : Weights) : PbWeights := mkPbWeights (Passing w) (Warning w).

Definition WeightsFromProto (p : option PbWeights) : Weights :=
  match p with
  | None => mkWeights 0 0
  | Some p => mkWeights (pbw_passing p) (pbw_warning p)
  end.

Definition ServiceToProto (s : ServiceInstance) : PbService :=
  mkPbService (Svc_ID s) (Svc_Name s) (Svc_Address s) (Svc_Port s) (copySlice (Svc_Tags s))
    (copyMap (Svc_Meta s)) (Some (WeightsToProto (Svc_Weights s))) (ttlToSeconds (Svc_TTL s)).

(** [time.Duration(secs) * time.Second] wraps around in [int64]. *)
Definition ServiceFromProto (p : option PbService) : ServiceInstance :=
  match p with
  | None => zeroService
  | Some p => mkService (pbs_id p) (pbs_name p) (pbs_address p) (portFromProto (pbs_port p))
                (copySlice (pbs_tags p)) (copyMap (pbs_meta p)) (WeightsFromProto (pbs_weights p))
                (i64 (pbs_ttl_seconds p * second)) zeroTime 0
  end.

Definition RegistrationToProto (r : Registration) : PbRegistration :=
  mkPbRegistration (Some (NodeToProto (Reg_Node r)))
    ((λ s, Some (ServiceToProto s)) <$> Reg_Services r) (Reg_Generation r).

Definition RegistrationFromProto (p : option PbRegistration) : Registration :=
  match p with
  | None => mkRegistration zeroNode [] 0
  | Some p => mkRegistration (NodeFromProto (pbr_node p)) (ServiceFromProto <$> pbr_services p)
                (pbr_generation p)
  end.

Definition HealthToProto (h : HealthState) : Z :=
  match h with
  | HealthPassing => 1
  | HealthWarning => 2
  | HealthCritical => 3
  | HealthUnspecified => 0
  end.

Definition HealthFromProto (h : Z) : HealthState :=
  if h =? 1 then HealthPassing
  else if h =? 2 then HealthWarning
  else if h =? 3 then HealthCritical
  else HealthUnspecified.

Definition ChangeTypeToProto (c : ChangeType) : Z :=
  match c with
  | ChangePut => 1
  | ChangeDelete => 2
  | ChangeUnspecified => 0
  end.

Definition ChangeTypeFromProto (c : Z) : ChangeType :=
  if c =? 1 then ChangePut else if c =? 2 then ChangeDelete else ChangeUnspecified.

Definition EntryToProto (e : ServiceEntry) : PbEntry :=
  mkPbEntry (Some (NodeToProto (Entry_Node e))) (Some (ServiceToProto (Entry_Service e)))
    (HealthToProto (Entry_Health e)) (Entry_Maintenance e)
    (Svc_Generation (Entry_Service e)) (toUnixNano (Svc_LastSeen (Entry_Service e))).

Definition EntryFromProto (p : option PbEntry) : ServiceEntry :=
  match p with
  | None => zeroEntry
  | Some p =>
      let svc := with_LastSeen (fromUnixNano (pbe_last_seen_unix_nano p))
                   (with_Generation (pbe_generation p) (ServiceFromProto (pbe_service p))) in
      mkEntry (NodeFromProto (pbe_node p)) svc (HealthFromProto (pbe_health p)) (pbe_maintenance p) 0 0
  end.

Definition QueryToProto (q : Query) : PbQuery :=
  mkPbQuery (Query_Name q) (Query_Datacenter q) (copySlice (Query_Tags q)) (Query_OnlyHealthy q).

Definition QueryFromProto (p : option PbQuery) : Query :=
  match p with
  | None => zeroQuery
  | Some p => mkQuery (pbq_name p) (pbq_datacenter p) (copySlice (pbq_tags p)) (pbq_only_healthy p)
  end.

Definition LookupResultToProto (r : LookupResult) : PbLookupResponse :=
  mkPbLookupResponse ((λ e, Some (EntryToProto e)) <$> Lookup_Entries r) (Lookup_Index r).

Definition LookupResultFromProto (p : option PbLookupResponse) : LookupResult :=
  match p with
  | None => mkLookup [] 0
  | Some p => mkLookup (EntryFromProto <$> pbl_entries p) (pbl_index p)
  end.

Definition ChangeEventToProto (e : ChangeEvent) : PbChangeEvent :=
  mkPbChangeEvent (ChangeTypeToProto (Event_Type e)) (Some (EntryToProto (Event_Entry e))).

Definition ChangeEventFromProto (p : option PbChangeEvent) (index : Z) : ChangeEvent :=
  match p with
  | None => mkEvent ChangeUnspecified zeroEntry index
  | Some p => mkEvent (ChangeTypeFromProto (pbc_type p)) (EntryFromProto (pbc_entry p)) index
  end.

(** ** Copies and enums *)

Lemma copySlice_id l : copySlice l = l.
Proof. unfold copySlice. by destruct l. Qed.

Lemma copyMap_id m : copyMap m = m.
Proof.
  unfold copyMap. destruct (Nat.eqb_spec (size m) 0) as [E|]; [|done].
  by apply map_size_empty_inv in E as ->.
Qed.

Lemma HealthFromProto_ToProto h : HealthFromProto (HealthToProto h) = h.
Proof. by destruct h. Qed.

Lemma ChangeTypeFromProto_ToProto c : ChangeTypeFromProto (ChangeTypeToProto c) = c.
Proof. by destruct c. Qed.

Lemma NodeFromProto_ToProto n : NodeFromProto (Some (NodeToProto n)) = n.
Proof. unfold NodeFromProto, NodeToProto; simpl. rewrite !copyMap_id. by destruct n. Qed.

Lemma WeightsFromProto_ToProto w : WeightsFromProto (Some (WeightsToProto w)) = w.
Proof. by destruct w. Qed.

(** ** What a trip over the wire makes of a value *)

(** A TTL is cut to whole seconds, none below zero and no more than 2^32-1 of
    them. *)
Definition wire_ttl (d : Z) : Z := Z.max 0 (Z.min (d ÷ 1000000000) 4294967295) * 1000000000.

(** The definition a peer receives: without its merge fields. *)
Definition wire_service (s : ServiceInstance) : ServiceInstance :=
  with_LastSeen zeroTime (with_Generation 0 (with_TTL (wire_ttl (Svc_TTL s)) s)).

(** The entry a peer receives: without its seed-local indexes. *)
Definition wire_entry (e : ServiceEntry) : ServiceEntry :=
  mkEntry (Entry_Node e) (with_TTL (wire_ttl (Svc_TTL (Entry_Service e))) (Entry_Service e))
    (Entry_Health e) (Entry_Maintenance e) 0 0.

(** The values the domain produces: a [uint16] port, and a [LastSeen] that is the
    zero time or a non-epoch instant representable in nanoseconds. *)
Definition wire_ok_service (s : ServiceInstance) : Prop := 0 <= Svc_Port s <= maxUint16.

Definition wire_ok (e : ServiceEntry) : Prop :=
  wire_ok_service (Entry_Service e) ∧
  (Svc_LastSeen (Entry_Service e) = zeroTime ∨
   (is_i64 (Svc_LastSeen (Entry_Service e)) ∧ Svc_LastSeen (Entry_Service e) ≠ 0)).

Lemma ttlToSeconds_range d : 0 <= ttlToSeconds d <= maxUint32.
Proof.
  unfold ttlToSeconds, maxUint32. destruct (Z.ltb_spec (Z.quot d second) 0); [lia|].
  destruct (Z.ltb_spec (2 ^ 32 - 1) (Z.quot d second)); lia.
Qed.

Lemma wire_ttl_eq d : wire_ttl d = ttlToSeconds d * second.
Proof.
  unfold wire_ttl, ttlToSeconds, maxUint32, second.
  destruct (Z.ltb_spec (Z.quot d 1000000000) 0); [lia|].
  destruct (Z.ltb_spec (2 ^ 32 - 1) (Z.quot d 1000000000)); lia.
Qed.

Lemma wire_ttl_small d : i64 (ttlToSeconds d * second) = wire_ttl d.
Proof.
  rewrite wire_ttl_eq. apply i64_small. pose proof (ttlToSeconds_range d).
  unfold is_i64, minInt64, maxInt64, maxUint32, second in *. lia.
Qed.

(** A TTL of whole seconds in range is kept; the cut never lengthens a lease. *)
Lemma wire_ttl_seconds k : 0 <= k <= maxUint32 → wire_ttl (k * second) = k * second.
Proof.
  intros Hk. unfold wire_ttl. change (k * second) with (k * 1000000000).
  rewrite Z.quot_mul by lia. unfold maxUint32 in Hk. lia.
Qed.

Lemma wire_ttl_le d : 0 <= d → 0 <= wire_ttl d <= d.
Proof.
  intros Hd. unfold wire_ttl. rewrite Z.quot_div_nonneg by lia. pose proof (Z.div_mod d 1000000000).
  pose proof (Z.mod_pos_bound d 1000000000). assert (0 <= d / 1000000000) by (apply Z.div_pos; lia). lia.
Qed.

Lemma wire_ttl_idemp d : wire_ttl (wire_ttl d) = wire_ttl d.
Proof. rewrite (wire_ttl_eq d). apply wire_ttl_seconds, ttlToSeconds_range. Qed.

Lemma ServiceFromProto_ToProto s :
  wire_ok_service s → ServiceFromProto (Some (ServiceToProto s)) = wire_service s.
Proof.
  intros Hp. unfold ServiceFromProto, ServiceToProto, wire_service; simpl.
  rewrite !copyMap_id, !copySlice_id, wire_ttl_small. unfold portFromProto, wire_ok_service in *.
  destruct (Z.ltb_spec maxUint16 (Svc_Port s)); [lia|]. by destruct s as [? ? ? ? ? ? [] ? ? ?].
Qed.

Lemma fromUnixNano_toUnixNano t :
  t = zeroTime ∨ (is_i64 t ∧ t ≠ 0) → fromUnixNano (toUnixNano t) = t.
Proof.
  intros Ht. unfold fromUnixNano, toUnixNano. destruct (Z.eqb_spec t zeroTime) as [->|Hz]; [done|].
  destruct Ht as [|[Hi Hn]]; [done|]. rewrite i64_small by done. by destruct (Z.eqb_spec t 0).
Qed.

Lemma EntryFromProto_ToProto e :
  wire_ok e → EntryFromProto (Some (EntryToProto e)) = wire_entry e.
Proof.
  intros [Hp Ht]. unfold EntryFromProto, EntryToProto. simpl pbe_service. simpl pbe_node.
  cbn [pbe_last_seen_unix_nano pbe_generation pbe_health pbe_maintenance].
  rewrite ServiceFromProto_ToProto, NodeFromProto_ToProto, HealthFromProto_ToProto,
    fromUnixNano_toUnixNano by done. done.
Qed.

Lemma EntryFromProto_list l :
  Forall wire_ok l → EntryFromProto <$> ((λ e, Some (EntryToProto e)) <$> l) = wire_entry <$> l.
Proof.
  induction 1 as [|e l He _ IH]; [done|]. rewrite !fmap_cons, IH. by rewrite EntryFromProto_ToProto.
Qed.

(** ** Claims *)

(** C29: conversions to the wire and back: a query, a node and the weights come back
    unchanged; a registration comes back with its node, its generation and its
    services, whose TTL is cut to whole seconds (zero when negative, 2^32-1 of them
    at most) and whose merge fields are left to the receiver; lookup results and change events come back
    with their entries in order, a TTL cut likewise and the seed-local indexes zero,
    whenever the ports are [uint16] and the last-seen instants, where set, are not
    the epoch and fit an [int64] of nanoseconds. *)
Theorem wire_round_trips (q : Query) (r : Registration) (res : LookupResult) (ev : ChangeEvent) (i : Z) :
  Forall wire_ok_service (Reg_Services r) → Forall wire_ok (Lookup_Entries res) → wire_ok (Event_Entry ev) →
  QueryFromProto (Some (QueryToProto q)) = q ∧
  RegistrationFromProto (Some (RegistrationToProto r)) =
    mkRegistration (Reg_Node r) (wire_service <$> Reg_Services r) (Reg_Generation r) ∧
  LookupResultFromProto (Some (LookupResultToProto res)) =
    mkLookup (wire_entry <$> Lookup_Entries res) (Lookup_Index res) ∧
  ChangeEventFromProto (Some (ChangeEventToProto ev)) i =
    mkEvent (Event_Type ev) (wire_entry (Event_Entry ev)) i.
Proof.
  intros Hr Hl He. split_and!.
  - unfold QueryFromProto, QueryToProto; simpl. rewrite !copySlice_id. by destruct q.
  - unfold RegistrationFromProto, RegistrationToProto. cbn [pbr_node pbr_services pbr_generation].
    rewrite NodeFromProto_ToProto. f_equal.
    induction Hr as [|s l Hs _ IH]; [done|]. rewrite !fmap_cons, IH. by rewrite ServiceFromProto_ToProto.
  - unfold LookupResultFromProto, LookupResultToProto. cbn [pbl_entries pbl_index].
    by rewrite EntryFromProto_list.
  - unfold ChangeEventFromProto, ChangeEventToProto. cbn [pbc_type pbc_entry].
    by rewrite ChangeTypeFromProto_ToProto, EntryFromProto_ToProto.
Qed.

Lemma wire_round_trips_witness :
  let e := sample "n" "a" "10.0.0.1" 1 (5 * second) in
  LookupResultFromProto (Some (LookupResultToProto (mkLookup [e] 9))) = mkLookup [wire_entry e] 9 ∧
  Svc_TTL (Entry_Service (wire_entry e)) = 30 * second.
Proof.
  split; [|vm_compute; reflexivity].
  apply (wire_round_trips zeroQuery (mkRegistration zeroNode [] 0)
    (mkLookup [sample "n" "a" "10.0.0.1" 1 (5 * second)] 9)
    (mkEvent ChangePut (sample "n" "a" "10.0.0.1" 1 (5 * second)) 1) 1); [constructor|..];
    repeat constructor; vm_compute; try discriminate; right; repeat split; discriminate.
Defined.

(** Reconciling what the seeds sent is sending what they reconcile: the
    last-writer-wins merge of entries received over the wire is the merge of the
    entries themselves, received over the wire, because identity and version
    survive the conversion. *)
Theorem wire_commutes_with_merge `{MapRange} (l : list ServiceEntry) :
  Forall wire_ok l →
  MergeLWW (EntryFromProto <$> ((λ e, Some (EntryToProto e)) <$> l)) =
  EntryFromProto <$> ((λ e, Some (EntryToProto e)) <$> MergeLWW l).
Proof.
  intros Hl. rewrite EntryFromProto_list by done. rewrite EntryFromProto_list; [by apply MergeLWW_fmap|].
  apply Forall_forall. intros e He%elem_of_MergeLWW_winners%winners_lookup.
  rewrite Forall_forall in Hl. apply Hl, He.
Qed.

Lemma wire_commutes_with_merge_witness :
  let l := [sample "n" "a" "10.0.0.1" 1 (5 * second); sample "n" "a" "10.0.0.2" 2 (3 * second)] in
  @MergeLWW list_order (EntryFromProto <$> ((λ e, Some (EntryToProto e)) <$> l)) =
  EntryFromProto <$> ((λ e, Some (EntryToProto e)) <$> @MergeLWW list_order l).
Proof.
  apply (@wire_commutes_with_merge list_order).
  repeat constructor; vm_compute; try discriminate; right; repeat split; discriminate.
Defined.
