(* ===== verification/Cred.v ===== *)
(** Caller identity and write authorization, [src/internal/cred]: the resolution of
    a [Principal] from the verified client certificate or an ACL token
    (identity.go) and the ownership check of the enforce mode (acl.go).  The
    request context is what gRPC puts into it: the peer's TLS state, if any, and
    the incoming metadata, whose keys are lower case. *)

From Stdlib Require Import ZArith Lia.
From stdpp Require Import base gmap list strings.
From S2P Require Import Prelude GoStrings Model.

(** ** acl.go *)

Inductive Mode := ModeDisabled | ModeAllow | ModeEnforce.

#[export] Instance Mode_eq_dec : EqDecision Mode.
Proof. solve_decision. Defined.

Record Authorizer := mkAuthorizer { mode : Mode }.

Definition NewAuthorizer (m : Mode) : Authorizer := mkAuthorizer m.

Definition Enforcing (a : Authorizer) : bool := bool_decide (mode a = ModeEnforce).

Inductive DenyReason := DenyAnonymous | DenyNotOwner.

(** [None] is a nil error: the write is permitted. *)
Definition Authorize (a : Authorizer) (p : Principal) (nodeID : string) : option DenyReason :=
  if bool_decide (mode a ≠ ModeEnforce) then None
  else if Principal_Anonymous p || bool_decide (Principal_ID p = "") then Some DenyAnonymous
  else if bool_decide (Principal_ID p ≠ nodeID) then Some DenyNotOwner
  else None.

Definition ParseMode (s : string) : option Mode :=
  if bool_decide (s = "") || bool_decide (s = "disabled") then Some ModeDisabled
  else if bool_decide (s = "allow") then Some ModeAllow
  else if bool_decide (s = "enforce") then Some ModeEnforce
  else None.

(** ** identity.go *)

(** [ctx_tls]: the chains of subject names, when the peer has a TLS state;
    [ctx_md]: the incoming metadata. *)
Record Context := mkContext {
  ctx_tls : option (list (list string));
  ctx_md : option (gmap string (list string))
}.

Record Identity := mkIdentity { tokens : gmap string string }.

Definition NewIdentity (t : gmap string string) : Identity := mkIdentity t.

Definition verifiedCommonName (ctx : Context) : string :=
  match ctx_tls ctx with
  | None => ""
  | Some chains =>
      match chains with
      | (cn :: _) :: _ => cn
      | _ => ""
      end
  end.

(** [md.Get(k)]. *)
Definition md_get (md : gmap string (list string)) (k : string) : list string := default [] (md !! k).

Definition tokenFromMetadata (ctx : Context) : string :=
  match ctx_md ctx with
  | None => ""
  | Some md =>
      match md_get md "x-consul-token" with
      | v :: _ => if bool_decide (v ≠ "") then v
                  else match md_get md "authorization" with
                       | a :: _ => TrimSpace (TrimPrefix a "Bearer ")
                       | [] => ""
                       end
      | [] => match md_get md "authorization" with
              | a :: _ => TrimSpace (TrimPrefix a "Bearer ")
              | [] => ""
              end
      end
  end.

Definition anonymous : Principal := mkPrincipal "" true ∅.

Definition PrincipalForToken (i : Identity) (token : string) : Principal :=
  if bool_decide (token ≠ "") then
    match tokens i !! token with
    | Some id => mkPrincipal id false {[ "auth"%string := "token"%string ]}
    | None => anonymous
    end
  else anonymous.

Definition Identity_Principal (i : Identity) (ctx : Context) : Principal :=
  let cn := verifiedCommonName ctx in
  if bool_decide (cn ≠ "") then mkPrincipal cn false {[ "auth"%string := "mtls"%string ]}
  else
    let tok := tokenFromMetadata ctx in
    if bool_decide (tok ≠ "") then
      match tokens i !! tok with
      | Some id => mkPrincipal id false {[ "auth"%string := "token"%string ]}
      | None => anonymous
      end
    else anonymous.

Definition principalName (p : Principal) : string :=
  if Principal_Anonymous p || bool_decide (Principal_ID p = "") then "anonymous" else Principal_ID p.

(** ** Lemmas *)

Lemma Authorize_allowed a p nid :
  mode a = ModeEnforce → Authorize a p nid = None ↔
  Principal_Anonymous p = false ∧ Principal_ID p ≠ "" ∧ Principal_ID p = nid.
Proof.
  intros Hm. unfold Authorize. rewrite bool_decide_eq_false_2 by (rewrite Hm; tauto).
  destruct (Principal_Anonymous p); simpl; [naive_solver|].
  repeat case_bool_decide; naive_solver.
Qed.

(** The two ways to present a token agree. *)
Lemma Identity_Principal_token i ctx :
  verifiedCommonName ctx = "" → Identity_Principal i ctx = PrincipalForToken i (tokenFromMetadata ctx).
Proof. unfold Identity_Principal, PrincipalForToken. intros ->. done. Qed.
