(* ===== verification/Server.v ===== *)
(** The seed's gRPC surface, [src/internal/server]: the request handlers over the
    store (service.go), the error codes, the authorization interceptor (authz.go),
    the [Watch] stream, and the seed node they form with the watcher that the
    store's [OnChange] feeds (cmd/yp wires [OnChange] to [Watcher.Notify]). *)

From Stdlib Require Import ZArith Lia.
From stdpp Require Import base gmap list strings.
From S2P Require Import Prelude GoStrings Model Health Store StoreSteps StoreInv StoreSpec.
From S2P Require Import StoreLookup StoreOps Watch Protoconv Cred.

#[local] Open Scope Z_scope.

(** ** Requests, responses, status codes *)

Inductive Code :=
  | CodeInvalidArgument
  | CodeNotFound
  | CodeResourceExhausted
  | CodePermissionDenied
  | CodeUnimplemented.

Inductive Request :=
  | RegisterRequest (registration : option PbRegistration)
  | RenewRequest (node_id : string) (service_ids : list string)
  | DeregisterRequest (node_id : string)
  | DeregisterServiceRequest (node_id service_id : string)
  | LookupRequest (query : option PbQuery).

Inductive Response :=
  | EmptyResponse
  | LookupResponse (r : PbLookupResponse).

(** Every error of the store has its own code; [codes.Internal] is unreachable. *)
Definition mapError (err : StoreError) : Code :=
  match err with
  | ErrInvalid => CodeInvalidArgument
  | ErrNotFound => CodeNotFound
  | ErrCapacity => CodeResourceExhausted
  end.

Definition reply (err : option StoreError) : Code + Response :=
  match err with
  | None => inr EmptyResponse
  | Some e => inl (mapError e)
  end.

(** ** service.go: unary handlers *)

Definition Service_Register `{MapRange} (clk : Clock) (r : option PbRegistration) (m : Memory)
  : (Code + Response) * Memory * list ChangeEvent :=
  let '(err, m, evs) := Register clk (RegistrationFromProto r) m in (reply err, m, evs).

Definition Service_Renew (clk : Clock) (nodeID : string) (ids : list string) (m : Memory)
  : (Code + Response) * Memory * list ChangeEvent :=
  if bool_decide (nodeID = ""%string) then (inl CodeInvalidArgument, m, [])
  else let '(err, m) := Renew clk nodeID ids m in (reply err, m, []).

Definition Service_Deregister `{MapRange} (nodeID : string) (m : Memory)
  : (Code + Response) * Memory * list ChangeEvent :=
  if bool_decide (nodeID = ""%string) then (inl CodeInvalidArgument, m, [])
  else let '(err, m, evs) := Deregister nodeID m in (reply err, m, evs).

Definition Service_DeregisterService (nodeID serviceID : string) (m : Memory)
  : (Code + Response) * Memory * list ChangeEvent :=
  if bool_decide (nodeID = ""%string) || bool_decide (serviceID = ""%string)
  then (inl CodeInvalidArgument, m, [])
  else let '(err, m, evs) := DeregisterService nodeID serviceID m in (reply err, m, evs).

Definition Service_Lookup `{MapRange} (clk : Clock) (query : option PbQuery) (m : Memory)
  : PbLookupResponse :=
  let q := QueryFromProto query in
  let res := Lookup clk q m in
  LookupResultToProto
    (if Query_OnlyHealthy q
     then mkLookup (Filter (Lookup_Entries res) (mkFilterOptions true)) (Lookup_Index res) else res).

Definition handle `{MapRange} (clk : Clock) (req : Request) (m : Memory)
  : (Code + Response) * Memory * list ChangeEvent :=
  match req with
  | RegisterRequest r => Service_Register clk r m
  | RenewRequest nid ids => Service_Renew clk nid ids m
  | DeregisterRequest nid => Service_Deregister nid m
  | DeregisterServiceRequest nid sid => Service_DeregisterService nid sid m
  | LookupRequest q => (inr (LookupResponse (Service_Lookup clk q m)), m, [])
  end.

(** ** authz.go *)

Definition writeTarget (req : Request) : string * bool :=
  match req with
  | RegisterRequest r =>
      (match r with
       | Some r => match pbr_node r with Some n => pbn_id n | None => ""%string end
       | None => ""%string
       end, true)
  | RenewRequest nid _ => (nid, true)
  | DeregisterRequest nid => (nid, true)
  | DeregisterServiceRequest nid _ => (nid, true)
  | LookupRequest _ => (""%string, false)
  end.

(** The interceptor around the handler of a request. *)
Definition UnaryAuthzInterceptor `{MapRange} (id : Identity) (authz : Authorizer) (ctx : Context)
    (clk : Clock) (req : Request) (m : Memory) : (Code + Response) * Memory * list ChangeEvent :=
  let '(nodeID, isWrite) := writeTarget req in
  if isWrite && Enforcing authz then
    match Authorize authz (Identity_Principal id ctx) nodeID with
    | Some _ => (inl CodePermissionDenied, m, [])
    | None => handle clk req m
    end
  else handle clk req m.

(** ** The seed: store and watcher

    The events of a call are handed to the watcher once the store's mutex is
    released; the model runs calls one after the other. *)

Record Seed := mkSeed { sd_store : Memory; sd_watcher : Watcher; sd_chans : gmap nat (list ChangeEvent) }.

Definition NewSeed (o : Options) : Seed := mkSeed (NewMemory o) (New 0) ∅.

Definition seed_call `{MapRange} (id : Identity) (authz : Authorizer) (ctx : Context)
    (clk : Clock) (req : Request) (s : Seed) : (Code + Response) * Seed :=
  let '(r, m, evs) := UnaryAuthzInterceptor id authz ctx clk req (sd_store s) in
  let '(w, c) := Notify evs (sd_watcher s) (sd_chans s) in
  (r, mkSeed m w c).

(** An operation of the other components of the seed (reaper, anti-entropy, the
    Consul surface) on the same store. *)
Definition seed_op `{MapRange} (clk : Clock) (op : Op) (s : Seed) : Seed :=
  let '(m, evs) := apply clk op (sd_store s) in
  let '(w, c) := Notify evs (sd_watcher s) (sd_chans s) in
  mkSeed m w c.

(** ** The Watch stream *)

Record WatchResponse := mkWatchResponse {
  wr_event : option PbChangeEvent;
  wr_index : Z;
  wr_snapshot_done : bool
}.

(** [Watch] up to the end of the snapshot: the subscription, and what is sent. *)
Definition Watch_open `{MapRange} (clk : Clock) (query : option PbQuery) (s : Seed)
  : Code + (nat * list WatchResponse * Seed) :=
  let q := QueryFromProto query in
  if bool_decide (Query_Name q = ""%string) then inl CodeInvalidArgument
  else
    let '(id, w, c) := Subscribe q (sd_watcher s) (sd_chans s) in
    let res := Lookup clk q (sd_store s) in
    inr (id,
      ((λ e, mkWatchResponse (Some (ChangeEventToProto (mkEvent ChangePut e 0))) (CurrentIndex w q) false)
         <$> Lookup_Entries res) ++ [mkWatchResponse None (CurrentIndex w q) true],
      mkSeed (sd_store s) w c).

(** One turn of the live loop: the oldest buffered event is sent. *)
Definition Watch_forward (id : nat) (s : Seed) : option (WatchResponse * Seed) :=
  match sd_chans s !! id with
  | Some (ev :: rest) =>
      Some (mkWatchResponse (Some (ChangeEventToProto ev)) (Event_Index ev) false,
            mkSeed (sd_store s) (sd_watcher s) (<[id := rest]> (sd_chans s)))
  | _ => None
  end.

(** ** Which node a call touches *)

(** Every node but [nid] is the same record. *)
Definition only_node (nid : string) (m m' : Memory) : Prop :=
  ∀ nid', nid' ≠ nid → nodes m' !! nid' = nodes m !! nid'.

Lemma only_node_trans nid m m1 m2 : only_node nid m m1 → only_node nid m1 m2 → only_node nid m m2.
Proof. intros H1 H2 nid' Hne. by rewrite H2, H1. Qed.

Lemma only_node_put nid id svc m m1 : nodes m1 = nodes m → only_node nid m (put_service nid id svc m1).
Proof.
  intros E nid' Hne. rewrite put_service_nodes, E. destruct (nodes m !! nid'); simpl; [|done].
  by rewrite decide_False.
Qed.

Lemma register_loop_only clk mt gen now ins m size events :
  only_node (Node_ID mt) m (register_loop clk mt gen now ins m size events).1.2.
Proof.
  revert m size events. induction ins as [|i ins IH]; intros m size events; [done|].
  cbn [register_loop]. destruct (lookup_service _ _ _) as [svc|]; [destruct (changed _ _)|].
  - destruct (overwrite_service _ _ _ m) as [svc' m1] eqn:Ho.
    apply overwrite_service_nodes in Ho as (_ & _ & _ & Hn).
    eapply only_node_trans; [|apply IH]. intros nid' Hne. rewrite Hn. by apply only_node_put.
  - eapply only_node_trans; [|apply IH]. by apply only_node_put.
  - destruct (at_capacity m size); [done|].
    destruct (create_service _ _ m) as [svc m1] eqn:Hc. unfold create_service in Hc.
    injection Hc as _ <-. eapply only_node_trans; [|apply IH].
    intros nid' Hne. rewrite nodes_indexName. by apply only_node_put.
Qed.

Lemma Register_only `{MapRange} clk reg m :
  only_node (Node_ID (Reg_Node reg)) m (Register clk reg m).1.2.
Proof.
  unfold Register. case_bool_decide; [done|]. destruct (existsb _ _); [done|].
  eapply only_node_trans; [|apply register_loop_only]. intros nid' Hne. by apply ensure_node_ne.
Qed.

Lemma renew_loop_only now nid ids m : only_node nid m (renew_loop now nid ids m).2.
Proof.
  revert m. induction ids as [|id ids IH]; intros m; simpl; [done|].
  destruct (lookup_service m nid id); [|done]. eapply only_node_trans; [|apply IH]. by apply only_node_put.
Qed.

Lemma Renew_only clk nid ids m : only_node nid m (Renew clk nid ids m).2.
Proof.
  unfold Renew. destruct (nodes m !! nid); [|done]. destruct ids; [|apply renew_loop_only].
  intros nid' Hne. simpl. by rewrite lookup_insert_ne.
Qed.

Lemma Deregister_only `{MapRange} nid m : only_node nid m (Deregister nid m).1.2.
Proof.
  unfold Deregister. destruct (nodes m !! nid) as [n|] eqn:Hn; [|done].
  destruct (deregister_loop_spec nid (meta n) (range (services n)) m []) as [H1 _ _ _ _ _].
  destruct (deregister_loop _ _ _ _ _) as [m1 evs]. simpl in *. intros nid' Hne. simpl.
  by rewrite lookup_delete_ne, H1.
Qed.

Lemma DeregisterService_only nid id m : only_node nid m (DeregisterService nid id m).1.2.
Proof.
  unfold DeregisterService. destruct (nodes m !! nid) as [n|]; [|done].
  destruct (services n !! id) as [svc|]; [|done].
  destruct (remove_service nid id svc m) as [svc' m1] eqn:Hr. simpl.
  apply remove_service_nodes in Hr as (_ & _ & _ & Hn). intros nid' Hne.
  rewrite drop_empty_ne, Hn, del_service_nodes by done. destruct (nodes m !! nid'); simpl; [|done].
  by rewrite decide_False.
Qed.

(** The node an accepted registration is for is the one the interceptor checked. *)
Lemma writeTarget_register r : (writeTarget (RegisterRequest r)).1 = Node_ID (Reg_Node (RegistrationFromProto r)).
Proof. destruct r as [[[n|] svcs g]|]; done. Qed.

Lemma handle_only `{MapRange} clk req m :
  (writeTarget req).2 = true → only_node (writeTarget req).1 m (handle clk req m).1.2.
Proof.
  destruct req as [r|nid ids|nid|nid sid|q]; intros Hw; [..|done]; cbn [handle].
  - rewrite writeTarget_register. unfold Service_Register.
    pose proof (Register_only clk (RegistrationFromProto r) m) as Ho.
    by destruct (Register _ _ _) as [[err m1] evs].
  - unfold Service_Renew. case_bool_decide; [done|]. pose proof (Renew_only clk nid ids m).
    by destruct (Renew _ _ _ _).
  - unfold Service_Deregister. case_bool_decide; [done|]. pose proof (Deregister_only nid m).
    by destruct (Deregister _ _) as [[err m1] evs].
  - unfold Service_DeregisterService. destruct (_ || _); [done|].
    pose proof (DeregisterService_only nid sid m). by destruct (DeregisterService _ _ _) as [[err m1] evs].
Qed.

Lemma handle_read `{MapRange} clk req m :
  (writeTarget req).2 = false → (handle clk req m).1.2 = m ∧ (handle clk req m).2 = [].
Proof. by destruct req. Qed.

(** ** The handlers are operations of the store's state machine *)

Definition request_op (req : Request) : option Op :=
  match req with
  | RegisterRequest r => Some (OpRegister (RegistrationFromProto r))
  | RenewRequest nid ids => if bool_decide (nid = ""%string) then None else Some (OpRenew nid ids)
  | DeregisterRequest nid => if bool_decide (nid = ""%string) then None else Some (OpDeregister nid)
  | DeregisterServiceRequest nid sid =>
      if bool_decide (nid = ""%string) || bool_decide (sid = ""%string) then None
      else Some (OpDeregisterService nid sid)
  | LookupRequest _ => None
  end.

Lemma handle_op `{MapRange} clk req m :
  ((handle clk req m).1.2, (handle clk req m).2) =
    match request_op req with Some op => apply clk op m | None => (m, []) end.
Proof.
  destruct req as [r|nid ids|nid|nid sid|q]; cbn [handle request_op apply]; [..|done].
  - unfold Service_Register. by destruct (Register _ _ _) as [[err m1] evs].
  - unfold Service_Renew. case_bool_decide; [done|]. cbn [apply]. by destruct (Renew _ _ _ _).
  - unfold Service_Deregister. case_bool_decide; [done|]. cbn [apply]. by destruct (Deregister _ _) as [[err m1] evs].
  - unfold Service_DeregisterService. destruct (_ || _); [done|]. cbn [apply].
    by destruct (DeregisterService _ _ _) as [[err m1] evs].
Qed.

(** The watcher follows the registry: the seed's index bookkeeping. *)
Definition in_step (base : Z) (s : Seed) : Prop := w_index (sd_watcher s) = u64 (index (sd_store s) - base).

Lemma w_index_Notify `{MapRange} evs w c :
  is_u64 (w_index w) → w_index (Notify evs w c).1 = u64 (w_index w + Z.of_nat (length evs)).
Proof.
  intros Hw. rewrite Notify_NotifyNames.
  assert (Hn : ∀ l w, is_u64 (w_index w) → w_index (advance_names l w) = u64 (w_index w + Z.of_nat (length l))).
  { clear. induction l as [|x l IH]; intros w Hw; [simpl; by rewrite Z.add_0_r, u64_small|].
    change (advance_names (x :: l) w) with (advance_names l (advance_name x w)).
    rewrite IH by apply u64_range. unfold advance_name; simpl. rewrite u64_add_l. f_equal. lia. }
  destruct evs as [|ev evs]; [simpl; by rewrite Z.add_0_r, u64_small|].
  change (w_index (NotifyNames (event_name <$> ev :: evs) w)) with
    (w_index (advance_names (event_name <$> ev :: evs) w)).
  rewrite Hn by done. by rewrite length_fmap.
Qed.

Lemma seed_op_in_step `{MapRange} clk op s base :
  is_u64 (index (sd_store s)) → in_step base s →
  in_step base (seed_op clk op s) ∧ is_u64 (index (sd_store (seed_op clk op s))).
Proof.
  intros Hu Hs. unfold in_step, seed_op in *.
  destruct (prims_index _ _ _ (apply_prims clk op (sd_store s))) as [Hi _].
  destruct (apply clk op (sd_store s)) as [m evs]. simpl in Hi.
  pose proof (w_index_Notify evs (sd_watcher s) (sd_chans s)) as Hw.
  destruct (Notify evs (sd_watcher s) (sd_chans s)) as [w c]. simpl in *.
  rewrite Hw by (rewrite Hs; apply u64_range). rewrite advance_u64 in Hi by done. rewrite Hs, Hi.
  split; [|apply u64_range]. unfold u64. rewrite Zplus_mod_idemp_l, Zminus_mod_idemp_l. f_equal. lia.
Qed.

Lemma seed_call_op `{MapRange} id authz ctx clk req s :
  (seed_call id authz ctx clk req s).2 = s ∨ ∃ op, (seed_call id authz ctx clk req s).2 = seed_op clk op s.
Proof.
  unfold seed_call, UnaryAuthzInterceptor, seed_op.
  assert (Hh : (let '(r, m, evs) := handle clk req (sd_store s) in
                let '(w, c) := Notify evs (sd_watcher s) (sd_chans s) in (r, mkSeed m w c)).2 = s ∨
    ∃ op, (let '(r, m, evs) := handle clk req (sd_store s) in
           let '(w, c) := Notify evs (sd_watcher s) (sd_chans s) in (r, mkSeed m w c)).2 =
          (let '(m, evs) := apply clk op (sd_store s) in
           let '(w, c) := Notify evs (sd_watcher s) (sd_chans s) in mkSeed m w c)).
  { pose proof (handle_op clk req (sd_store s)) as Ho.
    destruct (handle clk req (sd_store s)) as [[r m] evs]. simpl in Ho.
    destruct (request_op req) as [op|].
    - right. exists op. rewrite <-Ho. by destruct (Notify evs (sd_watcher s) (sd_chans s)).
    - left. injection Ho as -> ->. by destruct s. }
  destruct (writeTarget req) as [nid w]. destruct (w && Enforcing authz); [|done].
  destruct (Authorize _ _ _); [|done]. left. by destruct s.
Qed.

(** The states a seed reaches by requests of any callers and by the operations of
    its other components. *)
Inductive seed_reach (o : Options) : Seed → Prop :=
  | seed_new : seed_reach o (NewSeed o)
  | seed_request (r : MapRange) id authz ctx clk req s :
      seed_reach o s → seed_reach o (seed_call id authz ctx clk req s).2
  | seed_internal (r : MapRange) clk op s : seed_reach o s → seed_reach o (seed_op clk op s)
  | seed_watch (r : MapRange) clk q s id l s' :
      seed_reach o s → Watch_open clk q s = inr (id, l, s') → seed_reach o s'
  | seed_forward id s resp s' :
      seed_reach o s → Watch_forward id s = Some (resp, s') → seed_reach o s'.

Lemma seed_reach_inv o s :
  is_u64 (StartIndex o) → seed_reach o s →
  wf (sd_store s) ∧ is_u64 (index (sd_store s)) ∧ in_step (StartIndex o) s.
Proof.
  intros Hu. induction 1 as [|r id authz ctx clk req s _ (IH1 & IH2 & IH3)
    |r clk op s _ (IH1 & IH2 & IH3)|r clk q s id l s' _ (IH1 & IH2 & IH3) Hw|id s resp s' _ (IH1 & IH2 & IH3) Hf].
  - split; [apply wf_new|]. split; [done|]. unfold in_step; simpl. by rewrite Z.sub_diag.
  - destruct (seed_call_op id authz ctx clk req s) as [->|[op ->]]; [done|].
    destruct (seed_op_in_step clk op s _ IH2 IH3). split_and!; [|done|done].
    pose proof (wf_apply clk op _ IH1) as Hw. unfold seed_op.
    destruct (apply _ _ _). by destruct (Notify _ _ _).
  - destruct (seed_op_in_step clk op s _ IH2 IH3). split_and!; [|done|done].
    pose proof (wf_apply clk op _ IH1) as Hw. unfold seed_op.
    destruct (apply _ _ _). by destruct (Notify _ _ _).
  - unfold Watch_open in Hw. case_bool_decide; [done|]. injection Hw as _ _ <-. done.
  - unfold Watch_forward in Hf. destruct (sd_chans s !! id) as [[|ev rest]|]; [done| |done].
    injection Hf as _ <-. done.
Qed.

(** ** Claims *)

(** C7: under acl.mode=enforce no call can touch another principal's node: whatever
    the request, every node other than the one named like the caller's principal is
    left exactly as it was, a write to another node is PermissionDenied without any
    effect, and an anonymous caller writes nothing at all. *)
Theorem ownership_isolation `{MapRange} (id : Identity) (authz : Authorizer) (ctx : Context)
    (clk : Clock) (req : Request) (m : Memory) :
  mode authz = ModeEnforce →
  let p := Identity_Principal id ctx in
  let r := UnaryAuthzInterceptor id authz ctx clk req m in
  only_node (Principal_ID p) m r.1.2 ∧
  ((writeTarget req).2 = true → (writeTarget req).1 ≠ Principal_ID p →
     r = (inl CodePermissionDenied, m, [])) ∧
  (Principal_Anonymous p = true → r.1.2 = m ∧ r.2 = []).
Proof.
  intros Hm p r. unfold r, UnaryAuthzInterceptor.
  assert (He : Enforcing authz = true) by (unfold Enforcing; by apply bool_decide_eq_true).
  pose proof (handle_only clk req m) as Ho. pose proof (handle_read clk req m) as Hr.
  destruct (writeTarget req) as [nid w]. rewrite He. simpl in *. destruct w; simpl.
  - fold p. destruct (Authorize authz p nid) as [d|] eqn:Ha; [done|].
    apply Authorize_allowed in Ha as (H1 & H2 & H3); [|done]. subst nid.
    split; [by apply Ho|]. split; [done|]. intros. congruence.
  - destruct Hr as [H1 H2]; [done|]. rewrite H1, H2. done.
Qed.

Definition agentCtx (cn : string) : Context := mkContext (Some [[cn]]) None.

Lemma ownership_isolation_witness :
  @UnaryAuthzInterceptor list_order (NewIdentity ∅) (NewAuthorizer ModeEnforce) (agentCtx "n2") (frozen 0)
    (DeregisterRequest "n1") sampleRun.1 = (inl CodePermissionDenied, sampleRun.1, []).
Proof.
  apply (@ownership_isolation list_order (NewIdentity ∅) (NewAuthorizer ModeEnforce) (agentCtx "n2")
    (frozen 0) (DeregisterRequest "n1") sampleRun.1); [reflexivity|reflexivity|discriminate].
Defined.

(** In every state a seed reaches, through requests, reaper passes, merges and
    watch streams in any order, the registry is well formed and the watcher's index
    is the registry's index counted from its start (modulo 2^64): every change is
    announced exactly once, and nothing else moves the watch index. *)
Theorem watcher_in_step_with_registry (o : Options) (s : Seed) :
  is_u64 (StartIndex o) → seed_reach o s →
  wf (sd_store s) ∧ w_index (sd_watcher s) = u64 (index (sd_store s) - StartIndex o).
Proof. intros Hu Hs. destruct (seed_reach_inv o s Hu Hs) as (H1 & _ & H3). done. Qed.

Lemma watcher_in_step_witness :
  let s := @seed_op list_order (frozen (1000 * second)) sampleOp (NewSeed sampleOptions) in
  w_index (sd_watcher s) = 2 ∧ w_index (sd_watcher s) = u64 (index (sd_store s) - 100).
Proof.
  split; [vm_compute; reflexivity|].
  apply (watcher_in_step_with_registry sampleOptions); [unfold is_u64; simpl; lia|].
  apply seed_internal, seed_new.
Defined.

(** What the registry stores for a registered service is answered by name. *)
Lemma stored_answers m0 old now gen i svc :
  0 < DefaultTTL (opts m0) →
  (∀ s, old = Some s → ttl_ok (opts m0) (Svc_TTL (def s))) →
  stored old now (incoming m0 gen now i) svc →
  Svc_Name (def svc) = Svc_Name i ∧ Svc_LastSeen (def svc) = now ∧
  Svc_TTL (def svc) = granted (opts m0) (Svc_TTL i) ∧ 0 < Svc_TTL (def svc) ∧
  Svc_Generation (def svc) = gen ∧ (failed svc = true → ∃ s, old = Some s ∧ failed s = true).
Proof.
  intros Hd Httl Hst. set (d := incoming m0 gen now i) in *.
  assert (Hdn : Svc_Name d = Svc_Name i) by (unfold d, incoming; by case_bool_decide).
  assert (Hdl : Svc_LastSeen d = now) by done.
  assert (Hdg : Svc_TTL d = granted (opts m0) (Svc_TTL i)) by (unfold d; by rewrite incoming_wanted).
  assert (Hdt : 0 < Svc_TTL d).
  { unfold d, incoming. case_bool_decide; simpl; by apply (ttl_pos (opts m0)), clampTTL_ok. }
  destruct old as [s|]; simpl in Hst.
  - destruct (changed (def s) d) eqn:Hc.
    + destruct Hst as [idx ->]. simpl. split_and!; eauto.
    + subst svc. simpl. unfold changed in Hc. repeat (case_bool_decide; [done|]). simpl in Hc.
      assert (Hg : Svc_Generation d = gen) by done.
      split_and!; [|done| |by eapply ttl_pos, Httl| |eauto].
      * rewrite <-Hdn. by destruct (decide (Svc_Name (def s) = Svc_Name d)); [|tauto].
      * rewrite <-Hdg. by destruct (decide (Svc_TTL (def s) = Svc_TTL d)); [|tauto].
      * rewrite <-Hg. by destruct (decide (Svc_Generation (def s) = Svc_Generation d)); [|tauto].
  - destruct Hst as [idx ->]. simpl. split_and!; [done..|]. done.
Qed.

(** The entry a lookup answers for a registered service. *)
Lemma Register_entry `{MapRange} clk clk' reg m m' evs i :
  wf m → NoDup (reg_id <$> Reg_Services reg) →
  Time_Sub (clk' O) (clk O) <= granted (opts m) (Svc_TTL i) →
  Register clk reg m = (None, m', evs) → i ∈ Reg_Services reg →
  ∃ e, e ∈ Lookup_Entries (Lookup clk' (mkQuery (Svc_Name i) "" [] false) m') ∧
    entry_key e = (Node_ID (Reg_Node reg), reg_id i) ∧ Entry_Node e = Reg_Node reg ∧
    Svc_Generation (Entry_Service e) = Reg_Generation reg ∧
    (Entry_Health e = HealthPassing ∨
     ∃ old, lookup_service m (Node_ID (Reg_Node reg)) (reg_id i) = Some old ∧ failed old = true).
Proof.
  intros Hwf Hnd Hage HR Hi.
  assert (Hv : valid_registration reg).
  { split; [intros Hx|intros j Hj Hx]; rewrite Register_invalid in HR; try congruence; eauto. }
  pose proof (wf_apply clk (OpRegister reg) m Hwf) as Hwf'. cbn [apply] in Hwf'. rewrite HR in Hwf'. simpl in Hwf'.
  apply Register_spec in HR as [Hop (n & Hn & Hmt) Hfr _ Hsto]; [|done].
  destruct (Hsto eq_refl Hnd i Hi) as (svc & Hl & Hst).
  edestruct stored_answers as (H1 & H2 & Httl & H3 & Hg & H4); [| |exact Hst|].
  { apply (wf_default _ Hwf). }
  { intros s Hs. by apply (wf_svc _ Hwf) in Hs as (_ & _ & ?). }
  assert (Hlease : lease m' svc (clk' O) = (if failed svc then HealthCritical else HealthPassing, false)).
  { unfold lease. destruct (failed svc); [done|]. rewrite H2.
    rewrite <-Httl in Hage. by destruct (Z.leb_spec (Time_Sub (clk' O) (clk O)) (Svc_TTL (def svc))); [|lia]. }
  assert (Hs : services n !! reg_id i = Some svc) by (by rewrite (lookup_service_node _ _ _ n Hn) in Hl).
  exists (entry (meta n) svc (lease m' svc (clk' O)).1). split_and!.
  - apply elem_of_Lookup; [done|]. exists (Node_ID (Reg_Node reg)), n, (reg_id i), svc.
    split_and!; [done..| |done]. split; simpl; [by right|by left|set_solver|by rewrite Hlease].
  - unfold entry_key; simpl. rewrite Hmt. f_equal. by apply (wf_svc _ Hwf') in Hl as [? _].
  - done.
  - done.
  - simpl. rewrite Hlease. simpl. destruct (failed svc); [right; by apply H4|by left].
Qed.

Lemma registered_entry `{MapRange} clk clk' r m m' resp evs i :
  wf m → Time_Sub (clk' O) (clk O) <= granted (opts m) (Svc_TTL i) →
  let reg := RegistrationFromProto (Some r) in
  NoDup (reg_id <$> Reg_Services reg) →
  handle clk (RegisterRequest (Some r)) m = (inr resp, m', evs) →
  i ∈ Reg_Services reg →
  ∃ e, e ∈ Lookup_Entries (Lookup clk' (mkQuery (Svc_Name i) "" [] false) m') ∧
    entry_key e = (Node_ID (Reg_Node reg), reg_id i) ∧ Entry_Node e = Reg_Node reg ∧
    Svc_Generation (Entry_Service e) = Reg_Generation reg ∧
    (Entry_Health e = HealthPassing ∨
     ∃ old, lookup_service m (Node_ID (Reg_Node reg)) (reg_id i) = Some old ∧ failed old = true).
Proof.
  intros Hwf Hage reg Hnd Hh Hi. cbn [handle] in Hh. unfold Service_Register in Hh. fold reg in Hh.
  destruct (Register clk reg m) as [[err m1] evs1] eqn:HR. injection Hh as Hrep -> ->.
  destruct err as [err|]; [done|]. by eapply Register_entry.
Qed.

(** Read your writes: once a Register call with distinct service IDs is
    acknowledged, a lookup by the name of any of its services at that instant
    returns the instance under its node, at the registered generation, with health
    passing unless a failed check of it is pending, and with the registered node
    metadata. *)
Theorem register_then_lookup `{MapRange} (clk : Clock) (r : PbRegistration) (m m' : Memory) resp evs i :
  wf m →
  let reg := RegistrationFromProto (Some r) in
  NoDup (reg_id <$> Reg_Services reg) →
  handle clk (RegisterRequest (Some r)) m = (inr resp, m', evs) →
  i ∈ Reg_Services reg →
  ∃ e, e ∈ Lookup_Entries (Lookup clk (mkQuery (Svc_Name i) "" [] false) m') ∧
    entry_key e = (Node_ID (Reg_Node reg), reg_id i) ∧ Entry_Node e = Reg_Node reg ∧
    Svc_Generation (Entry_Service e) = Reg_Generation reg ∧
    (Entry_Health e = HealthPassing ∨
     ∃ old, lookup_service m (Node_ID (Reg_Node reg)) (reg_id i) = Some old ∧ failed old = true).
Proof.
  intros Hwf reg Hnd Hh Hi. eapply (registered_entry clk clk); [done| |done..].
  rewrite Time_Sub_diag, <-clampTTL_granted.
  pose proof (ttl_pos _ _ (clampTTL_ok m (Svc_TTL i) (wf_default _ Hwf))). lia.
Qed.

Definition sampleRegPb : PbRegistration := RegistrationToProto sampleReg.

Lemma register_then_lookup_witness :
  let m' := (@handle list_order (frozen 5) (RegisterRequest (Some sampleRegPb)) (NewMemory sampleOptions)).1.2 in
  ∃ e i, e ∈ Lookup_Entries (@Lookup list_order (frozen 5) (mkQuery (Svc_Name i) "" [] false) m') ∧
    Svc_Name i = "db"%string ∧ entry_key e = ("n1", "db-1")%string.
Proof.
  intros m'.
  edestruct (@register_then_lookup list_order (frozen 5) sampleRegPb (NewMemory sampleOptions) m' EmptyResponse
    (@handle list_order (frozen 5) (RegisterRequest (Some sampleRegPb)) (NewMemory sampleOptions)).2
    (wire_service (sampleService "db-1" "db" []))) as (e & H1 & H2 & _).
  - apply wf_new.
  - vm_compute. repeat constructor; set_solver.
  - vm_compute. reflexivity.
  - vm_compute. right. left.
  - exists e, (wire_service (sampleService "db-1" "db" [])). split; [exact H1|]. split; [reflexivity|].
    rewrite H2. vm_compute. reflexivity.
Defined.

(** A watch stream can go stale: when an instance is re-registered under
    another name, the registry emits a single Put under the new name, so the
    watchers of the old name receive nothing although a lookup of the old name no
    longer answers the instance. *)
Theorem watch_misses_rename :
  let q := Some (mkPbQuery "web" "" [] false) in
  let reg name := RegisterRequest (Some (RegistrationToProto
    (mkRegistration (sampleNode "n1") [sampleService "i1" name []] 1))) in
  let s0 := @seed_op list_order (frozen 5) (OpRegister
    (mkRegistration (sampleNode "n1") [sampleService "i1" "web" []] 1)) (NewSeed sampleOptions) in
  ∃ id snapshot s1, @Watch_open list_order (frozen 5) q s0 = inr (id, snapshot, s1) ∧
    length snapshot = 2%nat ∧
    let s2 := (@seed_call list_order (NewIdentity ∅) (NewAuthorizer ModeDisabled) (mkContext None None)
                 (frozen 5) (reg "web2"%string) s1).2 in
    Lookup_Entries (@Lookup list_order (frozen 5) (QueryFromProto q) (sd_store s2)) = [] ∧
    index (sd_store s2) = index (sd_store s1) + 1 ∧
    sd_chans s2 !! id = Some [] ∧ Watch_forward id s2 = None.
Proof.
  eexists _, _, _. split; [vm_compute; reflexivity|]. vm_compute. repeat split.
Qed.
