(* ===== verification/SeedClient.v ===== *)
(** The agent's fan-out client, [src/internal/seedclient/client.go]: writes to every
    seed with a k-of-N count, reads merged across the seeds that answered, and the
    estimates it reports.

    The calls to the seeds run concurrently; what [fanOut] and [Lookup] see of them
    is the list of their outcomes in completion order, which is the argument of the
    definitions.  [cluster_call] relates those outcomes to the seeds' own handlers
    ([Server.v]): a call may not reach a seed, may take effect although its answer
    is lost (a deadline), or be answered. *)

From Stdlib Require Import ZArith Lia.
From stdpp Require Import base gmap list strings.
From S2P Require Import Prelude GoStrings Model Health Store StoreSteps StoreInv StoreSpec.
From S2P Require Import StoreLookup StoreOps Protoconv Cred Server.

#[local] Open Scope Z_scope.

(** ** Writes *)

(** Why a call to a seed failed: a status of the seed, or the transport. *)
Inductive CallError := Status (c : Code) | Unavailable.

Record WriteResult := mkWriteResult {
  Total : Z;
  Succeeded : Z;
  Errors : gmap string CallError
}.

Definition WriteResult_OK (w : WriteResult) (quorum : Z) : bool := quorum <=? Succeeded w.

(** One completed call: [None] is a nil error. *)
Definition fanOut_one (res : WriteResult) (o : string * option CallError) : WriteResult :=
  match o.2 with
  | Some err => mkWriteResult (Total res) (Succeeded res) (<[o.1 := err]> (Errors res))
  | None => mkWriteResult (Total res) (Succeeded res + 1) (Errors res)
  end.

Definition fanOut (outcomes : list (string * option CallError)) : WriteResult :=
  foldl fanOut_one (mkWriteResult (Z.of_nat (length outcomes)) 0 ∅) outcomes.

(** ** Reads *)

(** The variables the per-seed callbacks of [Lookup] update under the mutex. *)
Record LookupAcc := mkLookupAcc {
  acc_all : list ServiceEntry;
  acc_counts : list Z;
  acc_maxIndex : Z;
  acc_okCount : Z
}.

Definition Lookup_one (acc : LookupAcc) (resp : option PbLookupResponse) : LookupAcc :=
  match resp with
  | None => acc
  | Some p =>
      let lr := LookupResultFromProto (Some p) in
      mkLookupAcc (acc_all acc ++ Lookup_Entries lr)
        (acc_counts acc ++ [Z.of_nat (length (Lookup_Entries lr))])
        (if acc_maxIndex acc <? Lookup_Index lr then Lookup_Index lr else acc_maxIndex acc)
        (acc_okCount acc + 1)
  end.

Definition Lookup_acc (resps : list (option PbLookupResponse)) : LookupAcc :=
  foldl Lookup_one (mkLookupAcc [] [] 0 0) resps.

(** [None] is the error of a lookup that failed on all seeds. *)
Definition SeedClient_Lookup `{MapRange} (resps : list (option PbLookupResponse)) : option LookupResult :=
  let acc := Lookup_acc resps in
  if acc_okCount acc =? 0 then None
  else Some (mkLookup (MergeLWW (acc_all acc)) (acc_maxIndex acc)).

(** ** The estimates *)

Fixpoint spread_loop (lo hi : Z) (counts : list Z) : Z :=
  match counts with
  | [] => hi - lo
  | c :: rest => spread_loop (if c <? lo then c else lo) (if hi <? c then c else hi) rest
  end.

Definition spread (counts : list Z) : Z :=
  match counts with
  | [] => 0
  | c :: rest => spread_loop c c rest
  end.

Definition skew_key (e : ServiceEntry) : string * string * Z :=
  (entry_key e, Svc_Generation (Entry_Service e)).

Fixpoint skew_spans (entries : list ServiceEntry) (spans : gmap (string * string * Z) (Z * Z))
  : gmap (string * string * Z) (Z * Z) :=
  match entries with
  | [] => spans
  | e :: rest =>
      let ts := Svc_LastSeen (Entry_Service e) in
      if ts =? zeroTime then skew_spans rest spans
      else match spans !! skew_key e with
           | None => skew_spans rest (<[skew_key e := (ts, ts)]> spans)
           | Some (lo, hi) =>
               let lo' := if ts <? lo then ts else lo in
               let hi' := if hi <? ts then ts else hi in
               skew_spans rest (<[skew_key e := (lo', hi')]> spans)
           end
  end.

Definition estimateSkew `{MapRange} (entries : list ServiceEntry) : Z :=
  foldl (λ d p, let x := Time_Sub p.2.2 p.2.1 in if d <? x then x else d) 0
    (range (skew_spans entries ∅)).

(** [Dump]: each seed's own entries; [nil] for a seed that failed. *)
Definition Dump (resps : list (string * option PbLookupResponse)) : gmap string (list ServiceEntry) :=
  foldl (λ out r, <[r.1 := match r.2 with
                           | Some p => Lookup_Entries (LookupResultFromProto (Some p))
                           | None => []
                           end]> out) ∅ resps.

(** [Reachable]: the seeds whose health check answered SERVING. *)
Definition Reachable (serving : list bool) : Z :=
  foldl (λ n b, if b : bool then n + 1 else n) 0 serving.

(** ** The seeds behind the client *)

Inductive fate := NotReached | AnswerLost | Answered.

(** One call: the seed's state after it, and what the client sees. *)
Definition seed_answer `{MapRange} (clk : Clock) (req : Request) (f : fate) (m : Memory)
  : Memory * option (Code + Response) :=
  match f with
  | NotReached => (m, None)
  | AnswerLost => ((handle clk req m).1.2, None)
  | Answered => ((handle clk req m).1.2, Some (handle clk req m).1.1)
  end.

(** A request sent to every seed, each with its own clock and its own fate. *)
Definition cluster_call `{MapRange} (req : Request) (seeds : list (Clock * fate * Memory))
  : list (Memory * option (Code + Response)) :=
  (λ s, seed_answer s.1.1 req s.1.2 s.2) <$> seeds.

Definition write_error (r : option (Code + Response)) : option CallError :=
  match r with
  | None => Some Unavailable
  | Some (inl c) => Some (Status c)
  | Some (inr _) => None
  end.

Definition lookup_answer (r : option (Code + Response)) : option PbLookupResponse :=
  match r with
  | Some (inr (LookupResponse p)) => Some p
  | _ => None
  end.

(** ** Lemmas *)

Lemma fanOut_fold outcomes res :
  let r := foldl fanOut_one res outcomes in
  Total r = Total res ∧
  Succeeded r = Succeeded res + Z.of_nat (length (filter (λ o, o.2 = None) outcomes)) ∧
  (∀ a, is_Some (Errors r !! a) ↔ is_Some (Errors res !! a) ∨ ∃ e, (a, Some e) ∈ outcomes).
Proof.
  revert res. induction outcomes as [|[a o] l IH]; intros res; cbn [foldl].
  { split_and!; [done|rewrite filter_nil; simpl; lia|]. intros a. split; [by left|].
    intros [|[e He]]; [done|]. by apply elem_of_nil in He. }
  destruct (IH (fanOut_one res (a, o))) as (H1 & H2 & H3).
  rewrite filter_cons. cbn [snd]. destruct o as [err|]; cbn [fanOut_one snd fst Total Succeeded Errors] in *.
  - rewrite decide_False by done. split_and!; [done|done|]. intros b. rewrite H3, lookup_insert.
    setoid_rewrite elem_of_cons. destruct (decide (a = b)) as [->|]; naive_solver.
  - rewrite decide_True by done. split_and!; [done|rewrite H2; simpl; lia|]. intros b. rewrite H3.
    setoid_rewrite elem_of_cons. naive_solver.
Qed.

Lemma Lookup_acc_app l r :
  Lookup_acc (l ++ [r]) = Lookup_one (Lookup_acc l) r.
Proof. unfold Lookup_acc. by rewrite foldl_app. Qed.

Lemma elem_of_Lookup_acc resps e :
  e ∈ acc_all (Lookup_acc resps) ↔
  ∃ p, Some p ∈ resps ∧ e ∈ Lookup_Entries (LookupResultFromProto (Some p)).
Proof.
  induction resps as [|r l IH] using rev_ind.
  { split; [by intros ?%elem_of_nil|]. intros (p & Hp & _). by apply elem_of_nil in Hp. }
  rewrite Lookup_acc_app. setoid_rewrite elem_of_app. setoid_rewrite list_elem_of_singleton.
  destruct r as [p|]; simpl; [rewrite elem_of_app|]; rewrite IH; naive_solver.
Qed.

Lemma Lookup_acc_ok resps :
  0 <= acc_okCount (Lookup_acc resps) ∧ (acc_okCount (Lookup_acc resps) = 0 ↔ ∀ p, Some p ∉ resps).
Proof.
  induction resps as [|r l [IH1 IH2]] using rev_ind; [split; [done|]; split; [intros _ p ?%elem_of_nil; done|done]|].
  rewrite Lookup_acc_app. destruct r as [p|]; cbn [Lookup_one acc_okCount].
  - split; [lia|]. split; [lia|]. intros Hx. destruct (Hx p). apply elem_of_app. right. constructor.
  - split; [done|]. rewrite IH2. setoid_rewrite elem_of_app. setoid_rewrite list_elem_of_singleton. naive_solver.
Qed.

Lemma acc_maxIndex_ge resps p :
  Some p ∈ resps → pbl_index p <= acc_maxIndex (Lookup_acc resps).
Proof.
  induction resps as [|r l IH] using rev_ind; [by intros ?%elem_of_nil|]. rewrite Lookup_acc_app.
  intros Hp. assert (Hcase : Some p ∈ l ∨ r = Some p).
  { apply elem_of_app in Hp as [|Hp]; [by left|]. apply list_elem_of_singleton in Hp. by right. }
  destruct r as [p'|]; cbn [Lookup_one acc_maxIndex LookupResultFromProto Lookup_Index].
  - destruct (Z.ltb_spec (acc_maxIndex (Lookup_acc l)) (pbl_index p'));
      destruct Hcase as [Hl|[= ->]]; try specialize (IH Hl); lia.
  - destruct Hcase as [Hl|]; [by apply IH|done].
Qed.

(** ** spread and estimateSkew *)

Lemma spread_loop_spec lo hi counts :
  lo <= hi →
  ∃ lo' hi', spread_loop lo hi counts = hi' - lo' ∧ lo' <= lo ∧ hi <= hi' ∧
    (lo' = lo ∨ lo' ∈ counts) ∧ (hi' = hi ∨ hi' ∈ counts) ∧ ∀ c, c ∈ counts → lo' <= c <= hi'.
Proof.
  revert lo hi. induction counts as [|c l IH]; intros lo hi Hle; cbn [spread_loop].
  { exists lo, hi. split_and!; [done|lia|lia|by left|by left|]. by intros c ?%elem_of_nil. }
  destruct (IH (if c <? lo then c else lo) (if hi <? c then c else hi))
    as (lo' & hi' & -> & H1 & H2 & H3 & H4 & H5).
  { destruct (Z.ltb_spec c lo), (Z.ltb_spec hi c); lia. }
  exists lo', hi'. split; [done|].
  destruct (Z.ltb_spec c lo), (Z.ltb_spec hi c); split_and!; try lia; try set_solver;
    intros x [->|Hx]%elem_of_cons; try (by apply H5); lia.
Qed.

(** The spans hold the least and the greatest instant of each registration. *)
Definition spans_inv (seen : list ServiceEntry) (spans : gmap (string * string * Z) (Z * Z)) : Prop :=
  (∀ k lo hi, spans !! k = Some (lo, hi) → lo <= hi ∧
     (∃ x y, x ∈ seen ∧ y ∈ seen ∧ skew_key x = k ∧ skew_key y = k ∧
        Svc_LastSeen (Entry_Service x) = lo ∧ Svc_LastSeen (Entry_Service y) = hi)) ∧
  (∀ e, e ∈ seen → Svc_LastSeen (Entry_Service e) ≠ zeroTime →
     ∃ lo hi, spans !! skew_key e = Some (lo, hi) ∧ lo <= Svc_LastSeen (Entry_Service e) <= hi).

Lemma spans_inv_insert seen spans e lo hi :
  spans_inv seen spans →
  (∃ x y, (x ∈ seen ∨ x = e) ∧ (y ∈ seen ∨ y = e) ∧ skew_key x = skew_key e ∧ skew_key y = skew_key e ∧
     Svc_LastSeen (Entry_Service x) = lo ∧ Svc_LastSeen (Entry_Service y) = hi) →
  lo <= Svc_LastSeen (Entry_Service e) <= hi →
  (∀ lo0 hi0, spans !! skew_key e = Some (lo0, hi0) → lo <= lo0 ∧ hi0 <= hi) →
  spans_inv (seen ++ [e]) (<[skew_key e := (lo, hi)]> spans).
Proof.
  intros [H1 H2] (x & y & Hx & Hy & Hkx & Hky & Hlx & Hly) Hin Hwide. split.
  - intros k lo' hi'. rewrite lookup_insert. destruct (decide (skew_key e = k)) as [<-|Hk].
    + intros [= <- <-]. split; [lia|]. exists x, y. rewrite !elem_of_app, !list_elem_of_singleton. done.
    + intros Hs. destruct (H1 _ _ _ Hs) as (Hle & a & b & Ha & Hb & Hr). split; [done|].
      exists a, b. split; [apply elem_of_app; by left|]. split; [apply elem_of_app; by left|done].
  - intros e' He' Hz. rewrite lookup_insert. destruct (decide (skew_key e = skew_key e')) as [Hk|Hk].
    + exists lo, hi. split; [done|]. apply elem_of_app in He' as [He'|He'%list_elem_of_singleton]; [|by subst].
      destruct (H2 e' He' Hz) as (l0 & h0 & Hl & Hb). rewrite <-Hk in Hl. apply Hwide in Hl. lia.
    + apply elem_of_app in He' as [He'|He'%list_elem_of_singleton]; [by apply H2|by subst].
Qed.

Lemma skew_spans_inv entries seen spans :
  spans_inv seen spans → spans_inv (seen ++ entries) (skew_spans entries spans).
Proof.
  revert seen spans. induction entries as [|e l IH]; intros seen spans Hi; cbn [skew_spans];
    [by rewrite app_nil_r|]. rewrite cons_middle, (assoc (++)).
  destruct (Z.eqb_spec (Svc_LastSeen (Entry_Service e)) zeroTime) as [Hz|Hz].
  - apply IH. destruct Hi as [H1 H2]. split.
    + intros k lo hi Hs. destruct (H1 _ _ _ Hs) as (Hle & a & b & Ha & Hb & Hr). split; [done|].
      exists a, b. split; [apply elem_of_app; by left|]. split; [apply elem_of_app; by left|done].
    + intros x [Hx|Hx%list_elem_of_singleton]%elem_of_app; [by apply H2|]. congruence.
  - destruct (spans !! skew_key e) as [[lo hi]|] eqn:Hs.
    + destruct (proj1 Hi _ _ _ Hs) as (Hle & a & b & Ha & Hb & Hka & Hkb & Hla & Hlb).
      apply IH, spans_inv_insert; [done| | |].
      * exists (if Svc_LastSeen (Entry_Service e) <? lo then e else a),
          (if hi <? Svc_LastSeen (Entry_Service e) then e else b).
        destruct (_ <? lo), (hi <? _); split_and!; auto.
      * destruct (Z.ltb_spec (Svc_LastSeen (Entry_Service e)) lo),
          (Z.ltb_spec hi (Svc_LastSeen (Entry_Service e))); lia.
      * rewrite Hs. intros ? ? [= <- <-]. destruct (Z.ltb_spec (Svc_LastSeen (Entry_Service e)) lo),
          (Z.ltb_spec hi (Svc_LastSeen (Entry_Service e))); lia.
    + apply IH, spans_inv_insert; [done|exists e, e; split_and!; auto|lia|]. by rewrite Hs.
Qed.

Lemma foldl_max {A} (f : A → Z) (l : list A) d :
  let r := foldl (λ d p, let x := f p in if d <? x then x else d) d l in
  d <= r ∧ (∀ p, p ∈ l → f p <= r) ∧ (r = d ∨ ∃ p, p ∈ l ∧ r = f p).
Proof.
  revert d. induction l as [|p l IH]; intros d; cbn [foldl].
  { split_and!; [lia|by intros p ?%elem_of_nil|by left]. }
  destruct (IH (if d <? f p then f p else d)) as (H1 & H2 & H3). cbv zeta in *.
  setoid_rewrite elem_of_cons. destruct (Z.ltb_spec d (f p)); split_and!; try lia.
  - intros q [->|Hq]; [lia|by apply H2].
  - destruct H3 as [->|(q & Hq & ->)]; right; eauto.
  - intros q [->|Hq]; [lia|by apply H2].
  - destruct H3 as [->|(q & Hq & ->)]; [by left|right; eauto].
Qed.

(** ** A write and a read that meet at a seed *)

(** Identity and generation survive the wire whatever the entry. *)
Lemma wire_key e : entry_key (EntryFromProto (Some (EntryToProto e))) = entry_key e.
Proof. done. Qed.

Lemma wire_generation e :
  Svc_Generation (Entry_Service (EntryFromProto (Some (EntryToProto e)))) = Svc_Generation (Entry_Service e).
Proof. done. Qed.

(** The merged answer covers every entry a seed sent, at its generation or a later one. *)
Lemma SeedClient_Lookup_covers `{MapRange} resps p x :
  Some p ∈ resps → x ∈ Lookup_Entries (LookupResultFromProto (Some p)) →
  ∃ lr e, SeedClient_Lookup resps = Some lr ∧ e ∈ Lookup_Entries lr ∧ entry_key e = entry_key x ∧
    Svc_Generation (Entry_Service x) <= Svc_Generation (Entry_Service e).
Proof.
  intros Hp Hx. unfold SeedClient_Lookup.
  destruct (Z.eqb_spec (acc_okCount (Lookup_acc resps)) 0) as [H0|H0].
  { destruct (Lookup_acc_ok resps) as [_ Hok]. apply Hok with p in H0. done. }
  assert (Hall : x ∈ acc_all (Lookup_acc resps)) by (apply elem_of_Lookup_acc; eauto).
  destruct (MergeLWW_covers _ _ Hall) as (e & He & Hk). eexists _, e. split; [done|]. split; [done|].
  split; [done|]. apply elem_of_MergeLWW_winners, winners_lookup in He as [_ _ Hmax].
  specialize (Hmax x Hall (eq_sym Hk)). apply WinsLWW_false in Hmax.
  unfold lww_lt, lww_key in Hmax; simpl in Hmax. lia.
Qed.

(** Two sets of seeds that are together more than the cluster have one in common. *)
Lemma counts_meet {A} (P Q : A → Prop) `{!∀ x, Decision (P x), !∀ x, Decision (Q x)} (l : list A) :
  (length l < length (filter P l) + length (filter Q l))%nat → ∃ x, x ∈ l ∧ P x ∧ Q x.
Proof.
  induction l as [|x l IH]; [simpl; lia|]. rewrite !filter_cons. intros Hlt.
  destruct (decide (P x)), (decide (Q x)); simpl in Hlt;
    [exists x; split; [constructor|done]|..];
    (destruct IH as (y & Hy & ? & ?); [lia|]; exists y; split; [by constructor|done]).
Qed.

(** One seed of a cluster: its state, and the clock and the fate of a write and of a
    later read sent to it. *)
Record Peer := mkPeer {
  pr_mem : Memory;
  pr_clk : Clock;
  pr_write : fate;
  pr_later : Clock;
  pr_read : fate
}.

Definition write_accepted `{MapRange} (req : Request) (p : Peer) : bool :=
  match (seed_answer (pr_clk p) req (pr_write p) (pr_mem p)).2 with
  | Some (inr _) => true
  | _ => false
  end.

Definition read_answered (p : Peer) : bool :=
  match pr_read p with Answered => true | _ => false end.

(** What the read gets from the peer, in the state the write left. *)
Definition read_after `{MapRange} (wreq rreq : Request) (p : Peer) : option PbLookupResponse :=
  lookup_answer (seed_answer (pr_later p) rreq (pr_read p)
                   (seed_answer (pr_clk p) wreq (pr_write p) (pr_mem p)).1).2.

(** ** Claims *)

(** The fan-out result counts exactly the seeds that accepted the write, records
    an error for exactly the seeds that failed, and is acknowledged at quorum k
    exactly when at least k seeds accepted it, whatever the completion order. *)
Theorem fanOut_correct (outcomes : list (string * option CallError)) :
  Total (fanOut outcomes) = Z.of_nat (length outcomes) ∧
  Succeeded (fanOut outcomes) = Z.of_nat (length (filter (λ o, o.2 = None) outcomes)) ∧
  (∀ a, is_Some (Errors (fanOut outcomes) !! a) ↔ ∃ e, (a, Some e) ∈ outcomes) ∧
  (∀ k, WriteResult_OK (fanOut outcomes) k = true ↔
     k <= Z.of_nat (length (filter (λ o, o.2 = None) outcomes))) ∧
  (∀ outcomes', outcomes ≡ₚ outcomes' → Succeeded (fanOut outcomes') = Succeeded (fanOut outcomes)).
Proof.
  assert (Hs : ∀ l, Succeeded (fanOut l) = Z.of_nat (length (filter (λ o, o.2 = None) l))).
  { intros l. unfold fanOut.
    destruct (fanOut_fold l (mkWriteResult (Z.of_nat (length l)) 0 ∅)) as (_ & -> & _). simpl. lia. }
  destruct (fanOut_fold outcomes (mkWriteResult (Z.of_nat (length outcomes)) 0 ∅)) as (H1 & _ & H3).
  split_and!; [done|apply Hs| | |].
  - intros a. unfold fanOut. rewrite H3. simpl. rewrite lookup_empty. split; [|by right].
    intros [[? ?]|]; done.
  - intros k. unfold WriteResult_OK. rewrite Hs. apply Z.leb_le.
  - intros l' Hp. rewrite !Hs. by rewrite Hp.
Qed.

(** The clock-skew estimate is the largest difference of LastSeen between two
    answers for the same registration (node, service and generation), and 0 when
    no registration was seen twice with different times. *)
Theorem estimateSkew_correct `{MapRange} (entries : list ServiceEntry) :
  0 <= estimateSkew entries ∧
  (∀ x y, x ∈ entries → y ∈ entries → skew_key x = skew_key y →
     Svc_LastSeen (Entry_Service x) ≠ zeroTime → Svc_LastSeen (Entry_Service y) ≠ zeroTime →
     Time_Sub (Svc_LastSeen (Entry_Service y)) (Svc_LastSeen (Entry_Service x)) <= estimateSkew entries) ∧
  (estimateSkew entries = 0 ∨ ∃ x y, x ∈ entries ∧ y ∈ entries ∧ skew_key x = skew_key y ∧
     estimateSkew entries = Time_Sub (Svc_LastSeen (Entry_Service y)) (Svc_LastSeen (Entry_Service x))).
Proof.
  assert (Hinv : spans_inv entries (skew_spans entries ∅)).
  { apply (skew_spans_inv entries []). split; [intros ???; by rewrite lookup_empty|by intros e ?%elem_of_nil]. }
  destruct Hinv as [H1 H2]. unfold estimateSkew.
  pose proof (foldl_max (λ p : (string * string * Z) * (Z * Z), Time_Sub p.2.2 p.2.1)
                (range (skew_spans entries ∅)) 0) as (Ha & Hb & Hc). cbv zeta in *.
  split_and!; [done| |].
  - intros x y Hx Hy Hk Hzx Hzy. destruct (H2 x Hx Hzx) as (lo & hi & Hl & Hbx).
    destruct (H2 y Hy Hzy) as (lo' & hi' & Hl' & Hby). rewrite <-Hk, Hl in Hl'. injection Hl' as <- <-.
    specialize (Hb (skew_key x, (lo, hi)) (proj2 (elem_of_range _ _ _) Hl)). simpl in Hb.
    unfold Time_Sub in *. lia.
  - destruct Hc as [Hc|([k [lo hi]] & Hp%elem_of_range & Hc)]; [by left|right].
    destruct (H1 _ _ _ Hp) as (_ & x & y & Hx & Hy & Hkx & Hky & Hlx & Hly).
    exists x, y. rewrite Hlx, Hly. split_and!; [done..|congruence|done].
Qed.

(** C3: reads and writes meet: when the seeds that accepted a registration and the
    seeds that answer the next lookup of one of its services are together more than
    the cluster, and each seed is asked within the TTL it grants the service after
    it was written to, the merged answer holds the instance, at the registered
    generation or a later one, whatever happened to the other calls (not delivered,
    answer lost, refused). *)
Theorem quorum_read_sees_write `{MapRange} (peers : list Peer) (r : PbRegistration) (i : ServiceInstance) :
  let reg := RegistrationFromProto (Some r) in
  let wreq := RegisterRequest (Some r) in
  let rreq := LookupRequest (Some (mkPbQuery (Svc_Name i) "" [] false)) in
  Forall (λ p, wf (pr_mem p)) peers →
  NoDup (reg_id <$> Reg_Services reg) → i ∈ Reg_Services reg →
  Forall (λ p, Time_Sub (pr_later p O) (pr_clk p O) <= granted (opts (pr_mem p)) (Svc_TTL i)) peers →
  (length peers < length (filter (λ p, write_accepted wreq p = true) peers) +
                  length (filter (λ p, read_answered p = true) peers))%nat →
  ∃ lr e, SeedClient_Lookup (read_after wreq rreq <$> peers) = Some lr ∧ e ∈ Lookup_Entries lr ∧
    entry_key e = (Node_ID (Reg_Node reg), reg_id i) ∧
    Reg_Generation reg <= Svc_Generation (Entry_Service e).
Proof.
  intros reg wreq rreq Hwf Hnd Hi Hage Hq.
  destruct (counts_meet _ _ _ Hq) as (p & Hp & Hw & Hr).
  rewrite Forall_forall in Hwf, Hage. specialize (Hwf p Hp). specialize (Hage p Hp).
  unfold write_accepted, read_answered in Hw, Hr.
  assert (Hacc : ∃ resp, (handle (pr_clk p) wreq (pr_mem p)).1.1 = inr resp ∧
            (seed_answer (pr_clk p) wreq (pr_write p) (pr_mem p)).1 = (handle (pr_clk p) wreq (pr_mem p)).1.2).
  { destruct (pr_write p); cbn [seed_answer fst snd] in Hw |- *; [done|done|].
    destruct (handle (pr_clk p) wreq (pr_mem p)) as [[[c|resp] m1] evs1]; [done|]. by exists resp. }
  destruct Hacc as (resp & Hresp & Hst).
  destruct (handle (pr_clk p) wreq (pr_mem p)) as [[a m'] evs] eqn:Hh. simpl in Hresp, Hst. subst a.
  destruct (registered_entry _ _ _ _ _ _ _ _ Hwf Hage Hnd Hh Hi) as (e & He & Hk & _ & Hg & _).
  set (pb := Service_Lookup (pr_later p) (Some (mkPbQuery (Svc_Name i) "" [] false)) m').
  destruct (SeedClient_Lookup_covers (read_after wreq rreq <$> peers) pb
              (EntryFromProto (Some (EntryToProto e)))) as (lr & x & Hlr & Hx & Hkx & Hgx).
  - apply list_elem_of_fmap. exists p. split; [|done]. unfold read_after. rewrite Hst.
    by destruct (pr_read p).
  - unfold pb, Service_Lookup. simpl. apply list_elem_of_fmap. exists (Some (EntryToProto e)).
    split; [done|]. apply list_elem_of_fmap. by exists e.
  - exists lr, x. split_and!; [done|done| |].
    + by rewrite Hkx, wire_key.
    + rewrite wire_generation, Hg in Hgx. done.
Qed.

(** Written to at one instant and asked 25 seconds later, within the TTL of 30. *)
Definition samplePeer (w r : fate) : Peer :=
  mkPeer (NewMemory sampleOptions) (frozen 5) w (frozen (5 + 25 * second)) r.

Lemma quorum_read_sees_write_witness :
  let peers := [samplePeer Answered NotReached; samplePeer Answered Answered; samplePeer AnswerLost Answered] in
  ∃ lr e, @SeedClient_Lookup list_order (@read_after list_order (RegisterRequest (Some sampleRegPb))
      (LookupRequest (Some (mkPbQuery "db" "" [] false))) <$> peers) = Some lr ∧
    e ∈ Lookup_Entries lr ∧ entry_key e = ("n1", "db-1")%string ∧ 1 <= Svc_Generation (Entry_Service e).
Proof.
  apply (@quorum_read_sees_write list_order
    [samplePeer Answered NotReached; samplePeer Answered Answered; samplePeer AnswerLost Answered]
    sampleRegPb (wire_service (sampleService "db-1" "db" []))).
  - do 3 (apply List.Forall_cons; [apply wf_new|]). apply List.Forall_nil.
  - vm_compute. repeat constructor; set_solver.
  - vm_compute. right. left.
  - repeat apply List.Forall_cons; try apply List.Forall_nil; vm_compute; discriminate.
  - vm_compute. lia.
Defined.
