(* ===== verification/Cache.v ===== *)
(** The agent's bounded-staleness read cache, [src/internal/seedclient/cache.go]:
    merged, unfiltered entry sets per query, refetched when older than [maxAge].

    [net] is what the seed client answers to a query while the call runs ([None]:
    every seed failed); the clock readings of one call are, in order, the freshness
    test, the fetch and the age.  A nil dereference is the outcome [Panicked]. *)

From Stdlib Require Import ZArith Lia Ascii.
From stdpp Require Import base gmap list strings.
From S2P Require Import Prelude GoStrings Model Health.

#[local] Open Scope Z_scope.

(** ** Data *)

(** [cacheKey]: name, datacenter, joined tags. *)
Definition cacheKey : Type := string * string * string.

Record cacheEntry := mkCacheEntry {
  ce_query : Query;
  ce_merged : list ServiceEntry;
  ce_index : Z;
  ce_fetchedAt : Z
}.

Record Cache := mkCache { maxAge : Z; c_entries : gmap (string * string * string) cacheEntry }.

(** The separator byte of the tag list. *)
Definition NUL : ascii := ascii_of_N 0.

Definition keyFor (q : Query) : cacheKey :=
  (Query_Name q, Query_Datacenter q, Join (Query_Tags q) (String NUL EmptyString)).

Definition NewCache (max : Z) : Cache := mkCache (if max <=? 0 then 5 * second else max) ∅.

(** proxy.go *)
Definition endpointChanged (a b : ServiceEntry) : bool :=
  bool_decide (Svc_Address (Entry_Service a) ≠ Svc_Address (Entry_Service b)) ||
  bool_decide (Svc_Port (Entry_Service a) ≠ Svc_Port (Entry_Service b)) ||
  bool_decide (Svc_Generation (Entry_Service a) ≠ Svc_Generation (Entry_Service b)) ||
  bool_decide (Entry_Health a ≠ Entry_Health b).

(** The loop of [changed] over two slices of the same length. *)
Fixpoint changed_loop (prev cur : list ServiceEntry) : bool :=
  match prev, cur with
  | a :: prev', b :: cur' =>
      if bool_decide (Node_ID (Entry_Node a) ≠ Node_ID (Entry_Node b)) ||
         bool_decide (Svc_ID (Entry_Service a) ≠ Svc_ID (Entry_Service b)) || endpointChanged a b
      then true else changed_loop prev' cur'
  | _, _ => false
  end.

Definition cache_changed (prev : option cacheEntry) (cur : cacheEntry) : bool :=
  match prev with
  | None => (0 <? length (ce_merged cur))%nat
  | Some prev =>
      if negb (length (ce_merged prev) =? length (ce_merged cur))%nat then true
      else changed_loop (ce_merged prev) (ce_merged cur)
  end.

(** ** Operations *)

(** [raw]: the query without its health filter. *)
Definition unfiltered (q : Query) : Query :=
  mkQuery (Query_Name q) (Query_Datacenter q) (Query_Tags q) false.

(** [fetch]: the entry (nil on error), the cache, and the [onChange] calls. *)
Definition fetch (net : Query → option LookupResult) (now : Z) (q : Query) (c : Cache)
  : option cacheEntry * Cache * list string :=
  match net (unfiltered q) with
  | None => (None, c, [])
  | Some lr =>
      let key := keyFor q in
      let entry := mkCacheEntry q (Lookup_Entries lr) (Lookup_Index lr) now in
      let prev := c_entries c !! key in
      (Some entry, mkCache (maxAge c) (<[key := entry]> (c_entries c)),
       if cache_changed prev entry then [Query_Name q] else [])
  end.

Inductive outcome :=
  | Served (lr : LookupResult) (age : Z)
  | LookupFailed
  | Panicked.

(** What is served from an entry. *)
Definition serve (q : Query) (e : cacheEntry) : LookupResult :=
  mkLookup (if Query_OnlyHealthy q then Filter (ce_merged e) (mkFilterOptions true) else ce_merged e)
    (ce_index e).

Definition LookupWithAge (net : Query → option LookupResult) (clk : Clock) (q : Query) (c : Cache)
  : outcome * Cache * list string :=
  let key := keyFor q in
  let old := c_entries c !! key in
  let fresh := match old with
               | Some e => Time_Sub (clk 0%nat) (ce_fetchedAt e) <? maxAge c
               | None => false
               end in
  let '(e, ok, c, names) :=
    if fresh then (old, true, c, [])
    else let '(e, c, names) := fetch net (clk 1%nat) q c in
         (e, match e with Some _ => true | None => match old with Some _ => true | None => false end end,
          c, names) in
  if negb ok then (LookupFailed, c, names)
  else match e with
       | None => (Panicked, c, names)
       | Some e => (Served (serve q e) (Time_Sub (clk 2%nat) (ce_fetchedAt e)), c, names)
       end.

(** [Refresh] refetches every cached query. *)
Fixpoint refresh_loop (net : Query → option LookupResult) (now : Z) (queries : list Query) (c : Cache)
  : Cache * list string :=
  match queries with
  | [] => (c, [])
  | q :: rest =>
      let '(_, c, names) := fetch net now q c in
      let '(c, names') := refresh_loop net now rest c in
      (c, names ++ names')
  end.

Definition Refresh `{MapRange} (net : Query → option LookupResult) (now : Z) (c : Cache)
  : Cache * list string :=
  refresh_loop net now ((λ p, ce_query p.2) <$> range (c_entries c)) c.

(** ** Lemmas *)

Lemma endpointChanged_spec a b :
  endpointChanged a b = false ↔
  Svc_Address (Entry_Service a) = Svc_Address (Entry_Service b) ∧
  Svc_Port (Entry_Service a) = Svc_Port (Entry_Service b) ∧
  Svc_Generation (Entry_Service a) = Svc_Generation (Entry_Service b) ∧ Entry_Health a = Entry_Health b.
Proof.
  unfold endpointChanged. rewrite !orb_false_iff, !bool_decide_eq_false. split.
  - intros [[[H1 H2] H3] H4]. apply dec_stable in H1, H2, H3, H4. done.
  - naive_solver.
Qed.

Lemma endpointChanged_refl a : endpointChanged a a = false.
Proof. by apply endpointChanged_spec. Qed.

Lemma endpointChanged_trans a b c :
  endpointChanged a b = false → endpointChanged b c = false → endpointChanged a c = false.
Proof. rewrite !endpointChanged_spec. intuition congruence. Qed.

(** Two sets are unchanged when they list the same instances at the same endpoint,
    generation and health. *)
Lemma changed_loop_spec prev cur :
  length prev = length cur →
  changed_loop prev cur = false ↔
  Forall2 (λ a b, entry_key a = entry_key b ∧ endpointChanged a b = false) prev cur.
Proof.
  revert cur. induction prev as [|a prev IH]; intros [|b cur]; simpl; intros Hlen; try lia.
  { split; [constructor|done]. }
  rewrite Forall2_cons. unfold entry_key.
  case_bool_decide; simpl; [naive_solver congruence|].
  case_bool_decide; simpl; [naive_solver congruence|].
  destruct (endpointChanged a b) eqn:E; simpl; [naive_solver|].
  rewrite IH by lia. split; [|naive_solver]. intros HF. split; [|done]. split; [|done].
  f_equal; first [done|by apply dec_stable].
Qed.

Lemma fetch_fresh net now q c lr :
  net (unfiltered q) = Some lr →
  let e := mkCacheEntry q (Lookup_Entries lr) (Lookup_Index lr) now in
  (fetch net now q c).1 = (Some e, mkCache (maxAge c) (<[keyFor q := e]> (c_entries c))).
Proof. unfold fetch. by intros ->. Qed.

(** ** Claims *)

(** Bounded staleness: a cached set younger than [maxAge] is served without
    asking any seed; otherwise the seeds are asked for all instances (whatever the
    health filter of the query), the answer is stored and served, and the watchers
    of the name are notified exactly when it differs; without a cached set a
    failed fetch is an error.  In every case the health filter is applied to the
    merged set, on the way out. *)
Theorem LookupWithAge_correct (net : Query → option LookupResult) (clk : Clock) (q : Query) (c : Cache) :
  let key := keyFor q in
  (∀ e, c_entries c !! key = Some e → Time_Sub (clk 0%nat) (ce_fetchedAt e) < maxAge c →
     LookupWithAge net clk q c = (Served (serve q e) (Time_Sub (clk 2%nat) (ce_fetchedAt e)), c, [])) ∧
  ((∀ e, c_entries c !! key = Some e → maxAge c <= Time_Sub (clk 0%nat) (ce_fetchedAt e)) →
   (∀ lr, net (unfiltered q) = Some lr → ∃ c' names,
      LookupWithAge net clk q c =
        (Served (mkLookup (if Query_OnlyHealthy q then Filter (Lookup_Entries lr) (mkFilterOptions true)
                           else Lookup_Entries lr) (Lookup_Index lr))
           (Time_Sub (clk 2%nat) (clk 1%nat)), c', names) ∧
      c_entries c' !! key = Some (mkCacheEntry q (Lookup_Entries lr) (Lookup_Index lr) (clk 1%nat)) ∧
      (∀ k, k ≠ key → c_entries c' !! k = c_entries c !! k) ∧
      names = (if cache_changed (c_entries c !! key)
                    (mkCacheEntry q (Lookup_Entries lr) (Lookup_Index lr) (clk 1%nat))
               then [Query_Name q] else [])) ∧
   (net (unfiltered q) = None → c_entries c !! key = None →
      LookupWithAge net clk q c = (LookupFailed, c, []))).
Proof.
  cbv zeta. split; [|intros Hold; split].
  - intros e He Hf. unfold LookupWithAge. rewrite He. by destruct (Z.ltb_spec (Time_Sub (clk 0%nat) (ce_fetchedAt e)) (maxAge c)); [|lia].
  - intros lr Hn. unfold LookupWithAge, fetch. rewrite Hn.
    assert (Hfr : match c_entries c !! keyFor q with
              | Some e => Time_Sub (clk 0%nat) (ce_fetchedAt e) <? maxAge c | None => false end = false).
    { destruct (c_entries c !! keyFor q) as [e|] eqn:He; [|done]. specialize (Hold e eq_refl).
      destruct (Z.ltb_spec (Time_Sub (clk 0%nat) (ce_fetchedAt e)) (maxAge c)); [lia|done]. }
    rewrite Hfr. eexists _, _. split; [done|]. simpl. rewrite lookup_insert_eq. split; [done|].
    split; [|done]. intros k Hk. by rewrite lookup_insert_ne.
  - intros Hn He. unfold LookupWithAge, fetch. by rewrite He, Hn.
Qed.

Definition sampleCache : Cache :=
  mkCache (5 * second) {[ keyFor (mkQuery "web" "" [] false) :=
    mkCacheEntry (mkQuery "web" "" [] false) [sample "n" "web" "10.0.0.1" 1 5] 7 0 ]}.

(** The stale copy is not served when a refresh fails: with a cached set older
    than [maxAge] and no seed answering, the call dereferences the nil entry that
    the failed fetch returned. *)
Theorem stale_lookup_panics (net : Query → option LookupResult) (clk : Clock) (q : Query) (c : Cache) e :
  c_entries c !! keyFor q = Some e → maxAge c <= Time_Sub (clk 0%nat) (ce_fetchedAt e) →
  net (unfiltered q) = None → LookupWithAge net clk q c = (Panicked, c, []).
Proof.
  intros He Ha Hn. unfold LookupWithAge, fetch. rewrite He, Hn.
  by destruct (Z.ltb_spec (Time_Sub (clk 0%nat) (ce_fetchedAt e)) (maxAge c)); [lia|].
Qed.

Lemma stale_lookup_panics_witness :
  LookupWithAge (λ _, None) (frozen (60 * second)) (mkQuery "web" "" [] false) sampleCache =
    (Panicked, sampleCache, []).
Proof.
  eapply (stale_lookup_panics (λ _, None) (frozen (60 * second)) (mkQuery "web" "" [] false) sampleCache);
    [vm_compute; reflexivity|vm_compute; discriminate|reflexivity].
Defined.

(** The cache key separates queries whose tags are non-empty and free of the
    NUL separator, up to the health filter; but a query for the empty tag has the
    key of the query without tags, so one is answered with the other's set. *)
Theorem keyFor_separates :
  (∀ q q', Forall (λ t, no_byte NUL t = true ∧ t ≠ ""%string) (Query_Tags q) →
     Forall (λ t, no_byte NUL t = true ∧ t ≠ ""%string) (Query_Tags q') →
     keyFor q = keyFor q' → unfiltered q = unfiltered q') ∧
  (keyFor (mkQuery "web" "" [""%string] false) = keyFor (mkQuery "web" "" [] false) ∧
   unfiltered (mkQuery "web" "" [""%string] false) ≠ unfiltered (mkQuery "web" "" [] false)).
Proof.
  split; [|split; [reflexivity|discriminate]].
  intros q q' Hq Hq' E. injection E as E1 E2 E3. unfold unfiltered. rewrite E1, E2.
  by rewrite (Join_inj NUL _ _ Hq Hq' E3).
Qed.
