(* ===== verification/Proxy.v ===== *)
(** The local agent proxy, [src/internal/seedclient/proxy.go] and loops.go: the
    agent's writes stamped with its node and fanned out, the services it hosts and
    keeps alive, its reads (cache, direct, federated), and the delta stream of its
    [Watch] together with the client that consumes it (client/sdk/sdk.go).

    [write] is the fan-out result of the call at hand ([SeedClient.fanOut]). *)

From Stdlib Require Import ZArith Lia Ascii.
From stdpp Require Import base gmap list strings.
From S2P Require Import Prelude GoStrings Model Health Store StoreSteps StoreInv StoreSpec StoreLookup StoreOps.
From S2P Require Import Protoconv Cred Server SeedClient Cache.

#[local] Open Scope Z_scope.

(** ** Data *)

(** The gRPC statuses the proxy answers, with their messages. *)
Inductive ProxyError := PxInvalidArgument (msg : string) | PxUnavailable (msg : string).

(** ["%d/%d seeds"] of a write. *)
Definition reached (verb : string) (res : WriteResult) : string :=
  verb +:+ " " +:+ FormatUint (Succeeded res) +:+ "/" +:+ FormatUint (Total res) +:+ " seeds".

Record Proxy := mkProxy {
  px_node : Node;
  px_quorum : Z;
  px_hosted : gmap string ServiceInstance;
  px_checkGate : option (string → bool)
}.

Definition NewProxy (n : Node) (quorum : Z) : Proxy :=
  mkProxy n (if quorum <? 1 then 1 else quorum) ∅ None.

Definition SetCheckGate (gate : string → bool) (p : Proxy) : Proxy :=
  mkProxy (px_node p) (px_quorum p) (px_hosted p) (Some gate).

Definition with_hosted (h : gmap string ServiceInstance) (p : Proxy) : Proxy :=
  mkProxy (px_node p) (px_quorum p) h (px_checkGate p).

(** ** Writes *)

(** The loop that checks the names and fills in the IDs; [None]: a name is missing. *)
Fixpoint stamp_ids (svcs : list ServiceInstance) : option (list ServiceInstance) :=
  match svcs with
  | [] => Some []
  | s :: rest =>
      if bool_decide (Svc_Name s = ""%string) then None
      else
        let s := if bool_decide (Svc_ID s = ""%string) then with_ID (Svc_Name s) s else s in
        rest' ← stamp_ids rest; Some (s :: rest')
  end.

(** The registration that is sent: under the agent's node, with IDs. *)
Definition stamped (p : Proxy) (reg : Registration) : option Registration :=
  svcs ← stamp_ids (Reg_Services reg);
  Some (mkRegistration (px_node p) svcs (Reg_Generation reg)).

(** [p.hosted[s.ID] = s] for every service, with the registered generation. *)
Definition host_all (gen : Z) (svcs : list ServiceInstance) (h : gmap string ServiceInstance)
  : gmap string ServiceInstance :=
  foldl (λ h s, <[Svc_ID s := with_Generation gen s]> h) h svcs.

Definition RegisterServices (write : Registration → WriteResult) (reg : Registration) (p : Proxy)
  : option ProxyError * Proxy :=
  if (length (Reg_Services reg) =? 0)%nat then (Some (PxInvalidArgument "registration has no services"), p)
  else match stamped p reg with
       | None => (Some (PxInvalidArgument "service name is required"), p)
       | Some reg' =>
           if negb (WriteResult_OK (write reg') (px_quorum p))
           then (Some (PxUnavailable (reached "registered on" (write reg') +:+
                         " (quorum " +:+ FormatUint (px_quorum p) +:+ ")")), p)
           else (None, with_hosted (host_all (Reg_Generation reg') (Reg_Services reg') (px_hosted p)) p)
       end.

Definition KeepAlive (write : Registration → WriteResult) (serviceID : string) (p : Proxy)
  : option ProxyError :=
  match px_hosted p !! serviceID with
  | None => None
  | Some svc =>
      let res := write (mkRegistration (px_node p) [svc] (Svc_Generation svc)) in
      if negb (WriteResult_OK res (px_quorum p)) then Some (PxUnavailable (reached "keep-alive reached" res)) else None
  end.

(** [Renew] and [RenewService]. *)
Definition Proxy_Renew (write : string → list string → WriteResult) (ids : list string) (p : Proxy)
  : option ProxyError :=
  let res := write (Node_ID (px_node p)) ids in
  if negb (WriteResult_OK res 1) then Some (PxUnavailable (reached "renewed on" res)) else None.

Definition Proxy_Deregister (write : string → WriteResult) (p : Proxy) : option ProxyError * Proxy :=
  let res := write (Node_ID (px_node p)) in
  let p := with_hosted ∅ p in
  (if negb (WriteResult_OK res 1) then Some (PxUnavailable (reached "deregistered on" res)) else None, p).

Definition RemoveService (write : string → string → WriteResult) (serviceID : string) (p : Proxy)
  : option ProxyError * Proxy :=
  if bool_decide (serviceID = ""%string) then (Some (PxInvalidArgument "service_id is required"), p)
  else
    let res := write (Node_ID (px_node p)) serviceID in
    let p := with_hosted (delete serviceID (px_hosted p)) p in
    (if negb (WriteResult_OK res 1) then Some (PxUnavailable (reached "deregistered on" res)) else None, p).

Definition RegisterExternal (write : Registration → WriteResult) (reg : Registration) : option ProxyError :=
  if negb (WriteResult_OK (write reg) 1) then Some (PxUnavailable (reached "registered on" (write reg))) else None.

Definition Hosted `{MapRange} (p : Proxy) : list ServiceInstance := (range (px_hosted p)).*2.

Definition hostedCount (p : Proxy) : Z := Z.of_nat (size (px_hosted p)).

(** [renewAll]: the renew request it sends, if any. *)
Definition renewAll `{MapRange} (p : Proxy) : option (string * list string) :=
  match px_checkGate p with
  | None => Some (Node_ID (px_node p), [])
  | Some gate =>
      let ids := filter (λ id, gate id = false) (range (px_hosted p)).*1 in
      if (length ids =? 0)%nat then None else Some (Node_ID (px_node p), ids)
  end.

(** [RenewLoop.renewOnce]. *)
Definition renewOnce `{MapRange} (p : Proxy) : option (string * list string) :=
  if hostedCount p =? 0 then None else renewAll p.

(** ** Reads *)

Definition contains (entries : list ServiceEntry) (nodeID serviceID : string) : bool :=
  existsb (λ e, bool_decide (Node_ID (Entry_Node e) = nodeID) &&
                bool_decide (Svc_ID (Entry_Service e) = serviceID)) entries.

Definition directLookup (net : Query → option LookupResult) (q : Query) : option LookupResult :=
  match net (unfiltered q) with
  | None => None
  | Some lr =>
      Some (if Query_OnlyHealthy q
            then mkLookup (Filter (Lookup_Entries lr) (mkFilterOptions true)) (Lookup_Index lr) else lr)
  end.

(** The federation pool ([src/internal/federation/pool.go]): the local datacenter
    and the remote ones with the seed client of each. *)
Record Pool := mkPool { fed_local : string; fed_clients : gmap string (Query → option LookupResult) }.

(** [NewPool]: [dial] is the seed client of a seed list, [None] when it cannot be
    built; the local datacenter and those without seeds are skipped. *)
Fixpoint dial_all (dial : list string → option (Query → option LookupResult)) (local : string)
    (dcs : list (string * list string)) (clients : gmap string (Query → option LookupResult))
  : option (gmap string (Query → option LookupResult)) :=
  match dcs with
  | [] => Some clients
  | (dc, seeds) :: rest =>
      if bool_decide (dc = local) || (length seeds =? 0)%nat then dial_all dial local rest clients
      else match dial seeds with
           | None => None
           | Some c => dial_all dial local rest (<[dc := c]> clients)
           end
  end.

Definition NewPool `{MapRange} (dial : list string → option (Query → option LookupResult)) (local : string)
    (datacenters : gmap string (list string)) : option Pool :=
  clients ← dial_all dial local (range datacenters) ∅; Some (mkPool local clients).

Definition Datacenters `{MapRange} (f : Pool) : list string := (range (fed_clients f)).*1.

Definition IsRemote (f : Pool) (dc : string) : bool :=
  if bool_decide (dc = ""%string) || bool_decide (dc = fed_local f) then false
  else match fed_clients f !! dc with Some _ => true | None => false end.

Definition with_Datacenter (dc : string) (q : Query) : Query :=
  mkQuery (Query_Name q) dc (Query_Tags q) (Query_OnlyHealthy q).

Definition Pool_Resolve (f : Pool) (dc : string) (q : Query) : option LookupResult :=
  match fed_clients f !! dc with
  | None => Some (mkLookup [] 0)
  | Some net => net (with_Datacenter dc q)
  end.

(** [Resolve]: the outcome with the age, the cache and its notifications. *)
Definition Resolve (fed : option Pool) (cache : option Cache) (net : Query → option LookupResult)
    (clk : Clock) (q : Query) (mode : Consistency) : outcome * option Cache * list string :=
  let direct r := match r with Some lr => Served lr 0 | None => LookupFailed end in
  match fed with
  | Some f =>
      if IsRemote f (Query_Datacenter q)
      then (direct (Pool_Resolve f (Query_Datacenter q) q), cache, [])
      else match mode, cache with
           | ConsistencyConsistent, _ | _, None => (direct (directLookup net q), cache, [])
           | _, Some c => let '(o, c, names) := LookupWithAge net clk q c in (o, Some c, names)
           end
  | None =>
      match mode, cache with
      | ConsistencyConsistent, _ | _, None => (direct (directLookup net q), cache, [])
      | _, Some c => let '(o, c, names) := LookupWithAge net clk q c in (o, Some c, names)
      end
  end.

(** ** The agent's Watch stream *)

Definition entryKey (e : ServiceEntry) : string :=
  Node_ID (Entry_Node e) +:+ String NUL EmptyString +:+ Svc_ID (Entry_Service e).

(** [cur]: the merged set by key. *)
Definition watch_set (entries : list ServiceEntry) : gmap string ServiceEntry :=
  foldl (λ cur e, <[entryKey e := e]> cur) ∅ entries.

Definition put_event (e : ServiceEntry) : PbChangeEvent := ChangeEventToProto (mkEvent ChangePut e 0).

Definition delete_event (e : ServiceEntry) : PbChangeEvent := ChangeEventToProto (mkEvent ChangeDelete e 0).

(** The events of the first turn, and of every later one. *)
Definition watch_first (entries : list ServiceEntry) : list PbChangeEvent := put_event <$> entries.

Definition watch_delta `{MapRange} (last cur : gmap string ServiceEntry) : list PbChangeEvent :=
  (put_event ∘ snd <$> filter (λ p, match last !! p.1 with
                                    | None => true
                                    | Some prev => endpointChanged prev p.2
                                    end = true) (range cur)) ++
  (delete_event ∘ snd <$> filter (λ p, cur !! p.1 = None) (range last)).

(** One message of the stream. *)
Inductive WatchMsg :=
  | WatchEvent (ev : PbChangeEvent) (idx : Z)
  | SnapshotDone (idx : Z).

(** The variables of the loop. *)
Record WatchState := mkWatchState {
  ws_last : gmap string ServiceEntry;
  ws_lastIdx : Z;
  ws_first : bool
}.

Definition watch_start : WatchState := mkWatchState ∅ 0 true.

(** One turn of the loop: [idx] is what [WaitForChange] returned, [r] what the
    lookup answers ([None]: an error). *)
Definition watch_turn `{MapRange} (idx : Z) (r : option (list ServiceEntry)) (ws : WatchState)
  : list WatchMsg * WatchState :=
  if (idx =? ws_lastIdx ws) && negb (ws_first ws) then ([], ws)
  else match r with
       | None => ([], mkWatchState (ws_last ws) idx (ws_first ws))
       | Some entries =>
           let cur := watch_set entries in
           let msgs :=
             if ws_first ws then ((λ ev, WatchEvent ev idx) <$> watch_first entries) ++ [SnapshotDone idx]
             else (λ ev, WatchEvent ev idx) <$> watch_delta (ws_last ws) cur in
           (msgs, mkWatchState cur idx false)
       end.

(** ** The consumer ([Client.Watch] of the SDK) *)

(** [ev.GetEntry().GetNode().GetId() + "\x00" + ev.GetEntry().GetService().GetId()]. *)
Definition sdk_key (e : PbEntry) : string :=
  match pbe_node e with Some n => pbn_id n | None => ""%string end +:+ String NUL EmptyString +:+
  match pbe_service e with Some s => pbs_id s | None => ""%string end.

Definition sdk_apply (set : gmap string PbEntry) (ev : PbChangeEvent) : gmap string PbEntry :=
  match pbc_entry ev with
  | None => set
  | Some e =>
      if pbc_type ev =? 1 then <[sdk_key e := e]> set
      else if pbc_type ev =? 2 then delete (sdk_key e) set
      else set
  end.

Definition sdk_set (set : gmap string PbEntry) (evs : list PbChangeEvent) : gmap string PbEntry :=
  foldl sdk_apply set evs.

(** The consumer's variables and the one-slot channel of the latest set. *)
Record SdkState := mkSdkState {
  sdk_entries : gmap string PbEntry;
  sdk_ready : bool;
  sdk_out : option (list PbEntry)
}.

Definition sdk_start : SdkState := mkSdkState ∅ false None.

Definition snapshot `{MapRange} (set : gmap string PbEntry) : list PbEntry := (range set).*2.

(** [emit]: send, or else drop what the channel holds and try again. *)
Fixpoint emit (fuel : nat) (out : option (list PbEntry)) (snap : list PbEntry) : option (list PbEntry) :=
  match fuel with
  | O => out
  | S fuel =>
      match out with
      | None => Some snap
      | Some _ => emit fuel None snap
      end
  end.

(** One received message. *)
Definition sdk_recv `{MapRange} (c : SdkState) (msg : WatchMsg) : SdkState :=
  let set := match msg with
             | WatchEvent ev _ => sdk_apply (sdk_entries c) ev
             | SnapshotDone _ => sdk_entries c
             end in
  let ready := match msg with SnapshotDone _ => true | _ => sdk_ready c end in
  mkSdkState set ready (if ready then emit 2 (sdk_out c) (snapshot set) else sdk_out c).

(** ** Lemmas: writes *)

Lemma stamp_ids_spec svcs svcs' :
  stamp_ids svcs = Some svcs' ↔
  Forall (λ s, Svc_Name s ≠ ""%string) svcs ∧
  svcs' = (λ s, if bool_decide (Svc_ID s = ""%string) then with_ID (Svc_Name s) s else s) <$> svcs.
Proof.
  revert svcs'. induction svcs as [|s l IH]; intros svcs'; cbn [stamp_ids].
  { split; [intros [= <-]; split; [constructor|done]|by intros [_ ->]]. }
  rewrite Forall_cons. case_bool_decide as Hn; [naive_solver|].
  destruct (stamp_ids l) as [l'|]; cbn [mbind option_bind].
  - specialize (IH l'). rewrite fmap_cons. split.
    + intros [= <-]. destruct (proj1 IH eq_refl) as [? ->]. done.
    + intros [[_ Hl] ->]. by destruct (proj1 IH eq_refl) as [_ ->].
  - split; [done|]. intros [[_ Hl] _].
    pose proof (proj2 (IH _) (conj Hl eq_refl)) as Hx. done.
Qed.

Lemma host_all_other gen svcs h id :
  id ∉ Svc_ID <$> svcs → host_all gen svcs h !! id = h !! id.
Proof.
  revert h. induction svcs as [|s l IH]; intros h Hid; [done|].
  apply not_elem_of_cons in Hid as [Hne Hid]. unfold host_all in *. cbn [foldl].
  rewrite IH by done. by rewrite lookup_insert_ne.
Qed.

Lemma host_all_lookup gen svcs h s :
  NoDup (Svc_ID <$> svcs) → s ∈ svcs → host_all gen svcs h !! Svc_ID s = Some (with_Generation gen s).
Proof.
  revert h. induction svcs as [|x l IH]; intros h; [by intros _ ?%elem_of_nil|].
  intros [Hx Hnd]%NoDup_cons [->|Hs]%elem_of_cons.
  - change (host_all gen (x :: l) h) with (host_all gen l (<[Svc_ID x := with_Generation gen x]> h)).
    rewrite host_all_other by done. by rewrite lookup_insert_eq.
  - change (host_all gen (x :: l) h) with (host_all gen l (<[Svc_ID x := with_Generation gen x]> h)).
    by apply IH.
Qed.

(** Every hosted service is stored under its own non-empty ID, with a name. *)
Definition hosted_ok (p : Proxy) : Prop :=
  ∀ id s, px_hosted p !! id = Some s → Svc_ID s = id ∧ id ≠ ""%string ∧ Svc_Name s ≠ ""%string.

Lemma host_all_ok gen svcs h :
  (∀ id s, h !! id = Some s → Svc_ID s = id ∧ id ≠ ""%string ∧ Svc_Name s ≠ ""%string) →
  Forall (λ s, Svc_ID s ≠ ""%string ∧ Svc_Name s ≠ ""%string) svcs →
  ∀ id s, host_all gen svcs h !! id = Some s → Svc_ID s = id ∧ id ≠ ""%string ∧ Svc_Name s ≠ ""%string.
Proof.
  intros Hh Hs. revert h Hh. induction Hs as [|x l [Hi Hn] _ IH]; intros h Hh; [done|].
  change (host_all gen (x :: l) h) with (host_all gen l (<[Svc_ID x := with_Generation gen x]> h)).
  apply IH. intros id s. rewrite lookup_insert. case_decide; [|apply Hh]. intros [= <-]. by subst id.
Qed.

Lemma stamped_ok p reg reg' :
  stamped p reg = Some reg' →
  Reg_Node reg' = px_node p ∧ Reg_Generation reg' = Reg_Generation reg ∧
  Reg_Services reg' = (λ s, if bool_decide (Svc_ID s = ""%string) then with_ID (Svc_Name s) s else s)
                        <$> Reg_Services reg ∧
  Forall (λ s, Svc_ID s ≠ ""%string ∧ Svc_Name s ≠ ""%string) (Reg_Services reg').
Proof.
  unfold stamped. destruct (stamp_ids (Reg_Services reg)) as [svcs|] eqn:E; [|done].
  intros [= <-]. apply stamp_ids_spec in E as [Hn ->]. simpl. split_and!; [done..|].
  apply Forall_fmap. eapply Forall_impl; [exact Hn|]. intros s Hs. simpl. case_bool_decide; done.
Qed.

Lemma RegisterServices_hosted_ok write reg p :
  hosted_ok p → hosted_ok (RegisterServices write reg p).2.
Proof.
  intros Hp. unfold RegisterServices. destruct (_ =? _)%nat; [done|].
  destruct (stamped p reg) as [reg'|] eqn:E; [|done].
  destruct (negb _); [done|]. apply stamped_ok in E as (_ & _ & _ & Hok).
  exact (host_all_ok _ _ _ Hp Hok).
Qed.

(** ** Lemmas: the watch stream *)

(** Two entries of the same endpoint, generation and health. *)
Record same_endpoint (a b : ServiceEntry) : Prop := {
  se_address : Svc_Address (Entry_Service a) = Svc_Address (Entry_Service b);
  se_port : Svc_Port (Entry_Service a) = Svc_Port (Entry_Service b);
  se_generation : Svc_Generation (Entry_Service a) = Svc_Generation (Entry_Service b);
  se_health : Entry_Health a = Entry_Health b
}.

Lemma same_endpoint_spec a b : endpointChanged a b = false ↔ same_endpoint a b.
Proof. rewrite endpointChanged_spec. split; [by intros (?&?&?&?)|by intros []]. Qed.

(** The consumer's set shows the map [m]: the same keys, each with an entry of the
    same endpoint, generation and health. *)
Definition shows (set : gmap string PbEntry) (m : gmap string ServiceEntry) : Prop :=
  ∀ k, match m !! k with
       | None => set !! k = None
       | Some e => ∃ e', set !! k = Some (EntryToProto e') ∧ entryKey e' = k ∧ same_endpoint e' e
       end.

(** The identity a stream tells instances apart by, and the entry of an answer under
    it: the last one, were an answer to list it twice. *)
Definition stream_key (e : ServiceEntry) : string :=
  Node_ID (Entry_Node e) +:+ String NUL EmptyString +:+ Svc_ID (Entry_Service e).

Definition answer_of (k : string) (entries : list ServiceEntry) : option ServiceEntry :=
  last (filter (λ e, stream_key e = k) entries).

(** What a consumer reads from the entry it holds for an instance. *)
Definition presents (k : string) (p : PbEntry) (e : ServiceEntry) : Prop :=
  ∃ n s, pbe_node p = Some n ∧ pbe_service p = Some s ∧
    pbn_id n +:+ String NUL EmptyString +:+ pbs_id s = k ∧
    pbs_address s = Svc_Address (Entry_Service e) ∧ pbs_port s = Svc_Port (Entry_Service e) ∧
    pbe_generation p = Svc_Generation (Entry_Service e) ∧ HealthFromProto (pbe_health p) = Entry_Health e.

(** The set of a consumer lists an answer: an entry for each of its instances, at
    its endpoint, generation and health, and no other. *)
Definition lists_answer (set : gmap string PbEntry) (entries : list ServiceEntry) : Prop :=
  ∀ k, match answer_of k entries with
       | None => set !! k = None
       | Some e => ∃ p, set !! k = Some p ∧ presents k p e
       end.

Lemma sdk_key_EntryToProto e : sdk_key (EntryToProto e) = entryKey e.
Proof. done. Qed.

Lemma sdk_apply_put set e : sdk_apply set (put_event e) = <[entryKey e := EntryToProto e]> set.
Proof. done. Qed.

Lemma sdk_apply_delete set e : sdk_apply set (delete_event e) = delete (entryKey e) set.
Proof. done. Qed.

(** A map keyed by the entries' own keys. *)
Definition keyed (m : gmap string ServiceEntry) : Prop := ∀ k e, m !! k = Some e → entryKey e = k.

Lemma watch_set_snoc l e : watch_set (l ++ [e]) = <[entryKey e := e]> (watch_set l).
Proof. unfold watch_set. by rewrite foldl_app. Qed.

Lemma watch_set_keyed l : keyed (watch_set l).
Proof.
  induction l as [|e l IH] using rev_ind; intros k x; [unfold watch_set; simpl; by rewrite lookup_empty|].
  rewrite watch_set_snoc, lookup_insert. case_decide; [by intros [= <-]|]. apply IH.
Qed.

Lemma sdk_puts set (l : list (string * ServiceEntry)) k :
  (∀ p, p ∈ l → entryKey p.2 = p.1) → NoDup l.*1 →
  sdk_set set (put_event ∘ snd <$> l) !! k =
    match (list_to_map l : gmap string ServiceEntry) !! k with
    | Some e => Some (EntryToProto e)
    | None => set !! k
    end.
Proof.
  revert set. induction l as [|[i e] l IH]; intros set Hk Hnd; [done|].
  simpl in Hnd. apply NoDup_cons in Hnd as [Hi Hnd]. unfold sdk_set in *. rewrite fmap_cons. cbn [foldl].
  rewrite IH; [|intros; apply Hk; by right|done].
  assert (He : entryKey e = i) by (apply (Hk (i, e)); constructor).
  change (sdk_apply set ((put_event ∘ snd) (i, e))) with (<[entryKey e := EntryToProto e]> set).
  rewrite list_to_map_cons, He, !lookup_insert. destruct (decide (i = k)) as [<-|Hne]; [|done].
  by rewrite (not_elem_of_list_to_map_1 l i).
Qed.

Lemma sdk_deletes set (l : list (string * ServiceEntry)) k :
  (∀ p, p ∈ l → entryKey p.2 = p.1) →
  sdk_set set (delete_event ∘ snd <$> l) !! k = if decide (k ∈ l.*1) then None else set !! k.
Proof.
  revert set. induction l as [|[i e] l IH]; intros set Hk; [done|].
  unfold sdk_set in *. rewrite fmap_cons. cbn [foldl]. rewrite IH by (intros; apply Hk; by right).
  assert (He : entryKey e = i) by (apply (Hk (i, e)); constructor).
  change (sdk_apply set ((delete_event ∘ snd) (i, e))) with (delete (entryKey e) set). rewrite He, lookup_delete.
  repeat case_decide; set_solver.
Qed.

Lemma shows_delta `{MapRange} set last cur :
  keyed last → keyed cur → shows set last → shows (sdk_set set (watch_delta last cur)) cur.
Proof.
  intros Hkl Hkc Hs k. unfold watch_delta, sdk_set. rewrite foldl_app.
  set (puts := filter _ (range cur)). set (dels := filter _ (range last)).
  fold (sdk_set set (put_event ∘ snd <$> puts)).
  fold (sdk_set (sdk_set set (put_event ∘ snd <$> puts)) (delete_event ∘ snd <$> dels)).
  assert (Hpk : ∀ p, p ∈ puts → entryKey p.2 = p.1 ∧ cur !! p.1 = Some p.2 ∧
            match last !! p.1 with None => true | Some prev => endpointChanged prev p.2 end = true).
  { intros [i e] [Hp Hi%elem_of_range]%list_elem_of_filter. split; [by apply Hkc|]. done. }
  assert (Hdk : ∀ p, p ∈ dels → entryKey p.2 = p.1 ∧ last !! p.1 = Some p.2 ∧ cur !! p.1 = None).
  { intros [i e] [Hp Hi%elem_of_range]%list_elem_of_filter. split; [by apply Hkl|]. done. }
  rewrite sdk_deletes by (intros; by apply Hdk).
  rewrite sdk_puts; [|intros; by apply Hpk|].
  2: { eapply sublist_NoDup; [apply (NoDup_range_fst cur)|]. unfold puts.
       generalize (range cur). intros l. induction l as [|p l IHl]; [done|]. rewrite filter_cons.
       case_decide; cbn [fmap list_fmap]; by constructor. }
  specialize (Hs k). destruct (cur !! k) as [e|] eqn:Hc.
  - rewrite decide_False by (intros ([i x] & -> & Hx)%list_elem_of_fmap; apply Hdk in Hx as (_ & _ & ?); simpl in *; congruence).
    destruct (list_to_map puts !! k) as [e'|] eqn:Hp.
    + apply elem_of_list_to_map_2, Hpk in Hp as (_ & Hp & _). simpl in Hp.
      assert (e' = e) as -> by congruence. exists e. split; [done|]. split; [by apply Hkc|done].
    + destruct (last !! k) as [prev|] eqn:Hl.
      * destruct Hs as (e0 & Hs0 & Hk0 & He0). exists e0. split; [done|]. split; [done|].
        apply same_endpoint_spec. eapply endpointChanged_trans; [by apply same_endpoint_spec|]. destruct (endpointChanged prev e) eqn:Hch; [|done]. exfalso.
        assert (Hin : (k, e) ∈ puts).
        { apply list_elem_of_filter. simpl. rewrite Hl. split; [done|]. by apply elem_of_range. }
        apply not_elem_of_list_to_map_2 in Hp. apply Hp, list_elem_of_fmap. by exists (k, e).
      * exfalso. assert (Hin : (k, e) ∈ puts).
        { apply list_elem_of_filter. simpl. rewrite Hl. split; [done|]. by apply elem_of_range. }
        apply not_elem_of_list_to_map_2 in Hp. apply Hp, list_elem_of_fmap. by exists (k, e).
  - case_decide as Hd; [done|].
    destruct (list_to_map puts !! k) as [e'|] eqn:Hp.
    { apply elem_of_list_to_map_2, Hpk in Hp as (_ & Hp & _). simpl in Hp. congruence. }
    destruct (last !! k) as [prev|] eqn:Hl; [|done]. exfalso. apply Hd, list_elem_of_fmap.
    exists (k, prev). split; [done|]. apply list_elem_of_filter. split; [done|]. by apply elem_of_range.
Qed.

Lemma shows_first entries : shows (sdk_set ∅ (watch_first entries)) (watch_set entries).
Proof.
  induction entries as [|e l IH] using rev_ind; intros k.
  { unfold watch_set, sdk_set; simpl. by rewrite !lookup_empty. }
  rewrite watch_set_snoc. unfold watch_first, sdk_set in *. rewrite fmap_app, foldl_app. simpl.
  fold (sdk_apply (foldl sdk_apply ∅ (put_event <$> l)) (put_event e)).
  rewrite sdk_apply_put, !lookup_insert. specialize (IH k).
  destruct (decide (entryKey e = k)); [exists e; done|done].
Qed.

(** ** Claims *)

(** Registration through the agent: an empty one, or one with a nameless service,
    is refused without a write; otherwise the services are sent under the agent's
    own node, with their IDs filled in; below the quorum nothing is hosted, and at
    the quorum exactly the sent services are, at the registered generation, besides
    what was hosted before. *)
Theorem RegisterServices_correct (write : Registration → WriteResult) (reg : Registration) (p : Proxy) :
  (Reg_Services reg = [] ∨ (∃ s, s ∈ Reg_Services reg ∧ Svc_Name s = ""%string) →
     ∃ msg, RegisterServices write reg p = (Some (PxInvalidArgument msg), p)) ∧
  (Reg_Services reg ≠ [] → (∀ s, s ∈ Reg_Services reg → Svc_Name s ≠ ""%string) →
     ∃ reg', stamped p reg = Some reg' ∧ Reg_Node reg' = px_node p ∧
       (Succeeded (write reg') < px_quorum p →
          ∃ msg, RegisterServices write reg p = (Some (PxUnavailable msg), p)) ∧
       (px_quorum p <= Succeeded (write reg') → ∃ p',
          RegisterServices write reg p = (None, p') ∧ px_node p' = px_node p ∧
          (hosted_ok p → hosted_ok p') ∧
          (∀ id, id ∉ Svc_ID <$> Reg_Services reg' → px_hosted p' !! id = px_hosted p !! id) ∧
          (NoDup (Svc_ID <$> Reg_Services reg') → ∀ s, s ∈ Reg_Services reg' →
             px_hosted p' !! Svc_ID s = Some (with_Generation (Reg_Generation reg) s)))).
Proof.
  split.
  - intros Hbad. unfold RegisterServices. destruct (Reg_Services reg) as [|x l] eqn:E; [by eexists|]. simpl.
    unfold stamped. rewrite E. destruct (stamp_ids (x :: l)) as [l'|] eqn:Es; [|by eexists]. exfalso.
    apply stamp_ids_spec in Es as [Hn _]. rewrite Forall_forall in Hn.
    destruct Hbad as [|(s & Hs & Hx)]; [done|]. by apply (Hn s).
  - intros Hne Hnames.
    assert (Hst : ∃ reg', stamped p reg = Some reg').
    { unfold stamped. destruct (stamp_ids (Reg_Services reg)) as [l|] eqn:E; [by eexists|].
      assert (Hx : stamp_ids (Reg_Services reg) = Some ((λ s, if bool_decide (Svc_ID s = ""%string)
                then with_ID (Svc_Name s) s else s) <$> Reg_Services reg)); [|congruence].
      apply stamp_ids_spec. split; [by apply Forall_forall|done]. }
    destruct Hst as [reg' Hst]. pose proof (stamped_ok _ _ _ Hst) as (Hnode & Hgen & _ & Hok).
    exists reg'. split; [done|]. split; [done|].
    pose proof (RegisterServices_hosted_ok write reg p) as Hho.
    unfold RegisterServices in *. rewrite Hst in *. destruct (Reg_Services reg) as [|x l]; [done|].
    simpl length in *. cbn [Nat.eqb] in *. unfold WriteResult_OK in *. split.
    + intros Hlt. destruct (Z.leb_spec (px_quorum p) (Succeeded (write reg'))); [lia|by eexists].
    + intros Hge. destruct (Z.leb_spec (px_quorum p) (Succeeded (write reg'))); [|lia]. simpl in *.
      eexists. split; [done|]. split; [done|]. split; [done|]. split.
      * intros id Hid. simpl. by apply host_all_other.
      * intros Hnd s Hs. simpl. rewrite <-Hgen. by apply host_all_lookup.
Qed.

Definition sampleProxy : Proxy := NewProxy (sampleNode "a1") 1.

Lemma RegisterServices_correct_witness :
  (∃ msg, RegisterServices (λ _, mkWriteResult 3 2 ∅) (mkRegistration zeroNode [] 1) sampleProxy =
    (Some (PxInvalidArgument msg), sampleProxy)) ∧
  ∃ reg', stamped sampleProxy sampleReg = Some reg' ∧ Reg_Node reg' = sampleNode "a1".
Proof.
  split.
  - apply (RegisterServices_correct (λ _, mkWriteResult 3 2 ∅) (mkRegistration zeroNode [] 1) sampleProxy).
    by left.
  - destruct (RegisterServices_correct (λ _, mkWriteResult 3 2 ∅) sampleReg sampleProxy) as [_ Hr].
    destruct Hr as (reg' & H1 & H2 & _); [discriminate|apply sampleReg_valid|].
    exists reg'. split; [exact H1|exact H2].
Defined.

(** The renew loop keeps the hosted leases alive, and only those that no active
    check owns: on a seed that holds the agent's services, the request of a tick
    makes every hosted service without an active check passing at that instant,
    and leaves the lease of every service with an active check as it is. *)
Theorem renewOnce_keeps_alive `{MapRange} (p : Proxy) (clk : Clock) (m : Memory) (nid : string) (ids : list string) :
  wf m → renewOnce p = Some (nid, ids) →
  (∀ id, is_Some (px_hosted p !! id) → is_Some (lookup_service m (Node_ID (px_node p)) id)) →
  let m' := (Renew clk nid ids m).2 in
  ∀ id, is_Some (px_hosted p !! id) →
    if (match px_checkGate p with Some gate => gate id | None => false end)
    then lookup_service m' nid id = lookup_service m nid id
    else ∃ svc, lookup_service m' nid id = Some svc ∧ lease m svc (clk O) = (HealthPassing, false).
Proof.
  intros Hwf Hreq Hheld m' id Hid. destruct (Hheld id Hid) as [svc Hsvc].
  assert (Hpass : lease m (renewed (clk O) svc) (clk O) = (HealthPassing, false)).
  { apply lease_renewed. destruct (wf_svc _ Hwf _ _ _ Hsvc) as (_ & _ & [Hp _ _]). lia. }
  pose proof (lookup_service_is_Some _ _ _ _ Hsvc) as (n & Hn & _).
  unfold renewOnce in Hreq. destruct (hostedCount p =? 0); [done|]. unfold renewAll in Hreq.
  unfold m', Renew. destruct (px_checkGate p) as [gate|].
  - destruct (_ =? 0)%nat eqn:Hlen; [done|]. injection Hreq as <- <-. rewrite Hn.
    set (ids := filter _ _) in *. apply Nat.eqb_neq in Hlen.
    assert (Hin : ∀ x, x ∈ ids ↔ gate x = false ∧ is_Some (px_hosted p !! x)).
    { intros x. unfold ids. rewrite list_elem_of_filter, list_elem_of_fmap. split.
      - intros (Hg & [y s] & -> & Hy%elem_of_range). simpl in *. eauto.
      - intros (Hg & [s Hs]). split; [done|]. exists (x, s). by rewrite elem_of_range. }
    destruct ids as [|i0 ids0] eqn:Ei; [done|]. rewrite <-Ei in *.
    destruct (renew_loop_spec (clk O) (Node_ID (px_node p)) ids m) as [[Hl _ _ _] _].
    assert (Hf : found_ids m (Node_ID (px_node p)) ids = ids).
    { assert (Hall : ∀ x, x ∈ ids → is_Some (lookup_service m (Node_ID (px_node p)) x))
        by (intros x Hx; apply Hheld, (Hin x), Hx).
      clear -Hall. induction ids as [|x l IH]; simpl; [done|].
      destruct (Hall x) as [? ->]; [constructor|]. f_equal. apply IH. intros y Hy. apply Hall. by constructor. }
    rewrite Hf in Hl. destruct (gate id) eqn:Hg.
    + rewrite Hl, decide_False; [done|]. intros [_ Hx%Hin]. destruct Hx. congruence.
    + exists (renewed (clk O) svc). split; [|done]. rewrite Hl, decide_True by (split; [done|by apply Hin]).
      by rewrite Hsvc.
  - injection Hreq as <- <-. rewrite Hn. simpl. exists (renewed (clk O) svc). split; [|done].
    rewrite renew_all_spec, decide_True by done. by rewrite Hsvc.
Qed.

Lemma renewOnce_keeps_alive_witness :
  let p := SetCheckGate (λ id, bool_decide (id = "db-1"%string))
             (mkProxy (sampleNode "n1") 1 {[ "web"%string := sampleService "web" "web" [] ]} None) in
  ∃ svc, lookup_service (Renew (frozen (1010 * second)) "n1" ["web"%string] sampleRun.1).2 "n1" "web" = Some svc ∧
    lease sampleRun.1 svc (1010 * second) = (HealthPassing, false).
Proof.
  intros p. pose proof (@renewOnce_keeps_alive list_order p (frozen (1010 * second)) sampleRun.1 "n1" ["web"%string]) as Hr.
  cbn zeta in Hr. specialize (Hr (wf_reachable sampleOptions _ sampleRun.2 sampleRun_reachable)).
  assert (Hreq : @renewOnce list_order p = Some ("n1"%string, ["web"%string])) by (vm_compute; reflexivity).
  assert (Hhost : ∀ id, is_Some (px_hosted p !! id) → id = "web"%string).
  { intros id Hid. simpl in Hid. destruct (decide (id = "web"%string)) as [->|Hne]; [done|].
    rewrite lookup_singleton_ne in Hid by congruence. by destruct Hid. }
  specialize (Hr Hreq).
  assert (Hheld : ∀ id, is_Some (px_hosted p !! id) →
            is_Some (lookup_service sampleRun.1 (Node_ID (px_node p)) id)).
  { intros id ->%Hhost. vm_compute. eexists; reflexivity. }
  specialize (Hr Hheld "web"%string). apply Hr. vm_compute. eexists; reflexivity.
Defined.

(** The consumer of a stream that is past its snapshot. *)
Lemma sdk_recv_deltas `{MapRange} idx evs c :
  sdk_ready c = true → sdk_out c = Some (snapshot (sdk_entries c)) →
  foldl sdk_recv c ((λ ev, WatchEvent ev idx) <$> evs) =
    mkSdkState (sdk_set (sdk_entries c) evs) true (Some (snapshot (sdk_set (sdk_entries c) evs))).
Proof.
  revert c. induction evs as [|ev evs IH]; intros [set rdy out] Hr Ho; simpl in Hr, Ho; subst; [done|].
  rewrite fmap_cons. cbn [foldl]. by rewrite IH.
Qed.

(** The consumer during the snapshot. *)
Lemma sdk_recv_snapshot `{MapRange} idx evs set :
  foldl sdk_recv (mkSdkState set false None) (((λ ev, WatchEvent ev idx) <$> evs) ++ [SnapshotDone idx]) =
    mkSdkState (sdk_set set evs) true (Some (snapshot (sdk_set set evs))).
Proof.
  revert set. induction evs as [|ev evs IH]; intros set; [done|].
  exact (IH (sdk_apply set ev)).
Qed.

Lemma watch_set_answer entries k : watch_set entries !! k = answer_of k entries.
Proof.
  unfold answer_of. induction entries as [|e l IH] using rev_ind; [done|].
  rewrite watch_set_snoc, lookup_insert, filter_app, filter_cons, filter_nil, IH.
  change (entryKey e) with (stream_key e). case_decide; [by rewrite last_snoc|by rewrite app_nil_r].
Qed.

Lemma shows_lists set entries : shows set (watch_set entries) → lists_answer set entries.
Proof.
  intros Hs k. specialize (Hs k). rewrite watch_set_answer in Hs. destruct (answer_of k entries) as [e|]; [|done].
  destruct Hs as (e' & He' & Hk & [H1 H2 H3 H4]). eexists. split; [exact He'|].
  eexists _, _. split; [done|]. split; [done|]. split; [exact Hk|]. split_and!; [done..|].
  rewrite <-H4. apply HealthFromProto_ToProto.
Qed.

(** The stream and its consumer, turn by turn. *)
Definition stream_turn `{MapRange} (s : WatchState * SdkState) (turn : Z * option (list ServiceEntry))
  : WatchState * SdkState :=
  let '(msgs, ws) := watch_turn turn.1 turn.2 s.1 in (ws, foldl sdk_recv s.2 msgs).

Definition stream_ok `{MapRange} (s : WatchState * SdkState) : Prop :=
  if ws_first s.1 then s.2 = sdk_start
  else keyed (ws_last s.1) ∧ shows (sdk_entries s.2) (ws_last s.1) ∧
       sdk_ready s.2 = true ∧ sdk_out s.2 = Some (snapshot (sdk_entries s.2)).

Lemma stream_turn_ok `{MapRange} s turn : stream_ok s → stream_ok (stream_turn s turn).
Proof.
  destruct s as [[last li first] c], turn as [idx r]. unfold stream_ok, stream_turn, watch_turn.
  cbn [fst snd ws_first ws_last ws_lastIdx]. intros Hs.
  destruct ((idx =? li) && negb first); [exact Hs|]. destruct r as [entries|]; [|exact Hs].
  cbn [fst snd ws_first ws_last]. split; [apply watch_set_keyed|]. destruct first.
  - subst c. unfold sdk_start. rewrite sdk_recv_snapshot. simpl. split; [apply shows_first|done].
  - destruct Hs as (Hk & Hs & Hr & Ho). rewrite sdk_recv_deltas by done. simpl.
    split; [|done]. apply shows_delta; [done|apply watch_set_keyed|done].
Qed.

(** What the state of the stream remembers is an answer one of the turns brought. *)
Lemma stream_last `{MapRange} turns :
  let s := foldl stream_turn (watch_start, sdk_start) turns in
  ws_first s.1 = false → ∃ idx entries, (idx, Some entries) ∈ turns ∧ ws_last s.1 = watch_set entries.
Proof.
  intros s. subst s. induction turns as [|[idx r] l IH] using rev_ind; [done|].
  rewrite foldl_app. cbn [foldl]. set (s := foldl _ _ l) in *. unfold stream_turn, watch_turn. cbn [fst snd].
  destruct ((idx =? ws_lastIdx s.1) && negb (ws_first s.1)).
  { cbn [fst]. intros Hf. destruct (IH Hf) as (i & es & Hi & He). exists i, es. set_solver. }
  destruct r as [entries|]; cbn [fst ws_first ws_last].
  - intros _. exists idx, entries. set_solver.
  - intros Hf. destruct (IH Hf) as (i & es & Hi & He). exists i, es. set_solver.
Qed.

(** C23: the agent's watch stream and the SDK agree, whatever lookups fail and however
    often the wait times out: before the first answered lookup the consumer has
    seen nothing; from then on its set always lists exactly the instances of one of
    the answers, each under its identity with the address, port, generation and health
    of that answer, and the channel holds that set; a turn that brings an answer, the
    first one or one with a moved index, makes it list that answer, and any other turn
    changes nothing.  (Tags, metadata and the node's address are as of the turn an
    instance last moved.) *)
Theorem watch_stream_tracks `{MapRange} (turns : list (Z * option (list ServiceEntry))) :
  let s := foldl stream_turn (watch_start, sdk_start) turns in
  (ws_first s.1 = true → s.2 = sdk_start) ∧
  (ws_first s.1 = false → (∃ idx entries, (idx, Some entries) ∈ turns ∧ lists_answer (sdk_entries s.2) entries) ∧
     sdk_out s.2 = Some (snapshot (sdk_entries s.2))) ∧
  (∀ idx entries, ws_first s.1 = true ∨ idx ≠ ws_lastIdx s.1 →
     let s' := stream_turn s (idx, Some entries) in
     ws_first s'.1 = false ∧ ws_lastIdx s'.1 = idx ∧
     lists_answer (sdk_entries s'.2) entries ∧ sdk_out s'.2 = Some (snapshot (sdk_entries s'.2))) ∧
  (∀ idx, (stream_turn s (idx, None)).2 = s.2) ∧
  (∀ r, ws_first s.1 = false → stream_turn s (ws_lastIdx s.1, r) = s).
Proof.
  intros s. assert (Hok : stream_ok s).
  { subst s. induction turns as [|t l IH] using rev_ind; [done|].
    rewrite foldl_app. by apply stream_turn_ok. }
  split; [|split; [|split; [|split]]].
  - intros Hf. unfold stream_ok in Hok. by rewrite Hf in Hok.
  - intros Hf. destruct (stream_last turns Hf) as (idx & es & Hin & Hl). fold s in Hl.
    unfold stream_ok in Hok. rewrite Hf in Hok. destruct Hok as (_ & Hok & _ & ?). split; [|done].
    exists idx, es. split; [done|]. apply shows_lists. by rewrite <-Hl.
  - intros idx entries Hidx s'. pose proof (stream_turn_ok _ (idx, Some entries) Hok) as Hok'.
    fold s' in Hok'.
    assert (Hs' : ws_first s'.1 = false ∧ ws_last s'.1 = watch_set entries ∧ ws_lastIdx s'.1 = idx).
    { subst s'. unfold stream_turn, watch_turn. cbn [fst snd].
      destruct (Z.eqb_spec idx (ws_lastIdx s.1)), (ws_first s.1); simpl; naive_solver. }
    destruct Hs' as (Hf & Hl & Hi). split; [done|]. split; [done|]. unfold stream_ok in Hok'.
    rewrite Hf, Hl in Hok'. destruct Hok' as (_ & Hok' & _ & ?). split; [by apply shows_lists|done].
  - intros idx. unfold stream_turn, watch_turn. cbn [fst snd]. by destruct (_ && _).
  - intros r Hf. unfold stream_turn, watch_turn. cbn [fst snd]. rewrite Z.eqb_refl, Hf. by destruct s.
Qed.

(** A federated read of healthy instances can answer a retired version: the
    remote seeds filter before the merge, so when the freshest seed knows the
    instance to be critical it sends nothing and the stale passing copy of another
    seed wins, where the local path, which filters after the merge, answers none. *)
Theorem federated_filter_before_merge :
  let reg gen := mkRegistration (sampleNode "n1") [sampleService "web" "web" []] gen in
  let m1 := (@apply list_order (frozen 5) (OpRegister (reg 1)) (NewMemory sampleOptions)).1 in
  let m2 := (@apply list_order (frozen 5) (OpFail "n1" "web")
              (@apply list_order (frozen 5) (OpRegister (reg 2)) (NewMemory sampleOptions)).1).1 in
  let net q := @SeedClient_Lookup list_order
    ((λ m, Some (@Service_Lookup list_order (frozen 5) (Some (QueryToProto q)) m)) <$> [m1; m2]) in
  let q := mkQuery "web" "" [] true in
  let fed := mkPool "dc0" {[ "dc1"%string := net ]} in
  (∃ lr, directLookup net q = Some lr ∧ Lookup_Entries lr = []) ∧
  (∃ lr e, Pool_Resolve fed "dc1" q = Some lr ∧ Lookup_Entries lr = [e] ∧
     Svc_Generation (Entry_Service e) = 1 ∧ Entry_Health e = HealthPassing).
Proof. vm_compute. split; [eexists; split; reflexivity|eexists _, _; repeat split; reflexivity]. Qed.
