(* ===== verification/GoText.v ===== *)
(** More of Go's [strings] package, used by the Consul surfaces: case folding,
    splitting at a byte, and cutting at the first byte of a class.

    [strings.EqualFold] and [strings.ToLower] compare Unicode code points.  The
    second argument of every comparison in the sources is ASCII, so the only
    non-ASCII text that can match it are the three code points whose folding or
    lower case is an ASCII letter: U+017F (s), U+212A (k) and U+0130 (i). *)

From Stdlib Require Import ZArith Lia Ascii.
From stdpp Require Import base list strings.
From S2P Require Import Prelude GoStrings.

(** ** Case *)

Definition lower (c : ascii) : ascii :=
  let n := N_of_ascii c in
  if ((65 <=? n) && (n <=? 90))%N then ascii_of_N (n + 32) else c.

(** [strings.ToLower] on ASCII text. *)
Fixpoint ToLower (s : string) : string :=
  match s with
  | EmptyString => EmptyString
  | String c s' => String (lower c) (ToLower s')
  end.

(** [s] without the prefix [p], when it has it and [p] is not empty. *)
Definition strip (p s : string) : option string :=
  match p with
  | EmptyString => None
  | _ => if HasPrefix s p then Some (str_drop (String.length p) s) else None
  end.

(** The UTF-8 form of the non-ASCII code point that folds to the letter [c]. *)
Definition folds_to (c : ascii) : string :=
  if bool_decide (lower c = "s"%char) then String (ascii_of_N 197) (String (ascii_of_N 191) EmptyString)
  else if bool_decide (lower c = "k"%char)
       then String (ascii_of_N 226) (String (ascii_of_N 132) (String (ascii_of_N 170) EmptyString))
       else EmptyString.

(** The UTF-8 form of the non-ASCII code point whose lower case is [c]. *)
Definition lowers_to (c : ascii) : string :=
  if bool_decide (c = "i"%char) then String (ascii_of_N 196) (String (ascii_of_N 176) EmptyString)
  else if bool_decide (c = "k"%char)
       then String (ascii_of_N 226) (String (ascii_of_N 132) (String (ascii_of_N 170) EmptyString))
       else EmptyString.

(** [strings.EqualFold(s, t)] for an ASCII [t]. *)
Fixpoint EqualFold (s t : string) {struct t} : bool :=
  match t with
  | EmptyString => match s with EmptyString => true | _ => false end
  | String c t' =>
      match s with
      | EmptyString => false
      | String b s' =>
          if bool_decide (lower b = lower c) then EqualFold s' t'
          else match strip (folds_to c) s with
               | Some s'' => EqualFold s'' t'
               | None => false
               end
      end
  end.

(** [strings.ToLower(s) == t] for an ASCII [t] in lower case. *)
Fixpoint ToLower_is (s t : string) {struct t} : bool :=
  match t with
  | EmptyString => match s with EmptyString => true | _ => false end
  | String c t' =>
      match s with
      | EmptyString => false
      | String b s' =>
          if bool_decide (lower b = c) then ToLower_is s' t'
          else match strip (lowers_to c) s with
               | Some s'' => ToLower_is s'' t'
               | None => false
               end
      end
  end.

Definition upper (c : ascii) : ascii :=
  let n := N_of_ascii c in
  if ((97 <=? n) && (n <=? 122))%N then ascii_of_N (n - 32) else c.

(** The UTF-8 form of the non-ASCII code point whose upper case is [c] (U+0131 and U+017F). *)
Definition uppers_to (c : ascii) : string :=
  if bool_decide (c = "I"%char) then String (ascii_of_N 196) (String (ascii_of_N 177) EmptyString)
  else if bool_decide (c = "S"%char) then String (ascii_of_N 197) (String (ascii_of_N 191) EmptyString)
  else EmptyString.

(** [strings.ToUpper(s) == t] for an ASCII [t] in upper case. *)
Fixpoint ToUpper_is (s t : string) {struct t} : bool :=
  match t with
  | EmptyString => match s with EmptyString => true | _ => false end
  | String c t' =>
      match s with
      | EmptyString => false
      | String b s' =>
          if bool_decide (upper b = c) then ToUpper_is s' t'
          else match strip (uppers_to c) s with
               | Some s'' => ToUpper_is s'' t'
               | None => false
               end
      end
  end.

(** ** Cutting and splitting *)

(** The longest prefix of bytes in [p], and the rest. *)
Fixpoint span (p : ascii → bool) (s : string) : string * string :=
  match s with
  | EmptyString => (EmptyString, EmptyString)
  | String c s' => if p c then let '(a, b) := span p s' in (String c a, b) else (EmptyString, s)
  end.

(** [strings.Split(s, sep)] for a one-byte separator. *)
Fixpoint Split (s : string) (sep : ascii) : list string :=
  match s with
  | EmptyString => [EmptyString]
  | String c s' =>
      if bool_decide (c = sep) then EmptyString :: Split s' sep
      else match Split s' sep with
           | [] => [String c EmptyString]
           | x :: rest => String c x :: rest
           end
  end.

(** [strings.Trim(s, "c")] for one byte. *)
Fixpoint trim_left_byte (c : ascii) (s : string) : string :=
  match s with
  | EmptyString => EmptyString
  | String a s' => if bool_decide (a = c) then trim_left_byte c s' else s
  end.

Fixpoint trim_right_byte (c : ascii) (s : string) : string :=
  match s with
  | EmptyString => EmptyString
  | String a s' =>
      match trim_right_byte c s' with
      | EmptyString => if bool_decide (a = c) then EmptyString else String a EmptyString
      | t => String a t
      end
  end.

Definition TrimByte (s : string) (c : ascii) : string := trim_right_byte c (trim_left_byte c s).

(** The value [strconv.ParseUint] returns beside its error: the largest one when a
    digit overflows, 0 when a byte is not a digit. *)
Fixpoint parse_value (max acc : Z) (s : string) : Z :=
  match s with
  | EmptyString => acc
  | String c s' =>
      match digit_val c with
      | None => 0
      | Some d => if (max <? acc * 10 + d)%Z then max else parse_value max (acc * 10 + d)%Z s'
      end
  end.

(** [strconv.Atoi]: an optional sign and decimal digits, in the range of an [int]. *)
Definition Atoi (s : string) : option Z :=
  match s with
  | String "-" s' => n ← ParseUint s' 64; if (2 ^ 63 <? n)%Z then None else Some (- n)%Z
  | String "+" s' => n ← ParseUint s' 64; if (2 ^ 63 <=? n)%Z then None else Some n
  | _ => n ← ParseUint s 64; if (2 ^ 63 <=? n)%Z then None else Some n
  end.

(** [strconv.Itoa] of an [int]. *)
Definition Itoa (z : Z) : string := if (z <? 0)%Z then "-" +:+ FormatUint (- z)%Z else FormatUint z.

(** Every byte is in [p]. *)
Fixpoint all_bytes (p : ascii → bool) (s : string) : bool :=
  match s with
  | EmptyString => true
  | String c s' => p c && all_bytes p s'
  end.

(** ** Lemmas *)

Lemma EqualFold_refl s : EqualFold s s = true.
Proof. induction s as [|c s IH]; simpl; [done|]. by rewrite bool_decide_eq_true_2. Qed.

Lemma span_spec p s : let '(a, b) := span p s in
  s = a +:+ b ∧ all_bytes p a = true ∧ match b with EmptyString => True | String c _ => p c = false end.
Proof.
  induction s as [|c s IH]; [done|]. simpl. destruct (p c) eqn:Hc; [|done].
  destruct (span p s) as [a b]. destruct IH as (-> & Ha & Hb). split; [done|]. simpl. by rewrite Hc.
Qed.

Lemma span_app p a b :
  all_bytes p a = true → match b with EmptyString => True | String c _ => p c = false end →
  span p (a +:+ b) = (a, b).
Proof.
  intros Ha Hb. induction a as [|c a IH].
  - rewrite str_app_nil_l. destruct b as [|c b]; [done|]. simpl. by rewrite Hb.
  - simpl in Ha. apply andb_true_iff in Ha as [Hc Ha]. rewrite str_app_cons. cbn [span].
    by rewrite Hc, IH.
Qed.

Lemma span_length p s : let '(a, b) := span p s in (String.length b <= String.length s)%nat.
Proof.
  pose proof (span_spec p s) as Hs. destruct (span p s) as [a b]. destruct Hs as (-> & _).
  rewrite str_length_app. lia.
Qed.

Lemma Split_Join sep l :
  l ≠ [] → Forall (λ s, no_byte sep s = true) l → Split (Join l (String sep EmptyString)) sep = l.
Proof.
  assert (Hone : ∀ s, no_byte sep s = true → Split s sep = [s]).
  { induction s as [|c s IH]; [done|]. simpl. intros [Hc%negb_true_iff Hs]%andb_true_iff.
    by rewrite Hc, IH. }
  assert (Hcons : ∀ s t, no_byte sep s = true → Split (s +:+ String sep t) sep = s :: Split t sep).
  { induction s as [|c s IH]; intros t.
    - rewrite str_app_nil_l. simpl. by rewrite bool_decide_eq_true_2.
    - rewrite str_app_cons. simpl. intros [Hc%negb_true_iff Hs]%andb_true_iff. by rewrite Hc, IH. }
  intros Hne Hl. induction Hl as [|s l Hs Hl IH]; [done|]. destruct l as [|x l]; [by apply Hone|].
  cbn [Join]. rewrite str_app_cons, str_app_nil_l, Hcons by done. f_equal. by apply IH.
Qed.

Lemma ToLower_app a b : ToLower (a +:+ b) = ToLower a +:+ ToLower b.
Proof. induction a as [|c a IH]; [done|]. rewrite !str_app_cons. simpl. by rewrite IH. Qed.
