(* ===== verification/GoJson.v ===== *)
(** Go's [encoding/json], as far as the Consul surface and the migration use it: the text
    of a document (strings with their escapes and their UTF-8, numbers, arrays, objects),
    its scanner, and the values of Go it is marshalled from and unmarshalled into are in
    [JsonType].

    A number is kept as its literal, as the library's scanner does: what it means is
    decided by the type it is read into. *)

From Stdlib Require Import ZArith Lia Ascii.
From stdpp Require Import base list strings.
From S2P Require Import Prelude GoStrings GoText.

#[local] Open Scope Z_scope.

(** ** UTF-8 *)

Definition byte_in (lo hi : N) (c : ascii) : bool := ((lo <=? N_of_ascii c) && (N_of_ascii c <=? hi))%N.

(** The well-formed sequences of two, three and four bytes ([utf8.DecodeRune]). *)
Definition two (a b : ascii) : bool := byte_in 0xC2 0xDF a && byte_in 0x80 0xBF b.

Definition three (a b c : ascii) : bool :=
  (byte_in 0xE0 0xE0 a && byte_in 0xA0 0xBF b || byte_in 0xE1 0xEC a && byte_in 0x80 0xBF b
   || byte_in 0xED 0xED a && byte_in 0x80 0x9F b || byte_in 0xEE 0xEF a && byte_in 0x80 0xBF b)
  && byte_in 0x80 0xBF c.

Definition four (a b c d : ascii) : bool :=
  (byte_in 0xF0 0xF0 a && byte_in 0x90 0xBF b || byte_in 0xF1 0xF3 a && byte_in 0x80 0xBF b
   || byte_in 0xF4 0xF4 a && byte_in 0x80 0x8F b)
  && byte_in 0x80 0xBF c && byte_in 0x80 0xBF d.

(** A code point of a string: one ASCII byte, a sequence of bytes, or a byte that begins
    no well-formed sequence. *)
Inductive Rune := RByte (c : ascii) | RMulti (s : string) | RInvalid.

Definition str2 (a b : ascii) : string := String a (String b EmptyString).
Definition str3 (a b c : ascii) : string := String a (str2 b c).
Definition str4 (a b c d : ascii) : string := String a (str3 b c d).

Fixpoint runes (s : string) : list Rune :=
  match s with
  | EmptyString => []
  | String a s1 =>
      if byte_in 0 0x7F a then RByte a :: runes s1
      else
        match s1 with
        | EmptyString => [RInvalid]
        | String b s2 =>
            if two a b then RMulti (str2 a b) :: runes s2
            else
              match s2 with
              | EmptyString => RInvalid :: runes s1
              | String c s3 =>
                  if three a b c then RMulti (str3 a b c) :: runes s3
                  else
                    match s3 with
                    | EmptyString => RInvalid :: runes s1
                    | String d s4 => if four a b c d then RMulti (str4 a b c d) :: runes s4 else RInvalid :: runes s1
                    end
              end
        end
  end.

(** [utf8.RuneError], U+FFFD. *)
Definition replacement : string := str3 (ascii_of_N 0xEF) (ascii_of_N 0xBF) (ascii_of_N 0xBD).

Definition rune_text (r : Rune) : string :=
  match r with RByte c => String c EmptyString | RMulti s => s | RInvalid => replacement end.

Definition cat (l : list string) : string := foldr String.append EmptyString l.

(** The string with every invalid byte replaced. *)
Definition to_valid (s : string) : string := cat (rune_text <$> runes s).

Definition is_valid_rune (r : Rune) : bool := match r with RInvalid => false | _ => true end.

(** [utf8.ValidString]. *)
Definition utf8_valid (s : string) : bool := forallb is_valid_rune (runes s).

(** [utf8.EncodeRune]. *)
Definition byte_of (z : Z) : ascii := ascii_of_N (Z.to_N z).

Definition is_surrogate (r : Z) : bool := (0xD800 <=? r) && (r <? 0xE000).

Definition encode_rune (r : Z) : string :=
  if r <? 0x80 then String (byte_of r) EmptyString
  else if r <? 0x800 then str2 (byte_of (0xC0 + r / 64)) (byte_of (0x80 + r mod 64))
  else if is_surrogate r || (0x10FFFF <? r) then replacement
  else if r <? 0x10000 then str3 (byte_of (0xE0 + r / 4096)) (byte_of (0x80 + r / 64 mod 64)) (byte_of (0x80 + r mod 64))
  else str4 (byte_of (0xF0 + r / 262144)) (byte_of (0x80 + r / 4096 mod 64)) (byte_of (0x80 + r / 64 mod 64)) (byte_of (0x80 + r mod 64)).

(** ** Strings *)

Definition DQ : ascii := ascii_of_N 34.
Definition BSL : ascii := ascii_of_N 92.

Definition hex_digit (n : N) : ascii := if (n <? 10)%N then ascii_of_N (48 + n) else ascii_of_N (87 + n).

(** What the encoder writes for an ASCII byte, with the escapes of HTML on. *)
Definition quote_byte (c : ascii) : string :=
  let n := N_of_ascii c in
  if bool_decide (c = DQ) || bool_decide (c = BSL) then str2 BSL c
  else if (n =? 8)%N then str2 BSL "b"
  else if (n =? 12)%N then str2 BSL "f"
  else if (n =? 10)%N then str2 BSL "n"
  else if (n =? 13)%N then str2 BSL "r"
  else if (n =? 9)%N then str2 BSL "t"
  else if (n <? 32)%N || bool_decide (c = "<"%char) || bool_decide (c = ">"%char) || bool_decide (c = "&"%char)
  then String BSL ("u00" +:+ str2 (hex_digit (n / 16)) (hex_digit (n mod 16)))
  else String c EmptyString.

(** U+2028 and U+2029 are escaped, an invalid byte is written as the escape of U+FFFD. *)
Definition quote_rune (r : Rune) : string :=
  match r with
  | RByte c => quote_byte c
  | RMulti s =>
      if bool_decide (s = str3 (ascii_of_N 0xE2) (ascii_of_N 0x80) (ascii_of_N 0xA8)) then String BSL "u2028"
      else if bool_decide (s = str3 (ascii_of_N 0xE2) (ascii_of_N 0x80) (ascii_of_N 0xA9)) then String BSL "u2029"
      else s
  | RInvalid => String BSL "ufffd"
  end.

Definition quote (s : string) : string := String DQ (cat (quote_rune <$> runes s) +:+ String DQ EmptyString).

(** [strconv.Quote], which [%q] prints: an ASCII byte with the escapes of Go, an
    invalid byte as its code, and a well-formed sequence as it is (Go escapes the code
    points its tables do not call printable, which are not told apart here). *)
Definition Quote_byte (c : ascii) : string :=
  let n := N_of_ascii c in
  if bool_decide (c = DQ) || bool_decide (c = BSL) then str2 BSL c
  else if (n =? 7)%N then str2 BSL "a"
  else if (n =? 8)%N then str2 BSL "b"
  else if (n =? 12)%N then str2 BSL "f"
  else if (n =? 10)%N then str2 BSL "n"
  else if (n =? 13)%N then str2 BSL "r"
  else if (n =? 9)%N then str2 BSL "t"
  else if (n =? 11)%N then str2 BSL "v"
  else if (n <? 32)%N || (126 <? n)%N
  then String BSL (String "x" (str2 (hex_digit (n / 16)) (hex_digit (n mod 16))))
  else String c EmptyString.

Fixpoint Quote_runes (rs : list Rune) (s : string) : string :=
  match rs, s with
  | RMulti t :: rs, _ => t +:+ Quote_runes rs (str_drop (String.length t) s)
  | _ :: rs, String c s => Quote_byte c +:+ Quote_runes rs s
  | _, _ => EmptyString
  end.

Definition Quote (s : string) : string := String DQ (Quote_runes (runes s) s +:+ String DQ EmptyString).

Definition hex_val (c : ascii) : option Z :=
  let n := Z.of_N (N_of_ascii c) in
  if (48 <=? n) && (n <=? 57) then Some (n - 48)
  else if (97 <=? n) && (n <=? 102) then Some (n - 87)
  else if (65 <=? n) && (n <=? 70) then Some (n - 55)
  else None.

Definition u4 (a b c d : ascii) : option Z :=
  a ← hex_val a; b ← hex_val b; c ← hex_val c; d ← hex_val d; Some (((a * 16 + b) * 16 + c) * 16 + d).

(** [utf16.DecodeRune] of a surrogate and the code unit after it. *)
Definition surrogate_pair (r1 r2 : Z) : option Z :=
  if (r1 <? 0xDC00) && (0xDC00 <=? r2) && (r2 <? 0xE000) then Some ((r1 - 0xD800) * 1024 + (r2 - 0xDC00) + 0x10000)
  else None.

(** The one-letter escapes. *)
Definition unescape (e : ascii) : option ascii :=
  if bool_decide (e = DQ) || bool_decide (e = BSL) || bool_decide (e = "/"%char) then Some e
  else if bool_decide (e = "b"%char) then Some (ascii_of_N 8)
  else if bool_decide (e = "f"%char) then Some (ascii_of_N 12)
  else if bool_decide (e = "n"%char) then Some (ascii_of_N 10)
  else if bool_decide (e = "r"%char) then Some (ascii_of_N 13)
  else if bool_decide (e = "t"%char) then Some (ascii_of_N 9)
  else None.

Definition prepend (p : string) (r : option (string * string)) : option (string * string) :=
  match r with Some (t, rest) => Some (p +:+ t, rest) | None => None end.

(** A literal after its opening quote: its bytes, the escapes resolved, and what follows
    the closing quote.  A surrogate without its other half is U+FFFD. *)
Fixpoint unquote_bytes (s : string) : option (string * string) :=
  match s with
  | EmptyString => None
  | String c s1 =>
      if bool_decide (c = DQ) then Some (EmptyString, s1)
      else if bool_decide (c = BSL) then
        match s1 with
        | EmptyString => None
        | String e s2 =>
            if bool_decide (e = "u"%char) then
              match s2 with
              | String h1 (String h2 (String h3 (String h4 s6))) =>
                  match u4 h1 h2 h3 h4 with
                  | None => None
                  | Some r =>
                      if is_surrogate r then
                        match s6 with
                        | String b (String u (String k1 (String k2 (String k3 (String k4 s12))))) =>
                            match (if bool_decide (b = BSL) && bool_decide (u = "u"%char)
                                   then r2 ← u4 k1 k2 k3 k4; surrogate_pair r r2 else None) with
                            | Some r' => prepend (encode_rune r') (unquote_bytes s12)
                            | None => prepend replacement (unquote_bytes s6)
                            end
                        | _ => prepend replacement (unquote_bytes s6)
                        end
                      else prepend (encode_rune r) (unquote_bytes s6)
                  end
              | _ => None
              end
            else match unescape e with
                 | Some b => prepend (String b EmptyString) (unquote_bytes s2)
                 | None => None
                 end
        end
      else if byte_in 0 31 c then None
      else prepend (String c EmptyString) (unquote_bytes s1)
  end.

(** Invalid bytes of the literal are replaced (an escape never completes a sequence). *)
Definition unquote (s : string) : option (string * string) :=
  match unquote_bytes s with Some (t, rest) => Some (to_valid t, rest) | None => None end.

(** ** Documents *)

#[local] Unset Elimination Schemes.
Inductive json :=
  | JNull
  | JBool (b : bool)
  | JNumber (lit : string)
  | JString (s : string)
  | JArray (l : list json)
  | JObject (l : list (string * json)).
#[local] Set Elimination Schemes.

(** The encoder: no spaces, the members in the order they are given. *)
Fixpoint print (j : json) : string :=
  match j with
  | JNull => "null"
  | JBool b => if b then "true" else "false"
  | JNumber lit => lit
  | JString s => quote s
  | JArray l => "[" +:+ Join (List.map print l) "," +:+ "]"
  | JObject l => "{" +:+ Join (List.map (λ m, quote m.1 +:+ ":" +:+ print m.2) l) "," +:+ "}"
  end.

(** ** The scanner *)

Definition json_space (c : ascii) : bool :=
  let n := N_of_ascii c in (n =? 32)%N || (n =? 9)%N || (n =? 13)%N || (n =? 10)%N.

Definition skip_ws (s : string) : string := (span json_space s).2.

Definition is_digit (c : ascii) : bool := byte_in 48 57 c.

(** The digits at the front, at least one. *)
Definition digits1 (s : string) : option (string * string) :=
  let '(d, rest) := span is_digit s in if bool_decide (d = EmptyString) then None else Some (d, rest).

Definition number_int (s : string) : option (string * string) :=
  match s with
  | String "0" rest => Some ("0"%string, rest)
  | _ => digits1 s
  end.

Definition number_frac (s : string) : option (string * string) :=
  match s with
  | String "." rest => '(d, rest) ← digits1 rest; Some (String "." d, rest)
  | _ => Some (EmptyString, s)
  end.

Definition number_exp (s : string) : option (string * string) :=
  match s with
  | String e rest =>
      if bool_decide (e = "e"%char) || bool_decide (e = "E"%char) then
        let '(sign, rest) :=
          match rest with
          | String "+" r => ("+"%string, r)
          | String "-" r => ("-"%string, r)
          | _ => (EmptyString, rest)
          end in
        '(d, rest) ← digits1 rest; Some (String e (sign +:+ d), rest)
      else Some (EmptyString, s)
  | EmptyString => Some (EmptyString, s)
  end.

(** The literal of a number, and what follows it. *)
Definition scan_number (s : string) : option (string * string) :=
  let '(sign, s) := match s with String "-" r => ("-"%string, r) | _ => (EmptyString, s) end in
  '(i, s) ← number_int s;
  '(f, s) ← number_frac s;
  '(e, s) ← number_exp s;
  Some (sign +:+ i +:+ f +:+ e, s).

Definition scan_literal (lit : string) (j : json) (s : string) : option (json * string) :=
  match strip lit s with Some rest => Some (j, rest) | None => None end.

(** A value at the front of a text, and the rest; [d]: how many more values may be nested
    in each other.  Every second call consumes a byte. *)
Fixpoint parse_json (fuel : nat) (d : Z) (s : string) : option (json * string) :=
  match fuel with
  | O => None
  | S fuel =>
      let s := skip_ws s in
      match s with
      | EmptyString => None
      | String c s1 =>
          if bool_decide (c = DQ) then '(t, rest) ← unquote s1; Some (JString t, rest)
          else if bool_decide (c = "["%char) then
            if d <=? 0 then None
            else match skip_ws s1 with
                 | String "]" rest => Some (JArray [], rest)
                 | _ => '(l, rest) ← parse_elements fuel (d - 1) s1; Some (JArray l, rest)
                 end
          else if bool_decide (c = "{"%char) then
            if d <=? 0 then None
            else match skip_ws s1 with
                 | String "}" rest => Some (JObject [], rest)
                 | _ => '(l, rest) ← parse_members fuel (d - 1) s1; Some (JObject l, rest)
                 end
          else if bool_decide (c = "t"%char) then scan_literal "true" (JBool true) s
          else if bool_decide (c = "f"%char) then scan_literal "false" (JBool false) s
          else if bool_decide (c = "n"%char) then scan_literal "null" JNull s
          else '(lit, rest) ← scan_number s; Some (JNumber lit, rest)
      end
  end
with parse_elements (fuel : nat) (d : Z) (s : string) : option (list json * string) :=
  match fuel with
  | O => None
  | S fuel =>
      '(j, rest) ← parse_json fuel d s;
      match skip_ws rest with
      | String c rest =>
          if bool_decide (c = ","%char) then '(l, rest) ← parse_elements fuel d rest; Some (j :: l, rest)
          else if bool_decide (c = "]"%char) then Some ([j], rest)
          else None
      | EmptyString => None
      end
  end
with parse_members (fuel : nat) (d : Z) (s : string) : option (list (string * json) * string) :=
  match fuel with
  | O => None
  | S fuel =>
      match skip_ws s with
      | String c s1 =>
          if bool_decide (c = DQ) then
            '(k, rest) ← unquote s1;
            match skip_ws rest with
            | String ":" rest =>
                '(j, rest) ← parse_json fuel d rest;
                match skip_ws rest with
                | String c rest =>
                    if bool_decide (c = ","%char) then '(l, rest) ← parse_members fuel d rest; Some ((k, j) :: l, rest)
                    else if bool_decide (c = "}"%char) then Some ([(k, j)], rest)
                    else None
                | EmptyString => None
                end
            | _ => None
            end
          else None
      | EmptyString => None
      end
  end.

(** The scanner's [maxNestingDepth]. *)
Definition maxNestingDepth : Z := 10000.

Definition json_fuel (s : string) : nat := 2 * String.length s + 2.

(** [json.NewDecoder(r).Decode]: the first value of the text, whatever follows it. *)
Definition scan_value (s : string) : option json := fst <$> parse_json (json_fuel s) maxNestingDepth s.

(** [json.Unmarshal]: the text is one value. *)
Definition scan_document (s : string) : option json :=
  '(j, rest) ← parse_json (json_fuel s) maxNestingDepth s;
  if bool_decide (skip_ws rest = EmptyString) then Some j else None.

(** ** Lemmas of the strings *)

(** What [runes] cuts a string into. *)
Definition rune_ok (r : Rune) : Prop :=
  match r with
  | RByte c => byte_in 0 0x7F c = true
  | RMulti s => (∃ a b, s = str2 a b ∧ two a b = true) ∨ (∃ a b c, s = str3 a b c ∧ three a b c = true) ∨
      (∃ a b c d, s = str4 a b c d ∧ four a b c d = true)
  | RInvalid => True
  end.

Lemma byte_in_spec lo hi c : byte_in lo hi c = true ↔ (lo <= N_of_ascii c <= hi)%N.
Proof. unfold byte_in. rewrite andb_true_iff, !N.leb_le. done. Qed.

Lemma byte_in_disjoint lo hi lo' hi' c : byte_in lo hi c = true → (hi < lo' ∨ hi' < lo)%N → byte_in lo' hi' c = false.
Proof. rewrite byte_in_spec. intros Hc Hd. apply not_true_is_false. rewrite byte_in_spec. lia. Qed.

Lemma two_lead a b : two a b = true → byte_in 0xC2 0xDF a = true ∧ byte_in 0x80 0xBF b = true.
Proof. unfold two. by rewrite andb_true_iff. Qed.

Lemma three_lead a b c : three a b c = true →
  byte_in 0xE0 0xEF a = true ∧ byte_in 0x80 0xBF b = true ∧ byte_in 0x80 0xBF c = true.
Proof.
  unfold three. rewrite andb_true_iff, !orb_true_iff, !andb_true_iff, !byte_in_spec. lia.
Qed.

Lemma four_lead a b c d : four a b c d = true →
  byte_in 0xF0 0xF4 a = true ∧ byte_in 0x80 0xBF b = true ∧ byte_in 0x80 0xBF c = true ∧ byte_in 0x80 0xBF d = true.
Proof.
  unfold four. rewrite !andb_true_iff, !orb_true_iff, !andb_true_iff, !byte_in_spec. lia.
Qed.

Lemma runes_ok s : Forall rune_ok (runes s).
Proof.
  induction s as [s IH] using (induction_ltof1 _ String.length). unfold ltof in IH.
  destruct s as [|a s1]; [constructor|]. cbn [runes].
  destruct (byte_in 0 127 a) eqn:Ha; [constructor; [done|apply IH; simpl; lia]|].
  destruct s1 as [|b s2]; [repeat constructor|].
  destruct (two a b) eqn:H2; [constructor; [left; by exists a, b|apply IH; simpl; lia]|].
  destruct s2 as [|c s3]; [constructor; [done|apply IH; simpl; lia]|].
  destruct (three a b c) eqn:H3; [constructor; [right; left; by exists a, b, c|apply IH; simpl; lia]|].
  destruct s3 as [|d s4]; [constructor; [done|apply IH; simpl; lia]|].
  destruct (four a b c d) eqn:H4; constructor; try (apply IH; simpl; lia); [|done].
  right; right. by exists a, b, c, d.
Qed.

Definition valid_rune (r : Rune) : Rune := match r with RInvalid => RMulti replacement | _ => r end.

(** The bytes of a code point are read back as it. *)
Lemma runes_text r s : rune_ok r → runes (rune_text r +:+ s) = valid_rune r :: runes s.
Proof.
  assert (Hhi : ∀ a lo hi, byte_in lo hi a = true → (0x80 <= lo)%N → byte_in 0 127 a = false)
    by (intros a lo hi Ha Hlo; eapply byte_in_disjoint; [exact Ha|lia]).
  destruct r as [a|t|]; cbn [rune_ok rune_text valid_rune].
  - intros Ha. rewrite str_app_cons, str_app_nil_l. cbn [runes]. by rewrite Ha.
  - intros [(a & b & -> & H2)|[(a & b & c & -> & H3)|(a & b & c & d & -> & H4)]];
      unfold str4, str3, str2; rewrite !str_app_cons, str_app_nil_l; cbn [runes].
    + rewrite H2. apply two_lead in H2 as [Ha _]. by rewrite (Hhi _ _ _ Ha).
    + assert (Hn : two a b = false).
      { apply three_lead in H3 as (Ha & _). unfold two. by rewrite (byte_in_disjoint _ _ 0xC2 0xDF _ Ha) by lia. }
      rewrite Hn, H3. apply three_lead in H3 as (Ha & _). by rewrite (Hhi _ _ _ Ha).
    + pose proof (four_lead _ _ _ _ H4) as (Ha & _).
      assert (Hn : two a b = false) by (unfold two; by rewrite (byte_in_disjoint _ _ 0xC2 0xDF _ Ha) by lia).
      assert (Hn' : three a b c = false).
      { apply not_true_is_false. intros (Ha' & _)%three_lead.
        by rewrite (byte_in_disjoint _ _ 0xE0 0xEF _ Ha) in Ha' by lia. }
      by rewrite Hn, Hn', H4, (Hhi _ _ _ Ha).
  - done.
Qed.

Lemma runes_cat_app l s : Forall rune_ok l → runes (cat (rune_text <$> l) +:+ s) = (valid_rune <$> l) ++ runes s.
Proof.
  induction 1 as [|r l Hr Hl IH]; [done|]. cbn [fmap list_fmap cat foldr]. fold (cat (list_fmap _ _ rune_text l)).
  rewrite str_app_assoc, runes_text by done. simpl. f_equal. exact IH.
Qed.

Lemma runes_cat l : Forall rune_ok l → runes (cat (rune_text <$> l)) = valid_rune <$> l.
Proof. intros Hl. rewrite <-(str_app_nil_r (cat _)), runes_cat_app by done. apply app_nil_r. Qed.

Lemma runes_to_valid s : runes (to_valid s) = valid_rune <$> runes s.
Proof. apply runes_cat, runes_ok. Qed.

Lemma rune_text_valid r : rune_text (valid_rune r) = rune_text r.
Proof. by destruct r. Qed.

Lemma to_valid_idemp s : to_valid (to_valid s) = to_valid s.
Proof.
  unfold to_valid at 1. rewrite runes_to_valid, <-list_fmap_compose. unfold to_valid. f_equal.
  apply list_fmap_ext. intros i r _. apply rune_text_valid.
Qed.

(** A valid string is its own replacement. *)
Lemma to_valid_id s : utf8_valid s = true → to_valid s = s.
Proof.
  unfold utf8_valid, to_valid.
  induction s as [s IH] using (induction_ltof1 _ String.length). unfold ltof in IH.
  destruct s as [|a s1]; [done|]. cbn [runes].
  destruct (byte_in 0 127 a) eqn:Ha.
  { cbn [forallb is_valid_rune andb]. intros Hv. change (String a (cat (rune_text <$> runes s1)) = String a s1).
    f_equal. apply IH; [simpl; lia|done]. }
  destruct s1 as [|b s2]; [done|].
  destruct (two a b) eqn:H2.
  { cbn [forallb is_valid_rune andb]. intros Hv. change (str2 a b +:+ cat (rune_text <$> runes s2) = str2 a b +:+ s2).
    f_equal. apply IH; [simpl; lia|done]. }
  destruct s2 as [|c s3]; [done|].
  destruct (three a b c) eqn:H3.
  { cbn [forallb is_valid_rune andb]. intros Hv. change (str3 a b c +:+ cat (rune_text <$> runes s3) = str3 a b c +:+ s3).
    f_equal. apply IH; [simpl; lia|done]. }
  destruct s3 as [|d s4]; [done|].
  destruct (four a b c d) eqn:H4; [|done].
  cbn [forallb is_valid_rune andb]. intros Hv. change (str4 a b c d +:+ cat (rune_text <$> runes s4) = str4 a b c d +:+ s4).
  f_equal. apply IH; [simpl; lia|done].
Qed.

Lemma to_valid_valid s : utf8_valid (to_valid s) = true.
Proof.
  unfold utf8_valid. rewrite runes_to_valid. apply forallb_forall. intros r Hr%list_elem_of_In.
  apply list_elem_of_fmap in Hr as (r' & -> & _). by destruct r'.
Qed.

Lemma utf8_valid_app a b : utf8_valid a = true → utf8_valid b = true → utf8_valid (a +:+ b) = true.
Proof.
  intros Ha Hb. rewrite <-(to_valid_id a Ha). unfold utf8_valid, to_valid in *.
  rewrite runes_cat_app, forallb_app, andb_true_iff by apply runes_ok. split; [|done].
  apply forallb_forall. intros r Hr%list_elem_of_In. apply list_elem_of_fmap in Hr as (r' & -> & _). by destruct r'.
Qed.

Lemma prepend_cat a b r : prepend a (prepend b r) = prepend (a +:+ b) r.
Proof. destruct r as [[t rest]|]; [|done]. simpl. by rewrite str_app_assoc. Qed.

(** Bytes that are neither quotes, backslashes nor controls stand for themselves. *)
Lemma unquote_plain c s : byte_in 0x80 0xFF c = true → unquote_bytes (String c s) = prepend (String c EmptyString) (unquote_bytes s).
Proof.
  intros Hc. cbn [unquote_bytes].
  rewrite !bool_decide_eq_false_2, (byte_in_disjoint _ _ 0 31 _ Hc) by (try lia; intros ->; by vm_compute in Hc). done.
Qed.

Lemma unquote_quote_byte c s : byte_in 0 0x7F c = true →
  unquote_bytes (quote_byte c +:+ s) = prepend (String c EmptyString) (unquote_bytes s).
Proof.
  destruct c as [[] [] [] [] [] [] [] []]; intros Hc; try discriminate Hc; reflexivity.
Qed.

Lemma high_byte c lo hi : byte_in lo hi c = true → (0x80 <= lo)%N → byte_in 0x80 0xFF c = true.
Proof. rewrite !byte_in_spec. pose proof (N_ascii_bounded c). lia. Qed.

Lemma unquote_quote_rune r s : rune_ok r →
  unquote_bytes (quote_rune r +:+ s) = prepend (rune_text r) (unquote_bytes s).
Proof.
  destruct r as [c|t|]; cbn [rune_ok quote_rune rune_text]; [apply unquote_quote_byte| |reflexivity].
  intros Ht. case_bool_decide as E1; [subst t; reflexivity|]. case_bool_decide as E2; [subst t; reflexivity|]. clear E1 E2.
  destruct Ht as [(a & b & -> & H2)|[(a & b & c & -> & H3)|(a & b & c & d & -> & H4)]];
    unfold str4, str3, str2; rewrite !str_app_cons, str_app_nil_l.
  - apply two_lead in H2 as (Ha & Hb). rewrite !unquote_plain, !prepend_cat by (by eapply high_byte). done.
  - apply three_lead in H3 as (Ha & Hb & Hc). rewrite !unquote_plain, !prepend_cat by (by eapply high_byte). done.
  - apply four_lead in H4 as (Ha & Hb & Hc & Hd). rewrite !unquote_plain, !prepend_cat by (by eapply high_byte). done.
Qed.

(** A quoted string is read back, its invalid bytes replaced. *)
Lemma json_unquote_quote s rest :
  unquote (cat (quote_rune <$> runes s) +:+ String DQ rest) = Some (to_valid s, rest).
Proof.
  assert (Hb : unquote_bytes (cat (quote_rune <$> runes s) +:+ String DQ rest) = Some (to_valid s, rest)).
  { unfold to_valid. pose proof (runes_ok s) as Hok. induction Hok as [|r l Hr Hl IH]; [done|].
    cbn [fmap list_fmap cat foldr]. rewrite str_app_assoc, unquote_quote_rune by done.
    unfold cat in IH. rewrite IH. done. }
  unfold unquote. by rewrite Hb, to_valid_idemp.
Qed.

(** ** Lemmas of the documents *)

(** Induction over the values of a document. *)
Lemma json_ind (P : json → Prop) :
  P JNull → (∀ b, P (JBool b)) → (∀ lit, P (JNumber lit)) → (∀ s, P (JString s)) →
  (∀ l, Forall P l → P (JArray l)) → (∀ l, Forall (λ m, P m.2) l → P (JObject l)) → ∀ j, P j.
Proof.
  intros HN HB HL HS HA HO. fix go 1. intros [|b|lit|s|l|l]; [done|apply HB|apply HL|apply HS| |].
  - apply HA. induction l as [|j l IH]; constructor; [apply go|exact IH].
  - apply HO. induction l as [|[k j] l IH]; constructor; [apply go|exact IH].
Qed.

(** The depth of a document. *)
Fixpoint nesting (j : json) : Z :=
  match j with
  | JArray l => 1 + foldr Z.max 0 (List.map nesting l)
  | JObject l => 1 + foldr Z.max 0 (List.map (λ m, nesting m.2) l)
  | _ => 0
  end.

(** A document as it is read back: the invalid bytes of its strings replaced. *)
Fixpoint valid_json (j : json) : json :=
  match j with
  | JString s => JString (to_valid s)
  | JArray l => JArray (List.map valid_json l)
  | JObject l => JObject (List.map (λ m, (to_valid m.1, valid_json m.2)) l)
  | _ => j
  end.

Definition int_lit (lit : string) : Prop := ∃ z, lit = Itoa z ∧ - 10 ^ 20 < z < 10 ^ 20.

Inductive json_ok : json → Prop :=
  | ok_null : json_ok JNull
  | ok_bool b : json_ok (JBool b)
  | ok_number lit : int_lit lit → json_ok (JNumber lit)
  | ok_string s : json_ok (JString s)
  | ok_array l : Forall json_ok l → json_ok (JArray l)
  | ok_object l : Forall (λ m, json_ok m.2) l → json_ok (JObject l).

(** *** Numbers *)

Lemma digit_is_digit d : 0 <= d < 10 → is_digit (digit d) = true.
Proof.
  intros Hd. assert (Hc : d = 0 ∨ d = 1 ∨ d = 2 ∨ d = 3 ∨ d = 4 ∨ d = 5 ∨ d = 6 ∨ d = 7 ∨ d = 8 ∨ d = 9) by lia.
  by destruct_or! Hc; subst.
Qed.

Lemma format_loop_digits fuel n acc :
  0 < n < 10 ^ Z.of_nat fuel →
  ∃ c t, format_loop fuel n acc = String c t +:+ acc ∧ c ≠ "0"%char ∧ is_digit c = true ∧ all_bytes is_digit t = true.
Proof.
  revert n acc. induction fuel as [|fuel IH]; intros n acc [Hn Hf]; [simpl in Hf; lia|].
  assert (Hm : 0 <= n mod 10 < 10) by (apply Z.mod_pos_bound; lia). cbn [format_loop].
  destruct (Z.ltb_spec n 10).
  - exists (digit (n mod 10)), EmptyString. split_and!; [done| |by apply digit_is_digit|done].
    rewrite Z.mod_small by lia.
    assert (Hc : n = 1 ∨ n = 2 ∨ n = 3 ∨ n = 4 ∨ n = 5 ∨ n = 6 ∨ n = 7 ∨ n = 8 ∨ n = 9) by lia.
    by destruct_or! Hc; subst.
  - destruct (IH (n / 10) (String (digit (n mod 10)) acc)) as (c & t & E & Hc & Hd & Ht).
    { split; [apply Z.div_str_pos; lia|]. apply Z.div_lt_upper_bound; [lia|].
      rewrite Nat2Z.inj_succ, Z.pow_succ_r in Hf by lia. lia. }
    exists c, (t +:+ String (digit (n mod 10)) EmptyString). rewrite E. split_and!; [|done|done|].
    + rewrite !str_app_cons, str_app_assoc. done.
    + clear -Ht Hm. induction t as [|a t IH]; [simpl; by rewrite digit_is_digit|].
      rewrite str_app_cons. cbn [all_bytes] in *. apply andb_true_iff in Ht as [-> Ht]. by apply IH.
Qed.

(** What may follow a number. *)
Definition stops (rest : string) : Prop :=
  match rest with
  | EmptyString => True
  | String c _ => is_digit c = false ∧ c ≠ "."%char ∧ c ≠ "e"%char ∧ c ≠ "E"%char
  end.

Lemma number_tail rest : stops rest →
  ('(f, s) ← number_frac rest; '(e, s) ← number_exp s; Some (f +:+ e, s)) = Some (EmptyString, rest).
Proof.
  destruct rest as [|c rest]; [done|]. intros (_ & Hd & He & HE).
  assert (E : number_frac (String c rest) = Some (EmptyString, String c rest)).
  { unfold number_frac. destruct c as [[] [] [] [] [] [] [] []]; done. }
  rewrite E. cbn [mbind option_bind]. unfold number_exp. by rewrite !bool_decide_eq_false_2.
Qed.

Lemma digits1_app c t rest : is_digit c = true → all_bytes is_digit t = true → stops rest →
  digits1 (String c t +:+ rest) = Some (String c t, rest).
Proof.
  intros Hc Ht Hr. unfold digits1. rewrite span_app; [done|simpl; by rewrite Hc|].
  destruct rest; [done|by destruct Hr].
Qed.

Lemma number_int_Uint n rest : 0 <= n < 10 ^ 20 → stops rest → number_int (FormatUint n +:+ rest) = Some (FormatUint n, rest).
Proof.
  intros Hn Hr. destruct (decide (n = 0)) as [->|Hz]; [done|].
  destruct (format_loop_digits 20 n EmptyString) as (c & t & E & Hc & Hd & Ht); [simpl; lia|].
  unfold FormatUint. rewrite E, str_app_nil_r. unfold number_int. rewrite str_app_cons.
  transitivity (digits1 (String c t +:+ rest)); [|by apply digits1_app].
  destruct c as [[] [] [] [] [] [] [] []]; done.
Qed.

Lemma FormatUint_first n : 0 <= n < 10 ^ 20 → ∃ c t, FormatUint n = String c t ∧ is_digit c = true.
Proof.
  intros Hn. destruct (decide (n = 0)) as [->|Hz]; [by exists "0"%char, EmptyString|].
  destruct (format_loop_digits 20 n EmptyString) as (c & t & E & _ & Hd & _); [simpl; lia|].
  exists c, t. unfold FormatUint. by rewrite E, str_app_nil_r.
Qed.

Lemma scan_number_int lit rest : int_lit lit → stops rest → scan_number (lit +:+ rest) = Some (lit, rest).
Proof.
  intros (z & -> & Hz) Hr. assert (Hu : ∀ n sign, 0 <= n < 10 ^ 20 →
    ('(i, s) ← number_int (FormatUint n +:+ rest); '(f, s) ← number_frac s; '(e, s) ← number_exp s;
     Some (sign +:+ i +:+ f +:+ e, s)) = Some (sign +:+ FormatUint n, rest)).
  { intros n sign Hn. rewrite number_int_Uint by done. cbn [mbind option_bind].
    pose proof (number_tail rest Hr) as Ht. destruct (number_frac rest) as [[f s]|]; [|done].
    cbn [mbind option_bind] in *. destruct (number_exp s) as [[e s']|]; [|done].
    cbn [mbind option_bind] in *. injection Ht as E ->. rewrite E, str_app_nil_r. done. }
  unfold Itoa. destruct (Z.ltb_spec z 0).
  - rewrite str_app_assoc. apply (Hu (- z) "-"%string). lia.
  - destruct (FormatUint_first z) as (c & t & E & Hd); [lia|].
    transitivity ('(i, s) ← number_int (FormatUint z +:+ rest); '(f, s) ← number_frac s; '(e, s) ← number_exp s;
      Some ("" +:+ i +:+ f +:+ e, s)); [|apply (Hu z ""%string); lia].
    rewrite E, str_app_cons. unfold scan_number. destruct c as [[] [] [] [] [] [] [] []]; done.
Qed.

Lemma int_lit_first lit : int_lit lit → ∃ c t, lit = String c t ∧ (c = "-"%char ∨ is_digit c = true).
Proof.
  intros (z & -> & Hz). unfold Itoa. destruct (Z.ltb_spec z 0); [by eexists "-"%char, _; split; [|left]|].
  destruct (FormatUint_first z) as (c & t & -> & Hd); [lia|]. exists c, t. auto.
Qed.

(** *** Printing and scanning *)

Lemma skip_ws_id c t : json_space c = false → skip_ws (String c t) = String c t.
Proof. intros Hc. unfold skip_ws. cbn [span]. by rewrite Hc. Qed.

Lemma digit_first c : c = "-"%char ∨ is_digit c = true →
  json_space c = false ∧ c ≠ DQ ∧ c ≠ "["%char ∧ c ≠ "{"%char ∧ c ≠ "]"%char ∧ c ≠ "}"%char ∧
  c ≠ "t"%char ∧ c ≠ "f"%char ∧ c ≠ "n"%char.
Proof.
  intros [->|Hc]; [by vm_compute|]. split.
  - unfold is_digit in Hc. apply byte_in_spec in Hc. unfold json_space. rewrite !orb_false_iff, !N.eqb_neq. lia.
  - split_and!; intros ->; by vm_compute in Hc.
Qed.

Lemma print_first j : json_ok j → ∃ c t, print j = String c t ∧ json_space c = false ∧ c ≠ "]"%char ∧ c ≠ "}"%char.
Proof.
  destruct 1 as [| [] | lit Hl | s | l | l]; try by eexists _, _; split.
  apply int_lit_first in Hl as (c & t & -> & (?&?&?&?&?&?&?)%digit_first). by exists c, t.
Qed.

Lemma print_nonempty j : json_ok j → (0 < String.length (print j))%nat.
Proof. intros (c & t & -> & _)%print_first. simpl. lia. Qed.

(** The members of an object, as they are printed. *)
Definition print_member (m : string * json) : string := quote m.1 +:+ ":" +:+ print m.2.

Lemma scan_literal_app lit j rest : lit ≠ EmptyString → scan_literal lit j (lit +:+ rest) = Some (j, rest).
Proof.
  intros Hl. unfold scan_literal, strip. destruct lit as [|c lit]; [done|]. by rewrite HasPrefix_app, str_drop_app.
Qed.

Lemma length_quote s : (2 <= String.length (quote s))%nat.
Proof. unfold quote. cbn [String.length]. rewrite str_length_app. simpl. lia. Qed.

Section RoundTrip.

(** What the proof assumes of a value: printed in a text, it is scanned again. *)
Definition scans (j : json) : Prop := ∀ fuel d rest,
  json_ok j → nesting j <= d → (2 * String.length (print j) <= fuel)%nat → stops rest →
  parse_json fuel d (print j +:+ rest) = Some (valid_json j, rest).

Lemma scans_elements l : Forall scans l → Forall json_ok l → l ≠ [] → ∀ fuel d rest,
  foldr Z.max 0 (List.map nesting l) <= d → (2 * String.length (Join (List.map print l) ",") + 1 <= fuel)%nat →
  parse_elements fuel d (Join (List.map print l) "," +:+ String "]" rest) = Some (List.map valid_json l, rest).
Proof.
  induction 1 as [|j l Hj Hl IH]; [done|]. intros [Hok Hoks]%Forall_cons _ fuel d rest Hd Hf.
  destruct fuel as [|fuel]; [lia|]. cbn [List.map foldr] in Hd. cbn [parse_elements List.map].
  destruct l as [|j' l].
  - cbn [List.map Join] in *. rewrite Hj by (done || lia). reflexivity.
  - cbn [List.map] in *. change (Join (print j :: ?x :: ?r) ",") with (print j +:+ "," +:+ Join (x :: r) ",") in *.
    rewrite !str_length_app in Hf. cbn [String.length] in Hf.
    rewrite !str_app_assoc, str_app_cons, str_app_nil_l. rewrite Hj by (try done; simpl in *; lia).
    cbn [mbind option_bind]. rewrite skip_ws_id, bool_decide_eq_true_2 by done.
    rewrite IH; [done|done|done|lia|lia].
Qed.

Lemma scans_members l : Forall (λ m, scans m.2) l → Forall (λ m, json_ok m.2) l → l ≠ [] → ∀ fuel d rest,
  foldr Z.max 0 (List.map (λ m, nesting m.2) l) <= d → (2 * String.length (Join (List.map print_member l) ",") + 1 <= fuel)%nat →
  parse_members fuel d (Join (List.map print_member l) "," +:+ String "}" rest) =
    Some (List.map (λ m, (to_valid m.1, valid_json m.2)) l, rest).
Proof.
  assert (Hone : ∀ m fuel d r, scans m.2 → json_ok m.2 → nesting m.2 <= d →
    (2 * String.length (print_member m) + 1 <= S fuel)%nat → stops r →
    parse_members (S fuel) d (print_member m +:+ r) =
      match skip_ws r with
      | String c rest =>
          if bool_decide (c = ","%char) then '(l, rest) ← parse_members fuel d rest; Some ((to_valid m.1, valid_json m.2) :: l, rest)
          else if bool_decide (c = "}"%char) then Some ([(to_valid m.1, valid_json m.2)], rest)
          else None
      | EmptyString => None
      end).
  { intros [k j] fuel d r Hj Hok Hd Hf Hr. unfold print_member in *. cbn [fst snd] in *.
    pose proof (length_quote k). rewrite !str_length_app in Hf. cbn [String.length] in Hf.
    cbn [parse_members]. unfold quote. rewrite !str_app_assoc, str_app_cons.
    rewrite skip_ws_id, bool_decide_eq_true_2 by done. rewrite !str_app_assoc, !str_app_cons, !str_app_nil_l.
    rewrite json_unquote_quote. cbn [mbind option_bind]. rewrite skip_ws_id by done. rewrite Hj by (done || lia). done. }
  induction 1 as [|m l Hm Hl IH]; [done|]. intros [Hok Hoks]%Forall_cons _ fuel d rest Hd Hf.
  destruct fuel as [|fuel]; [lia|]. cbn [List.map foldr] in Hd. cbn [List.map].
  destruct l as [|m' l].
  - cbn [List.map Join] in *. rewrite Hone by (done || lia). reflexivity.
  - cbn [List.map] in *. change (Join (print_member m :: ?x :: ?r) ",") with (print_member m +:+ "," +:+ Join (x :: r) ",") in *.
    rewrite !str_length_app in Hf. cbn [String.length] in Hf.
    rewrite !str_app_assoc, str_app_cons, str_app_nil_l. rewrite Hone by (try done; simpl in *; lia).
    rewrite skip_ws_id, bool_decide_eq_true_2 by done.
    rewrite IH; [done|done|done|lia|unfold print_member in *; lia].
Qed.

Lemma join_first {A} (f : A → string) x l : ∃ t, Join (List.map f (x :: l)) "," = f x +:+ t.
Proof.
  destruct l; [exists EmptyString; by rewrite str_app_nil_r|]. by eexists.
Qed.

Lemma scans_all j : scans j.
Proof.
  induction j as [|b|lit|s|l IH|l IH] using json_ind; intros [|fuel] d rest Hok Hd Hf Hr; inversion Hok; subst;
    try (pose proof (print_nonempty _ Hok); lia).
  - apply (scan_literal_app "null"); done.
  - destruct b; [apply (scan_literal_app "true")|apply (scan_literal_app "false")]; done.
  - destruct (int_lit_first _ H0) as (c & t & E & (H1&H2&H3&H4&_&_&H5&H6&H7)%digit_first).
    cbn [parse_json print valid_json]. pose proof (scan_number_int _ _ H0 Hr) as Hs. rewrite E, str_app_cons in *.
    rewrite skip_ws_id by done. rewrite !bool_decide_eq_false_2 by done. by rewrite Hs.
  - cbn [parse_json print valid_json]. unfold quote. rewrite str_app_cons, skip_ws_id by done.
    rewrite bool_decide_eq_true_2 by done. rewrite str_app_assoc, str_app_cons, str_app_nil_l, json_unquote_quote. done.
  - cbn [nesting] in Hd. cbn [print] in *. rewrite !str_length_app in Hf. cbn [String.length] in Hf.
    cbn [parse_json]. rewrite !str_app_assoc, str_app_cons, str_app_nil_l.
    rewrite skip_ws_id by done. rewrite bool_decide_eq_false_2, bool_decide_eq_true_2 by done.
    assert (0 <= foldr Z.max 0 (List.map nesting l)) by (clear; induction l; simpl; lia).
    destruct (Z.leb_spec d 0); [lia|]. rewrite (str_app_cons "]"), str_app_nil_l.
    destruct l as [|j l]; [done|].
    pose proof (scans_elements (j :: l) IH H0 ltac:(done) fuel (d - 1) rest ltac:(lia) ltac:(lia)) as He.
    destruct (print_first j) as (c & t & E & Hc & Hc' & _); [by apply Forall_cons in H0 as [? _]|].
    destruct (join_first print j l) as [t' E']. rewrite E' in *. rewrite E, !str_app_cons in *.
    rewrite skip_ws_id by done. rewrite He. cbn [mbind option_bind].
    destruct c as [[] [] [] [] [] [] [] []]; done.
  - cbn [nesting] in Hd. cbn [print] in *. rewrite !str_length_app in Hf. cbn [String.length] in Hf.
    cbn [parse_json]. rewrite !str_app_assoc, str_app_cons, str_app_nil_l.
    rewrite skip_ws_id by done. rewrite bool_decide_eq_false_2, bool_decide_eq_false_2, bool_decide_eq_true_2 by done.
    assert (0 <= foldr Z.max 0 (List.map (λ m, nesting m.2) l)) by (clear; induction l; simpl; lia).
    destruct (Z.leb_spec d 0); [lia|]. rewrite (str_app_cons "}"), str_app_nil_l.
    destruct l as [|m l]; [done|].
    pose proof (scans_members (m :: l) IH H0 ltac:(done) fuel (d - 1) rest ltac:(lia)) as He.
    change (λ m, quote m.1 +:+ ":" +:+ print m.2) with print_member in *.
    specialize (He ltac:(lia)). destruct (join_first print_member m l) as [t' E']. rewrite E' in *.
    unfold print_member, quote in *. rewrite !str_app_cons in *.
    rewrite skip_ws_id by done. by rewrite He.
Qed.
End RoundTrip.

(** A printed document is scanned back, whatever follows it for a decoder, nothing but
    space for [Unmarshal]; its strings are those given, with invalid bytes replaced. *)
Lemma scan_value_print j rest : json_ok j → nesting j <= maxNestingDepth → stops rest →
  scan_value (print j +:+ rest) = Some (valid_json j).
Proof.
  intros Hok Hd Hr. unfold scan_value, json_fuel. rewrite scans_all; [done|done|done| |done].
  rewrite str_length_app. lia.
Qed.

Lemma scan_document_print j rest : json_ok j → nesting j <= maxNestingDepth → stops rest → skip_ws rest = EmptyString →
  scan_document (print j +:+ rest) = Some (valid_json j).
Proof.
  intros Hok Hd Hr Hs. unfold scan_document, json_fuel. rewrite scans_all; [|done|done| |done].
  - cbn [mbind option_bind]. by rewrite Hs, bool_decide_eq_true_2.
  - rewrite str_length_app. lia.
Qed.

(** *** The fuel is enough *)

Lemma span_rest p s : (String.length (span p s).2 <= String.length s)%nat.
Proof. pose proof (span_length p s). by destruct (span p s). Qed.

Lemma skip_ws_length s : (String.length (skip_ws s) <= String.length s)%nat.
Proof. apply span_rest. Qed.

Lemma prepend_Some p r t rest : prepend p r = Some (t, rest) → ∃ t', r = Some (t', rest).
Proof. destruct r as [[t' rest']|]; [|done]. intros [= _ <-]. by exists t'. Qed.

Lemma unquote_length s t rest : unquote s = Some (t, rest) → (String.length rest < String.length s)%nat.
Proof.
  unfold unquote. destruct (unquote_bytes s) as [[t' rest']|] eqn:E; [|done]. intros [= _ ->]. revert t' E.
  induction s as [s IH] using (induction_ltof1 _ String.length). unfold ltof in IH. intros t' E.
  assert (Hrec : ∀ s' p t', (String.length s' < String.length s)%nat → prepend p (unquote_bytes s') = Some (t', rest) →
    (String.length rest < String.length s)%nat).
  { intros s' p t0 Hl [t1 H1]%prepend_Some. specialize (IH s' Hl _ H1). lia. }
  destruct s as [|c s1]; [done|]. cbn [unquote_bytes] in E.
  destruct (bool_decide (c = DQ)); [injection E as _ <-; simpl; lia|].
  destruct (bool_decide (c = BSL)).
  2: { destruct (byte_in 0 31 c); [done|]. eapply Hrec; [|exact E]. simpl; lia. }
  destruct s1 as [|e s2]; [done|]. destruct (bool_decide (e = "u"%char)).
  2: { destruct (unescape e); [|done]. eapply Hrec; [|exact E]. simpl; lia. }
  destruct s2 as [|h1 [|h2 [|h3 [|h4 s6]]]]; try done. destruct (u4 h1 h2 h3 h4) as [r|]; [|done].
  destruct (is_surrogate r); [|eapply Hrec; [|exact E]; simpl; lia].
  destruct s6 as [|b [|u [|k1 [|k2 [|k3 [|k4 s12]]]]]]; try (eapply Hrec; [|exact E]; simpl; lia).
  destruct (if bool_decide (b = BSL) && bool_decide (u = "u"%char) then _ else None);
    (eapply Hrec; [|exact E]; simpl; lia).
Qed.

Lemma strip_length p s rest : strip p s = Some rest → (String.length rest < String.length s)%nat.
Proof.
  unfold strip. destruct p as [|c p]; [done|]. destruct (HasPrefix s (String c p)) eqn:E; [|done]. intros [= <-].
  destruct s as [|c' s]; [done|]. cbn [str_drop String.length].
  assert (Hd : ∀ n s, (String.length (str_drop n s) <= String.length s)%nat).
  { clear. induction n as [|n IH]; intros [|c s]; simpl; try lia. specialize (IH s). lia. }
  specialize (Hd (String.length p) s). lia.
Qed.

Lemma digits1_length s d rest : digits1 s = Some (d, rest) → (String.length rest < String.length s)%nat.
Proof.
  unfold digits1. pose proof (span_spec is_digit s) as Hs. destruct (span is_digit s) as [a b]. destruct Hs as (-> & _).
  case_bool_decide; [done|]. intros [= -> ->]. rewrite str_length_app. destruct d; [done|]. simpl. lia.
Qed.

Lemma scan_number_length s lit rest : scan_number s = Some (lit, rest) → (String.length rest < String.length s)%nat.
Proof.
  assert (Hi : ∀ s i r, number_int s = Some (i, r) → (String.length r < String.length s)%nat).
  { intros [|c t] i r; [done|]. unfold number_int. intros E.
    assert (Hc : Some ("0"%string, t) = Some (i, r) ∨ digits1 (String c t) = Some (i, r))
      by (destruct c as [[] [] [] [] [] [] [] []]; auto).
    destruct Hc as [[= _ <-]|Hc%digits1_length]; [simpl; lia|done]. }
  assert (Hf : ∀ s f r, number_frac s = Some (f, r) → (String.length r <= String.length s)%nat).
  { intros [|c t] f r; [by intros [= _ <-]|]. unfold number_frac. intros E.
    assert (Hc : ('(d, rest) ← digits1 t; Some (String "." d, rest)) = Some (f, r) ∨ Some (EmptyString, String c t) = Some (f, r))
      by (destruct c as [[] [] [] [] [] [] [] []]; auto).
    destruct Hc as [Hc|[= _ <-]]; [|done]. destruct (digits1 t) as [[d r']|] eqn:Hd; [|done].
    injection Hc as _ <-. apply digits1_length in Hd. simpl. lia. }
  assert (He : ∀ s e r, number_exp s = Some (e, r) → (String.length r <= String.length s)%nat).
  { intros [|c t] e r; [by intros [= _ <-]|]. unfold number_exp.
    destruct (bool_decide (c = "e"%char) || bool_decide (c = "E"%char)); [|by intros [= _ <-]].
    set (q := match t with String "+" r => _ | _ => _ end). assert (Hq : (String.length q.2 <= String.length t)%nat).
    { unfold q. destruct t as [|a t]; [done|]. destruct a as [[] [] [] [] [] [] [] []]; simpl; lia. }
    destruct q as [sign t']. destruct (digits1 t') as [[d r']|] eqn:Hd; [|done]. intros [= _ <-].
    apply digits1_length in Hd. simpl in *. lia. }
  unfold scan_number. set (q := match s with String "-" r => _ | _ => _ end).
  assert (Hq : (String.length q.2 <= String.length s)%nat).
  { unfold q. destruct s as [|a t]; [done|]. destruct a as [[] [] [] [] [] [] [] []]; simpl; lia. }
  destruct q as [sign t]. cbn [snd] in Hq. destruct (number_int t) as [[i t1]|] eqn:E1; [|done]. cbn [mbind option_bind].
  destruct (number_frac t1) as [[f t2]|] eqn:E2; [|done]. cbn [mbind option_bind].
  destruct (number_exp t2) as [[e t3]|] eqn:E3; [|done]. intros [= _ <-].
  apply Hi in E1. apply Hf in E2. apply He in E3. lia.
Qed.

(** Every value consumes a byte. *)
Lemma parse_consumes fuel : ∀ d s,
  (∀ j rest, parse_json fuel d s = Some (j, rest) → (String.length rest < String.length s)%nat) ∧
  (∀ l rest, parse_elements fuel d s = Some (l, rest) → (String.length rest < String.length s)%nat) ∧
  (∀ l rest, parse_members fuel d s = Some (l, rest) → (String.length rest < String.length s)%nat).
Proof.
  induction fuel as [|fuel IH]; intros d s; [done|]. split_and!.
  - intros j rest. cbn [parse_json]. pose proof (skip_ws_length s) as Hw. destruct (skip_ws s) as [|c s1]; [done|].
    cbn [String.length] in Hw. pose proof (skip_ws_length s1) as Hw1.
    destruct (bool_decide (c = DQ)).
    { destruct (unquote s1) as [[t r]|] eqn:E; [|done]. intros [= _ <-]. apply unquote_length in E. lia. }
    destruct (bool_decide (c = "["%char)).
    { destruct (d <=? 0); [done|]. set (e := '(l, rest) ← parse_elements _ _ _; _). assert (He : e = Some (j, rest) → (String.length rest < String.length s)%nat).
      { unfold e. destruct (parse_elements fuel (d - 1) s1) as [[l r]|] eqn:E; [|done]. intros [= _ <-]. apply IH in E. lia. }
      clearbody e. destruct (skip_ws s1) as [|c1 s2]; [exact He|]. cbn [String.length] in Hw1.
      destruct c1 as [[] [] [] [] [] [] [] []]; try exact He. intros [= _ <-]. lia. }
    destruct (bool_decide (c = "{"%char)).
    { destruct (d <=? 0); [done|]. set (e := '(l, rest) ← parse_members _ _ _; _). assert (He : e = Some (j, rest) → (String.length rest < String.length s)%nat).
      { unfold e. destruct (parse_members fuel (d - 1) s1) as [[l r]|] eqn:E; [|done]. intros [= _ <-]. apply IH in E. lia. }
      clearbody e. destruct (skip_ws s1) as [|c1 s2]; [exact He|]. cbn [String.length] in Hw1.
      destruct c1 as [[] [] [] [] [] [] [] []]; try exact He. intros [= _ <-]. lia. }
    assert (Hl : ∀ lit v, scan_literal lit v (String c s1) = Some (j, rest) → (String.length rest < String.length s)%nat).
    { intros lit v. unfold scan_literal. destruct (strip _ _) as [r|] eqn:E; [|done]. intros [= _ <-].
      apply strip_length in E. simpl in E. lia. }
    destruct (bool_decide (c = "t"%char)); [apply Hl|]. destruct (bool_decide (c = "f"%char)); [apply Hl|].
    destruct (bool_decide (c = "n"%char)); [apply Hl|].
    destruct (scan_number (String c s1)) as [[lit r]|] eqn:E; [|done]. intros [= _ <-]. apply scan_number_length in E. simpl in E. lia.
  - intros l rest. cbn [parse_elements]. destruct (parse_json fuel d s) as [[j r]|] eqn:E; [|done]. apply IH in E.
    cbn [mbind option_bind]. pose proof (skip_ws_length r) as Hw. destruct (skip_ws r) as [|c r']; [done|]. cbn [String.length] in Hw.
    destruct (bool_decide (c = ","%char)).
    { destruct (parse_elements fuel d r') as [[l' r2]|] eqn:E'; [|done]. intros [= _ <-]. apply IH in E'. lia. }
    destruct (bool_decide (c = "]"%char)); [|done]. intros [= _ <-]. lia.
  - intros l rest. cbn [parse_members]. pose proof (skip_ws_length s) as Hw. destruct (skip_ws s) as [|c s1]; [done|].
    cbn [String.length] in Hw. destruct (bool_decide (c = DQ)); [|done].
    destruct (unquote s1) as [[k r]|] eqn:E; [|done]. apply unquote_length in E. cbn [mbind option_bind].
    pose proof (skip_ws_length r) as Hw1. destruct (skip_ws r) as [|c1 r1]; [done|]. cbn [String.length] in Hw1.
    set (e := '(j, rest) ← parse_json fuel d r1; _). assert (He : e = Some (l, rest) → (String.length rest < String.length s)%nat).
    { unfold e. destruct (parse_json fuel d r1) as [[j r2]|] eqn:E1; [|done]. apply IH in E1. cbn [mbind option_bind].
      pose proof (skip_ws_length r2) as Hw2. destruct (skip_ws r2) as [|c2 r3]; [done|]. cbn [String.length] in Hw2.
      destruct (bool_decide (c2 = ","%char)).
      { destruct (parse_members fuel d r3) as [[l' r4]|] eqn:E2; [|done]. intros [= _ <-]. apply IH in E2. lia. }
      destruct (bool_decide (c2 = "}"%char)); [|done]. intros [= _ <-]. lia. }
    clearbody e. destruct c1 as [[] [] [] [] [] [] [] []]; try done; exact He.
Qed.

(** Past the fuel of [json_fuel] more of it changes nothing: the scanner never stops for
    want of fuel. *)
Lemma parse_fuel f1 : ∀ f2 d s,
  ((2 * String.length s < f1)%nat → (2 * String.length s < f2)%nat → parse_json f1 d s = parse_json f2 d s) ∧
  ((2 * String.length s + 1 < f1)%nat → (2 * String.length s + 1 < f2)%nat →
   parse_elements f1 d s = parse_elements f2 d s ∧ parse_members f1 d s = parse_members f2 d s).
Proof.
  induction f1 as [|f1 IH]; intros [|f2] d s; try (split; intros; lia). split.
  - intros H1 H2. cbn [parse_json]. pose proof (skip_ws_length s) as Hw. destruct (skip_ws s) as [|c s1]; [done|].
    cbn [String.length] in Hw. destruct (IH f2 (d - 1) s1) as [_ IHs]. destruct IHs as [-> ->]; [lia|lia|done].
  - intros H1 H2. split; [cbn [parse_elements]|cbn [parse_members]].
    + destruct (IH f2 d s) as [-> _]; [|lia|lia]. destruct (parse_json f2 d s) as [[j r]|] eqn:E; [|done].
      apply parse_consumes in E. cbn [mbind option_bind]. pose proof (skip_ws_length r) as Hw.
      destruct (skip_ws r) as [|c r']; [done|]. cbn [String.length] in Hw.
      destruct (IH f2 d r') as [_ IHs]. destruct IHs as [-> _]; [lia|lia|done].
    + pose proof (skip_ws_length s) as Hw. destruct (skip_ws s) as [|c s1]; [done|]. cbn [String.length] in Hw.
      destruct (unquote s1) as [[k r]|] eqn:E; [|done]. apply unquote_length in E. cbn [mbind option_bind].
      pose proof (skip_ws_length r) as Hw1. destruct (skip_ws r) as [|c1 r1]; [done|]. cbn [String.length] in Hw1.
      destruct (IH f2 d r1) as [-> _]; [|lia|lia]. destruct (parse_json f2 d r1) as [[j r2]|] eqn:E1; [|done].
      apply parse_consumes in E1. cbn [mbind option_bind]. pose proof (skip_ws_length r2) as Hw2.
      destruct (skip_ws r2) as [|c2 r3]; [done|]. cbn [String.length] in Hw2.
      destruct (IH f2 d r3) as [_ IHs]. destruct IHs as [_ ->]; [lia|lia|done].
Qed.

Lemma scan_value_fuel s fuel : (json_fuel s <= fuel)%nat → scan_value s = fst <$> parse_json fuel maxNestingDepth s.
Proof.
  intros Hf. unfold scan_value, json_fuel in *. f_equal. apply (parse_fuel _ _ _ _); lia.
Qed.
