(* ===== verification/GoMux.v ===== *)
(** The request multiplexer of Go's [net/http] ([http.ServeMux]), as far as the surfaces use
    it: patterns of a method and a path of literal segments and wildcards, none of which
    match the same requests, and no CONNECT requests. *)

From Stdlib Require Import ZArith Lia Ascii.
From stdpp Require Import base list strings.
From S2P Require Import Prelude GoStrings GoText GoJson.

#[local] Open Scope Z_scope.

Inductive Segment := Lit (s : string) | Wild (name : string).

(** ** Matching *)

(** [url.PathUnescape]. *)
Fixpoint PathUnescape (s : string) : option string :=
  match s with
  | EmptyString => Some EmptyString
  | String "%" s1 =>
      match s1 with
      | String a (String b s3) =>
          x ← hex_val a; y ← hex_val b; t ← PathUnescape s3; Some (String (byte_of (x * 16 + y)) t)
      | _ => None
      end
  | String c s1 => t ← PathUnescape s1; Some (String c t)
  end.

(** The segments of an escaped path: what is between its slashes. *)
Definition segments (path : string) : option (list string) :=
  match path with String "/" rest => Some (Split rest "/") | _ => None end.

(** A path that [cleanPath] leaves as it is: no empty segment but the last, none of dots. *)
Fixpoint clean_segments (segs : list string) : bool :=
  match segs with
  | [] => true
  | s :: rest =>
      negb (bool_decide (s = ".")) && negb (bool_decide (s = "..")) &&
      match rest with [] => true | _ => negb (bool_decide (s = "")) && clean_segments rest end
  end%string.

(** The segments against a pattern, and the values of its wildcards.  A wildcard matches
    neither a trailing slash nor a segment that is an escaped slash. *)
Fixpoint match_segments (pat : list Segment) (segs : list string) : option (list (string * string)) :=
  match pat, segs with
  | [], [] => Some []
  | Lit l :: pat, s :: segs =>
      if bool_decide (default s (PathUnescape s) = l) then match_segments pat segs else None
  | Wild n :: pat, s :: segs =>
      let v := default s (PathUnescape s) in
      if bool_decide (s = ""%string) || bool_decide (v = "/"%string) then None
      else vals ← match_segments pat segs; Some ((n, v) :: vals)
  | _, _ => None
  end.

(** GET matches HEAD too. *)
Definition method_matches (m req : string) : bool :=
  bool_decide (m = req) || (bool_decide (m = "GET"%string) && bool_decide (req = "HEAD"%string)).

Inductive Routed (E : Type) := Found (e : E) (vals : list (string * string)) | Redirected | NotAllowed | NotFound.
Arguments Found {E}.
Arguments Redirected {E}.
Arguments NotAllowed {E}.
Arguments NotFound {E}.

Section Mux.
Context {E : Type}.

Fixpoint match_routes (method : string) (segs : list string) (rs : list (string * list Segment * E))
  : option (E * list (string * string)) :=
  match rs with
  | [] => None
  | (m, pat, e) :: rs =>
      match (if method_matches m method then match_segments pat segs else None) with
      | Some vals => Some (e, vals)
      | None => match_routes method segs rs
      end
  end.

Definition any_method (rs : list (string * list Segment * E)) (segs : list string) : bool :=
  existsb (λ r, match match_segments r.1.2 segs with Some _ => true | None => false end) rs.

(** A path that is not clean is redirected; then the route; then 405 if another method has
    one, and 404. *)
Definition mux_route (rs : list (string * list Segment * E)) (method path : string) : Routed E :=
  match segments path with
  | None => Redirected
  | Some segs =>
      if negb (clean_segments segs) then Redirected
      else match match_routes method segs rs with
           | Some (e, vals) => Found e vals
           | None => if any_method rs segs then NotAllowed else NotFound
           end
  end.
End Mux.

(** ** Lemmas *)

Lemma PathUnescape_plain s : no_byte "%" s = true → PathUnescape s = Some s.
Proof.
  induction s as [|c s IH]; [done|]. cbn [no_byte]. rewrite andb_true_iff, negb_true_iff, bool_decide_eq_false.
  intros [Hc Hs]. specialize (IH Hs).
  transitivity (t ← PathUnescape s; Some (String c t)); [|by rewrite IH].
  destruct c as [[] [] [] [] [] [] [] []]; done.
Qed.

Lemma segments_Join segs : segs ≠ [] → Forall (λ s, no_byte "/" s = true) segs →
  segments (String "/" (Join segs "/")) = Some segs.
Proof. intros Hne Hs. cbn [segments]. by rewrite (Split_Join "/"). Qed.

Lemma match_routes_in {E} method segs (rs : list (string * list Segment * E)) e vals : match_routes method segs rs = Some (e, vals) →
  ∃ m pat, (m, pat, e) ∈ rs ∧ method_matches m method = true ∧ match_segments pat segs = Some vals.
Proof.
  induction rs as [|[[m pat] e'] rs IH]; [done|]. cbn [match_routes]. destruct (method_matches m method) eqn:Hm.
  - destruct (match_segments pat segs) as [v|] eqn:Hp.
    + intros [= -> ->]. exists m, pat. split; [by left|done].
    + intros (m' & p' & ? & ?)%IH. exists m', p'. split; [by right|done].
  - intros (m' & p' & ? & ?)%IH. exists m', p'. split; [by right|done].
Qed.

(** A found route is one of the table, for its method. *)
Lemma mux_route_in {E} (rs : list (string * list Segment * E)) method path e vals : mux_route rs method path = Found e vals →
  ∃ m pat, (m, pat, e) ∈ rs ∧ method_matches m method = true.
Proof.
  unfold mux_route. destruct (segments path) as [segs|]; [|done]. destruct (negb _); [done|].
  destruct (match_routes _ _ _) as [[e' v]|] eqn:E0; [|by destruct (any_method _ _)]. intros [= -> ->].
  apply match_routes_in in E0 as (m & pat & ? & ? & _). eauto.
Qed.
