(* ===== verification/JsonType.v ===== *)
(** Unmarshalling and marshalling: how [encoding/json] reads a document into a value of Go,
    and writes one.

    A decoder reads into a variable that holds something already: null leaves a scalar or a
    struct as it is, the members of an object overwrite the fields they name, the first to
    match by its exact name and else by its folded name, and members that name no field are
    ignored.  [None] is an error, whichever it is: no caller tells them apart, or looks at
    what has been read so far.  A slice that one object names twice is read into the elements
    it has by then; what a longer one before left behind its length is not kept. *)

From Stdlib Require Import ZArith Lia Ascii.
From stdpp Require Import base gmap sorting list strings.
From S2P Require Import Prelude GoStrings GoText GoJson.

#[local] Open Scope Z_scope.

(** ** Unmarshalling *)

Definition Decoder (A : Type) := json → A → option A.

Definition d_string : Decoder string := λ j old,
  match j with JString s => Some s | JNull => Some old | _ => None end.

Definition d_bool : Decoder bool := λ j old,
  match j with JBool b => Some b | JNull => Some old | _ => None end.

(** An [int], and an unsigned integer of some bits. *)
Definition d_int : Decoder Z := λ j old,
  match j with JNumber lit => Atoi lit | JNull => Some old | _ => None end.

Definition d_uint (bits : Z) : Decoder Z := λ j old,
  match j with JNumber lit => ParseUint lit bits | JNull => Some old | _ => None end.

Definition d_ptr {A} (zero : A) (dec : Decoder A) : Decoder (option A) := λ j old,
  match j with JNull => Some None | _ => Some <$> dec j (default zero old) end.

(** The elements are read into those the slice has already. *)
Fixpoint d_elements {A} (zero : A) (dec : Decoder A) (l : list json) (old : list A) : option (list A) :=
  match l with
  | [] => Some []
  | j :: l => x ← dec j (default zero (head old)); rest ← d_elements zero dec l (tail old); Some (x :: rest)
  end.

Definition d_slice {A} (zero : A) (dec : Decoder A) : Decoder (list A) := λ j old,
  match j with JNull => Some [] | JArray l => d_elements zero dec l old | _ => None end.

Fixpoint d_entries {A} (zero : A) (dec : Decoder A) (l : list (string * json)) (m : gmap string A) : option (gmap string A) :=
  match l with
  | [] => Some m
  | (k, j) :: l => x ← dec j zero; d_entries zero dec l (<[k := x]> m)
  end.

Definition d_map {A} (zero : A) (dec : Decoder A) : Decoder (gmap string A) := λ j old,
  match j with JNull => Some ∅ | JObject l => d_entries zero dec l old | _ => None end.

(** The fields of a struct, by the names of their tags. *)
Notation Fields A := (list (string * Decoder A)).

Definition field {A B} (name : string) (get : A → B) (set : B → A → A) (dec : Decoder B) : string * Decoder A :=
  (name, λ j a, x ← dec j (get a); Some (set x a)).

Fixpoint index_of (p : string → bool) (names : list string) : option nat :=
  match names with
  | [] => None
  | n :: names => if p n then Some O else S <$> index_of p names
  end.

(** The field of a key: by its exact name, and else by its folded name. *)
Definition field_index (names : list string) (k : string) : option nat :=
  match index_of (String.eqb k) names with
  | Some i => Some i
  | None => index_of (EqualFold k) names
  end.

Definition find_field {A} (fields : Fields A) (k : string) : option (Decoder A) :=
  i ← field_index (List.map fst fields) k; snd <$> nth_error fields i.

Fixpoint d_fields {A} (fields : Fields A) (l : list (string * json)) (a : A) : option A :=
  match l with
  | [] => Some a
  | (k, j) :: l =>
      match find_field fields k with
      | Some dec => a ← dec j a; d_fields fields l a
      | None => d_fields fields l a
      end
  end.

Definition d_struct {A} (fields : Fields A) : Decoder A := λ j old,
  match j with JNull => Some old | JObject l => d_fields fields l old | _ => None end.

(** [json.NewDecoder(r).Decode(&v)] and [json.Unmarshal(data, &v)] on a zero value. *)
Definition Decode {A} (zero : A) (dec : Decoder A) (text : string) : option A := j ← scan_value text; dec j zero.

Definition Unmarshal {A} (zero : A) (dec : Decoder A) (text : string) : option A := j ← scan_document text; dec j zero.

(** ** Marshalling *)

Definition e_int (z : Z) : json := JNumber (Itoa z).

Definition e_slice {A} (enc : A → json) (l : list A) : json := JArray (List.map enc l).

Definition member_less {A} (a b : string * A) : bool := String.ltb a.1 b.1.

(** The keys of a map are sorted. *)
Definition e_map {A} (enc : A → json) (m : gmap string A) : json :=
  JObject (List.map (λ p, (p.1, enc p.2)) (sort_slice member_less (map_to_list m))).

(** A nil slice or map is null: whether an empty one is nil is the argument [nil]. *)
Definition or_nil (nil empty : bool) (j : json) : json := if empty && nil then JNull else j.

Definition is_empty {A} (l : list A) : bool := match l with [] => true | _ => false end.

Definition is_empty_map {A} (m : gmap string A) : bool := bool_decide (m = ∅).

(** A field, and one with [omitempty]. *)
Definition always (name : string) (j : json) : list (string * json) := [(name, j)].

Definition omitempty (empty : bool) (name : string) (j : json) : list (string * json) := if empty then [] else [(name, j)].

Definition e_struct (members : list (list (string * json))) : json := JObject (concat members).

(** [Encoder.Encode] ends the document with a newline, [Marshal] does not. *)
Definition Encode (j : json) : string := print j +:+ newline.

Definition Marshal (j : json) : string := print j.

(** ** Lemmas *)

(** A document whose text is what is read back. *)
Inductive clean : json → Prop :=
  | cl_null : clean JNull
  | cl_bool b : clean (JBool b)
  | cl_number lit : int_lit lit → clean (JNumber lit)
  | cl_string s : utf8_valid s = true → clean (JString s)
  | cl_array l : Forall clean l → clean (JArray l)
  | cl_object l : Forall (λ m, utf8_valid m.1 = true ∧ clean m.2) l → clean (JObject l).

Lemma clean_ok j : clean j → json_ok j ∧ valid_json j = j.
Proof.
  induction j as [|b|lit|s|l IH|l IH] using json_ind; intros Hc; inversion Hc as [| | | |? Hl|? Hl]; subst; try by split; [constructor|].
  - split; [constructor|]. simpl. by rewrite to_valid_id.
  - assert (H : Forall json_ok l ∧ List.map valid_json l = l).
    { clear Hc. induction l as [|x l IHl]; [done|]. apply Forall_cons in IH as [Hx IH], Hl as [Hcx Hl].
      destruct (Hx Hcx) as [? E]. destruct (IHl IH Hl) as [? E']. simpl. split; [by constructor|]. by rewrite E, E'. }
    destruct H as [Ho E]. split; [by constructor|]. simpl. by rewrite E.
  - assert (H : Forall (λ m, json_ok m.2) l ∧ List.map (λ m, (to_valid m.1, valid_json m.2)) l = l).
    { clear Hc. induction l as [|[k x] l IHl]; [done|]. apply Forall_cons in IH as [Hx IH], Hl as [[Hk Hcx] Hl].
      cbn [fst snd] in *. destruct (Hx Hcx) as [? E]. destruct (IHl IH Hl) as [? E']. simpl.
      split; [by constructor|]. by rewrite E, E', to_valid_id. }
    destruct H as [Ho E]. split; [by constructor|]. simpl. by rewrite E.
Qed.

Lemma newline_stops : stops newline ∧ skip_ws newline = EmptyString.
Proof. by vm_compute. Qed.

(** Encoded, a clean document is what the decoder of the other side reads. *)
Lemma Decode_Encode {A} zero (dec : Decoder A) j : clean j → nesting j <= maxNestingDepth → Decode zero dec (Encode j) = dec j zero.
Proof.
  intros [Hok Hv]%clean_ok Hn. unfold Decode, Encode. rewrite scan_value_print by (done || apply newline_stops). by rewrite Hv.
Qed.

Lemma Decode_Marshal {A} zero (dec : Decoder A) j : clean j → nesting j <= maxNestingDepth → Decode zero dec (Marshal j) = dec j zero.
Proof.
  intros [Hok Hv]%clean_ok Hn. unfold Decode, Marshal. pose proof (scan_value_print j "" Hok Hn I) as E.
  rewrite str_app_nil_r in E. rewrite E. cbn [mbind option_bind]. by rewrite Hv.
Qed.

(** *** Integers *)

Lemma Atoi_Itoa z : is_i64 z → Atoi (Itoa z) = Some z.
Proof.
  unfold is_i64, minInt64, maxInt64. intros Hz. unfold Itoa. destruct (Z.ltb_spec z 0).
  - change (Atoi ("-" +:+ FormatUint (- z))) with (n ← ParseUint (FormatUint (- z)) 64; if 2 ^ 63 <? n then None else Some (- n)).
    rewrite ParseUint_FormatUint by (unfold is_u64; lia). cbn [mbind option_bind].
    destruct (Z.ltb_spec (2 ^ 63) (- z)); [lia|]. f_equal. lia.
  - assert (E : Atoi (FormatUint z) = n ← ParseUint (FormatUint z) 64; if 2 ^ 63 <=? n then None else Some n).
    { destruct (FormatUint_first z) as (c & t & E & Hc); [lia|]. rewrite E. unfold Atoi.
      destruct c as [[] [] [] [] [] [] [] []]; done. }
    rewrite E, ParseUint_FormatUint by (unfold is_u64; lia). cbn [mbind option_bind].
    by destruct (Z.leb_spec (2 ^ 63) z); [lia|].
Qed.

Lemma d_int_e_int z old : is_i64 z → d_int (e_int z) old = Some z.
Proof. apply Atoi_Itoa. Qed.

Lemma clean_int z : - 10 ^ 20 < z < 10 ^ 20 → clean (e_int z).
Proof. intros Hz. constructor. by exists z. Qed.

Lemma parse_loop_max max max' s : ∀ acc n, parse_loop max acc s = Some n → 0 <= acc → n <= max' → max' <= max →
  parse_loop max' acc s = Some n ∧ acc <= n.
Proof.
  induction s as [|c s IH]; intros acc n; cbn [parse_loop]; [intros [= ->]; done|].
  destruct (digit_val c) as [d|] eqn:Hd; [|done]. cbn [mbind option_bind].
  assert (0 <= d) by (unfold digit_val in Hd; destruct (_ && _) eqn:E; [|done]; injection Hd as <-; apply andb_true_iff in E; lia).
  destruct (Z.ltb_spec max (acc * 10 + d)); [done|]. intros E Ha Hn Hm.
  destruct (IH _ _ E) as [E' Hle]; [lia|lia|lia|]. destruct (Z.ltb_spec max' (acc * 10 + d)); [lia|]. split; [done|lia].
Qed.

Lemma d_uint_e_int bits z old : 0 <= z < 2 ^ bits → bits <= 64 → d_uint bits (e_int z) old = Some z.
Proof.
  intros Hz Hb. pose proof (Z.pow_le_mono_r 2 bits 64 ltac:(lia) Hb) as Hp. simpl. unfold Itoa.
  destruct (Z.ltb_spec z 0); [lia|].
  assert (E : ParseUint (FormatUint z) 64 = Some z) by (apply ParseUint_FormatUint; unfold is_u64; lia).
  unfold ParseUint in *. destruct (bool_decide _); [done|].
  by apply (parse_loop_max _ (2 ^ bits - 1)) in E as [-> _]; [|lia..].
Qed.

(** *** Slices and maps *)

Lemma d_elements_e {A} zero (dec : Decoder A) enc l :
  Forall (λ x, dec (enc x) zero = Some x) l → d_elements zero dec (List.map enc l) [] = Some l.
Proof. induction 1 as [|x l Hx Hl IH]; [done|]. cbn [List.map d_elements head default tail]. unfold default, from_option, id. cbn. rewrite Hx. cbn. by rewrite IH. Qed.

Lemma d_slice_e {A} zero (dec : Decoder A) enc nil l :
  Forall (λ x, dec (enc x) zero = Some x) l → d_slice zero dec (or_nil nil (is_empty l) (e_slice enc l)) [] = Some l.
Proof.
  intros Hl. unfold or_nil. destruct l as [|x l]; [by destruct nil|]. by apply d_elements_e.
Qed.

Lemma d_entries_fold {A} zero (dec : Decoder A) enc (l : list (string * A)) m :
  Forall (λ p, dec (enc p.2) zero = Some p.2) l →
  d_entries zero dec (List.map (λ p, (p.1, enc p.2)) l) m = Some (foldl (λ m p, <[p.1 := p.2]> m) m l).
Proof.
  intros Hl. revert m. induction Hl as [|[k x] l Hx Hl IH]; intros m; [done|]. cbn [List.map d_entries fst snd] in *.
  rewrite Hx. cbn [mbind option_bind]. by rewrite IH.
Qed.

Lemma foldl_insert_map {A} (l : list (string * A)) (m : gmap string A) :
  NoDup l.*1 → (∀ k, k ∈ l.*1 → m !! k = None) → foldl (λ m p, <[p.1 := p.2]> m) m l = list_to_map l ∪ m.
Proof.
  revert m. induction l as [|[k x] l IH]; intros m Hnd Hm; simpl; [by rewrite map_empty_union|].
  apply NoDup_cons in Hnd as [Hk Hnd]. rewrite IH; [|done|].
  - rewrite <-insert_union_r by (by apply not_elem_of_list_to_map_1). by rewrite insert_union_l.
  - intros k' Hk'. rewrite lookup_insert_ne by (intros <-; done). apply Hm. by right.
Qed.

Lemma d_map_e {A} zero (dec : Decoder A) enc nil (m : gmap string A) :
  map_Forall (λ _ x, dec (enc x) zero = Some x) m → d_map zero dec (or_nil nil (is_empty_map m) (e_map enc m)) ∅ = Some m.
Proof.
  intros Hm. unfold or_nil, is_empty_map. case_bool_decide as E; [subst m; by destruct nil|].
  cbn [andb d_map e_map]. rewrite d_entries_fold.
  - f_equal. pose proof (sort_slice_perm member_less (map_to_list m)) as Hp.
    assert (Hnd : NoDup (sort_slice member_less (map_to_list m)).*1) by (rewrite Hp; apply NoDup_fst_map_to_list).
    rewrite foldl_insert_map, map_union_empty; [|done|intros; apply lookup_empty].
    rewrite (list_to_map_proper _ _ Hnd Hp). apply list_to_map_to_list.
  - apply Forall_forall. intros [k x] Hx. apply elem_of_sort_slice, elem_of_map_to_list in Hx. by apply (Hm k).
Qed.

Lemma clean_slice {A} (enc : A → json) l : Forall (λ x, clean (enc x)) l → clean (e_slice enc l).
Proof. intros Hl. constructor. by apply List.Forall_map. Qed.

Lemma clean_map {A} (enc : A → json) (m : gmap string A) :
  map_Forall (λ k x, utf8_valid k = true ∧ clean (enc x)) m → clean (e_map enc m).
Proof.
  intros Hm. constructor. apply List.Forall_map, Forall_forall. intros [k x] Hx.
  apply elem_of_sort_slice, elem_of_map_to_list in Hx. by apply (Hm k).
Qed.

Lemma clean_or_nil nil empty j : clean j → clean (or_nil nil empty j).
Proof. intros Hj. unfold or_nil. destruct (_ && _); [constructor|done]. Qed.

(** *** Structs *)

Lemma d_fields_hit {A} (fields : Fields A) i name dec k j l a :
  field_index (List.map fst fields) k = Some i → nth_error fields i = Some (name, dec) →
  d_fields fields ((k, j) :: l) a = a' ← dec j a; d_fields fields l a'.
Proof. intros Hi Hn. cbn [d_fields]. unfold find_field. rewrite Hi. cbn [mbind option_bind]. by rewrite Hn. Qed.

Lemma d_fields_miss {A} (fields : Fields A) k j l a :
  field_index (List.map fst fields) k = None → d_fields fields ((k, j) :: l) a = d_fields fields l a.
Proof. intros Hi. cbn [d_fields]. unfold find_field. by rewrite Hi. Qed.

(** Members that name no field are ignored. *)
Lemma d_fields_unknown {A} (fields : Fields A) l l' k j a :
  find_field fields k = None → d_fields fields (l ++ (k, j) :: l') a = d_fields fields (l ++ l') a.
Proof.
  intros Hk. revert a. induction l as [|[k' j'] l IH]; intros a; cbn [app d_fields]; [by rewrite Hk|].
  destruct (find_field fields k') as [dec|]; [|by rewrite IH].
  destruct (dec j' a) as [a'|]; [apply IH|done].
Qed.

Lemma clean_struct members : Forall (Forall (λ m, utf8_valid m.1 = true ∧ clean m.2)) members → clean (e_struct members).
Proof. intros Hm. constructor. by apply Forall_concat. Qed.
