(* ===== verification/ConsulFilter.v ===== *)
(** The [?filter] expressions of the Consul HTTP surface, [src/internal/consul/filter.go]:
    the tokenizer, the recursive-descent parser that builds a predicate on the view
    of an entry, and the synthetic checks (handler.go) the view reports.

    The tokenizer and the parser recurse on fuel; [parseFilter] gives them an
    amount that is always enough ([parseFilter_total]). *)

From Stdlib Require Import ZArith Lia Ascii.
From stdpp Require Import base gmap list strings.
From S2P Require Import Prelude GoStrings GoText Model.

(** ** Synthetic checks (handler.go) *)

Record healthCheck := mkCheck {
  hc_Node : string;
  hc_CheckID : string;
  hc_Name : string;
  hc_Status : string;
  hc_ServiceID : string;
  hc_ServiceName : string
}.

Definition healthStatus (s : HealthState) : string :=
  match s with
  | HealthWarning => "warning"
  | HealthCritical => "critical"
  | _ => "passing"
  end.

Definition synthChecks (e : ServiceEntry) : list healthCheck :=
  let node := DisplayName (Entry_Node e) in
  let svc := Entry_Service e in
  let nodeStatus := match Entry_Health e with HealthCritical => "critical"%string | _ => "passing"%string end in
  [mkCheck node "serfHealth" "Serf Health Status" nodeStatus "" "";
   mkCheck node ("service:" +:+ Svc_ID svc) ("Service '" +:+ Svc_Name svc +:+ "' check")
     (healthStatus (Entry_Health e)) (Svc_ID svc) (Svc_Name svc)] ++
  (if Entry_Maintenance e
   then [mkCheck node ("_service_maintenance:" +:+ Svc_ID svc) "Service Maintenance Mode" "critical"
           (Svc_ID svc) (Svc_Name svc)]
   else []).

(** ** Data *)

Record view := mkView {
  v_tags : list string;
  v_meta : gmap string string;
  v_statuses : list string
}.

Definition viewOf (e : ServiceEntry) : view :=
  mkView (Svc_Tags (Entry_Service e)) (Svc_Meta (Entry_Service e)) (hc_Status <$> synthChecks e).

Definition filterExpr := view → bool.

Inductive FilterError :=
  | TrailingToken (tok : string)
  | MissingParen
  | IncompletePredicate
  | UnsupportedOperator (op : string)
  | FilterOutOfFuel.

Definition parsed (A : Type) : Type := (A + FilterError)%type.

(** ** Matching *)

(** The double quote. *)
Definition DQ : ascii := ascii_of_N 34.

Definition list_contains (list : list string) (v : string) : bool :=
  existsb (λ x, bool_decide (x = v)) list.

Definition hasPrefixFold (s prefix : string) : bool :=
  (String.length prefix <=? String.length s)%nat && EqualFold (str_take (String.length prefix) s) prefix.

Definition unquote (s : string) : string :=
  if (2 <=? String.length s)%nat && HasPrefix s (String DQ EmptyString) && HasSuffix s (String DQ EmptyString)
  then str_take (String.length s - 2) (str_drop 1 s) else s.

Definition scalarEq (v : view) (selector val : string) : bool :=
  if EqualFold selector "Checks.Status" then list_contains (v_statuses v) val
  else if hasPrefixFold selector "ServiceMeta."
       then bool_decide (default ""%string (v_meta v !! str_drop (String.length "ServiceMeta.") selector) = val)
       else false.

Definition listHas (v : view) (selector val : string) : bool :=
  if EqualFold selector "ServiceTags" then list_contains (v_tags v) val
  else if EqualFold selector "Checks.Status" then list_contains (v_statuses v) val
       else false.

(** ** Tokens *)

Definition is_blank (c : ascii) : bool := bool_decide (c = " "%char) || bool_decide (c = "009"%char).

Definition is_paren (c : ascii) : bool := bool_decide (c = "("%char) || bool_decide (c = ")"%char).

(** A byte that continues a word: none of space, tab, parentheses and quote. *)
Definition word_byte (c : ascii) : bool := negb (is_blank c || is_paren c || bool_decide (c = DQ)).

(** The loop, on the part of the input from [i] on. *)
Fixpoint tokenize (fuel : nat) (s : string) : option (list string) :=
  match fuel with
  | O => None
  | S fuel =>
      match s with
      | EmptyString => Some []
      | String c s' =>
          if is_blank c then tokenize fuel s'
          else if is_paren c then toks ← tokenize fuel s'; Some (String c EmptyString :: toks)
          else if bool_decide (c = DQ) then
            let '(body, rest) := span (λ b, negb (bool_decide (b = DQ))) s' in
            match rest with
            | EmptyString => toks ← tokenize fuel EmptyString; Some (String c body :: toks)
            | String q rest' => toks ← tokenize fuel rest'; Some (String c (body +:+ String q EmptyString) :: toks)
            end
          else if bool_decide (c = "="%char) || bool_decide (c = "!"%char) then
            match s' with
            | String "=" s'' => toks ← tokenize fuel s''; Some (String c (String "=" EmptyString) :: toks)
            | _ => toks ← tokenize fuel s'; Some (String c EmptyString :: toks)
            end
          else
            let '(word, rest) := span word_byte s in
            toks ← tokenize fuel rest; Some (word :: toks)
      end
  end.

Definition tokenizeFilter (s : string) : option (list string) := tokenize (S (String.length s)) s.

(** ** The parser

    The position is kept beside the token list, as [filterParser.pos]: [next]
    moves it past the end too. *)
Section Parser.
  Context (tokens : list string).

Definition peek (pos : nat) : string := default ""%string (tokens !! pos).

Definition parsePredicate (pos : nat) : parsed (filterExpr * nat) :=
  let lhs := peek pos in
  let op := peek (S pos) in
  let rhs := peek (S (S pos)) in
  let pos := (pos + 3)%nat in
  if bool_decide (lhs = ""%string) || bool_decide (op = ""%string) then inr IncompletePredicate
  else if ToLower_is op "==" then inl (λ v, scalarEq v lhs (unquote rhs), pos)
  else if ToLower_is op "!=" then inl (λ v, negb (scalarEq v lhs (unquote rhs)), pos)
  else if ToLower_is op "contains" then inl (λ v, listHas v lhs (unquote rhs), pos)
  else if ToLower_is op "in" then inl (λ v, listHas v rhs (unquote lhs), pos)
  else inr (UnsupportedOperator op).

Fixpoint parseOr (fuel : nat) (pos : nat) : parsed (filterExpr * nat) :=
  match fuel with
  | O => inr FilterOutOfFuel
  | S fuel =>
      match parseAnd fuel pos with
      | inr err => inr err
      | inl (lhs, pos) => or_loop fuel lhs pos
      end
  end
with or_loop (fuel : nat) (lhs : filterExpr) (pos : nat) : parsed (filterExpr * nat) :=
  match fuel with
  | O => inr FilterOutOfFuel
  | S fuel =>
      if EqualFold (peek pos) "or" then
        match parseAnd fuel (S pos) with
        | inr err => inr err
        | inl (rhs, pos) => or_loop fuel (λ v, lhs v || rhs v) pos
        end
      else inl (lhs, pos)
  end
with parseAnd (fuel : nat) (pos : nat) : parsed (filterExpr * nat) :=
  match fuel with
  | O => inr FilterOutOfFuel
  | S fuel =>
      match parseNot fuel pos with
      | inr err => inr err
      | inl (lhs, pos) => and_loop fuel lhs pos
      end
  end
with and_loop (fuel : nat) (lhs : filterExpr) (pos : nat) : parsed (filterExpr * nat) :=
  match fuel with
  | O => inr FilterOutOfFuel
  | S fuel =>
      if EqualFold (peek pos) "and" then
        match parseNot fuel (S pos) with
        | inr err => inr err
        | inl (rhs, pos) => and_loop fuel (λ v, lhs v && rhs v) pos
        end
      else inl (lhs, pos)
  end
with parseNot (fuel : nat) (pos : nat) : parsed (filterExpr * nat) :=
  match fuel with
  | O => inr FilterOutOfFuel
  | S fuel =>
      if EqualFold (peek pos) "not" then
        match parseNot fuel (S pos) with
        | inr err => inr err
        | inl (inner, pos) => inl (λ v, negb (inner v), pos)
        end
      else parsePrimary fuel pos
  end
with parsePrimary (fuel : nat) (pos : nat) : parsed (filterExpr * nat) :=
  match fuel with
  | O => inr FilterOutOfFuel
  | S fuel =>
      if bool_decide (peek pos = "("%string) then
        match parseOr fuel (S pos) with
        | inr err => inr err
        | inl (inner, pos) =>
            if bool_decide (peek pos = ")"%string) then inl (inner, S pos) else inr MissingParen
        end
      else parsePredicate pos
  end.
End Parser.

Definition parser_fuel (tokens : list string) : nat := (5 * length tokens + 5)%nat.

Definition parseFilter (s : string) : parsed filterExpr :=
  match tokenizeFilter s with
  | None => inr FilterOutOfFuel
  | Some tokens =>
      match parseOr tokens (parser_fuel tokens) 0 with
      | inr err => inr err
      | inl (expr, pos) =>
          if bool_decide (pos ≠ length tokens) then inr (TrailingToken (peek tokens pos)) else inl expr
      end
  end.

(** handler.go *)
Definition applyFilter (entries : list ServiceEntry) (f : filterExpr) : list ServiceEntry :=
  filter (λ e, f (viewOf e) = true) entries.

(** [None]: no filter was given. *)
Definition compileFilter (f : string) : parsed (option filterExpr) :=
  if bool_decide (TrimSpace f = ""%string) then inl None
  else match parseFilter f with inl e => inl (Some e) | inr err => inr err end.

(** ** Termination *)

Lemma tokenize_total fuel s : (String.length s < fuel)%nat → is_Some (tokenize fuel s).
Proof.
  revert s. induction fuel as [|fuel IH]; intros s Hlen; [lia|]. destruct s as [|c s]; [by eexists|].
  cbn [String.length] in Hlen. cbn [tokenize].
  assert (Hnext : ∀ (t : string) s', (String.length s' < fuel)%nat →
            is_Some (toks ← tokenize fuel s'; Some (t :: toks))).
  { intros t s' Hs'. destruct (IH s' Hs') as [toks ->]. by eexists. }
  destruct (is_blank c) eqn:Hb; [apply IH; lia|]. destruct (is_paren c) eqn:Hp; [apply Hnext; lia|].
  destruct (bool_decide (c = DQ)) eqn:Hq.
  { pose proof (span_length (λ b, negb (bool_decide (b = DQ))) s) as Hs.
    destruct (span _ s) as [body [|q rest]]; apply Hnext; simpl in *; lia. }
  destruct (_ || _).
  { destruct s as [|b s']; [apply Hnext; simpl in *; lia|]. simpl in Hlen.
    destruct b as [[] [] [] [] [] [] [] []]; apply Hnext; simpl; lia. }
  assert (Hw : word_byte c = true) by (unfold word_byte; by rewrite Hb, Hp, Hq).
  cbn [span]. rewrite Hw. pose proof (span_length word_byte s) as Hs.
  destruct (span word_byte s) as [word rest]. apply Hnext. lia.
Qed.

Section Total.
  Context (tokens : list string).

Definition progress (pos : nat) (r : parsed (filterExpr * nat)) : Prop :=
    match r with
    | inl (_, pos') => (pos < pos' ∧ pos < length tokens)%nat
    | inr err => err ≠ FilterOutOfFuel
    end.

Definition loop_progress (pos : nat) (r : parsed (filterExpr * nat)) : Prop :=
    match r with
    | inl (_, pos') => (pos <= pos')%nat
    | inr err => err ≠ FilterOutOfFuel
    end.

Lemma peek_inside pos : peek tokens pos ≠ ""%string → (pos < length tokens)%nat.
Proof.
  unfold peek. intros Hp. apply lookup_lt_is_Some. destruct (tokens !! pos); [by eexists|done].
Qed.

Lemma keyword_inside pos k : k ≠ ""%string → EqualFold (peek tokens pos) k = true → (pos < length tokens)%nat.
Proof.
  intros Hk Hf. apply peek_inside. intros He. rewrite He in Hf. by destruct k.
Qed.

Lemma parsePredicate_progress pos : progress pos (parsePredicate tokens pos).
Proof.
  unfold parsePredicate. destruct (bool_decide (peek tokens pos = ""%string)) eqn:Hp; [done|].
  apply bool_decide_eq_false in Hp. apply peek_inside in Hp.
  repeat (destruct (ToLower_is _ _) || destruct (bool_decide _)); simpl; try done; lia.
Qed.

(** The fuel each function needs for [d] remaining tokens. *)
Lemma parser_progress fuel : ∀ pos,
  let d := (length tokens - pos)%nat in
  ((5 * d + 4 <= fuel)%nat → progress pos (parseOr tokens fuel pos)) ∧
  (∀ lhs, (5 * d + 1 <= fuel)%nat → loop_progress pos (or_loop tokens fuel lhs pos)) ∧
  ((5 * d + 3 <= fuel)%nat → progress pos (parseAnd tokens fuel pos)) ∧
  (∀ lhs, (5 * d + 1 <= fuel)%nat → loop_progress pos (and_loop tokens fuel lhs pos)) ∧
  ((5 * d + 2 <= fuel)%nat → progress pos (parseNot tokens fuel pos)) ∧
  ((5 * d + 1 <= fuel)%nat → progress pos (parsePrimary tokens fuel pos)).
Proof.
  induction fuel as [|fuel IH]; intros pos d; [split_and!; intros; lia|].
  split_and!; cbn [parseOr or_loop parseAnd and_loop parseNot parsePrimary].
  - intros Hf. destruct (IH pos) as (_ & _ & Ha & _). specialize (Ha ltac:(lia)).
    destruct (parseAnd tokens fuel pos) as [[f pos']|err]; simpl in Ha; [|done].
    destruct (IH pos') as (_ & Hl & _). specialize (Hl f ltac:(lia)).
    destruct (or_loop tokens fuel f pos') as [[g pos'']|err]; simpl in *; [lia|done].
  - intros lhs Hf. destruct (EqualFold (peek tokens pos) "or") eqn:E; [|simpl; lia].
    apply keyword_inside in E; [|done].
    destruct (IH (S pos)) as (_ & _ & Ha & _). specialize (Ha ltac:(lia)).
    destruct (parseAnd tokens fuel (S pos)) as [[f pos']|err]; simpl in Ha; [|done].
    destruct (IH pos') as (_ & Hl & _). specialize (Hl (λ v, lhs v || f v) ltac:(lia)).
    destruct (or_loop tokens fuel _ pos') as [[g pos'']|err]; simpl in *; [lia|done].
  - intros Hf. destruct (IH pos) as (_ & _ & _ & _ & Ha & _). specialize (Ha ltac:(lia)).
    destruct (parseNot tokens fuel pos) as [[f pos']|err]; simpl in Ha; [|done].
    destruct (IH pos') as (_ & _ & _ & Hl & _). specialize (Hl f ltac:(lia)).
    destruct (and_loop tokens fuel f pos') as [[g pos'']|err]; simpl in *; [lia|done].
  - intros lhs Hf. destruct (EqualFold (peek tokens pos) "and") eqn:E; [|simpl; lia].
    apply keyword_inside in E; [|done].
    destruct (IH (S pos)) as (_ & _ & _ & _ & Ha & _). specialize (Ha ltac:(lia)).
    destruct (parseNot tokens fuel (S pos)) as [[f pos']|err]; simpl in Ha; [|done].
    destruct (IH pos') as (_ & _ & _ & Hl & _). specialize (Hl (λ v, lhs v && f v) ltac:(lia)).
    destruct (and_loop tokens fuel _ pos') as [[g pos'']|err]; simpl in *; [lia|done].
  - intros Hf. destruct (EqualFold (peek tokens pos) "not") eqn:E.
    + apply keyword_inside in E; [|done].
      destruct (IH (S pos)) as (_ & _ & _ & _ & Ha & _). specialize (Ha ltac:(lia)).
      destruct (parseNot tokens fuel (S pos)) as [[f pos']|err]; simpl in *; [lia|done].
    + apply (IH pos). lia.
  - intros Hf. destruct (bool_decide (peek tokens pos = "("%string)) eqn:E.
    + apply bool_decide_eq_true in E. assert (pos < length tokens)%nat by (apply peek_inside; by rewrite E).
      destruct (IH (S pos)) as (Ha & _). specialize (Ha ltac:(lia)).
      destruct (parseOr tokens fuel (S pos)) as [[f pos']|err]; simpl in *; [|done].
      destruct (bool_decide _); simpl; [lia|done].
    + apply parsePredicate_progress.
Qed.

(** The equations of the parser. *)
Lemma parseOr_S fuel pos : parseOr tokens (S fuel) pos =
  match parseAnd tokens fuel pos with inr err => inr err | inl (l, p) => or_loop tokens fuel l p end.
Proof. done. Qed.

Lemma or_loop_S fuel lhs pos : or_loop tokens (S fuel) lhs pos =
  if EqualFold (peek tokens pos) "or" then
    match parseAnd tokens fuel (S pos) with
    | inr err => inr err | inl (r, p) => or_loop tokens fuel (λ v, lhs v || r v) p end
  else inl (lhs, pos).
Proof. done. Qed.

Lemma parseAnd_S fuel pos : parseAnd tokens (S fuel) pos =
  match parseNot tokens fuel pos with inr err => inr err | inl (l, p) => and_loop tokens fuel l p end.
Proof. done. Qed.

Lemma and_loop_S fuel lhs pos : and_loop tokens (S fuel) lhs pos =
  if EqualFold (peek tokens pos) "and" then
    match parseNot tokens fuel (S pos) with
    | inr err => inr err | inl (r, p) => and_loop tokens fuel (λ v, lhs v && r v) p end
  else inl (lhs, pos).
Proof. done. Qed.

Lemma parseNot_S fuel pos : parseNot tokens (S fuel) pos =
  if EqualFold (peek tokens pos) "not" then
    match parseNot tokens fuel (S pos) with
    | inr err => inr err | inl (i, p) => inl (λ v, negb (i v), p) end
  else parsePrimary tokens fuel pos.
Proof. done. Qed.

Lemma parsePrimary_S fuel pos : parsePrimary tokens (S fuel) pos =
  if bool_decide (peek tokens pos = "("%string) then
    match parseOr tokens fuel (S pos) with
    | inr err => inr err
    | inl (i, p) => if bool_decide (peek tokens p = ")"%string) then inl (i, S p) else inr MissingParen end
  else parsePredicate tokens pos.
Proof. done. Qed.

(** More fuel does not change an answer. *)
Lemma parser_fuel_mono fuel : ∀ pos,
  (parseOr tokens fuel pos ≠ inr FilterOutOfFuel → parseOr tokens (S fuel) pos = parseOr tokens fuel pos) ∧
  (∀ lhs, or_loop tokens fuel lhs pos ≠ inr FilterOutOfFuel →
     or_loop tokens (S fuel) lhs pos = or_loop tokens fuel lhs pos) ∧
  (parseAnd tokens fuel pos ≠ inr FilterOutOfFuel → parseAnd tokens (S fuel) pos = parseAnd tokens fuel pos) ∧
  (∀ lhs, and_loop tokens fuel lhs pos ≠ inr FilterOutOfFuel →
     and_loop tokens (S fuel) lhs pos = and_loop tokens fuel lhs pos) ∧
  (parseNot tokens fuel pos ≠ inr FilterOutOfFuel → parseNot tokens (S fuel) pos = parseNot tokens fuel pos) ∧
  (parsePrimary tokens fuel pos ≠ inr FilterOutOfFuel →
     parsePrimary tokens (S fuel) pos = parsePrimary tokens fuel pos).
Proof.
  induction fuel as [|fuel IH]; intros pos; [done|].
  split_and!.
  - rewrite !parseOr_S. intros Hne. destruct (IH pos) as (_ & _ & Ha & _).
    rewrite Ha by (intros E; by rewrite E in Hne). destruct (parseAnd tokens fuel pos) as [[f p]|]; [|done].
    by apply (IH p).
  - intros lhs. rewrite !or_loop_S. destruct (EqualFold _ _); [|done]. intros Hne.
    destruct (IH (S pos)) as (_ & _ & Ha & _). rewrite Ha by (intros E; by rewrite E in Hne).
    destruct (parseAnd tokens fuel (S pos)) as [[f p]|]; [|done]. by apply (IH p).
  - rewrite !parseAnd_S. intros Hne. destruct (IH pos) as (_ & _ & _ & _ & Ha & _).
    rewrite Ha by (intros E; by rewrite E in Hne). destruct (parseNot tokens fuel pos) as [[f p]|]; [|done].
    by apply (IH p).
  - intros lhs. rewrite !and_loop_S. destruct (EqualFold _ _); [|done]. intros Hne.
    destruct (IH (S pos)) as (_ & _ & _ & _ & Ha & _). rewrite Ha by (intros E; by rewrite E in Hne).
    destruct (parseNot tokens fuel (S pos)) as [[f p]|]; [|done]. by apply (IH p).
  - rewrite (parseNot_S (S fuel) pos), (parseNot_S fuel pos). destruct (EqualFold _ _); [|by apply (IH pos)]. intros Hne.
    destruct (IH (S pos)) as (_ & _ & _ & _ & Ha & _). by rewrite Ha by (intros E; by rewrite E in Hne).
  - rewrite !parsePrimary_S. destruct (bool_decide _); [|done]. intros Hne.
    destruct (IH (S pos)) as (Ha & _). by rewrite Ha by (intros E; by rewrite E in Hne).
Qed.

Lemma parseOr_fuel fuel fuel' pos : (fuel <= fuel')%nat →
  parseOr tokens fuel pos ≠ inr FilterOutOfFuel → parseOr tokens fuel' pos = parseOr tokens fuel pos.
Proof.
  intros Hle Hne. induction Hle as [|fuel' Hle IH]; [done|].
  destruct (parser_fuel_mono fuel' pos) as [Hm _]. rewrite Hm; [done|]. by rewrite IH.
Qed.
End Total.

(** ** Written expressions

    The expressions of the documented grammar, their meaning, and their text with
    as few parentheses as precedence ([not] over [and] over [or]) allows. *)

Inductive selector := SelTags | SelStatus | SelMeta (key : string).

Inductive fexp :=
  | FEq (sel : selector) (val : string)
  | FNe (sel : selector) (val : string)
  | FContains (sel : selector) (val : string)
  | FIn (val : string) (sel : selector)
  | FNot (e : fexp)
  | FAnd (a b : fexp)
  | FOr (a b : fexp).

(** What a selector compares, as a scalar and as a list. *)
Definition sel_eq (v : view) (sel : selector) (val : string) : bool :=
  match sel with
  | SelTags => false
  | SelStatus => bool_decide (val ∈ v_statuses v)
  | SelMeta k => bool_decide (default ""%string (v_meta v !! k) = val)
  end.

Definition sel_has (v : view) (sel : selector) (val : string) : bool :=
  match sel with
  | SelTags => bool_decide (val ∈ v_tags v)
  | SelStatus => bool_decide (val ∈ v_statuses v)
  | SelMeta _ => false
  end.

Fixpoint feval (e : fexp) (v : view) : bool :=
  match e with
  | FEq sel val => sel_eq v sel val
  | FNe sel val => negb (sel_eq v sel val)
  | FContains sel val | FIn val sel => sel_has v sel val
  | FNot e => negb (feval e v)
  | FAnd a b => feval a v && feval b v
  | FOr a b => feval a v || feval b v
  end.

Definition sel_text (sel : selector) : string :=
  match sel with
  | SelTags => "ServiceTags"
  | SelStatus => "Checks.Status"
  | SelMeta k => "ServiceMeta." +:+ k
  end.

Definition quote (val : string) : string := String DQ (val +:+ String DQ EmptyString).

Definition paren (b : bool) (l : list string) : list string :=
  if b then ("("%string :: l) ++ [")"%string] else l.

(** The tokens of an expression where [or] (level 0), only [and] (1), or only an
    operand (2) may stand. *)
Fixpoint render (lvl : nat) (e : fexp) : list string :=
  match e with
  | FEq sel val => [sel_text sel; "=="%string; quote val]
  | FNe sel val => [sel_text sel; "!="%string; quote val]
  | FContains sel val => [sel_text sel; "contains"%string; quote val]
  | FIn val sel => [quote val; "in"%string; sel_text sel]
  | FNot e => "not"%string :: render 2 e
  | FAnd a b => paren (2 <=? lvl)%nat (render 1 a ++ "and"%string :: render 2 b)
  | FOr a b => paren (1 <=? lvl)%nat (render 0 a ++ "or"%string :: render 1 b)
  end.

(** Values have no quote, metadata keys are words. *)
Definition sel_wf (sel : selector) : Prop :=
  match sel with SelMeta k => all_bytes word_byte k = true | _ => True end.

Fixpoint fexp_wf (e : fexp) : Prop :=
  match e with
  | FEq sel val | FNe sel val | FContains sel val | FIn val sel => sel_wf sel ∧ no_byte DQ val = true
  | FNot e => fexp_wf e
  | FAnd a b | FOr a b => fexp_wf a ∧ fexp_wf b
  end.

(** The closure the parser builds for an expression. *)
Fixpoint fparsed (e : fexp) : filterExpr :=
  match e with
  | FEq sel val => λ v, scalarEq v (sel_text sel) (unquote (quote val))
  | FNe sel val => λ v, negb (scalarEq v (sel_text sel) (unquote (quote val)))
  | FContains sel val | FIn val sel => λ v, listHas v (sel_text sel) (unquote (quote val))
  | FNot e => λ v, negb (fparsed e v)
  | FAnd a b => λ v, fparsed a v && fparsed b v
  | FOr a b => λ v, fparsed a v || fparsed b v
  end.

Lemma list_contains_elem l v : list_contains l v = bool_decide (v ∈ l).
Proof.
  apply eq_true_iff_eq. unfold list_contains. rewrite existsb_exists, bool_decide_eq_true. split.
  - intros (x & Hx & ->%bool_decide_eq_true). by apply list_elem_of_In.
  - intros Hv. exists v. rewrite bool_decide_eq_true. split; [by apply list_elem_of_In|done].
Qed.

Lemma unquote_quote val : unquote (quote val) = val.
Proof.
  unfold unquote, quote. replace (2 <=? _)%nat with true
    by (symmetry; apply Nat.leb_le; simpl; rewrite str_length_app; simpl; lia).
  change (String DQ (val +:+ String DQ EmptyString)) with
    ((String DQ EmptyString) +:+ (val +:+ String DQ EmptyString)).
  rewrite HasPrefix_app. rewrite <-str_app_assoc, HasSuffix_app, str_app_assoc. simpl andb. cbv iota.
  rewrite !str_length_app. cbn [String.length].
  replace (1 + (String.length val + 1) - 2)%nat with (String.length val) by lia.
  rewrite str_app_cons, str_app_nil_l. cbn [str_drop]. apply str_take_app.
Qed.

Lemma scalarEq_sel v sel val : scalarEq v (sel_text sel) val = sel_eq v sel val.
Proof.
  destruct sel as [| |k]; [done| |]; unfold scalarEq, sel_text, sel_eq.
  - rewrite EqualFold_refl. apply list_contains_elem.
  - change (EqualFold ("ServiceMeta." +:+ k) "Checks.Status") with false. unfold hasPrefixFold.
    rewrite str_take_app, EqualFold_refl, str_length_app, str_drop_app.
    by replace (_ <=? _)%nat with true by (symmetry; apply Nat.leb_le; lia).
Qed.

Lemma listHas_sel v sel val : listHas v (sel_text sel) val = sel_has v sel val.
Proof.
  destruct sel as [| |k]; unfold listHas, sel_text, sel_has; [| |done]; rewrite EqualFold_refl; apply list_contains_elem.
Qed.

Lemma fparsed_feval e v : fparsed e v = feval e v.
Proof.
  induction e; simpl; rewrite ?unquote_quote, ?scalarEq_sel, ?listHas_sel; congruence.
Qed.

(** ** Parsing written expressions *)

(** [F] answers [r] for every large enough fuel. *)
Definition eventually {R} (F : nat → R) (r : R) : Prop := ∃ N, ∀ n, (N <= n)%nat → F n = r.

Lemma eventually_bind {A R} (F : nat → A) (G : A → nat → R) (H : nat → R) a r :
  (∀ n, H (S n) = G (F n) n) → eventually F a → eventually (G a) r → eventually H r.
Proof.
  intros HH [N HF] [M HG]. exists (S (N + M)). intros [|n] Hn; [lia|].
  rewrite HH, HF by lia. apply HG. lia.
Qed.

Lemma eventually_const {R} (F : nat → R) r : (∀ n, F (S n) = r) → eventually F r.
Proof. intros HF. exists 1%nat. intros [|n] Hn; [lia|done]. Qed.

Section Parses.
  Context (tokens : list string).

(** The tokens from [pos] on start with [ts]. *)
Definition at_ (pos : nat) (ts : list string) : Prop := ∃ rest, drop pos tokens = ts ++ rest.

Lemma at_app pos a b : at_ pos (a ++ b) → at_ pos a ∧ at_ (pos + length a) b.
Proof.
  intros [rest Hr]. split; [exists (b ++ rest); by rewrite Hr, app_assoc|].
  exists rest. rewrite <-drop_drop, Hr, <-app_assoc. apply drop_app_length.
Qed.

Lemma at_cons pos t ts : at_ pos (t :: ts) → peek tokens pos = t ∧ at_ (S pos) ts.
Proof.
  intros Ha. pose proof (at_app pos [t] ts Ha) as [[rest Hr] Hts]. simpl in Hts.
  rewrite Nat.add_1_r in Hts. split; [|done]. unfold peek.
  rewrite <-(Nat.add_0_r pos), <-lookup_drop, Hr. done.
Qed.

Definition keeps (k : string) (pos : nat) : Prop := EqualFold (peek tokens pos) k = false.

Definition or_chain (e : fexp) : Prop :=
  ∀ pos r, at_ pos (render 0 e) → keeps "and" (pos + length (render 0 e)) →
    eventually (λ n, or_loop tokens n (fparsed e) (pos + length (render 0 e))) r →
    eventually (λ n, parseOr tokens n pos) r.

(** The parser on the rendering of [e], where an operand, an [and] chain and an
    [or] chain are parsed; the chains go on with whatever follows. *)
Definition parses (e : fexp) : Prop :=
  (∀ pos, at_ pos (render 2 e) →
     eventually (λ n, parseNot tokens n pos) (inl (fparsed e, (pos + length (render 2 e))%nat))) ∧
  (∀ pos r, at_ pos (render 1 e) →
     eventually (λ n, and_loop tokens n (fparsed e) (pos + length (render 1 e))) r →
     eventually (λ n, parseAnd tokens n pos) r) ∧
  or_chain e.

Lemma and_loop_ends f pos : keeps "and" pos → eventually (λ n, and_loop tokens n f pos) (inl (f, pos)).
Proof. intros Hk. apply eventually_const. intros n. rewrite and_loop_S. by rewrite Hk. Qed.

Lemma or_loop_ends f pos : keeps "or" pos → eventually (λ n, or_loop tokens n f pos) (inl (f, pos)).
Proof. intros Hk. apply eventually_const. intros n. rewrite or_loop_S. by rewrite Hk. Qed.

(** An operand is a chain of one. *)
Lemma operand_chain e pos r :
  eventually (λ n, parseNot tokens n pos) (inl (fparsed e, (pos + length (render 2 e))%nat)) →
  eventually (λ n, and_loop tokens n (fparsed e) (pos + length (render 2 e))) r →
  eventually (λ n, parseAnd tokens n pos) r.
Proof.
  intros Hn Hl. eapply (eventually_bind _ (λ a n, match a with inr err => inr err
    | inl (l, p) => and_loop tokens n l p end)); [|exact Hn|exact Hl]. intros n. apply parseAnd_S.
Qed.

Lemma and_chain_or f pos pos' r :
  eventually (λ n, parseAnd tokens n pos) (inl (f, pos')) →
  eventually (λ n, or_loop tokens n f pos') r →
  eventually (λ n, parseOr tokens n pos) r.
Proof.
  intros Hn Hl. eapply (eventually_bind _ (λ a n, match a with inr err => inr err
    | inl (l, p) => or_loop tokens n l p end)); [|exact Hn|exact Hl]. intros n. apply parseOr_S.
Qed.

(** An expression in parentheses is an operand. *)
Lemma paren_operand e pos :
  or_chain e → at_ pos (paren true (render 0 e)) →
  eventually (λ n, parseNot tokens n pos) (inl (fparsed e, (pos + length (paren true (render 0 e)))%nat)).
Proof.
  intros Ho Ha. change (paren true (render 0 e)) with ("("%string :: (render 0 e ++ [")"%string])) in *.
  apply at_cons in Ha as [Hp Ha]. apply at_app in Ha as [Ha Hc]. apply at_cons in Hc as [Hc _].
  assert (Hor : eventually (λ n, parseOr tokens n (S pos)) (inl (fparsed e, (S pos + length (render 0 e))%nat))).
  { apply Ho; [done|unfold keeps; by rewrite Hc|]. apply or_loop_ends. unfold keeps. by rewrite Hc. }
  assert (Hprim : eventually (λ n, parsePrimary tokens n pos)
                    (inl (fparsed e, S (S pos + length (render 0 e))))).
  { eapply (eventually_bind _ (λ a n, match a with inr err => inr err
      | inl (i, p) => if bool_decide (peek tokens p = ")"%string) then inl (i, S p) else inr MissingParen end));
      [|exact Hor|].
    - intros n. rewrite parsePrimary_S, Hp. done.
    - apply eventually_const. intros _. by rewrite Hc. }
  cbn [length]. rewrite length_app. cbn [length].
  replace (pos + S (length (render 0 e) + 1))%nat with (S (S pos + length (render 0 e))) by lia.
  eapply (eventually_bind _ (λ a n, a)); [|exact Hprim|by apply eventually_const].
  intros n. rewrite parseNot_S, Hp. done.
Qed.

(** From operand to chains, for an expression that is not itself a chain. *)
Lemma operand_parses e :
  render 1 e = render 2 e → render 0 e = render 2 e →
  (∀ pos, at_ pos (render 2 e) →
     eventually (λ n, parseNot tokens n pos) (inl (fparsed e, (pos + length (render 2 e))%nat))) →
  parses e.
Proof.
  intros H1 H0 Hn. split; [done|]. unfold or_chain. rewrite H1, H0. split.
  - intros pos r Ha Hl. eapply operand_chain; [by apply Hn|done].
  - intros pos r Ha Hk Hl. eapply and_chain_or; [|exact Hl].
    eapply operand_chain; [by apply Hn|]. by apply and_loop_ends.
Qed.

Lemma predicate_parses e :
  render 1 e = render 2 e → render 0 e = render 2 e →
  (∀ pos, at_ pos (render 2 e) → keeps "not" pos ∧ peek tokens pos ≠ "("%string ∧
     parsePredicate tokens pos = inl (fparsed e, (pos + length (render 2 e))%nat)) →
  parses e.
Proof.
  intros H1 H0 Hp. apply operand_parses; [done..|]. intros pos Ha.
  destruct (Hp pos Ha) as (Hk & Hne & He).
  eapply (eventually_bind (λ n, parsePrimary tokens n pos) (λ a n, a)); [| |by apply eventually_const].
  - intros n. rewrite parseNot_S. by rewrite Hk.
  - apply eventually_const. intros n. rewrite parsePrimary_S. by rewrite bool_decide_eq_false_2.
Qed.

Lemma sel_text_head sel : EqualFold (sel_text sel) "not" = false ∧ sel_text sel ≠ "("%string ∧ sel_text sel ≠ ""%string.
Proof. by destruct sel. Qed.

Lemma quote_head val : EqualFold (quote val) "not" = false ∧ quote val ≠ "("%string ∧ quote val ≠ ""%string.
Proof. done. Qed.

(** A predicate with its three tokens. *)
Lemma parsePredicate_at pos l op r :
  at_ pos [l; op; r] → peek tokens pos = l ∧ peek tokens (S pos) = op ∧ peek tokens (S (S pos)) = r.
Proof. intros [? [? [? _]%at_cons]%at_cons]%at_cons. done. Qed.

Lemma selector_predicate sel op val pos :
  at_ pos [sel_text sel; op; quote val] → op ≠ ""%string →
  keeps "not" pos ∧ peek tokens pos ≠ "("%string ∧
  bool_decide (peek tokens pos = ""%string) || bool_decide (peek tokens (S pos) = ""%string) = false ∧
  peek tokens pos = sel_text sel ∧ peek tokens (S pos) = op ∧ peek tokens (S (S pos)) = quote val.
Proof.
  intros (Hl & Ho & Hr)%parsePredicate_at Hne. unfold keeps. rewrite Hl, Ho, Hr.
  destruct (sel_text_head sel) as (? & ? & ?). rewrite !bool_decide_eq_false_2 by done. done.
Qed.

Lemma render_parses e : parses e.
Proof.
  induction e as [sel val|sel val|sel val|val sel|e IH|a IHa b IHb|a IHa b IHb].
  1-3: apply predicate_parses; [done..|]; intros pos Ha; cbn [render] in *;
    destruct (selector_predicate _ _ _ _ Ha) as (? & ? & Hb & Hl & Ho & Hr); [done|];
    (split; [done|]); (split; [done|]); unfold parsePredicate; by rewrite Hb, Hl, Ho, Hr.
  - apply predicate_parses; [done..|]. intros pos Ha. cbn [render] in *.
    apply parsePredicate_at in Ha as (Hl & Ho & Hr). unfold keeps. rewrite Hl.
    split; [done|]. split; [done|]. unfold parsePredicate. rewrite Hl, Ho, Hr. done.
  - apply operand_parses; [done..|]. intros pos Ha. cbn [render] in *. apply at_cons in Ha as [Hp Ha].
    destruct IH as (IH & _). specialize (IH _ Ha). cbn [length]. rewrite Nat.add_succ_r, <-Nat.add_succ_l.
    eapply (eventually_bind _ (λ a n, match a with inr err => inr err
      | inl (i, p) => inl (λ v, negb (i v), p) end)); [|exact IH|by apply eventually_const].
    intros n. rewrite parseNot_S, Hp. done.
  - assert (Hand : ∀ pos r, at_ pos (render 1 (FAnd a b)) →
              eventually (λ n, and_loop tokens n (fparsed (FAnd a b)) (pos + length (render 1 (FAnd a b)))) r →
              eventually (λ n, parseAnd tokens n pos) r).
    { intros pos r Ha Hl. cbn [render paren Nat.leb] in *. apply at_app in Ha as [Ha Hb].
      apply at_cons in Hb as [Hk Hb]. apply IHa; [done|].
      eapply (eventually_bind _ (λ x n, match x with inr err => inr err
        | inl (rhs, p) => and_loop tokens n (λ v, fparsed a v && rhs v) p end)); [|exact (proj1 IHb _ Hb)|].
      - intros n. rewrite and_loop_S, Hk. done.
      - rewrite length_app in Hl. cbn [length] in Hl.
        replace (S (pos + length (render 1 a)) + length (render 2 b))%nat
          with (pos + (length (render 1 a) + S (length (render 2 b))))%nat by lia. exact Hl. }
    assert (Hor : or_chain (FAnd a b)).
    { intros pos r Ha Hk Hl. eapply and_chain_or; [|exact Hl]. apply Hand; [exact Ha|].
      exact (and_loop_ends _ _ Hk). }
    split; [|split; [exact Hand|exact Hor]]. intros pos Ha. exact (paren_operand (FAnd a b) pos Hor Ha).
  - assert (Hor : or_chain (FOr a b)).
    { intros pos r Ha Hk Hl. cbn [render paren Nat.leb] in *. apply at_app in Ha as [Ha Hb].
      apply at_cons in Hb as [Hkw Hb]. rewrite length_app in Hk, Hl. cbn [length] in Hk, Hl.
      replace (pos + (length (render 0 a) + S (length (render 1 b))))%nat
        with (S (pos + length (render 0 a)) + length (render 1 b))%nat in Hk, Hl by lia.
      apply IHa; [done|unfold keeps; by rewrite Hkw|].
      assert (Hand : eventually (λ n, parseAnd tokens n (S (pos + length (render 0 a))))
                (inl (fparsed b, (S (pos + length (render 0 a)) + length (render 1 b))%nat))).
      { apply IHb; [done|]. exact (and_loop_ends _ _ Hk). }
      eapply (eventually_bind _ (λ x n, match x with inr err => inr err
        | inl (rhs, p) => or_loop tokens n (λ v, fparsed a v || rhs v) p end)); [|exact Hand|exact Hl].
      intros n. rewrite or_loop_S, Hkw. done. }
    assert (Hop : ∀ pos, at_ pos (render 2 (FOr a b)) → eventually (λ n, parseNot tokens n pos)
              (inl (fparsed (FOr a b), (pos + length (render 2 (FOr a b)))%nat)))
      by (intros pos Ha; exact (paren_operand (FOr a b) pos Hor Ha)).
    split; [exact Hop|split; [|exact Hor]]. intros pos r Ha Hl. exact (operand_chain (FOr a b) pos r (Hop pos Ha) Hl).
Qed.
End Parses.

(** ** The text of written expressions *)

Definition is_word (t : string) : Prop :=
  match t with
  | EmptyString => False
  | String c _ => all_bytes word_byte t = true ∧ c ≠ "="%char ∧ c ≠ "!"%char
  end.

(** A token, and that it is one. *)
Definition is_token (t : string) : Prop :=
  t = "("%string ∨ t = ")"%string ∨ t = "=="%string ∨ t = "!="%string ∨
  (∃ val, t = quote val ∧ no_byte DQ val = true) ∨ is_word t.

(** What may follow a token. *)
Definition ends_token (s : string) : Prop := s = EmptyString ∨ ∃ s', s = String " " s'.

Lemma word_byte_word c : word_byte c = true → is_blank c = false ∧ is_paren c = false ∧ bool_decide (c = DQ) = false.
Proof.
  unfold word_byte. intros [[??]%orb_false_iff ?]%negb_true_iff%orb_false_iff. done.
Qed.

Lemma no_byte_all c s : no_byte c s = all_bytes (λ b, negb (bool_decide (b = c))) s.
Proof. induction s as [|b s IH]; simpl; congruence. Qed.

Lemma tokenize_token n t s :
  is_token t → ends_token s → tokenize (S n) (t +:+ s) = (toks ← tokenize n s; Some (t :: toks)).
Proof.
  intros Ht Hs. destruct Ht as [->|[->|[->|[->|[(val & -> & Hv)|Hw]]]]]; [done..| |].
  - unfold quote. rewrite str_app_cons, str_app_assoc, str_app_cons, str_app_nil_l.
    cbn [tokenize]. change (is_blank DQ) with false. change (is_paren DQ) with false.
    change (bool_decide (DQ = DQ)) with true. cbv iota.
    rewrite span_app; [done|by rewrite <-no_byte_all|done].
  - destruct t as [|c t]; [done|]. destruct Hw as (Hw & He & Hx). pose proof Hw as Hc.
    cbn [all_bytes] in Hc. apply andb_true_iff in Hc as [Hc _]. apply word_byte_word in Hc as (Hb & Hp & Hq).
    rewrite str_app_cons. cbn [tokenize]. rewrite Hb, Hp, Hq.
    rewrite !(bool_decide_eq_false_2 (c = _)) by done. cbn [orb]. cbv iota.
    rewrite <-str_app_cons, span_app; [done|done|]. by destruct Hs as [->|[s' ->]].
Qed.

Lemma tokenize_mono n s toks : tokenize n s = Some toks → tokenize (S n) s = Some toks.
Proof.
  revert s toks. induction n as [|n IH]; intros s toks; [done|].
  assert (Hk : ∀ t s' toks, (x ← tokenize n s'; Some (t :: x)) = Some toks →
            (x ← tokenize (S n) s'; Some (t :: x)) = Some toks).
  { intros t s' l. destruct (tokenize n s') as [x|] eqn:E; [|done]. by rewrite (IH _ _ E). }
  destruct s as [|c s]; [done|].
  change (tokenize (S n) (String c s)) with
    (if is_blank c then tokenize n s
     else if is_paren c then toks ← tokenize n s; Some (String c EmptyString :: toks)
     else if bool_decide (c = DQ) then
       let '(body, rest) := span (λ b, negb (bool_decide (b = DQ))) s in
       match rest with
       | EmptyString => toks ← tokenize n EmptyString; Some (String c body :: toks)
       | String q rest' => toks ← tokenize n rest'; Some (String c (body +:+ String q EmptyString) :: toks)
       end
     else if bool_decide (c = "="%char) || bool_decide (c = "!"%char) then
       match s with
       | String "=" s'' => toks ← tokenize n s''; Some (String c (String "=" EmptyString) :: toks)
       | _ => toks ← tokenize n s; Some (String c EmptyString :: toks)
       end
     else let '(word, rest) := span word_byte (String c s) in toks ← tokenize n rest; Some (word :: toks)).
  remember (S n) as n' eqn:En. cbn [tokenize].
  destruct (is_blank c); [apply IH|]. destruct (is_paren c); [apply Hk|]. destruct (bool_decide (c = DQ)).
  { destruct (span _ s) as [body [|q rest]]; apply Hk. }
  destruct (_ || _).
  { destruct s as [|b s']; [apply Hk|]. destruct b as [[] [] [] [] [] [] [] []]; apply Hk. }
  destruct (span word_byte _) as [word rest]. apply Hk.
Qed.

Lemma tokenize_Join toks : Forall is_token toks →
  ∃ N, tokenize N (Join toks " ") = Some toks.
Proof.
  induction 1 as [|t toks Ht Hts [N IH]]; [by exists 1%nat|]. destruct toks as [|t' toks].
  - exists 2%nat. cbn [Join]. rewrite <-(str_app_nil_r t) at 1. rewrite tokenize_token; [done|done|by left].
  - exists (S (S N)). cbn [Join] in *. rewrite tokenize_token; [|done|right; by eexists].
    rewrite str_app_cons, str_app_nil_l. cbn [tokenize]. change (is_blank " ") with true. cbv iota.
    by rewrite IH.
Qed.

Lemma tokenizeFilter_Join toks : Forall is_token toks → tokenizeFilter (Join toks " ") = Some toks.
Proof.
  intros [N HN]%tokenize_Join. unfold tokenizeFilter. set (s := Join toks " ") in *.
  destruct (tokenize_total (S (String.length s)) s) as [toks' Ht]; [lia|].
  assert (Hm : ∀ n k x, tokenize n s = Some x → tokenize (k + n) s = Some x).
  { intros n k x Hx. induction k as [|k IHk]; [done|]. by apply tokenize_mono. }
  apply (Hm _ (S (String.length s))) in HN. pose proof (Hm _ N _ Ht) as Ht'.
  rewrite Nat.add_comm in Ht'. congruence.
Qed.

Lemma all_bytes_app p a b : all_bytes p (a +:+ b) = all_bytes p a && all_bytes p b.
Proof. induction a as [|c a IH]; [done|]. rewrite str_app_cons. cbn [all_bytes]. by rewrite IH, andb_assoc. Qed.

Lemma sel_text_token sel : sel_wf sel → is_token (sel_text sel).
Proof.
  intros Hs. do 5 right. destruct sel as [| |k]; [done..|]. simpl in Hs. unfold sel_text, is_word.
  change ("ServiceMeta." +:+ k) with (String "S" ("erviceMeta." +:+ k)).
  split; [|done]. change (String "S" ("erviceMeta." +:+ k)) with ("ServiceMeta." +:+ k).
  rewrite all_bytes_app, Hs. done.
Qed.

Lemma quote_token val : no_byte DQ val = true → is_token (quote val).
Proof. intros Hv. do 4 right. left. eauto. Qed.

#[local] Hint Resolve sel_text_token quote_token : core.

Lemma paren_tokens b l : Forall is_token l → Forall is_token (paren b l).
Proof.
  intros Hl. destruct b; [|done]. unfold paren. constructor; [by left|]. apply Forall_app. split; [done|].
  constructor; [by right; left|constructor].
Qed.

Lemma three_tokens a b c : is_token a → is_token b → is_token c → Forall is_token [a; b; c].
Proof. intros Ha Hb Hc. by do 3 (constructor; [done|]). Qed.

Lemma render_tokens lvl e : fexp_wf e → Forall is_token (render lvl e).
Proof.
  revert lvl. induction e; intros lvl He; cbn [render fexp_wf] in *; try destruct He as [Hl Hr].
  - apply three_tokens; auto. do 2 right. by left.
  - apply three_tokens; auto. do 3 right. by left.
  - apply three_tokens; auto. by do 5 right.
  - apply three_tokens; auto. by do 5 right.
  - constructor; [by do 5 right|auto].
  - apply paren_tokens, Forall_app. split; [auto|]. constructor; [by do 5 right|auto].
  - apply paren_tokens, Forall_app. split; [auto|]. constructor; [by do 5 right|auto].
Qed.

(** ** Claims *)

(** The filter parser always answers: for every text the tokenizer and the parser
    return within the fuel [parseFilter] gives them, with a predicate or a proper
    error. *)
Theorem parseFilter_total (s : string) : parseFilter s ≠ inr FilterOutOfFuel.
Proof.
  unfold parseFilter, tokenizeFilter.
  destruct (tokenize_total (S (String.length s)) s) as [toks ->]; [lia|].
  destruct (parser_progress toks (parser_fuel toks) 0) as [Hp _].
  assert (Hf : (5 * (length toks - 0) + 4 <= parser_fuel toks)%nat) by (unfold parser_fuel; lia).
  specialize (Hp Hf). destruct (parseOr toks _ 0) as [[f pos]|err]; [|simpl in Hp; congruence].
  by destruct (bool_decide _).
Qed.

(** C20: written filters mean what they say: an expression over the documented selectors
    and operators, written with only the parentheses that the precedence of [not],
    [and] and [or] requires, is parsed to a predicate with its meaning, and the
    filter keeps exactly the entries whose view satisfies it, in order. *)
Theorem parseFilter_sound (e : fexp) (entries : list ServiceEntry) :
  fexp_wf e →
  ∃ f, parseFilter (Join (render 0 e) " ") = inl f ∧ (∀ v, f v = feval e v) ∧
    applyFilter entries f = filter (λ x, feval e (viewOf x) = true) entries.
Proof.
  intros He. exists (fparsed e). split; [|split; [apply fparsed_feval|]].
  2: { apply list_filter_iff. intros x. by rewrite fparsed_feval. }
  unfold parseFilter. rewrite (tokenizeFilter_Join _ (render_tokens 0 e He)). set (toks := render 0 e).
  assert (Hat : at_ toks 0 (render 0 e)) by (exists []; by rewrite app_nil_r).
  assert (Hend : peek toks (0 + length (render 0 e)) = ""%string)
    by (unfold peek; by rewrite lookup_ge_None_2).
  destruct (render_parses toks e) as (_ & _ & Hor).
  destruct (Hor 0 (inl (fparsed e, (0 + length (render 0 e))%nat)) Hat) as [N HN].
  { unfold keeps. by rewrite Hend. }
  { apply or_loop_ends. unfold keeps. by rewrite Hend. }
  destruct (parser_progress toks (parser_fuel toks) 0) as [Hp _].
  assert (Hf : (5 * (length toks - 0) + 4 <= parser_fuel toks)%nat) by (unfold parser_fuel; lia).
  specialize (Hp Hf).
  assert (Hr : parseOr toks (parser_fuel toks) 0 = inl (fparsed e, length toks)).
  { rewrite <-(parseOr_fuel toks (parser_fuel toks) (N + parser_fuel toks) 0); [|lia|].
    - rewrite HN by lia. done.
    - intros E. by rewrite E in Hp. }
  rewrite Hr. by rewrite bool_decide_eq_false_2 by (intros Hn; apply Hn; done).
Qed.

Lemma parseFilter_sound_witness :
  let e := FOr (FAnd (FContains SelTags "v 1") (FNot (FEq SelStatus "critical"))) (FNe (SelMeta "zone") "a") in
  fexp_wf e ∧ ∃ f, parseFilter (Join (render 0 e) " ") = inl f ∧ ∀ v, f v = feval e v.
Proof.
  intros e. assert (He : fexp_wf e) by (repeat split).
  split; [exact He|]. destruct (parseFilter_sound e [] He) as (f & H1 & H2 & _). exists f. split; [exact H1|exact H2].
Defined.
