(* ===== verification/Consul.v ===== *)
(** The Consul-compatible HTTP surface, [src/internal/consul]: the request handlers
    over the [Registry] interface (handler.go, checks.go, catalog.go), its
    implementation over a seed's store (storeregistry.go), and the wire shapes
    (types.go).

    The decoded JSON body is an argument of the handlers that read one ([None]: it
    does not decode), [time.ParseDuration] is the parameter [dur], and a response is
    its status, its two Consul headers and its body.  The body of an error is its text:
    that of the store's and the filter's errors is defined here, that of an agent's errors
    (which quote gRPC's) is what the registry's [r_Error] is given. *)

From Stdlib Require Import ZArith Lia Ascii.
From stdpp Require Import base gmap sorting list strings.
From S2P Require Import GoJson.
From S2P Require Import Prelude GoStrings GoText Model Health Store StoreSteps StoreInv StoreSpec.
From S2P Require Import StoreLookup StoreOps Watch Cred Server ConsulFilter.

#[local] Open Scope Z_scope.

(** ** The registry interface *)

(** [Registry]: [R] is the state behind the interface and [E] its errors.  The last two fields
    are not part of Go's interface: the watcher the handler holds beside the registry,
    and the [Error] method of its errors. *)
Record Registry (R E : Type) := mkRegistry {
  r_RegisterServices : Registration → R → option E * R;
  r_RemoveService : string → R → option E * R;
  r_Resolve : Query → Consistency → R → (LookupResult * Z + E) * R;
  r_Hosted : R → list ServiceInstance;
  r_RenewService : string → R → option E * R;
  r_FailService : string → R → option E * R;
  r_SetMaintenance : string → bool → R → option E * R;
  r_RegisterExternal : Registration → R → option E * R;
  r_RemoveNode : string → R → option E * R;
  r_watcher : R → option Watcher;
  r_Error : E → string
}.

Arguments r_RegisterServices {R E}.
Arguments r_RemoveService {R E}.
Arguments r_Resolve {R E}.
Arguments r_Hosted {R E}.
Arguments r_RenewService {R E}.
Arguments r_FailService {R E}.
Arguments r_SetMaintenance {R E}.
Arguments r_RegisterExternal {R E}.
Arguments r_RemoveNode {R E}.
Arguments r_watcher {R E}.
Arguments r_Error {R E}.

(** The result of a store operation on a seed: its events reach the watcher. *)
Definition seed_result `{MapRange} (r : option StoreError * Memory * list ChangeEvent) (s : Seed)
  : option StoreError * Seed :=
  let '(err, m, evs) := r in
  let '(w, c) := Notify evs (sd_watcher s) (sd_chans s) in
  (err, mkSeed m w c).

(** The texts of [store.ErrNotFound], [ErrInvalid] and [ErrCapacity]. *)
Definition StoreError_Error (e : StoreError) : string :=
  match e with
  | ErrNotFound => "store: not found"
  | ErrInvalid => "store: invalid registration"
  | ErrCapacity => "store: registry at capacity"
  end.

(** [StoreRegistry]: the seed's store, under the seed's node [n]. *)
Definition StoreRegistry `{MapRange} (clk : Clock) (n : Node) : Registry Seed StoreError := {|
  r_RegisterServices reg s :=
    seed_result (Register clk (mkRegistration n (Reg_Services reg) (Reg_Generation reg)) (sd_store s)) s;
  r_RemoveService id s := seed_result (DeregisterService (Node_ID n) id (sd_store s)) s;
  r_Resolve q mode s := (inl (Lookup clk q (sd_store s), 0), s);
  r_Hosted s := [];
  r_RenewService id s :=
    let '(err, m) := Renew clk (Node_ID n) [id] (sd_store s) in seed_result (err, m, []) s;
  r_FailService id s := seed_result (Fail clk (Node_ID n) id (sd_store s)) s;
  r_SetMaintenance id b s := seed_result (SetMaintenance clk (Node_ID n) id b (sd_store s)) s;
  r_RegisterExternal reg s := seed_result (Register clk reg (sd_store s)) s;
  r_RemoveNode nid s :=
    let '(err, s) := seed_result (Deregister nid (sd_store s)) s in
    (match err with Some ErrNotFound => None | _ => err end, s);
  r_watcher s := Some (sd_watcher s);
  r_Error := StoreError_Error
|}.

(** ** Wire shapes *)

Record catalogService := mkCatalogService {
  cs_ID : string; cs_Node : string; cs_Address : string; cs_Datacenter : string;
  cs_NodeMeta : gmap string string; cs_TaggedAddresses : gmap string string;
  cs_ServiceID : string; cs_ServiceName : string; cs_ServiceAddress : string; cs_ServicePort : Z;
  cs_ServiceTags : list string; cs_ServiceMeta : gmap string string; cs_ServiceWeights : Weights;
  cs_CreateIndex : Z; cs_ModifyIndex : Z
}.

Record cnode := mkCNode {
  cn_ID : string; cn_Node : string; cn_Address : string; cn_Datacenter : string;
  cn_Meta : gmap string string; cn_TaggedAddresses : gmap string string
}.

Record healthService_ := mkHealthService {
  hs_ID : string; hs_Service : string; hs_Tags : list string; hs_Address : string;
  hs_Meta : gmap string string; hs_Port : Z; hs_Weights : Weights
}.

Record healthServiceEntry := mkHealthServiceEntry {
  he_Node : cnode; he_Service : healthService_; he_Checks : list healthCheck
}.

Record agentService := mkAgentService {
  as_ID : string; as_Service : string; as_Tags : list string; as_Meta : gmap string string;
  as_Port : Z; as_Address : string; as_Weights : Weights
}.

Record checkInput := mkCheckInput {
  ci_TTL : string; ci_HTTP : string; ci_Method : string; ci_Header : gmap string (list string);
  ci_TCP : string; ci_UDP : string; ci_Args : list string; ci_Interval : string; ci_Timeout : string;
  ci_TLSSkipVerify : bool
}.

(** [healthcheck.Definition] and its kinds. *)
Inductive Kind := KindHTTP | KindTCP | KindUDP | KindScript.

Record CheckDefinition := mkDefinition {
  cd_Kind : Kind; cd_Target : string; cd_Method : string; cd_Header : gmap string (list string);
  cd_Args : list string; cd_TLSSkipVerify : bool; cd_Interval : Z; cd_Timeout : Z
}.

(** The calls to the check monitor ([ChecksReporter]). *)
Inductive ChecksCall :=
  | ChecksSet (serviceID : string) (defs : list CheckDefinition)
  | ChecksRemove (serviceID : string).

Record registerInput := mkRegisterInput {
  ri_ID : string; ri_Name : string; ri_Tags : list string; ri_Address : string; ri_Port : Z;
  ri_Meta : gmap string string; ri_Weights : option Weights;
  ri_Check : option checkInput; ri_Checks : list checkInput
}.

Record catalogServiceInput := mkCatalogServiceInput {
  csi_ID : string; csi_Service : string; csi_Address : string; csi_Port : Z;
  csi_Tags : list string; csi_Meta : gmap string string
}.

Record catalogRegisterInput := mkCatalogRegisterInput {
  cri_Node : string; cri_Address : string; cri_Datacenter : string;
  cri_NodeMeta : gmap string string; cri_Service : option catalogServiceInput
}.

Record catalogDeregisterInput := mkCatalogDeregisterInput { cdi_Node : string; cdi_ServiceID : string }.

(** [agentSelf], flattened, and the members of [agentMembers]. *)
Record agentSelfInfo := mkAgentSelf {
  sf_Datacenter : string; sf_NodeName : string; sf_Version : string; sf_Name : string; sf_Addr : string; sf_Port : Z
}.

Record clusterMember := mkMember { cm_Name : string; cm_Addr : string; cm_Status : string }.

Inductive Body :=
  | NoBody
  | ErrorText (s : string)
  | CatalogBody (l : list catalogService)
  | HealthBody (l : list healthServiceEntry)
  | ServicesBody (m : gmap string (list string))
  | NodesBody (l : list cnode)
  | ChecksBody (l : list healthCheck)
  | CheckMapBody (m : gmap string healthCheck)
  | AgentServicesBody (m : gmap string agentService)
  | TextBody (s : string)
  | StringsBody (l : list string)
  | StatusBody (s : string)
  | StringBody (s : string)
  | SelfBody (self : agentSelfInfo)
  | MembersBody (l : list clusterMember)
  | DumpBody (m : gmap string (list ServiceEntry)).

(** [x_index] and [x_lastContact]: X-Consul-Index and X-Consul-LastContact (in
    milliseconds), when the response is a JSON answer. *)
Record HttpResponse := mkHttp {
  http_status : Z; x_index : option Z; x_lastContact : option Z; http_body : Body
}.

(** A request: path values, query parameters in order, headers. *)
Record HttpRequest := mkHttpRequest {
  path_value : string → string;
  url_path : string;
  url_query : list (string * string);
  header : string → string
}.

(** [url.Values]: [Get], [Has] and the values of a key. *)
Definition values (r : HttpRequest) (k : string) : list string :=
  (filter (λ p, p.1 = k) (url_query r)).*2.

Definition q_Get (r : HttpRequest) (k : string) : string := default ""%string (head (values r k)).

Definition q_Has (r : HttpRequest) (k : string) : bool := (0 <? length (values r k))%nat.

(** ** Rendering *)

Definition clampPort (p : Z) : Z := if p <? 0 then 0 else if 65535 <? p then 65535 else p.

Definition toNode (n : Node) : cnode :=
  mkCNode (Node_ID n) (DisplayName n) (Node_Address n) (Node_Datacenter n) (Node_Meta n) (Node_TaggedAddresses n).

Definition toCatalog (e : ServiceEntry) : catalogService :=
  let n := Entry_Node e in
  let s := Entry_Service e in
  mkCatalogService (Node_ID n) (DisplayName n) (Node_Address n) (Node_Datacenter n) (Node_Meta n)
    (Node_TaggedAddresses n) (Svc_ID s) (Svc_Name s) (ReachableAddress e) (Svc_Port s) (Svc_Tags s)
    (Svc_Meta s) (OrDefault (Svc_Weights s)) (Entry_CreateIndex e) (Entry_ModifyIndex e).

Definition toHealth (e : ServiceEntry) : healthServiceEntry :=
  let s := Entry_Service e in
  mkHealthServiceEntry (toNode (Entry_Node e))
    (mkHealthService (Svc_ID s) (Svc_Name s) (Svc_Tags s) (ReachableAddress e) (Svc_Meta s) (Svc_Port s)
       (OrDefault (Svc_Weights s)))
    (synthChecks e).

Definition serviceCheck (e : ServiceEntry) : healthCheck :=
  let s := Entry_Service e in
  mkCheck (DisplayName (Entry_Node e)) ("service:" +:+ Svc_ID s) ("Service '" +:+ Svc_Name s +:+ "' check")
    (if Entry_Maintenance e then "critical" else healthStatus (Entry_Health e)) (Svc_ID s) (Svc_Name s).

(** The loop of [aggregateStatus], from the status so far. *)
Fixpoint aggregate_loop (status : string) (entries : list ServiceEntry) : string :=
  match entries with
  | [] => status
  | e :: rest =>
      let s := healthStatus (Entry_Health e) in
      if Entry_Maintenance e || bool_decide (s = "critical"%string) then "critical"
      else aggregate_loop (if bool_decide (s = "warning"%string) then "warning" else status) rest
  end.

Definition aggregateStatus (entries : list ServiceEntry) : string := aggregate_loop "passing" entries.

(** The loop of [mergeTags]; [sort.Strings]. *)
Fixpoint merge_tags_loop (seen : gset string) (into add : list string) : list string :=
  match add with
  | [] => into
  | t :: rest =>
      if decide (t ∈ seen) then merge_tags_loop seen into rest
      else merge_tags_loop ({[ t ]} ∪ seen) (into ++ [t]) rest
  end.

Definition mergeTags (into add : list string) : list string :=
  merge_sort String.le (merge_tags_loop (list_to_set into) into add).

Definition hostPortWithServerPort (host : string) : string := host +:+ ":8300".

(** [seed[:strings.LastIndexByte(seed, ':')]], or the whole seed. *)
Fixpoint before_last_colon (s : string) : option string :=
  match s with
  | EmptyString => None
  | String c s' =>
      match before_last_colon s' with
      | Some p => Some (String c p)
      | None => if bool_decide (c = ":"%char) then Some EmptyString else None
      end
  end.

(** ** Registration input *)

Section Input.
  Context (dur : string → option Z).

Definition ttlFromCheck (c : option checkInput) : Z :=
  match c with
  | None => 0
  | Some c =>
      if bool_decide (ci_TTL c = ""%string) then 0
      else match dur (ci_TTL c) with
           | Some d => if 0 <=? d then d else 0
           | None => 0
           end
  end.

Fixpoint first_ttl_loop (checks : list checkInput) : Z :=
  match checks with
  | [] => 0
  | c :: rest => let d := ttlFromCheck (Some c) in if 0 <? d then d else first_ttl_loop rest
  end.

Definition firstTTL (i : registerInput) : Z :=
  let d := ttlFromCheck (ri_Check i) in if 0 <? d then d else first_ttl_loop (ri_Checks i).

Definition parseDur (s : string) : Z :=
  match dur s with Some d => if 0 <? d then d else 0 | None => 0 end.

(** [None]: a passive check. *)
Definition toDefinition (c : option checkInput) : option CheckDefinition :=
  match c with
  | None => None
  | Some c =>
      let d kind target args :=
        Some (mkDefinition kind target (ci_Method c) (ci_Header c) args (ci_TLSSkipVerify c)
                (parseDur (ci_Interval c)) (parseDur (ci_Timeout c))) in
      if bool_decide (ci_HTTP c ≠ ""%string) then d KindHTTP (ci_HTTP c) []
      else if bool_decide (ci_TCP c ≠ ""%string) then d KindTCP (ci_TCP c) []
      else if bool_decide (ci_UDP c ≠ ""%string) then d KindUDP (ci_UDP c) []
      else if (0 <? length (ci_Args c))%nat then d KindScript ""%string (ci_Args c)
      else None
  end.

Definition activeChecks (i : registerInput) : list CheckDefinition :=
  omap toDefinition (ri_Check i :: (Some <$> ri_Checks i)).

(** The time of a definition that has not been registered is the zero time. *)
Definition inputToService (i : registerInput) : ServiceInstance :=
  mkService (if bool_decide (ri_ID i = ""%string) then ri_Name i else ri_ID i) (ri_Name i) (ri_Address i)
    (clampPort (ri_Port i)) (ri_Tags i) (ri_Meta i) (default (mkWeights 0 0) (ri_Weights i)) (firstTTL i)
    zeroTime 0.
End Input.

(** ** The handler *)

Record NodeInfo := mkNodeInfo {
  info_ID : string; info_Name : string; info_Datacenter : string; info_Address : string;
  info_Seeds : list string; info_Federated : list string
}.

Record Handler := mkHandler {
  h_info : NodeInfo;
  h_identity : Identity;
  h_authz : option Authorizer;
  h_checks : bool;
  h_maxWaiters : Z
}.

(** [opts.MaxWaiters], 256 by default. *)
Definition NewHandler (info : NodeInfo) (id : Identity) (authz : option Authorizer) (checks : bool)
    (maxWaiters : Z) : Handler :=
  mkHandler info id authz checks (if maxWaiters <=? 0 then 256 else maxWaiters).

Definition tokenFromHTTP (r : HttpRequest) : string :=
  let a := header r "Authorization" in
  if HasPrefix a "Bearer " then TrimSpace (TrimPrefix a "Bearer ")
  else let t := header r "X-Consul-Token" in
       if bool_decide (t ≠ ""%string) then t else q_Get r "token".

Definition authorizeWrite (h : Handler) (r : HttpRequest) : bool :=
  match h_authz h with
  | None => true
  | Some a =>
      if negb (Enforcing a) then true
      else match Authorize a (PrincipalForToken (h_identity h) (tokenFromHTTP r)) (info_ID (h_info h)) with
           | Some _ => false
           | None => true
           end
  end.

Definition readMode (r : HttpRequest) : Consistency :=
  if q_Has r "consistent" then ConsistencyConsistent
  else if q_Has r "stale" then ConsistencyStale else ConsistencyDefault.

(** The error of [ParseUint] is ignored, its value is not. *)
Definition blockIndex (r : HttpRequest) : Z :=
  let v := q_Get r "index" in
  if bool_decide (v = ""%string) then 0 else parse_value (2 ^ 64 - 1) 0 v.

Definition blockWait (dur : string → option Z) (r : HttpRequest) : Z :=
  let v := q_Get r "wait" in
  let wait := match (if bool_decide (v = ""%string) then None else dur v) with
              | Some d => if 0 <? d then d else 300 * second
              | None => 300 * second
              end in
  if 600 * second <? wait then 600 * second else wait.

Definition request_query (r : HttpRequest) : Query :=
  mkQuery (path_value r "service") (q_Get r "dc") (values r "tag") false.

Definition http_error (status : Z) (msg : string) : HttpResponse := mkHttp status None None (ErrorText msg).

Definition http_ok : HttpResponse := mkHttp 200 None None NoBody.

(** [writeJSON]: [age.Milliseconds()] truncates toward zero. *)
Definition writeJSON (index : Z) (mode : Consistency) (age : Z) (b : Body) : HttpResponse :=
  mkHttp 200 (Some (if index <? 1 then 1 else index))
    (Some (match mode with ConsistencyStale => Z.quot age 1000000 | _ => 0 end)) b.

Definition pathVerb (path : string) : string :=
  let fix go (parts : list string) : string :=
    match parts with
    | p :: ((verb :: _) as rest) => if bool_decide (p = "check"%string) then verb else go rest
    | _ => ""%string
    end in
  go (Split (TrimByte path "/") "/").

Section Handlers.
  Context {R E : Type} (reg : Registry R E) (dur : string → option Z) (h : Handler).

Definition indexFor (q : Query) (s : R) : Z :=
  match r_watcher reg s with Some w => CurrentIndex w q | None => 1 end.

(** [h.fail] on an error, 200 otherwise. *)
Definition finish (res : option E * R) : HttpResponse * R :=
  match res with
  | (Some e, s) => (http_error 500 (r_Error reg e), s)
  | (None, s) => (http_ok, s)
  end.

(** *** Writes *)

Definition h_node : Node :=
  mkNode (info_ID (h_info h)) (info_Name (h_info h)) (info_Address (h_info h)) (info_Datacenter (h_info h)) ∅ ∅.

Definition registerService (r : HttpRequest) (body : option registerInput) (s : R)
  : HttpResponse * R * list ChecksCall :=
  if negb (authorizeWrite h r) then (http_error 403 "permission denied", s, [])
  else match body with
       | None => (http_error 400 "invalid register body", s, [])
       | Some i =>
           if bool_decide (ri_Name i = ""%string) then (http_error 400 "Name is required", s, [])
           else
             let svc := inputToService dur i in
             match r_RegisterServices reg (mkRegistration h_node [svc] 1) s with
             | (Some e, s) => (http_error 500 (r_Error reg e), s, [])
             | (None, s) => (http_ok, s, if h_checks h then [ChecksSet (Svc_ID svc) (activeChecks dur i)] else [])
             end
       end.

Definition deregisterService (r : HttpRequest) (s : R) : HttpResponse * R * list ChecksCall :=
  if negb (authorizeWrite h r) then (http_error 403 "permission denied", s, [])
  else
    let serviceID := path_value r "serviceID" in
    match r_RemoveService reg serviceID s with
    | (Some e, s) => (http_error 500 (r_Error reg e), s, [])
    | (None, s) => (http_ok, s, if h_checks h then [ChecksRemove serviceID] else [])
    end.

Definition checkUpdate (r : HttpRequest) (s : R) : HttpResponse * R :=
  if negb (authorizeWrite h r) then (http_error 403 "permission denied", s)
  else
    let serviceID := TrimPrefix (path_value r "checkID") "service:" in
    finish (if bool_decide (pathVerb (url_path r) = "fail"%string)
            then r_FailService reg serviceID s else r_RenewService reg serviceID s).

Definition serviceMaintenance (r : HttpRequest) (s : R) : HttpResponse * R :=
  if negb (authorizeWrite h r) then (http_error 403 "permission denied", s)
  else finish (r_SetMaintenance reg (path_value r "serviceID") (bool_decide (q_Get r "enable" = "true"%string)) s).

(** The registration of a catalog/register body. *)
Definition catalog_registration (i : catalogRegisterInput) : Registration :=
  let dc := if bool_decide (cri_Datacenter i = ""%string) then info_Datacenter (h_info h) else cri_Datacenter i in
  mkRegistration (mkNode (cri_Node i) (cri_Node i) (cri_Address i) dc (cri_NodeMeta i) ∅)
    (match cri_Service i with
     | Some c =>
         if bool_decide (csi_Service c ≠ ""%string) then
           [mkService (if bool_decide (csi_ID c = ""%string) then csi_Service c else csi_ID c) (csi_Service c)
              (csi_Address c) (clampPort (csi_Port c)) (csi_Tags c) (csi_Meta c) (mkWeights 0 0) 0 zeroTime 0]
         else []
     | None => []
     end) 1.

Definition catalogRegister (r : HttpRequest) (body : option catalogRegisterInput) (s : R) : HttpResponse * R :=
  if negb (authorizeWrite h r) then (http_error 403 "permission denied", s)
  else match body with
       | None => (http_error 400 "invalid catalog/register body", s)
       | Some i =>
           if bool_decide (cri_Node i = ""%string) then (http_error 400 "Node is required", s)
           else finish (r_RegisterExternal reg (catalog_registration i) s)
       end.

Definition catalogDeregister (r : HttpRequest) (body : option catalogDeregisterInput) (s : R) : HttpResponse * R :=
  if negb (authorizeWrite h r) then (http_error 403 "permission denied", s)
  else match body with
       | None => (http_error 400 "invalid catalog/deregister body", s)
       | Some i =>
           if bool_decide (cdi_Node i = ""%string) then (http_error 400 "Node is required", s)
           else finish (r_RemoveNode reg (cdi_Node i) s)
       end.

(** *** Reads *)

(** The texts of the errors of [parseFilter]; it never runs out of fuel. *)
Definition FilterError_Error (e : FilterError) : string :=
  match e with
  | TrailingToken tok => "filter: unexpected trailing token " +:+ Quote tok
  | MissingParen => "filter: missing )"
  | IncompletePredicate => "filter: incomplete predicate"
  | UnsupportedOperator op => "filter: unsupported operator " +:+ Quote op
  | FilterOutOfFuel => ""
  end.

(** [read] up to [WaitForChange]: a refusal, or the query, mode and filter, with the
    index to wait on when the request blocks.  [waiters] counts the blocked ones. *)
Inductive ReadStart :=
  | ReadRefused (resp : HttpResponse)
  | ReadGo (q : Query) (m : Consistency) (f : option filterExpr) (block : option Z).

Definition acquireWaiter (waiters : Z) : bool := waiters <? h_maxWaiters h.

Definition read_start (r : HttpRequest) (waiters : Z) (s : R) : ReadStart :=
  let q := request_query r in
  match compileFilter (q_Get r "filter") with
  | inr err => ReadRefused (http_error 400 ("invalid filter: " +:+ FilterError_Error err))
  | inl filter =>
      let minIndex := blockIndex r in
      match r_watcher reg s with
      | Some _ =>
          if 0 <? minIndex then
            if acquireWaiter waiters then ReadGo q (readMode r) filter (Some minIndex)
            else ReadRefused (http_error 429 "too many blocking queries")
          else ReadGo q (readMode r) filter None
      | None => ReadGo q (readMode r) filter None
      end
  end.

(** The rest of [read]: the data is resolved in the state [s], and the index is read
    after it, in the state [env] has made of it by then (the identity when nothing
    intervenes). *)
Definition read_end (q : Query) (m : Consistency) (f : option filterExpr) (env : R → R) (s : R)
  : (list ServiceEntry * Z * Consistency * Z + HttpResponse) * R :=
  match r_Resolve reg q m s with
  | (inr e, s) => (inr (http_error 500 (r_Error reg e)), s)
  | (inl (res, age), s) =>
      let entries := match f with
                     | Some f => applyFilter (Lookup_Entries res) f
                     | None => Lookup_Entries res
                     end in
      let s := env s in
      (inl (entries, indexFor q s, m, age), s)
  end.

(** A read handler: the body it renders from the entries. *)
Definition serve_read (render : list ServiceEntry → Body) (q : Query) (m : Consistency)
    (f : option filterExpr) (env : R → R) (s : R) : HttpResponse * R :=
  match read_end q m f env s with
  | (inr resp, s) => (resp, s)
  | (inl (entries, idx, m, age), s) => (writeJSON idx m age (render entries), s)
  end.

Definition catalog_body (entries : list ServiceEntry) : Body := CatalogBody (toCatalog <$> entries).

Definition health_body (passing : bool) (entries : list ServiceEntry) : Body :=
  HealthBody (toHealth <$> (if passing then Filter entries (mkFilterOptions true) else entries)).

Definition services_of (entries : list ServiceEntry) : gmap string (list string) :=
  foldl (λ out e, <[Svc_Name (Entry_Service e) :=
           mergeTags (default [] (out !! Svc_Name (Entry_Service e))) (Svc_Tags (Entry_Service e))]> out) ∅ entries.

Fixpoint nodes_of (seen : gset string) (entries : list ServiceEntry) : list cnode :=
  match entries with
  | [] => []
  | e :: rest =>
      let id := Node_ID (Entry_Node e) in
      if decide (id ∈ seen) then nodes_of seen rest
      else toNode (Entry_Node e) :: nodes_of ({[ id ]} ∪ seen) rest
  end.

Definition checks_body (entries : list ServiceEntry) : Body := ChecksBody (serviceCheck <$> entries).

(** The handlers that go through [read]. *)
Inductive ReadKind := CatalogService | HealthService | CatalogServices | CatalogNodes | HealthChecks.

Definition render (k : ReadKind) (r : HttpRequest) : list ServiceEntry → Body :=
  match k with
  | CatalogService => catalog_body
  | HealthService => health_body (q_Has r "passing")
  | CatalogServices => λ entries, ServicesBody (services_of entries)
  | CatalogNodes => λ entries, NodesBody (nodes_of ∅ entries)
  | HealthChecks => checks_body
  end.

Definition healthState (r : HttpRequest) (s : R) : HttpResponse * R :=
  let state := path_value r "state" in
  match r_Resolve reg (mkQuery "" (q_Get r "dc") [] false) (readMode r) s with
  | (inr e, s) => (http_error 500 (r_Error reg e), s)
  | (inl (res, _), s) =>
      (writeJSON (indexFor zeroQuery s) (readMode r) 0
         (ChecksBody (filter (λ c, state = "any"%string ∨ hc_Status c = state)
                        (serviceCheck <$> Lookup_Entries res))), s)
  end.

Definition localEntries (s : R) : list ServiceEntry * R :=
  match r_Resolve reg zeroQuery ConsistencyDefault s with
  | (inr _, s) => ([], s)
  | (inl (res, _), s) =>
      (filter (λ e, Node_ID (Entry_Node e) = info_ID (h_info h)) (Lookup_Entries res), s)
  end.

Definition agentChecks (s : R) : HttpResponse * R :=
  let '(es, s) := localEntries s in
  (writeJSON (indexFor zeroQuery s) ConsistencyDefault 0
     (CheckMapBody (foldl (λ out c, <[hc_CheckID c := c]> out) ∅ (es ≫= synthChecks))), s).

Definition agentHealthByName (r : HttpRequest) (s : R) : HttpResponse * R :=
  let name := path_value r "name" in
  let '(es, s) := localEntries s in
  let matched := filter (λ e, Svc_Name (Entry_Service e) = name) es in
  if (length matched =? 0)%nat then (http_error 404 "ServiceNotFound", s)
  else
    let status := aggregateStatus matched in
    if bool_decide (q_Get r "format" = "text"%string) then (mkHttp 200 None None (TextBody status), s)
    else (writeJSON (indexFor (mkQuery name "" [] false) s) ConsistencyDefault 0 (StatusBody status), s).

Definition agentServices (s : R) : HttpResponse :=
  writeJSON (indexFor zeroQuery s) ConsistencyDefault 0
    (AgentServicesBody
       (foldl (λ out x, <[Svc_ID x := mkAgentService (Svc_ID x) (Svc_Name x) (Svc_Tags x) (Svc_Meta x)
                            (Svc_Port x) (Svc_Address x) (OrDefault (Svc_Weights x))]> out) ∅ (r_Hosted reg s))).

Definition catalogDatacenters (s : R) : HttpResponse :=
  writeJSON (indexFor zeroQuery s) ConsistencyDefault 0
    (StringsBody (info_Datacenter (h_info h) :: info_Federated (h_info h))).

Definition leaderAddr : string :=
  let addr := info_Address (h_info h) in
  hostPortWithServerPort (if bool_decide (addr = ""%string) then "127.0.0.1" else addr).

Definition statusLeader (s : R) : HttpResponse :=
  writeJSON (indexFor zeroQuery s) ConsistencyDefault 0 (StringBody leaderAddr).

(** [h.info.Version] is the build's. *)
Definition agentSelf (version : string) (s : R) : HttpResponse :=
  let info := h_info h in
  writeJSON (indexFor zeroQuery s) ConsistencyDefault 0
    (SelfBody (mkAgentSelf (info_Datacenter info) (info_Name info) version (info_Name info) (info_Address info) 8300)).

(** [detected]: what the membership detector answers, when it is wired. *)
Definition agentMembers (detected : option (list clusterMember)) (s : R) : HttpResponse :=
  let info := h_info h in
  writeJSON (indexFor zeroQuery s) ConsistencyDefault 0
    (MembersBody match detected with
       | Some l => l
       | None => mkMember (info_Name info) (info_Address info) "alive" ::
                   ((λ seed, mkMember seed seed "alive") <$> info_Seeds info)
       end).

(** [dumper]: the per-seed view, on an agent. *)
Definition registryDump (dumper : option (Query → R → gmap string (list ServiceEntry))) (r : HttpRequest) (s : R)
  : HttpResponse * R :=
  let q := mkQuery (q_Get r "service") (q_Get r "dc") [] false in
  match dumper with
  | Some dump => (writeJSON (indexFor q s) ConsistencyDefault 0 (DumpBody (dump q s)), s)
  | None =>
      match r_Resolve reg q ConsistencyConsistent s with
      | (inr e, s) => (http_error 500 (r_Error reg e), s)
      | (inl (res, _), s) =>
          (writeJSON (indexFor q s) ConsistencyDefault 0 (DumpBody {[ "local"%string := Lookup_Entries res ]}), s)
      end
  end.

Definition statusPeers (s : R) : HttpResponse :=
  let peers := (λ seed, hostPortWithServerPort (default seed (before_last_colon seed))) <$> info_Seeds (h_info h) in
  writeJSON (indexFor zeroQuery s) ConsistencyDefault 0
    (StringsBody (if (length peers =? 0)%nat then [leaderAddr] else peers)).
End Handlers.

(** ** Lemmas *)

(** *** Aggregation and rendering *)

(** Critical or in maintenance. *)
Definition is_down (e : ServiceEntry) : bool :=
  Entry_Maintenance e || bool_decide (Entry_Health e = HealthCritical).

Lemma aggregate_loop_spec status entries :
  aggregate_loop status entries =
    if existsb is_down entries then "critical"%string
    else if existsb (λ e, bool_decide (Entry_Health e = HealthWarning)) entries then "warning"%string else status.
Proof.
  revert status. induction entries as [|e l IH]; intros status; [done|]. cbn [aggregate_loop existsb].
  unfold is_down at 1. destruct (Entry_Maintenance e); [done|].
  destruct (Entry_Health e); simpl; rewrite ?IH; try done.
  destruct (existsb is_down l); [done|]. by destruct (existsb _ l).
Qed.

(** *** The tag lists of catalog/services *)

Lemma merge_tags_loop_spec seen into add :
  seen = list_to_set into → NoDup into →
  NoDup (merge_tags_loop seen into add) ∧
  ∀ t, t ∈ merge_tags_loop seen into add ↔ t ∈ into ∨ t ∈ add.
Proof.
  revert seen into. induction add as [|t add IH]; intros seen into Hs Hnd; cbn [merge_tags_loop].
  { split; [done|]. set_solver. }
  destruct (decide (t ∈ seen)) as [Ht|Ht].
  - destruct (IH seen into Hs Hnd) as [H1 H2]. split; [done|]. intros x. rewrite H2. set_solver.
  - destruct (IH ({[ t ]} ∪ seen) (into ++ [t])) as [H1 H2].
    + subst seen. rewrite list_to_set_app_L. set_solver.
    + apply NoDup_app. split_and!; [done| |apply NoDup_singleton].
      intros x Hx ->%list_elem_of_singleton. by apply Ht; subst seen; apply elem_of_list_to_set.
    + split; [done|]. intros x. rewrite H2. set_solver.
Qed.

Lemma mergeTags_spec into add :
  NoDup into → StronglySorted String.le (mergeTags into add) ∧ NoDup (mergeTags into add) ∧
  ∀ t, t ∈ mergeTags into add ↔ t ∈ into ∨ t ∈ add.
Proof.
  intros Hnd. destruct (merge_tags_loop_spec (list_to_set into) into add eq_refl Hnd) as [H1 H2].
  unfold mergeTags. split; [apply StronglySorted_merge_sort; apply _|].
  rewrite merge_sort_Permutation. split; [done|]. intros t. by rewrite merge_sort_Permutation.
Qed.

Lemma services_of_snoc l e : services_of (l ++ [e]) =
  <[Svc_Name (Entry_Service e) := mergeTags (default [] (services_of l !! Svc_Name (Entry_Service e)))
                                    (Svc_Tags (Entry_Service e))]> (services_of l).
Proof. unfold services_of. by rewrite foldl_app. Qed.

Lemma services_of_spec entries name :
  match services_of entries !! name with
  | None => ∀ e, e ∈ entries → Svc_Name (Entry_Service e) ≠ name
  | Some tags =>
      (∃ e, e ∈ entries ∧ Svc_Name (Entry_Service e) = name) ∧ StronglySorted String.le tags ∧ NoDup tags ∧
      ∀ t, t ∈ tags ↔ ∃ e, e ∈ entries ∧ Svc_Name (Entry_Service e) = name ∧ t ∈ Svc_Tags (Entry_Service e)
  end.
Proof.
  induction entries as [|e l IH] using rev_ind.
  { unfold services_of. simpl. rewrite lookup_empty. set_solver. }
  rewrite services_of_snoc, lookup_insert. destruct (decide (Svc_Name (Entry_Service e) = name)) as [<-|Hne].
  - assert (Hold : NoDup (default [] (services_of l !! Svc_Name (Entry_Service e))) ∧
      ∀ t, t ∈ default [] (services_of l !! Svc_Name (Entry_Service e)) ↔ ∃ x, x ∈ l ∧
        Svc_Name (Entry_Service x) = Svc_Name (Entry_Service e) ∧ t ∈ Svc_Tags (Entry_Service x)).
    { destruct (services_of l !! Svc_Name (Entry_Service e)) as [tags|]; simpl; [naive_solver|].
      split; [constructor|]. intros t. split; [by intros ?%elem_of_nil|]. intros (x & Hx & He & _). by destruct (IH x). }
    destruct Hold as [Hnd Hold]. destruct (mergeTags_spec _ (Svc_Tags (Entry_Service e)) Hnd) as (H1 & H2 & H3).
    split; [exists e; set_solver|]. split; [done|]. split; [done|]. intros t. rewrite H3, Hold. split.
    + intros [(x & Hx & He & Ht)|Ht]; [exists x|exists e]; set_solver.
    + intros (x & [Hx|Hx%list_elem_of_singleton]%elem_of_app & He & Ht); [left; eauto|right; by subst].
  - destruct (services_of l !! name) as [tags|].
    + destruct IH as ((x & Hx & He) & H1 & H2 & H3). split; [exists x; set_solver|]. split; [done|]. split; [done|].
      intros t. rewrite H3. split; intros (y & Hy & Hn & Ht).
      * exists y. set_solver.
      * apply elem_of_app in Hy as [Hy|Hy%list_elem_of_singleton]; [eauto|by subst].
    + intros x [Hx|Hx%list_elem_of_singleton]%elem_of_app; [by apply IH|by subst].
Qed.

(** *** Nodes of catalog/nodes *)

Lemma nodes_of_spec seen entries :
  NoDup (cn_ID <$> nodes_of seen entries) ∧
  ∀ id, id ∈ cn_ID <$> nodes_of seen entries ↔
    id ∉ seen ∧ ∃ e, e ∈ entries ∧ Node_ID (Entry_Node e) = id.
Proof.
  revert seen. induction entries as [|e l IH]; intros seen; cbn [nodes_of].
  { split; [constructor|]. set_solver. }
  destruct (decide (Node_ID (Entry_Node e) ∈ seen)) as [Hin|Hin].
  - destruct (IH seen) as [H1 H2]. split; [done|]. intros id. rewrite H2. split.
    + intros (? & x & ? & ?). split; [done|]. exists x. set_solver.
    + intros (? & x & [->|Hx]%elem_of_cons & Hid); [congruence|]. split; [done|]. eauto.
  - destruct (IH ({[ Node_ID (Entry_Node e) ]} ∪ seen)) as [H1 H2]. rewrite fmap_cons. split.
    + constructor; [|done]. rewrite H2. simpl. set_solver.
    + intros id. rewrite elem_of_cons, H2. simpl. split.
      * intros [->|(? & x & ? & ?)]; [split; [done|exists e; set_solver]|]. split; [set_solver|]. exists x. set_solver.
      * intros (Hid & x & [->|Hx]%elem_of_cons & <-); [by left|].
        destruct (decide (Node_ID (Entry_Node x) = Node_ID (Entry_Node e))); [by left|].
        right. split; [set_solver|]. eauto.
Qed.

(** *** The write endpoints *)

Inductive WriteReq :=
  | AgentRegister (body : option registerInput)
  | AgentDeregister
  | CheckUpdate
  | Maintenance
  | CatalogRegister (body : option catalogRegisterInput)
  | CatalogDeregister (body : option catalogDeregisterInput).

(** The routes of the mux that write. *)
Definition serve_write {R E} (reg : Registry R E) (dur : string → option Z) (h : Handler) (w : WriteReq)
    (r : HttpRequest) (s : R) : HttpResponse * R * list ChecksCall :=
  match w with
  | AgentRegister body => registerService reg dur h r body s
  | AgentDeregister => deregisterService reg h r s
  | CheckUpdate => (checkUpdate reg h r s, [])
  | Maintenance => (serviceMaintenance reg h r s, [])
  | CatalogRegister body => (catalogRegister reg h r body s, [])
  | CatalogDeregister body => (catalogDeregister reg h r body s, [])
  end.

Lemma finish_status {R E} (reg : Registry R E) (res : option E * R) :
  http_status (finish reg res).1 ≠ 403 ∧ (finish reg res).2 = res.2.
Proof. by destruct res as [[] s]. Qed.

Lemma authorizeWrite_enforce h r a :
  h_authz h = Some a → mode a = ModeEnforce → authorizeWrite h r = true →
  info_ID (h_info h) ≠ ""%string ∧ tokens (h_identity h) !! tokenFromHTTP r = Some (info_ID (h_info h)).
Proof.
  intros Ha Hm. unfold authorizeWrite. rewrite Ha. unfold Enforcing. rewrite Hm. simpl.
  destruct (Authorize a _ _) eqn:E; [done|]. intros _.
  apply Authorize_allowed in E as (Hp1 & Hp2 & Hp3); [|done].
  unfold PrincipalForToken in *. destruct (bool_decide (tokenFromHTTP r ≠ ""%string)); [|done].
  destruct (tokens (h_identity h) !! tokenFromHTTP r) as [id|]; [|done]. simpl in *. by subst id.
Qed.

(** A refused write has no effect; any other write passed the check. *)
Lemma serve_write_guard {R E} (reg : Registry R E) dur h w r s :
  let res := serve_write reg dur h w r s in
  (http_status res.1.1 = 403 → authorizeWrite h r = false ∧ res.1.2 = s ∧ res.2 = []) ∧
  (http_status res.1.1 ≠ 403 → authorizeWrite h r = true).
Proof.
  cbn zeta. destruct w as [body| | | |body|body]; cbn [serve_write];
    unfold registerService, deregisterService, checkUpdate, serviceMaintenance, catalogRegister, catalogDeregister;
    destruct (authorizeWrite h r); simpl; try (split; [done|done]);
    (split; [|done]); intros Hst; exfalso; revert Hst.
  - destruct body as [i|]; [|done]. destruct (bool_decide _); [done|]. by destruct (r_RegisterServices _ _ _) as [[] ?].
  - by destruct (r_RemoveService _ _ _) as [[] ?].
  - apply finish_status.
  - apply finish_status.
  - destruct body as [i|]; [|done]. destruct (bool_decide _); [done|]. apply finish_status.
  - destruct body as [i|]; [|done]. destruct (bool_decide _); [done|]. apply finish_status.
Qed.

(** *** A seed's own registry *)

Lemma only_node_put_next nid id svc m : only_node nid m (put_service nid id svc (next m).2).
Proof. by apply only_node_put. Qed.

Lemma Fail_only clk nid id m : only_node nid m (Fail clk nid id m).1.2.
Proof.
  unfold Fail. destruct (nodes m !! nid) as [n|]; [|done]. destruct (services n !! id) as [svc|]; [|done].
  destruct (failed svc); [done|]. apply only_node_put_next.
Qed.

Lemma SetMaintenance_only clk nid id b m : only_node nid m (SetMaintenance clk nid id b m).1.2.
Proof.
  unfold SetMaintenance. destruct (nodes m !! nid) as [n|]; [|done]. destruct (services n !! id) as [svc|]; [|done].
  destruct (bool_decide _); [done|]. apply only_node_put_next.
Qed.

Lemma seed_result_store `{MapRange} r s : sd_store (seed_result r s).2 = r.1.2.
Proof. destruct r as [[err m] evs]. unfold seed_result. by destruct (Notify _ _ _). Qed.

Lemma seed_result_err `{MapRange} r s : (seed_result r s).1 = r.1.1.
Proof. destruct r as [[err m] evs]. unfold seed_result. by destruct (Notify _ _ _). Qed.

(** The agent endpoints of a seed write under the seed's node only. *)
Lemma agent_write_only `{MapRange} clk n dur h w r s :
  match w with CatalogRegister _ | CatalogDeregister _ => False | _ => True end →
  only_node (Node_ID n) (sd_store s)
    (sd_store (serve_write (StoreRegistry clk n) dur h w r s).1.2).
Proof.
  intros Hw. destruct w as [body| | | | |]; try done; cbn [serve_write];
    unfold registerService, deregisterService, checkUpdate, serviceMaintenance;
    destruct (authorizeWrite h r); try done; cbn [negb fst snd].
  - destruct body as [i|]; [|done]. destruct (bool_decide _); [done|].
    cbn [r_RegisterServices StoreRegistry Reg_Services Reg_Generation].
    set (reg := mkRegistration n _ _). pose proof (seed_result_store (Register clk reg (sd_store s)) s) as Hs.
    destruct (seed_result _ s) as [[err|] s']; simpl in *; rewrite Hs; apply (Register_only clk reg).
  - cbn [r_RemoveService StoreRegistry].
    pose proof (seed_result_store (DeregisterService (Node_ID n) (path_value r "serviceID") (sd_store s)) s) as Hs.
    destruct (seed_result _ s) as [[err|] s']; simpl in *; rewrite Hs; apply DeregisterService_only.
  - rewrite (proj2 (finish_status _ _)). cbn [r_FailService r_RenewService StoreRegistry].
    destruct (bool_decide _); [rewrite seed_result_store; apply Fail_only|].
    pose proof (Renew_only clk (Node_ID n) [TrimPrefix (path_value r "checkID") "service:"] (sd_store s)) as Ho.
    destruct (Renew _ _ _ _) as [err m]. by rewrite seed_result_store.
  - rewrite (proj2 (finish_status _ _)). cbn [r_SetMaintenance StoreRegistry].
    rewrite seed_result_store. apply SetMaintenance_only.
Qed.

(** A newly registered instance is answered as it was registered. *)
Lemma Register_new_entry `{MapRange} clk reg m m' evs i :
  wf m → NoDup (reg_id <$> Reg_Services reg) → Register clk reg m = (None, m', evs) →
  i ∈ Reg_Services reg → lookup_service m (Node_ID (Reg_Node reg)) (reg_id i) = None →
  ∃ idx, mkEntry (Reg_Node reg) (incoming m (Reg_Generation reg) (clk O) i) HealthPassing false idx idx ∈
    Lookup_Entries (Lookup clk (mkQuery (Svc_Name i) "" [] false) m').
Proof.
  intros Hwf Hnd HR Hi Hnone.
  assert (Hv : valid_registration reg).
  { split; [intros Hx|intros j Hj Hx]; rewrite Register_invalid in HR; try congruence; eauto. }
  pose proof (wf_apply clk (OpRegister reg) m Hwf) as Hwf'. cbn [apply] in Hwf'. rewrite HR in Hwf'. simpl in Hwf'.
  apply Register_spec in HR as [Hop (n & Hn & Hmt) Hfr _ Hsto]; [|done].
  destruct (Hsto eq_refl Hnd i Hi) as (svc & Hl & Hst). rewrite Hnone in Hst. destruct Hst as [idx ->].
  set (d := incoming m (Reg_Generation reg) (clk O) i) in *. exists idx.
  destruct (stored_answers m None (clk O) (Reg_Generation reg) i (mkSvc d false false HealthPassing idx idx))
    as (H1 & H2 & _ & H3 & _ & _); [apply (wf_default _ Hwf)|done|by exists idx|].
  assert (Hlease : lease m' (mkSvc d false false HealthPassing idx idx) (clk O) = (HealthPassing, false)).
  { clear Hl Hsto. clearbody d. unfold lease. cbn [failed def] in *. rewrite H2, Time_Sub_diag. by destruct (Z.leb_spec 0 (Svc_TTL d)); [|lia]. }
  assert (Hs : services n !! reg_id i = Some (mkSvc d false false HealthPassing idx idx))
    by (by rewrite (lookup_service_node _ _ _ n Hn) in Hl).
  apply elem_of_Lookup; [done|]. exists (Node_ID (Reg_Node reg)), n, (reg_id i), (mkSvc d false false HealthPassing idx idx).
  split_and!; [done..| |].
  - split; simpl; [by right|by left|set_solver|by rewrite Hlease].
  - rewrite Hlease. unfold entry. simpl. by rewrite Hmt.
Qed.

(** Registering on a seed without a cap. *)
Lemma seed_register `{MapRange} clk rg s :
  valid_registration rg → MaxServices (opts (sd_store s)) <= 0 →
  ∃ s', seed_result (Register clk rg (sd_store s)) s = (None, s') ∧
    (∃ evs, Register clk rg (sd_store s) = (None, sd_store s', evs)) ∧
    registered (Reg_Node rg) (Reg_Generation rg) (clk O) (Reg_Services rg) (sd_store s) None (sd_store s').
Proof.
  intros Hv Hmax.
  pose proof (seed_result_store (Register clk rg (sd_store s)) s) as Hst.
  pose proof (seed_result_err (Register clk rg (sd_store s)) s) as Herr.
  destruct (seed_result _ s) as [err s']. simpl in Hst, Herr. subst err.
  destruct (Register clk rg (sd_store s)) as [[err m'] evs] eqn:HR. simpl in Hst |- *. subst m'.
  apply Register_spec in HR as Hrs; [|done].
  destruct (rg_err _ _ _ _ _ _ _ Hrs) as [-> |(_ & Hpos & _)]; [|lia].
  exists s'. split; [done|]. split; [by exists evs|done].
Qed.

(** One service: what is under its identity, and elsewhere. *)
Lemma seed_register_one `{MapRange} clk rg i s :
  Reg_Services rg = [i] → valid_registration rg → MaxServices (opts (sd_store s)) <= 0 →
  ∃ s', seed_result (Register clk rg (sd_store s)) s = (None, s') ∧ opts (sd_store s') = opts (sd_store s) ∧
    (∃ svc, lookup_service (sd_store s') (Node_ID (Reg_Node rg)) (reg_id i) = Some svc ∧
       changed (def svc) (incoming (sd_store s) (Reg_Generation rg) 0 i) = false) ∧
    ∀ nid id, (nid, id) ≠ (Node_ID (Reg_Node rg), reg_id i) →
      lookup_service (sd_store s') nid id = lookup_service (sd_store s) nid id.
Proof.
  intros Hrs Hv Hmax. destruct (seed_register clk rg s Hv Hmax) as (s' & -> & _ & [Hop _ Hfr _ Hsto]).
  exists s'. split; [done|]. split; [done|]. rewrite Hrs in *. split.
  - destruct (Hsto eq_refl ltac:(apply NoDup_singleton) i) as (svc & Hl & Hsv); [by apply list_elem_of_singleton|].
    exists svc. split; [done|]. by apply (stored_up_to_date _ _ _ _ 0) in Hsv.
  - intros nid id Hne. apply Hfr.
    destruct (decide (nid = Node_ID (Reg_Node rg))) as [->|]; [right|by left].
    rewrite list_fmap_singleton, list_elem_of_singleton. by intros ->.
Qed.

(** What the comparison of definitions compares. *)
Lemma changed_false a b :
  changed a b = false → Svc_Name a = Svc_Name b ∧ Svc_Address a = Svc_Address b ∧ Svc_Port a = Svc_Port b ∧
    Svc_Tags a = Svc_Tags b ∧ equalMap (Svc_Meta a) (Svc_Meta b) = true ∧ Svc_TTL a = Svc_TTL b.
Proof.
  unfold changed. destruct (_ || _ || _ || _ || _ || _) eqn:E; [done|]. intros Hc.
  rewrite !orb_false_iff, !bool_decide_eq_false in E. rewrite orb_false_iff, !negb_false_iff, equalStrings_spec in Hc.
  destruct E as [[[[[E1 E2] E3] E4] _] _], Hc as [Hc1 Hc2].
  split_and!; try done; by apply dec_stable.
Qed.

(** A registration that is accepted is answered by the lookup of its name. *)
Lemma registered_listed `{MapRange} clk n dur h r i s s' calls :
  let svc := inputToService dur i in
  wf (sd_store s) → lookup_service (sd_store s) (Node_ID n) (Svc_ID svc) = None →
  registerService (StoreRegistry clk n) dur h r (Some i) s = (http_ok, s', calls) →
  ∃ ttl idx, mkEntry n (mkService (Svc_ID svc) (ri_Name i) (ri_Address i) (clampPort (ri_Port i)) (ri_Tags i) (ri_Meta i)
      (Svc_Weights svc) ttl (clk O) 1) HealthPassing false idx idx ∈
    Lookup_Entries (Lookup clk (mkQuery (ri_Name i) "" [] false) (sd_store s')).
Proof.
  intros svc Hwf Hnone Hreg. unfold registerService in Hreg.
  destruct (authorizeWrite h r); [|done]. simpl in Hreg.
  destruct (bool_decide (ri_Name i = ""%string)) eqn:Hname; [done|]. apply bool_decide_eq_false in Hname.
  set (rg := mkRegistration n [inputToService dur i] 1) in *.
  change (inputToService dur i) with svc in Hreg, rg.
  pose proof (seed_result_store (Register clk rg (sd_store s)) s) as Hst.
  pose proof (seed_result_err (Register clk rg (sd_store s)) s) as Herr.
  destruct (seed_result _ s) as [err s1]. destruct err as [err|]; [done|]. injection Hreg as <- _. simpl in Hst, Herr.
  destruct (Register clk rg (sd_store s)) as [[err m'] evs] eqn:HR. simpl in Hst, Herr. subst err m'.
  assert (Hid : reg_id svc = Svc_ID svc).
  { unfold reg_id. rewrite bool_decide_eq_false_2; [done|]. unfold svc, inputToService. simpl.
    case_bool_decide; done. }
  destruct (Register_new_entry clk rg (sd_store s) (sd_store s1) evs svc) as (idx & Hin); [done| |done| | |].
  { simpl. apply NoDup_singleton. }
  { by apply list_elem_of_singleton. }
  { by rewrite Hid. }
  assert (Hinc : incoming (sd_store s) (Reg_Generation rg) (clk O) svc =
    mkService (Svc_ID svc) (ri_Name i) (ri_Address i) (clampPort (ri_Port i)) (ri_Tags i) (ri_Meta i)
      (Svc_Weights svc) (clampTTL (sd_store s) (Svc_TTL svc)) (clk O) 1).
  { unfold incoming. rewrite bool_decide_eq_false_2; [done|]. rewrite <-Hid. unfold reg_id.
    destruct (bool_decide (Svc_ID svc = ""%string)) eqn:E; [done|]. by apply bool_decide_eq_false in E. }
  rewrite Hinc in Hin. eexists _, idx. exact Hin.
Qed.

(** ** Claims *)

(** Consul writes are guarded: under the enforce mode a write endpoint either answers
    403 and changes neither the registry nor the active checks, or was called with
    a token bound to this node; the agent endpoints of a seed write under the seed's
    own node only. *)
Theorem consul_writes_guarded `{MapRange} (clk : Clock) (n : Node) (dur : string → option Z) (h : Handler)
    (a : Authorizer) (w : WriteReq) (r : HttpRequest) (s : Seed) :
  h_authz h = Some a → mode a = ModeEnforce →
  let res := serve_write (StoreRegistry clk n) dur h w r s in
  (http_status res.1.1 = 403 → res.1.2 = s ∧ res.2 = []) ∧
  (http_status res.1.1 ≠ 403 → info_ID (h_info h) ≠ ""%string ∧
     tokens (h_identity h) !! tokenFromHTTP r = Some (info_ID (h_info h))) ∧
  (match w with CatalogRegister _ | CatalogDeregister _ => False | _ => True end →
     only_node (Node_ID n) (sd_store s) (sd_store res.1.2)).
Proof.
  intros Ha Hm res. destruct (serve_write_guard (StoreRegistry clk n) dur h w r s) as [H1 H2]. fold res in H1, H2.
  split; [|split].
  - intros Hst. by apply H1.
  - intros Hst. eapply authorizeWrite_enforce; [done|done|]. by apply H2.
  - intros Hw. by apply agent_write_only.
Qed.

Definition sampleInfo : NodeInfo := mkNodeInfo "n1" "n1" "dc1" "10.0.0.1" ["10.0.0.2:7000"%string] [].

Definition sampleHandler (m : Mode) : Handler :=
  NewHandler sampleInfo (NewIdentity {[ "t0k"%string := "n1"%string ]}) (Some (NewAuthorizer m)) false 0.

(** A request with the given query parameters and path value. *)
Definition sampleRequest (path : string) (value : string) (q : list (string * string)) : HttpRequest :=
  mkHttpRequest (λ _, value) path q (λ _, ""%string).

Definition sampleInput : registerInput :=
  mkRegisterInput "web-1" "web" ["v1"%string] "10.0.0.9" 70000 ∅ None None [].

Lemma consul_writes_guarded_witness :
  let res := @serve_write Seed StoreError (@StoreRegistry list_order (frozen 5) (sampleNode "n1")) (λ _, None)
               (sampleHandler ModeEnforce) (AgentRegister (Some sampleInput))
               (sampleRequest "/v1/agent/service/register" "" [("token"%string, "bad"%string)]) (NewSeed sampleOptions) in
  http_status res.1.1 = 403 ∧ res.1.2 = NewSeed sampleOptions.
Proof.
  intros res. split; [vm_compute; reflexivity|].
  destruct (@consul_writes_guarded list_order (frozen 5) (sampleNode "n1") (λ _, None) (sampleHandler ModeEnforce)
    (NewAuthorizer ModeEnforce) (AgentRegister (Some sampleInput))
    (sampleRequest "/v1/agent/service/register" "" [("token"%string, "bad"%string)]) (NewSeed sampleOptions)
    eq_refl eq_refl) as [H1 _]. apply H1. vm_compute. reflexivity.
Defined.

(** A service registered over HTTP is served: after a 200 to the registration of a
    new service on a seed, the health endpoint with [?passing] lists an entry of
    that service under the seed's node with its ID, tags, address and clamped port,
    whose synthetic checks are all passing, and the registry index it reports is
    the watcher's. *)
Theorem consul_register_visible `{MapRange} (clk : Clock) (n : Node) (dur : string → option Z) (h : Handler)
    (r : HttpRequest) (i : registerInput) (s s' : Seed) (calls : list ChecksCall) :
  let reg := StoreRegistry clk n in
  let svc := inputToService dur i in
  let q := mkQuery (ri_Name i) "" [] false in
  wf (sd_store s) → lookup_service (sd_store s) (Node_ID n) (Svc_ID svc) = None →
  registerService reg dur h r (Some i) s = (http_ok, s', calls) →
  ∃ es idx, serve_read reg (health_body true) q ConsistencyDefault None id s' =
      (mkHttp 200 (Some idx) (Some 0) (HealthBody es), s') ∧
    idx = Z.max 1 (CurrentIndex (sd_watcher s') q) ∧
    ∃ he, he ∈ es ∧ cn_ID (he_Node he) = Node_ID n ∧ hs_ID (he_Service he) = Svc_ID svc ∧
      hs_Service (he_Service he) = ri_Name i ∧ hs_Tags (he_Service he) = ri_Tags i ∧
      hs_Port (he_Service he) = clampPort (ri_Port i) ∧ 0 <= hs_Port (he_Service he) <= 65535 ∧
      hs_Address (he_Service he) = (if bool_decide (ri_Address i ≠ ""%string) then ri_Address i else Node_Address n) ∧
      Forall (λ c, hc_Status c = "passing"%string) (he_Checks he).
Proof.
  intros reg svc q Hwf Hnone Hreg. destruct (registered_listed clk n dur h r i s s' calls Hwf Hnone Hreg) as (ttl & idx & Hin).
  eexists (toHealth <$> Filter (Lookup_Entries (Lookup clk q (sd_store s'))) (mkFilterOptions true)),
    (if CurrentIndex (sd_watcher s') q <? 1 then 1 else CurrentIndex (sd_watcher s') q).
  split; [reflexivity|]. split.
  { destruct (Z.ltb_spec (CurrentIndex (sd_watcher s') q) 1); lia. }
  eexists. split.
  { apply list_elem_of_fmap_2, Filter_spec. split; [exact Hin|done]. }
  simpl. split_and!; try done.
  - unfold clampPort. destruct (Z.ltb_spec (ri_Port i) 0), (Z.ltb_spec 65535 (ri_Port i)); lia.
  - unfold clampPort. destruct (Z.ltb_spec (ri_Port i) 0), (Z.ltb_spec 65535 (ri_Port i)); lia.
  - by repeat constructor.
Qed.

Lemma consul_register_visible_witness :
  let reg := @StoreRegistry list_order (frozen 5) (sampleNode "n1") in
  let s' := (registerService reg (λ _, None) (sampleHandler ModeAllow)
              (sampleRequest "/v1/agent/service/register" "" []) (Some sampleInput) (NewSeed sampleOptions)).1.2 in
  ∃ es idx, serve_read reg (health_body true) (mkQuery "web" "" [] false) ConsistencyDefault None id s' =
      (mkHttp 200 (Some idx) (Some 0) (HealthBody es), s') ∧ ∃ he, he ∈ es ∧ hs_ID (he_Service he) = "web-1"%string.
Proof.
  intros reg s'.
  destruct (@consul_register_visible list_order (frozen 5) (sampleNode "n1") (λ _, None) (sampleHandler ModeAllow)
    (sampleRequest "/v1/agent/service/register" "" []) sampleInput (NewSeed sampleOptions) s' [])
    as (es & idx & H1 & _ & he & H2 & _ & H3 & _).
  - apply (wf_reachable sampleOptions _ []). constructor. 
  - vm_compute. reflexivity.
  - vm_compute. reflexivity.
  - exists es, idx. split; [exact H1|]. exists he. split; [exact H2|exact H3].
Defined.

(** A blocking read can miss a change: the handler reads the index after the data,
    so a registration between the two is announced by the answer's X-Consul-Index
    but missing from its body; the client's next blocking query on that index
    waits, with a stale set, where the registry already holds both instances. *)
Theorem consul_index_after_data :
  let reg := @StoreRegistry list_order (frozen 5) (sampleNode "n1") in
  let register id s := @seed_op list_order (frozen 5)
    (OpRegister (mkRegistration (sampleNode "n1") [sampleService id "web" []] 1)) s in
  let s0 := register "a"%string (NewSeed sampleOptions) in
  let q := mkQuery "web" "" [] false in
  let '(resp, s1) := serve_read reg catalog_body q ConsistencyDefault None (register "b"%string) s0 in
  ∃ e idx ch, resp = mkHttp 200 (Some idx) (Some 0) (CatalogBody [e]) ∧ cs_ServiceID e = "a"%string ∧
    wait_check (sd_watcher s1) q idx = Waiting idx ch ∧
    (cs_ServiceID ∘ toCatalog <$> Lookup_Entries (@Lookup list_order (frozen 5) q (sd_store s1)))
      = ["a"%string; "b"%string].
Proof. vm_compute. eexists _, _, _. repeat split; reflexivity. Qed.

(** The list views are exact: catalog/services has exactly the names of the entries,
    each with the sorted, duplicate-free union of its instances' tags;
    catalog/nodes has each node of the entries once; and the aggregated status of a
    name is critical exactly when an instance is critical or in maintenance, warning
    exactly when none is but one is warning, and passing otherwise. *)
Theorem catalog_views_correct (entries : list ServiceEntry) :
  (∀ name, match services_of entries !! name with
    | None => ∀ e, e ∈ entries → Svc_Name (Entry_Service e) ≠ name
    | Some tags =>
        (∃ e, e ∈ entries ∧ Svc_Name (Entry_Service e) = name) ∧ StronglySorted String.le tags ∧ NoDup tags ∧
        ∀ t, t ∈ tags ↔ ∃ e, e ∈ entries ∧ Svc_Name (Entry_Service e) = name ∧ t ∈ Svc_Tags (Entry_Service e)
    end) ∧
  NoDup (cn_ID <$> nodes_of ∅ entries) ∧
  (∀ id, id ∈ cn_ID <$> nodes_of ∅ entries ↔ ∃ e, e ∈ entries ∧ Node_ID (Entry_Node e) = id) ∧
  (aggregateStatus entries = "critical"%string ↔
     ∃ e, e ∈ entries ∧ (Entry_Maintenance e = true ∨ Entry_Health e = HealthCritical)) ∧
  (aggregateStatus entries = "warning"%string ↔
     (∀ e, e ∈ entries → Entry_Maintenance e = false ∧ Entry_Health e ≠ HealthCritical) ∧
     ∃ e, e ∈ entries ∧ Entry_Health e = HealthWarning) ∧
  aggregateStatus entries ∈ ["critical"%string; "warning"%string; "passing"%string].
Proof.
  destruct (nodes_of_spec ∅ entries) as [Hn1 Hn2].
  assert (Hdown : existsb is_down entries = true ↔
    ∃ e, e ∈ entries ∧ (Entry_Maintenance e = true ∨ Entry_Health e = HealthCritical)).
  { rewrite existsb_exists. unfold is_down. split; intros (e & He & Hd); exists e; revert He Hd;
      rewrite list_elem_of_In, orb_true_iff, bool_decide_eq_true; done. }
  assert (Hwarn : existsb (λ e, bool_decide (Entry_Health e = HealthWarning)) entries = true ↔
    ∃ e, e ∈ entries ∧ Entry_Health e = HealthWarning).
  { rewrite existsb_exists. split; intros (e & He & Hd); exists e; revert He Hd;
      rewrite list_elem_of_In, bool_decide_eq_true; done. }
  split; [intros name; apply services_of_spec|]. split; [done|]. split.
  { intros id. rewrite Hn2. set_solver. }
  unfold aggregateStatus. rewrite aggregate_loop_spec.
  destruct (existsb is_down entries) eqn:E1.
  - destruct (proj1 Hdown eq_refl) as (e & He & Hd). split; [split; [eauto|done]|].
    split; [|set_solver]. split; [done|]. intros [Ha _]. destruct (Ha e He) as [? ?]. by destruct Hd; congruence.
  - assert (Hno : ∀ e, e ∈ entries → Entry_Maintenance e = false ∧ Entry_Health e ≠ HealthCritical).
    { intros e He. split.
      - destruct (Entry_Maintenance e) eqn:Em; [|done]. exfalso. assert (false = true); [|done]. apply Hdown. eauto.
      - intros Hc. assert (false = true); [|done]. apply Hdown. eauto. }
    clear E1. destruct (existsb _ entries) eqn:E2.
    + destruct (proj1 Hwarn eq_refl) as (e & He & Hw). split; [split; [intros [=]|by intros ?%Hdown]|].
      split; [|set_solver]. split; [eauto|done].
    + split; [split; [intros [=]|by intros ?%Hdown]|]. split; [|set_solver]. split; [intros [=]|by intros [_ ?%Hwarn]].
Qed.

(** Catalog/register escapes the ownership check: under the enforce mode a token
    bound to the seed's node registers an instance of any other node, because the
    handler authorizes against its own node and then registers the payload's. *)
Theorem catalog_register_any_node :
  let i := mkCatalogRegisterInput "victim" "10.9.9.9" "" ∅
             (Some (mkCatalogServiceInput "web-1" "web" "" 80 [] ∅)) in
  let '(resp, s', _) := @serve_write Seed StoreError (@StoreRegistry list_order (frozen 5) (sampleNode "n1"))
      (λ _, None) (sampleHandler ModeEnforce) (CatalogRegister (Some i))
      (sampleRequest "/v1/catalog/register" "" [("token"%string, "t0k"%string)]) (NewSeed sampleOptions) in
  http_status resp = 200 ∧ is_Some (lookup_service (sd_store s') "victim" "web-1").
Proof. vm_compute. split; [reflexivity|by eexists]. Qed.
