(* ===== verification/DNS.v ===== *)
(** The Consul-compatible DNS surface, [src/internal/consuldns]: the name parser
    (parser.go) and the query handler (handler.go) over the merged read path.

    Names reach the handler in presentation format, which is ASCII.  [net.ParseIP]
    is the parameter [parseIP] (an address is IPv4 when [To4] is not nil),
    [rand.Shuffle] is any permutation, and the DNS library's message is the record
    [Msg]; its size truncation is not modelled. *)

From Stdlib Require Import ZArith Lia Ascii.
From stdpp Require Import base gmap list strings.
From S2P Require Import Prelude GoStrings GoText Model Health Store StoreSteps StoreInv StoreSpec.

#[local] Open Scope Z_scope.

(** ** parser.go *)

Inductive queryKind := kindUnknown | kindService | kindNode.

#[export] Instance queryKind_eq_dec : EqDecision queryKind.
Proof. solve_decision. Defined.

Record parsedQuery := mkParsed {
  pq_kind : queryKind; pq_service : string; pq_tag : string; pq_node : string; pq_datacenter : string
}.

Definition unknownQuery : parsedQuery := mkParsed kindUnknown "" "" "" "".

Definition meshLabels : list string :=
  ["connect"%string; "virtual"%string; "ingress"%string; "ns"%string; "ap"%string; "peer"%string;
   "query"%string; "addr"%string].

Definition dcFromRest (rest : list string) : string :=
  match rest with
  | [dc; x] => if bool_decide (x = "dc"%string) then dc else ""
  | [dc] => dc
  | _ => ""
  end.

Definition parseServicePrefix (before : list string) (dc : string) : parsedQuery :=
  match before with
  | [svc] => mkParsed kindService svc "" "" dc
  | [tag; svc] => mkParsed kindService svc tag "" dc
  | _ => unknownQuery
  end.

(** The loop over the labels; [before] is [labels[:i]]. *)
Fixpoint scan_labels (before labels : list string) : parsedQuery :=
  match labels with
  | [] => unknownQuery
  | l :: rest =>
      if bool_decide (l = "service"%string) then parseServicePrefix before (dcFromRest rest)
      else if bool_decide (l = "node"%string) then
        if (length before =? 0)%nat then unknownQuery
        else mkParsed kindNode "" "" (Join before ".") (dcFromRest rest)
      else if bool_decide (l ∈ meshLabels) then unknownQuery
      else scan_labels (before ++ [l]) rest
  end.

(** The labels before the domain. *)
Definition parse_labels (labels : list string) : parsedQuery :=
  match labels with
  | l0 :: l1 :: rest =>
      if HasPrefix l0 "_" && HasPrefix l1 "_" then
        let rest := match rest with
                    | r0 :: rest' => if bool_decide (r0 = "service"%string) then rest' else rest
                    | [] => rest
                    end in
        mkParsed kindService (TrimPrefix l0 "_") (TrimPrefix l1 "_") "" (dcFromRest rest)
      else scan_labels [] labels
  | _ => scan_labels [] labels
  end.

Definition parseName (name domain : string) : parsedQuery :=
  let name := ToLower (TrimSuffix name ".") in
  let domain := ToLower (TrimSuffix domain ".") in
  if bool_decide (name ≠ domain) && negb (HasSuffix name ("." +:+ domain)) then unknownQuery
  else
    let prefix := TrimSuffix (TrimSuffix name domain) "." in
    if bool_decide (prefix = ""%string) then unknownQuery
    else parse_labels (Split prefix ".").

(** ** handler.go: data *)

(** An IP address: its bytes, 4 or 16 of them. *)
Inductive IP := IPv4 (bytes : list Z) | IPv6 (bytes : list Z).

Inductive RR :=
  | RR_SOA (name ns mbox : string) (serial refresh retry expire minttl : Z)
  | RR_NS (name target : string)
  | RR_SRV (name : string) (ttl priority weight port : Z) (target : string)
  | RR_A (name : string) (ttl : Z) (bytes : list Z)
  | RR_AAAA (name : string) (ttl : Z) (bytes : list Z)
  | RR_TXT (name : string) (ttl : Z) (txt : string).

Inductive Rcode := RcodeSuccess | RcodeFormatError | RcodeServerFailure | RcodeNameError | RcodeRefused.

Record Msg := mkMsg { msg_rcode : Rcode; msg_answer : list RR; msg_ns : list RR; msg_extra : list RR }.

Inductive Qtype := TypeA | TypeAAAA | TypeSRV | TypeTXT | TypeSOA | TypeNS | TypeANY.

#[export] Instance Qtype_eq_dec : EqDecision Qtype.
Proof. solve_decision. Defined.

Record Question := mkQuestion { q_Name : string; q_Qtype : Qtype }.

Record DnsConfig := mkDnsConfig {
  dc_Domain : string; dc_AltDomain : string; dc_Datacenter : string;
  dc_ServiceTTL : Z; dc_NodeTTL : Z; dc_ARecordLimit : Z
}.

(** [NewHandler]: the zones get their trailing dot. *)
Definition NewDnsHandler (c : DnsConfig) : DnsConfig :=
  mkDnsConfig
    (if HasSuffix (dc_Domain c) "." then dc_Domain c else dc_Domain c +:+ ".")
    (if bool_decide (dc_AltDomain c ≠ ""%string) && negb (HasSuffix (dc_AltDomain c) ".")
     then dc_AltDomain c +:+ "." else dc_AltDomain c)
    (dc_Datacenter c) (dc_ServiceTTL c) (dc_NodeTTL c) (dc_ARecordLimit c).

(** ** handler.go: the answer *)

Fixpoint domain_loop (n : string) (zones : list string) : option string :=
  match zones with
  | [] => None
  | d :: rest =>
      if bool_decide (d = ""%string) then domain_loop n rest
      else
        let base := ToLower (TrimSuffix d ".") in
        if bool_decide (n = base) || HasSuffix n ("." +:+ base) then Some d else domain_loop n rest
  end.

Definition domainFor (c : DnsConfig) (name : string) : option string :=
  domain_loop (ToLower (TrimSuffix name ".")) [dc_Domain c; dc_AltDomain c].

Definition soa (dom : string) : RR :=
  RR_SOA dom ("ns." +:+ dom) ("hostmaster." +:+ dom) 1 3600 600 86400 0.

Definition nxdomain (dom : string) : Msg := mkMsg RcodeNameError [] [soa dom] [].

Definition effectiveDC (c : DnsConfig) (dc : string) : string :=
  if bool_decide (dc = ""%string) || bool_decide (dc = "dc1"%string) then dc_Datacenter c else dc.

Definition tagsOf (pq : parsedQuery) : list string :=
  if bool_decide (pq_tag pq ≠ ""%string) then [pq_tag pq] else [].

Definition filterNode (entries : list ServiceEntry) (nodeName : string) : list ServiceEntry :=
  filter (λ e, EqualFold (Node_Name (Entry_Node e)) nodeName || EqualFold (Node_ID (Entry_Node e)) nodeName = true)
    entries.

Definition weight16 (w : Z) : Z := if 65535 <? w then 65535 else w.

Definition hex_digit (d : Z) : ascii :=
  ascii_of_N (Z.to_N (if d <? 10 then 48 + d else 87 + d)).

(** [hex.EncodeToString]. *)
Fixpoint hex (bytes : list Z) : string :=
  match bytes with
  | [] => ""
  | b :: rest => String (hex_digit (b / 16)) (String (hex_digit (b mod 16)) (hex rest))
  end.

Definition hexIP (ip : IP) : string := match ip with IPv4 b | IPv6 b => hex b end.

Definition addressRR (name : string) (ip : option IP) (ttl : Z) : option RR :=
  match ip with
  | None => None
  | Some (IPv4 b) => Some (RR_A name ttl b)
  | Some (IPv6 b) => Some (RR_AAAA name ttl b)
  end.

Definition is_v6 (ip : IP) : bool := match ip with IPv6 _ => true | IPv4 _ => false end.

Section Answer.
  Context (parseIP : string → option IP) (shuffle : list ServiceEntry → list ServiceEntry).
  Context (c : DnsConfig).

(** The SRV target and the address it must resolve to. *)
Definition srvTarget (e : ServiceEntry) (dc dom : string) : string * option IP :=
  let addr := ReachableAddress e in
  match parseIP addr with
  | Some ip =>
      if bool_decide (addr = Node_Address (Entry_Node e))
      then (DisplayName (Entry_Node e) +:+ ".node." +:+ dc +:+ "." +:+ dom, parseIP (Node_Address (Entry_Node e)))
      else (hexIP ip +:+ ".addr." +:+ dc +:+ "." +:+ dom, Some ip)
  | None => (DisplayName (Entry_Node e) +:+ ".node." +:+ dc +:+ "." +:+ dom, parseIP (Node_Address (Entry_Node e)))
  end.

(** The loop of [appendAddresses]; [count] answers were added so far. *)
Fixpoint append_loop (name : string) (wantV6 : bool) (count : Z) (entries : list ServiceEntry) : list RR :=
  match entries with
  | [] => []
  | e :: rest =>
      match parseIP (ReachableAddress e) with
      | None => append_loop name wantV6 count rest
      | Some ip =>
          if negb (Bool.eqb (is_v6 ip) wantV6) then append_loop name wantV6 count rest
          else match addressRR name (Some ip) (dc_ServiceTTL c) with
               | None => append_loop name wantV6 count rest
               | Some rr =>
                   let count := count + 1 in
                   rr :: (if (0 <? dc_ARecordLimit c) && (dc_ARecordLimit c <=? count) then []
                          else append_loop name wantV6 count rest)
               end
      end
  end.

Definition appendAddresses (name : string) (entries : list ServiceEntry) (wantV6 : bool) : list RR :=
  append_loop name wantV6 0 entries.

(** The SOA in the authority section of an empty answer. *)
Definition with_soa (answer extra : list RR) (dom : string) : Msg :=
  mkMsg RcodeSuccess answer (if (length answer =? 0)%nat then [soa dom] else []) extra.

Definition srv_rr (name : string) (dc dom : string) (e : ServiceEntry) : RR :=
  RR_SRV name (dc_ServiceTTL c) 1 (weight16 (Passing (OrDefault (Svc_Weights (Entry_Service e)))))
    (Svc_Port (Entry_Service e)) (srvTarget e dc dom).1.

Definition renderService (q : Question) (entries : list ServiceEntry) (dc dom : string) : Msg :=
  let entries := shuffle entries in
  match q_Qtype q with
  | TypeSRV =>
      with_soa (srv_rr (q_Name q) dc dom <$> entries)
        (omap (λ e, let '(target, ip) := srvTarget e dc dom in addressRR target ip (dc_ServiceTTL c)) entries) dom
  | TypeAAAA => with_soa (appendAddresses (q_Name q) entries true) [] dom
  | _ => with_soa (appendAddresses (q_Name q) entries false) [] dom
  end.

Definition metaTXT `{MapRange} (name : string) (meta : gmap string string) : list RR :=
  (λ '(k, v), RR_TXT name (dc_NodeTTL c) (k +:+ "=" +:+ v)) <$> range meta.

Definition renderNode `{MapRange} (q : Question) (e : ServiceEntry) (dom : string) : Msg :=
  match q_Qtype q with
  | TypeTXT => with_soa (metaTXT (q_Name q) (Node_Meta (Entry_Node e))) [] dom
  | _ =>
      match addressRR (q_Name q) (parseIP (Node_Address (Entry_Node e))) (dc_NodeTTL c) with
      | Some rr => with_soa [rr] [] dom
      | None => with_soa [] [] dom
      end
  end.

(** [answer]; [resolve] is the merged read path ([None]: it failed). *)
Definition answer `{MapRange} (resolve : Query → option LookupResult) (q : Question) : Msg :=
  match domainFor c (q_Name q) with
  | None => nxdomain (dc_Domain c)
  | Some dom =>
      match q_Qtype q with
      | TypeSOA => mkMsg RcodeSuccess [soa dom] [] []
      | TypeNS => mkMsg RcodeSuccess [RR_NS (q_Name q) ("ns." +:+ dom)] [] []
      | _ =>
          let pq := parseName (q_Name q) dom in
          match pq_kind pq with
          | kindUnknown => nxdomain dom
          | kind =>
              let dc := effectiveDC c (pq_datacenter pq) in
              match resolve (mkQuery (pq_service pq) dc (tagsOf pq) false) with
              | None => mkMsg RcodeServerFailure [] [] []
              | Some all =>
                  let entries := if bool_decide (kind = kindNode)
                                 then filterNode (Lookup_Entries all) (pq_node pq) else Lookup_Entries all in
                  match entries with
                  | [] => nxdomain dom
                  | _ =>
                      match Filter entries (mkFilterOptions true) with
                      | [] => mkMsg RcodeSuccess [] [soa dom] []
                      | (e :: _) as healthy =>
                          if bool_decide (kind = kindNode) then renderNode q e dom
                          else renderService q healthy dc dom
                      end
                  end
              end
          end
      end
  end.

(** [ServeDNS]: the rate limit, then one question. *)
Definition ServeDNS `{MapRange} (resolve : Query → option LookupResult) (allowed : bool) (qs : list Question) : Msg :=
  if negb allowed then mkMsg RcodeRefused [] [] []
  else match qs with
       | [q] => answer resolve q
       | _ => mkMsg RcodeFormatError [] [] []
       end.
End Answer.

(** ** Lemmas: names *)

Lemma lower_dot ch : lower ch = "."%char ↔ ch = "."%char.
Proof. destruct ch as [[] [] [] [] [] [] [] []]; vm_compute; split; congruence. Qed.

Lemma no_byte_dot_ToLower s : no_byte "." (ToLower s) = no_byte "." s.
Proof.
  induction s as [|ch s IH]; [done|]. cbn [ToLower no_byte]. rewrite IH. do 2 f_equal.
  apply bool_decide_ext, lower_dot.
Qed.

Lemma ToLower_idemp s : ToLower (ToLower s) = ToLower s.
Proof.
  induction s as [|ch s IH]; [done|]. cbn [ToLower]. rewrite IH. f_equal.
  destruct ch as [[] [] [] [] [] [] [] []]; reflexivity.
Qed.

Lemma ToLower_Join labels : ToLower (Join labels ".") = Join (ToLower <$> labels) ".".
Proof.
  induction labels as [|l labels IH]; [done|]. destruct labels as [|x labels]; [done|].
  cbn [Join fmap list_fmap] in *. rewrite !ToLower_app. by rewrite IH.
Qed.

(** A DNS label. *)
Definition label (l : string) : Prop := l ≠ ""%string ∧ no_byte "." l = true.

(** The presentation form of labels under a zone. *)
Definition fqdn (labels : list string) (zone : string) : string :=
  Join labels "." +:+ "." +:+ zone +:+ ".".

Lemma Join_nonempty l labels : l ≠ ""%string → Join (l :: labels) "." ≠ ""%string.
Proof. destruct l; [done|]. by destruct labels. Qed.

Lemma parseName_fqdn labels zone :
  labels ≠ [] → Forall label labels →
  parseName (fqdn labels zone) (zone +:+ ".") = parse_labels (ToLower <$> labels).
Proof.
  intros Hne Hl. unfold parseName, fqdn. rewrite <-!str_app_assoc, !TrimSuffix_app.
  rewrite !ToLower_app, ToLower_Join. change (ToLower ".") with "."%string.
  set (ls := ToLower <$> labels).
  assert (Hls : ls ≠ [] ∧ Forall label ls).
  { split; [unfold ls; by destruct labels|]. apply Forall_fmap. eapply Forall_impl; [exact Hl|].
    intros l [H1 H2]. split; [by destruct l|]. simpl. by rewrite no_byte_dot_ToLower. }
  clearbody ls. destruct Hls as [Hls1 Hls2].
  rewrite (str_app_assoc (Join ls ".")), HasSuffix_app, andb_false_r, <-str_app_assoc, !TrimSuffix_app.
  destruct ls as [|l ls]; [done|]. inversion Hls2 as [|?? [Hl1 _] Hls']; subst.
  rewrite bool_decide_eq_false_2 by (by apply Join_nonempty).
  f_equal. apply Split_Join; [done|]. eapply Forall_impl; [exact Hls2|]. by intros ? [].
Qed.

(** A label that the parser reads as a plain word. *)
Definition plain (l : string) : Prop :=
  label l ∧ ToLower l = l ∧ HasPrefix l "_" = false ∧ l ≠ "service"%string ∧ l ≠ "node"%string ∧ l ∉ meshLabels.

Lemma plain_label l : plain l → label l.
Proof. by intros []. Qed.

Lemma plain_lower l : plain l → ToLower l = l.
Proof. by intros (_ & ? & _). Qed.

Lemma scan_plain before l rest : plain l → scan_labels before (l :: rest) = scan_labels (before ++ [l]) rest.
Proof. intros (_ & _ & _ & H1 & H2 & H3). cbn [scan_labels]. by rewrite !bool_decide_eq_false_2. Qed.

Lemma parse_labels_plain l rest : plain l → parse_labels (l :: rest) = scan_labels [l] rest.
Proof.
  intros Hl. transitivity (scan_labels [] (l :: rest)); [|by rewrite scan_plain].
  destruct Hl as (_ & _ & Hu & _). unfold parse_labels. destruct rest as [|x rest]; [done|]. by rewrite Hu.
Qed.

Lemma label_service : label "service".
Proof. done. Qed.

Lemma label_node : label "node".
Proof. done. Qed.

Lemma label_dc : label "dc".
Proof. done. Qed.

Lemma label_underscore l : label l → label ("_" +:+ l).
Proof. by intros []. Qed.

#[local] Hint Resolve plain_label label_service label_node label_dc label_underscore : core.

Ltac parse_form :=
  rewrite parseName_fqdn; [|done|repeat (constructor; [by auto|]); constructor];
  cbn [fmap list_fmap]; rewrite ?ToLower_app;
  repeat match goal with H : plain ?l |- context [ToLower ?l] => rewrite (plain_lower l H) end.

(** ** Lemmas: records *)

Lemma Filter_nonempty_sub entries : Filter entries (mkFilterOptions true) ≠ [] → entries ≠ [].
Proof. by destruct entries. Qed.

(** ** Claims *)

(** The documented name forms are read as documented, in any zone: a service with
    an optional raw tag and an optional datacenter (canonical or legacy), the
    RFC 2782 form with its protocol label as the tag, and a node; upper-case letters
    in the labels and the zone make no difference. *)
Theorem dns_name_forms (svc tag node dc zone : string) :
  plain svc → plain tag → plain node → plain dc →
  let q labels := parseName (fqdn labels zone) (zone +:+ ".") in
  let service tag dc := mkParsed kindService svc tag "" dc in
  q [svc; "service"%string] = service ""%string ""%string ∧
  q [svc; "service"%string; dc; "dc"%string] = service ""%string dc ∧
  q [svc; "service"%string; dc] = service ""%string dc ∧
  q [tag; svc; "service"%string] = service tag ""%string ∧
  q [tag; svc; "service"%string; dc; "dc"%string] = service tag dc ∧
  q ["_" +:+ svc; "_" +:+ tag] = service tag ""%string ∧
  q ["_" +:+ svc; "_" +:+ tag; "service"%string] = service tag ""%string ∧
  q ["_" +:+ svc; "_" +:+ tag; "service"%string; dc; "dc"%string] = service tag dc ∧
  q ["_" +:+ svc; "_" +:+ tag; dc; "dc"%string] = service tag dc ∧
  q [node; "node"%string] = mkParsed kindNode "" "" node ""%string ∧
  q [node; "node"%string; dc; "dc"%string] = mkParsed kindNode "" "" node dc ∧
  (∀ labels labels' zone', labels ≠ [] → Forall label labels → Forall label labels' →
     ToLower <$> labels' = ToLower <$> labels →
     parseName (fqdn labels' zone') (zone' +:+ ".") = parseName (fqdn labels zone) (zone +:+ ".")).
Proof.
  intros Hs Ht Hn Hd q service.
  assert (Hu : ∀ l, TrimPrefix ("_" +:+ l) "_" = l) by (intros; apply TrimPrefix_app).
  assert (Hp : ∀ l, HasPrefix ("_" +:+ l) "_" = true) by (intros; apply HasPrefix_app).
  assert (Hdc : dc ≠ "service"%string) by (by destruct Hd as (_ & _ & _ & ? & _)).
  unfold q, service. split_and!.
  - parse_form. by rewrite parse_labels_plain.
  - parse_form. by rewrite parse_labels_plain.
  - parse_form. by rewrite parse_labels_plain.
  - parse_form. by rewrite parse_labels_plain, scan_plain.
  - parse_form. by rewrite parse_labels_plain, scan_plain.
  - parse_form. change (ToLower "_") with "_"%string. unfold parse_labels. by rewrite !Hp, !Hu.
  - parse_form. change (ToLower "_") with "_"%string. unfold parse_labels. by rewrite !Hp, !Hu.
  - parse_form. change (ToLower "_") with "_"%string. unfold parse_labels. by rewrite !Hp, !Hu.
  - parse_form. change (ToLower "_") with "_"%string. unfold parse_labels. rewrite !Hp, !Hu. simpl andb. cbv iota.
    by rewrite bool_decide_eq_false_2.
  - parse_form. by rewrite parse_labels_plain.
  - parse_form. by rewrite parse_labels_plain.
  - intros labels labels' zone' Hne Hl Hl' He. assert (labels' ≠ []) by (by destruct labels, labels').
    rewrite !parseName_fqdn by done. by rewrite He.
Qed.

Lemma plain_dec_web : plain "web" ∧ plain "v1" ∧ plain "n1" ∧ plain "east".
Proof. repeat split; try discriminate; vm_compute; intros H; repeat (apply elem_of_cons in H as [H|H]; [discriminate|]); by apply elem_of_nil in H. Qed.

Lemma dns_name_forms_witness :
  parseName "v1.web.service.east.dc.consul." "consul." = mkParsed kindService "web" "v1" "" "east".
Proof.
  destruct plain_dec_web as (H1 & H2 & H3 & H4).
  destruct (dns_name_forms "web" "v1" "n1" "east" "consul" H1 H2 H3 H4) as (_ & _ & _ & _ & H & _). exact H.
Defined.

(** *** What a question is answered from *)

(** The datacenter, the tags and the entries a question is about, and which of them
    are served. *)
Definition asked_query (c : DnsConfig) (pq : parsedQuery) : Query :=
  mkQuery (pq_service pq)
    (if decide (pq_datacenter pq = "" ∨ pq_datacenter pq = "dc1")%string then dc_Datacenter c else pq_datacenter pq)
    (if decide (pq_tag pq = "")%string then [] else [pq_tag pq]) false.

Definition about (pq : parsedQuery) (e : ServiceEntry) : Prop :=
  pq_kind pq = kindNode →
    EqualFold (Node_Name (Entry_Node e)) (pq_node pq) = true ∨ EqualFold (Node_ID (Entry_Node e)) (pq_node pq) = true.

#[export] Instance about_dec pq e : Decision (about pq e).
Proof. unfold about. apply _. Defined.

Definition serving (e : ServiceEntry) : Prop :=
  Entry_Maintenance e = false ∧ (Entry_Health e = HealthPassing ∨ Entry_Health e = HealthWarning).

#[export] Instance serving_dec e : Decision (serving e).
Proof. unfold serving. apply _. Defined.

(** The address an instance is reached at. *)
Definition own_address (e : ServiceEntry) : string :=
  if decide (Svc_Address (Entry_Service e) = "")%string then Node_Address (Entry_Node e)
  else Svc_Address (Entry_Service e).

(** Whether the instance [e] gives a question of type [t] a record. *)
Definition answers_type (parseIP : string → option IP) (pq : parsedQuery) (t : Qtype) (e : ServiceEntry) : Prop :=
  match pq_kind pq, t with
  | kindNode, TypeTXT => Node_Meta (Entry_Node e) ≠ ∅
  | kindNode, _ => is_Some (parseIP (Node_Address (Entry_Node e)))
  | _, TypeSRV => True
  | _, TypeAAAA => ∃ b, parseIP (own_address e) = Some (IPv6 b)
  | _, _ => ∃ b, parseIP (own_address e) = Some (IPv4 b)
  end.

Lemma asked_query_eq c pq :
  mkQuery (pq_service pq) (effectiveDC c (pq_datacenter pq)) (tagsOf pq) false = asked_query c pq.
Proof.
  unfold asked_query, effectiveDC, tagsOf. f_equal.
  - repeat case_bool_decide; case_decide; simpl; naive_solver.
  - case_bool_decide; case_decide; naive_solver.
Qed.

Lemma own_address_eq e : ReachableAddress e = own_address e.
Proof. unfold ReachableAddress, own_address. case_bool_decide; case_decide; naive_solver. Qed.

(** The entries the handler goes on with are those the question is about. *)
Lemma candidates_filter pq all :
  pq_kind pq ≠ kindUnknown →
  (if bool_decide (pq_kind pq = kindNode) then filterNode all (pq_node pq) else all) = filter (about pq) all.
Proof.
  intros Hk. case_bool_decide as Hn.
  - unfold filterNode. apply list_filter_iff. intros e. unfold about. rewrite orb_true_iff. naive_solver.
  - induction all as [|e l IH]; [done|]. rewrite filter_cons, decide_True by (by intros ?). by rewrite <-IH.
Qed.

Lemma Filter_serving l : Filter l (mkFilterOptions true) = filter serving l.
Proof.
  rewrite Filter_filter. apply list_filter_iff. intros e. unfold Visible, serving. simpl.
  destruct (Entry_Maintenance e), (Entry_Health e); simpl; naive_solver.
Qed.

(** *** The records of an answer *)

(** The weight of an SRV record: 1 for an instance with no weights, and the passing
    one, as far as 16 bits hold it, otherwise. *)
Definition weight_of (e : ServiceEntry) : Z :=
  let w := Svc_Weights (Entry_Service e) in
  if decide (Passing w = 0 ∧ Warning w = 0) then 1 else Z.min 65535 (Passing w).

Definition hexits (b : Z) : string :=
  let digits := "0123456789abcdef" in
  let digit d := default "0"%char (String.get (Z.to_nat d) digits) in
  String (digit (b / 16)) (String (digit (b mod 16)) EmptyString).

Definition ip_bytes (ip : IP) : list Z := match ip with IPv4 b | IPv6 b => b end.

(** The name an SRV record points at, and the address it stands for: the address
    itself, in hexadecimal, for an instance reached at an address of its own; the
    node otherwise. *)
Definition target_of (parseIP : string → option IP) (dc dom : string) (e : ServiceEntry) : string * option IP :=
  let n := Entry_Node e in
  let node := (if decide (Node_Name n = "")%string then Node_ID n else Node_Name n) +:+ ".node." +:+ dc +:+ "." +:+ dom in
  match parseIP (own_address e) with
  | Some ip =>
      if decide (own_address e = Node_Address n) then (node, Some ip)
      else (foldr (λ b s, hexits b +:+ s) EmptyString (ip_bytes ip) +:+ ".addr." +:+ dc +:+ "." +:+ dom, Some ip)
  | None => (node, parseIP (Node_Address n))
  end.

Definition rr_of (name : string) (ttl : Z) (ip : IP) : RR :=
  match ip with IPv4 b => RR_A name ttl b | IPv6 b => RR_AAAA name ttl b end.

(** The addresses of a family, in order. *)
Definition addresses (parseIP : string → option IP) (wantV6 : bool) (entries : list ServiceEntry) : list IP :=
  omap (λ e, match parseIP (own_address e), wantV6 with
             | Some (IPv4 b), false => Some (IPv4 b)
             | Some (IPv6 b), true => Some (IPv6 b)
             | _, _ => None
             end) entries.

(** What [net.ParseIP] gives is made of bytes. *)
Definition bytes_of_ip (parseIP : string → option IP) : Prop :=
  ∀ s ip, parseIP s = Some ip → Forall (λ b, 0 <= b < 256) (ip_bytes ip).

Lemma append_loop_spec parseIP c name v6 count entries :
  0 <= count → (0 < dc_ARecordLimit c → count < dc_ARecordLimit c) →
  append_loop parseIP c name v6 count entries =
    rr_of name (dc_ServiceTTL c) <$>
      (if 0 <? dc_ARecordLimit c then take (Z.to_nat (dc_ARecordLimit c - count)) (addresses parseIP v6 entries)
       else addresses parseIP v6 entries).
Proof.
  revert count. induction entries as [|e l IH]; intros count H0 Hc.
  { cbn [append_loop]. unfold addresses. cbn [omap list_omap]. destruct (0 <? _); [|done]. by rewrite take_nil. }
  cbn [append_loop]. unfold addresses in *. cbn [omap list_omap]. rewrite own_address_eq.
  assert (Hhit : ∀ ip, rr_of name (dc_ServiceTTL c) ip ::
      (if (0 <? dc_ARecordLimit c) && (dc_ARecordLimit c <=? count + 1) then []
       else append_loop parseIP c name v6 (count + 1) l) =
    rr_of name (dc_ServiceTTL c) <$>
      (if 0 <? dc_ARecordLimit c then take (Z.to_nat (dc_ARecordLimit c - count)) (ip :: addresses parseIP v6 l)
       else ip :: addresses parseIP v6 l)).
  { intros ip. destruct (Z.ltb_spec 0 (dc_ARecordLimit c)) as [Hl|Hl]; cbn [andb].
    - specialize (Hc Hl). destruct (Z.leb_spec (dc_ARecordLimit c) (count + 1)).
      + replace (dc_ARecordLimit c - count) with 1 by lia. done.
      + rewrite IH by lia. destruct (Z.ltb_spec 0 (dc_ARecordLimit c)); [|lia].
        replace (Z.to_nat (dc_ARecordLimit c - count)) with (S (Z.to_nat (dc_ARecordLimit c - (count + 1)))) by lia. done.
    - rewrite IH by lia. destruct (Z.ltb_spec 0 (dc_ARecordLimit c)); [lia|done]. }
  destruct (parseIP (own_address e)) as [[b|b]|], v6; simpl;
    ((by apply IH) || (by apply (Hhit (IPv4 b))) || (by apply (Hhit (IPv6 b)))).
Qed.

Lemma hex_hexits bytes : Forall (λ b, 0 <= b < 256) bytes →
  hex bytes = foldr (λ b s, hexits b +:+ s) EmptyString bytes.
Proof.
  assert (Hd : ∀ d, 0 <= d < 16 →
            hex_digit d = default "0"%char (String.get (Z.to_nat d) "0123456789abcdef")).
  { intros d Hd. destruct (decide (d = 0)) as [->|]; [done|].
    repeat match goal with _ => (assert (d = 1) as -> by lia; reflexivity) end.
    assert (Hc : d ∈ seqZ 0 16) by (apply elem_of_seqZ; lia). vm_compute in Hc.
    repeat (apply elem_of_cons in Hc as [->|Hc]; [reflexivity|]). by apply elem_of_nil in Hc. }
  induction 1 as [|b bytes Hb _ IH]; [done|]. cbn [hex foldr]. rewrite IH. unfold hexits.
  rewrite !Hd; [done| |]; [apply Z.mod_pos_bound; lia|].
  split; [apply Z.div_pos; lia|apply Z.div_lt_upper_bound; lia].
Qed.

Lemma srvTarget_of parseIP e dc dom : bytes_of_ip parseIP → srvTarget parseIP e dc dom = target_of parseIP dc dom e.
Proof.
  intros Hb. unfold srvTarget, target_of, DisplayName. rewrite own_address_eq.
  assert (Hn : ∀ n, (if bool_decide (Node_Name n ≠ ""%string) then Node_Name n else Node_ID n) =
                    (if decide (Node_Name n = ""%string) then Node_ID n else Node_Name n)).
  { intros n. case_bool_decide; case_decide; naive_solver. }
  rewrite !Hn. destruct (parseIP (own_address e)) as [ip|] eqn:Hip; [|done].
  destruct (decide (own_address e = Node_Address (Entry_Node e))) as [Ha|Ha];
    [rewrite bool_decide_eq_true_2 by done; by rewrite <-Ha, Hip|rewrite bool_decide_eq_false_2 by done].
  apply Hb, hex_hexits in Hip. unfold hexIP. destruct ip; simpl in *; by rewrite Hip.
Qed.

Lemma weight16_of e : weight16 (Passing (OrDefault (Svc_Weights (Entry_Service e)))) = weight_of e.
Proof.
  unfold weight_of, weight16, OrDefault, IsZero. destruct (Svc_Weights (Entry_Service e)) as [p w]; simpl.
  destruct (Z.eqb_spec p 0), (Z.eqb_spec w 0), (decide (p = 0 ∧ w = 0)); simpl; try lia;
    destruct (Z.ltb_spec 65535 p); lia.
Qed.

Definition srv_of (parseIP : string → option IP) (c : DnsConfig) (name dc dom : string) (e : ServiceEntry) : RR :=
  RR_SRV name (dc_ServiceTTL c) 1 (weight_of e) (Svc_Port (Entry_Service e)) (target_of parseIP dc dom e).1.

Definition glue_of (parseIP : string → option IP) (c : DnsConfig) (dc dom : string) (e : ServiceEntry) : option RR :=
  rr_of (target_of parseIP dc dom e).1 (dc_ServiceTTL c) <$> (target_of parseIP dc dom e).2.

(** *** Empty answers *)

(** A message rendered for instances that are served: success, and an SOA in the
    authority section exactly when no record was found. *)
Definition answers_soa (dom : string) (m : Msg) : Prop :=
  msg_rcode m = RcodeSuccess ∧ msg_ns m = (if decide (msg_answer m = []) then [soa dom] else []).

Lemma with_soa_rendered a x dom : answers_soa dom (with_soa a x dom).
Proof. split; [done|]. simpl. by destruct a. Qed.

Lemma render_rendered `{MapRange} parseIP shuffle c q e healthy dc dom :
  answers_soa dom (renderNode parseIP c q e dom) ∧ answers_soa dom (renderService parseIP shuffle c q healthy dc dom).
Proof.
  split; unfold renderNode, renderService; destruct (q_Qtype q); try apply with_soa_rendered;
    destruct (addressRR _ _ _); apply with_soa_rendered.
Qed.

Lemma fmap_nil_iff {A B} (f : A → B) (l : list A) : f <$> l = [] ↔ l = [].
Proof. by destruct l. Qed.

(** An address answer is empty exactly when no instance has an address of the family. *)
Lemma appendAddresses_nil parseIP c name entries v6 :
  appendAddresses parseIP c name entries v6 = [] ↔ addresses parseIP v6 entries = [].
Proof.
  unfold appendAddresses. rewrite append_loop_spec by lia. rewrite Z.sub_0_r, fmap_nil_iff.
  destruct (Z.ltb_spec 0 (dc_ARecordLimit c)); [|done].
  destruct (Z.to_nat (dc_ARecordLimit c)) eqn:E; [lia|]. by destruct (addresses _ _ _).
Qed.

Lemma addresses_nil parseIP v6 entries :
  addresses parseIP v6 entries ≠ [] ↔
  ∃ e b, e ∈ entries ∧ parseIP (own_address e) = Some (if v6 : bool then IPv6 b else IPv4 b).
Proof.
  unfold addresses. induction entries as [|e l IH]; [set_solver|]. cbn [omap list_omap].
  setoid_rewrite elem_of_cons. destruct (parseIP (own_address e)) as [[b|b]|] eqn:E, v6; simpl;
    first [split; [intros _; exists e, b; by auto|done]
          |rewrite IH; split; [naive_solver|intros (e' & b' & [->|?] & ?); [congruence|eauto]]].
Qed.

Lemma renderService_answers `{MapRange} parseIP shuffle c q pq healthy dc dom :
  (∀ es, shuffle es ≡ₚ es) → pq_kind pq = kindService → healthy ≠ [] →
  msg_answer (renderService parseIP shuffle c q healthy dc dom) ≠ [] ↔
  ∃ e, e ∈ healthy ∧ answers_type parseIP pq (q_Qtype q) e.
Proof.
  intros Hsh Hk Hne. unfold answers_type. rewrite Hk.
  assert (Hin : ∀ e, e ∈ shuffle healthy ↔ e ∈ healthy) by (intros; by rewrite Hsh).
  assert (Haddr : ∀ v6, appendAddresses parseIP c (q_Name q) (shuffle healthy) v6 ≠ [] ↔
     ∃ e, e ∈ healthy ∧ ∃ b, parseIP (own_address e) = Some (if v6 : bool then IPv6 b else IPv4 b)).
  { intros v6. rewrite appendAddresses_nil, addresses_nil. setoid_rewrite Hin. naive_solver. }
  unfold renderService. destruct (q_Qtype q); cbn [msg_answer with_soa];
    try apply (Haddr false); try apply (Haddr true).
  rewrite fmap_nil_iff. split; [|intros _ E; apply Hne, Permutation_nil_r; by rewrite <-E, Hsh].
  intros _. destruct healthy as [|e h]; [done|]. exists e. split; [by left|done].
Qed.

Lemma metaTXT_nil `{MapRange} c name meta : metaTXT c name meta = [] ↔ meta = ∅.
Proof.
  unfold metaTXT. rewrite fmap_nil_iff. pose proof (range_perm meta) as Hp. split.
  - intros E. rewrite E in Hp. apply Permutation_nil_l in Hp. by apply map_to_list_empty_iff.
  - intros ->. rewrite map_to_list_empty in Hp. by apply Permutation_nil_r.
Qed.

Lemma renderNode_answers `{MapRange} parseIP c q pq e dom :
  pq_kind pq = kindNode →
  msg_answer (renderNode parseIP c q e dom) ≠ [] ↔ answers_type parseIP pq (q_Qtype q) e.
Proof.
  intros Hk. unfold answers_type, renderNode. rewrite Hk.
  assert (Haddr : ∀ x : option IP, msg_answer (match addressRR (q_Name q) x (dc_NodeTTL c) with
     | Some rr => with_soa [rr] [] dom | None => with_soa [] [] dom end) ≠ [] ↔ is_Some x).
  { intros [[b|b]|]; simpl; split; try done; by intros []. }
  destruct (q_Qtype q); try apply Haddr. cbn [msg_answer with_soa]. by rewrite metaTXT_nil.
Qed.

(** C21: the answer to a question in a served zone, case by case, as the handler decides:
    the zone's own SOA and NS; NXDOMAIN with the SOA for a name the parser does not
    know or one that no instance matches; SERVFAIL, and nothing else, when the read
    fails; NOERROR with no answer and the SOA when instances match but none is
    healthy (passing or warning, and out of maintenance); and NOERROR otherwise, with a non-empty answer
    section exactly when one of those (for a node, the first of them) has a record
    of the type asked, and the SOA exactly when the answer section is empty.  A
    question outside the zones is NXDOMAIN with the SOA of the primary zone. *)
Theorem dns_rcode_dichotomy `{MapRange} (parseIP : string → option IP)
    (shuffle : list ServiceEntry → list ServiceEntry) (c : DnsConfig) (resolve : Query → option LookupResult)
    (q : Question) :
  (∀ es, shuffle es ≡ₚ es) →
  let m := answer parseIP shuffle c resolve q in
  match domainFor c (q_Name q) with
  | None => m = mkMsg RcodeNameError [] [soa (dc_Domain c)] []
  | Some dom =>
      let pq := parseName (q_Name q) dom in
      (q_Qtype q = TypeSOA → m = mkMsg RcodeSuccess [soa dom] [] []) ∧
      (q_Qtype q = TypeNS → m = mkMsg RcodeSuccess [RR_NS (q_Name q) ("ns." +:+ dom)] [] []) ∧
      (q_Qtype q ≠ TypeSOA → q_Qtype q ≠ TypeNS →
       (pq_kind pq = kindUnknown → m = mkMsg RcodeNameError [] [soa dom] []) ∧
       (pq_kind pq ≠ kindUnknown →
        match resolve (asked_query c pq) with
        | None => m = mkMsg RcodeServerFailure [] [] []
        | Some all =>
            let es := filter (about pq) (Lookup_Entries all) in
            let live := filter serving es in
            (es = [] → m = mkMsg RcodeNameError [] [soa dom] []) ∧
            (es ≠ [] → live = [] → m = mkMsg RcodeSuccess [] [soa dom] []) ∧
            (live ≠ [] → answers_soa dom m ∧
             (msg_answer m ≠ [] ↔ ∃ e, e ∈ (if decide (pq_kind pq = kindNode) then take 1 live else live) ∧
                                      answers_type parseIP pq (q_Qtype q) e))
        end))
  end.
Proof.
  intros Hsh. cbn zeta. unfold answer. destruct (domainFor c (q_Name q)) as [dom|]; [|done].
  set (pq := parseName (q_Name q) dom). split; [by intros ->|]. split; [by intros ->|]. intros H1 H2.
  assert (Hq : ∀ A (x y z : A), match q_Qtype q with TypeSOA => x | TypeNS => y | _ => z end = z)
    by (intros; by destruct (q_Qtype q)).
  rewrite Hq, asked_query_eq. split; [by intros ->|]. intros Hk.
  assert (Hkind : ∀ A (x : A) (f : queryKind → A),
            match pq_kind pq with kindUnknown => x | kind => f kind end = f (pq_kind pq))
    by (intros; by destruct (pq_kind pq)).
  rewrite (Hkind _ _ (λ kind, _)). destruct (resolve (asked_query c pq)) as [all|]; [|done].
  rewrite (candidates_filter pq) by done. rewrite Filter_serving.
  destruct (filter (about pq) (Lookup_Entries all)) as [|e0 es]; [naive_solver|].
  split; [done|]. destruct (filter serving (e0 :: es)) as [|e h]; [naive_solver|]. split; [done|]. intros _.
  destruct (render_rendered parseIP shuffle c q e (e :: h) (effectiveDC c (pq_datacenter pq)) dom) as [Hrn Hrs].
  destruct (pq_kind pq) eqn:Ek; [done| |].
  - rewrite bool_decide_eq_false_2 by done. rewrite (decide_False (P := kindService = kindNode)) by done.
    split; [done|]. by apply renderService_answers.
  - rewrite bool_decide_eq_true_2 by done. rewrite (decide_True (P := kindNode = kindNode)) by done.
    split; [done|]. rewrite (renderNode_answers _ _ _ pq) by done. simpl. set_solver.
Qed.

(** A resolver over one fixed set of entries, and a zone. *)
Definition sampleResolve (es : list ServiceEntry) : Query → option LookupResult := λ _, Some (mkLookup es 1).

Definition sampleDns : DnsConfig := NewDnsHandler (mkDnsConfig "consul" "" "east" 0 0 2).

Definition sampleIP (s : string) : option IP :=
  if bool_decide (s = "10.0.0.1"%string) then Some (IPv4 [10; 0; 0; 1])
  else if bool_decide (s = "10.0.0.9"%string) then Some (IPv4 [10; 0; 0; 9]) else None.

Definition sampleDnsEntry (h : HealthState) (addr : string) : ServiceEntry :=
  mkEntry (sampleNode "n1") (mkService "web" "web" addr 80 [] ∅ (mkWeights 0 0) second 0 1) h false 1 1.

(** Two instances of a service, one of them critical: its only address is that of an
    instance that is not served, and the question about it is answered NOERROR with
    the SOA alone; the other family and the SRV question have records. *)
Lemma dns_rcode_dichotomy_witness :
  let web := mkQuestion "web.service.consul." in
  let m es t := @answer sampleIP id sampleDns list_order (sampleResolve es) (web t) in
  m [sampleDnsEntry HealthCritical "10.0.0.9"] TypeA = mkMsg RcodeSuccess [] [soa "consul."] [] ∧
  m [] TypeA = mkMsg RcodeNameError [] [soa "consul."] [] ∧
  msg_answer (m [sampleDnsEntry HealthPassing "10.0.0.9"] TypeA) ≠ [].
Proof.
  cbn zeta.
  pose proof (λ es, @dns_rcode_dichotomy list_order sampleIP id sampleDns (sampleResolve es)
    (mkQuestion "web.service.consul." TypeA) (λ _, reflexivity _)) as Hd. cbn zeta in Hd.
  replace (domainFor sampleDns _) with (Some "consul."%string) in Hd by (vm_compute; reflexivity).
  split; [|split].
  - destruct (Hd [sampleDnsEntry HealthCritical "10.0.0.9"]) as (_ & _ & H).
    destruct (H ltac:(discriminate) ltac:(discriminate)) as [_ H']. specialize (H' ltac:(vm_compute; discriminate)).
    apply H'; vm_compute; [discriminate|reflexivity].
  - destruct (Hd []) as (_ & _ & H).
    destruct (H ltac:(discriminate) ltac:(discriminate)) as [_ H']. specialize (H' ltac:(vm_compute; discriminate)).
    apply H'. vm_compute. reflexivity.
  - destruct (Hd [sampleDnsEntry HealthPassing "10.0.0.9"]) as (_ & _ & H).
    destruct (H ltac:(discriminate) ltac:(discriminate)) as [_ H']. specialize (H' ltac:(vm_compute; discriminate)).
    apply H'; [vm_compute; discriminate|]. exists (sampleDnsEntry HealthPassing "10.0.0.9").
    split; [vm_compute; left|vm_compute; eexists; reflexivity].
Defined.

(** C22: the records of a service are those of its healthy instances.  An address
    question gets, in some order, one record for every instance whose address (its own,
    or the node's when it has none) is of the family asked, cut at the configured limit.
    An SRV question gets one record for every instance, none cut: its port, its
    passing weight as far as 16 bits hold it (1 without weights), and as target the
    node's name, or the address in hexadecimal for an instance reached at an address
    other than its node's; and in the additional section the address each target stands
    for, where there is one. *)
Theorem dns_records_correct `{MapRange} (parseIP : string → option IP)
    (shuffle : list ServiceEntry → list ServiceEntry) (c : DnsConfig) (resolve : Query → option LookupResult)
    (name : string) (dom : string) (all : LookupResult) :
  (∀ es, shuffle es ≡ₚ es) → bytes_of_ip parseIP → domainFor c name = Some dom →
  let pq := parseName name dom in
  pq_kind pq = kindService →
  resolve (asked_query c pq) = Some all →
  let healthy := filter serving (Lookup_Entries all) in
  healthy ≠ [] →
  let m t := answer parseIP shuffle c resolve (mkQuestion name t) in
  let dc := Query_Datacenter (asked_query c pq) in
  let cut (l : list IP) := if 0 <? dc_ARecordLimit c then take (Z.to_nat (dc_ARecordLimit c)) l else l in
  (∃ ips, ips ≡ₚ addresses parseIP false healthy ∧
     msg_answer (m TypeA) = rr_of name (dc_ServiceTTL c) <$> cut ips) ∧
  (∃ ips, ips ≡ₚ addresses parseIP true healthy ∧
     msg_answer (m TypeAAAA) = rr_of name (dc_ServiceTTL c) <$> cut ips) ∧
  msg_answer (m TypeSRV) ≡ₚ srv_of parseIP c name dc dom <$> healthy ∧
  msg_extra (m TypeSRV) ≡ₚ omap (glue_of parseIP c dc dom) healthy.
Proof.
  intros Hsh Hb Hdom pq Hk Hres healthy Hne m dc cut.
  assert (Hm : ∀ t, t ≠ TypeSOA → t ≠ TypeNS →
    m t = renderService parseIP shuffle c (mkQuestion name t) healthy dc dom).
  { intros t Ht1 Ht2. unfold m, answer. cbn [q_Name q_Qtype]. rewrite Hdom. fold pq. rewrite Hk, asked_query_eq, Hres.
    simpl bool_decide. cbv iota. rewrite Filter_serving. fold healthy. unfold dc. rewrite <-asked_query_eq.
    destruct (Lookup_Entries all) as [|e0 es]; [done|].
    clearbody healthy. destruct healthy as [|e h]; [done|]. by destruct t. }
  assert (Haddr : ∀ v6, ∃ ips, ips ≡ₚ addresses parseIP v6 healthy ∧
    appendAddresses parseIP c name (shuffle healthy) v6 = rr_of name (dc_ServiceTTL c) <$> cut ips).
  { intros v6. exists (addresses parseIP v6 (shuffle healthy)). split.
    - unfold addresses. by rewrite (Hsh healthy).
    - unfold appendAddresses. rewrite append_loop_spec by lia. by rewrite Z.sub_0_r. }
  split; [rewrite Hm by done; apply Haddr|]. split; [rewrite Hm by done; apply Haddr|].
  rewrite Hm by done. unfold renderService. cbn [q_Qtype msg_answer msg_extra with_soa q_Name]. split.
  - rewrite (Hsh healthy). apply Permutation_refl'. apply list_fmap_ext. intros _ e _.
    unfold srv_rr, srv_of. by rewrite weight16_of, srvTarget_of.
  - rewrite (Hsh healthy). apply Permutation_refl'. apply list_omap_ext. apply Forall2_same_length_lookup_2; [done|].
    intros i e ? He [= <-]%(λ E, eq_trans (eq_sym He) E). 
    rewrite srvTarget_of by done. unfold glue_of. by destruct (target_of parseIP dc dom e) as [t [[b|b]|]].
Qed.

Lemma sampleIP_bytes : bytes_of_ip sampleIP.
Proof.
  intros s ip. unfold sampleIP. repeat case_bool_decide; [intros [= <-]..|done];
    repeat (apply List.Forall_cons; [lia|]); apply List.Forall_nil.
Qed.

Lemma dns_records_correct_witness :
  msg_answer (@answer sampleIP id sampleDns list_order (sampleResolve [sampleDnsEntry HealthPassing "10.0.0.9"])
    (mkQuestion "web.service.consul." TypeSRV)) ≡ₚ
  [RR_SRV "web.service.consul." 0 1 1 80 "0a000009.addr.east.consul."].
Proof.
  destruct (@dns_records_correct list_order sampleIP id sampleDns (sampleResolve [sampleDnsEntry HealthPassing "10.0.0.9"])
    "web.service.consul." "consul." (mkLookup [sampleDnsEntry HealthPassing "10.0.0.9"] 1)) as (_ & _ & H & _).
  - reflexivity.
  - apply sampleIP_bytes.
  - vm_compute. reflexivity.
  - vm_compute. reflexivity.
  - reflexivity.
  - vm_compute. discriminate.
  - exact H.
Defined.

(** ** SRV targets *)

Lemma EqualFold_ToLower s : EqualFold s (ToLower s) = true.
Proof.
  induction s as [|ch s IH]; [done|]. cbn [ToLower EqualFold]. rewrite bool_decide_eq_true_2; [done|].
  destruct ch as [[] [] [] [] [] [] [] []]; reflexivity.
Qed.

Lemma domainFor_primary c labels zone :
  dc_Domain c = zone +:+ "." → domainFor c (fqdn labels zone) = Some (dc_Domain c).
Proof.
  intros Hz. unfold domainFor, fqdn. rewrite <-!str_app_assoc, TrimSuffix_app, !ToLower_app.
  change (ToLower ".") with "."%string. cbn [domain_loop].
  rewrite bool_decide_eq_false_2 by (rewrite Hz; by destruct zone).
  rewrite Hz, TrimSuffix_app, (str_app_assoc (ToLower (Join labels "."))), HasSuffix_app. by rewrite orb_true_r.
Qed.

Lemma node_target nm dc zone : nm +:+ ".node." +:+ dc +:+ "." +:+ (zone +:+ ".") = fqdn [nm; "node"%string; dc] zone.
Proof.
  unfold fqdn. cbn [Join]. rewrite !str_app_assoc. by rewrite !str_app_cons, ?str_app_nil_l.
Qed.

Lemma addr_target h dc zone : h +:+ ".addr." +:+ dc +:+ "." +:+ (zone +:+ ".") = fqdn [h; "addr"%string; dc] zone.
Proof.
  unfold fqdn. cbn [Join]. rewrite !str_app_assoc. by rewrite !str_app_cons, ?str_app_nil_l.
Qed.

Lemma effectiveDC_idemp c dc : effectiveDC c (effectiveDC c dc) = effectiveDC c dc.
Proof.
  unfold effectiveDC. destruct (bool_decide (dc = ""%string) || bool_decide (dc = "dc1"%string)) eqn:E.
  - by destruct (bool_decide (dc_Datacenter c = ""%string) || bool_decide (dc_Datacenter c = "dc1"%string)).
  - by rewrite E.
Qed.

(** SRV targets of instances on their node's address resolve: asking the same zone
    for the target of an SRV record gives exactly the node's address, as long as the
    node's name is an ordinary label (of any case) and the entries of that name agree
    on the address. *)
Theorem srv_target_resolves `{MapRange} (parseIP : string → option IP)
    (shuffle : list ServiceEntry → list ServiceEntry) (c : DnsConfig) (resolve : Query → option LookupResult)
    (e : ServiceEntry) (zone dc0 : string) (ip : IP) (all : LookupResult) :
  let nm := DisplayName (Entry_Node e) in
  let dc := effectiveDC c dc0 in
  dc_Domain c = zone +:+ "." → label nm → plain (ToLower nm) → plain dc →
  ReachableAddress e = Node_Address (Entry_Node e) → parseIP (Node_Address (Entry_Node e)) = Some ip →
  resolve (mkQuery "" dc [] false) = Some all → e ∈ Lookup_Entries all → Visible e (mkFilterOptions true) = true →
  (∀ e', e' ∈ filterNode (Lookup_Entries all) (ToLower nm) → Node_Address (Entry_Node e') = Node_Address (Entry_Node e)) →
  let target := (srvTarget parseIP e dc (dc_Domain c)).1 in
  answer parseIP shuffle c resolve (mkQuestion target TypeA) = mkMsg RcodeSuccess [rr_of target (dc_NodeTTL c) ip] [] [].
Proof.
  intros nm dc Hz Hnm Hpl Hdc Hreach Hip Hres Hin Hvis Hagree target.
  assert (Ht : target = fqdn [nm; "node"%string; dc] zone).
  { unfold target, srvTarget. rewrite Hreach, Hip, bool_decide_eq_true_2 by done. simpl. rewrite Hz. apply node_target. }
  assert (Hp : parseName target (dc_Domain c) = mkParsed kindNode "" "" (ToLower nm) dc).
  { rewrite Ht, Hz, parseName_fqdn; [|done|by repeat (constructor; [by auto|])].
    cbn [fmap list_fmap]. rewrite (plain_lower dc) by done. change (ToLower "node") with "node"%string.
    rewrite (parse_labels_plain (ToLower nm)) by exact Hpl. reflexivity. }
  assert (Hdom : domainFor c target = Some (dc_Domain c)) by (rewrite Ht; by apply domainFor_primary).
  assert (Hfn : e ∈ filterNode (Lookup_Entries all) (ToLower nm)).
  { apply list_elem_of_filter. split; [|done]. unfold nm, DisplayName.
    case_bool_decide; rewrite EqualFold_ToLower; [done|apply orb_true_r]. }
  clearbody target. unfold answer. cbn [q_Name q_Qtype]. rewrite Hdom, Hp. cbn [pq_kind pq_datacenter pq_service pq_node].
  change (tagsOf _) with (@nil string). unfold dc in Hres |- *. rewrite effectiveDC_idemp, Hres. fold dc.
  simpl bool_decide. cbv iota. set (es := filterNode (Lookup_Entries all) (ToLower nm)) in *.
  assert (Hfe : e ∈ Filter es (mkFilterOptions true)) by (by apply Filter_spec).
  destruct es as [|e0 es']; [by apply elem_of_nil in Hfn|].
  destruct (Filter (e0 :: es') (mkFilterOptions true)) as [|e1 h] eqn:Hf; [by apply elem_of_nil in Hfe|].
  assert (He1 : e1 ∈ e0 :: es').
  { assert (He : e1 ∈ Filter (e0 :: es') (mkFilterOptions true)) by (rewrite Hf; constructor). by apply Filter_spec in He as [? _]. }
  unfold renderNode. cbn [q_Qtype q_Name]. rewrite (Hagree e1 He1), Hip. by destruct ip.
Qed.

Lemma srv_target_resolves_witness :
  @answer sampleIP id sampleDns list_order (sampleResolve [sampleDnsEntry HealthPassing ""])
    (mkQuestion "n1.node.east.consul." TypeA) = mkMsg RcodeSuccess [RR_A "n1.node.east.consul." 0 [10; 0; 0; 1]] [] [].
Proof.
  destruct plain_dec_web as (_ & _ & Hn & Hd).
  apply (@srv_target_resolves list_order sampleIP id sampleDns (sampleResolve [sampleDnsEntry HealthPassing ""])
    (sampleDnsEntry HealthPassing "") "consul" "" (IPv4 [10; 0; 0; 1]) (mkLookup [sampleDnsEntry HealthPassing ""] 1)).
  - reflexivity.
  - exact (proj1 Hn).
  - exact Hn.
  - exact Hd.
  - reflexivity.
  - reflexivity.
  - reflexivity.
  - constructor.
  - reflexivity.
  - intros e' He'. vm_compute in He'. apply list_elem_of_singleton in He'. rewrite He'. reflexivity.
Defined.

Lemma hex_length bytes : String.length (hex bytes) = (2 * length bytes)%nat.
Proof. induction bytes as [|b l IH]; [done|]. cbn [hex String.length length]. rewrite IH. lia. Qed.

Lemma ToLower_length s : String.length (ToLower s) = String.length s.
Proof. induction s as [|ch s IH]; [done|]. cbn [ToLower String.length]. by rewrite IH. Qed.

Lemma hex_digit_no_dot d : 0 <= d < 16 → hex_digit d ≠ "."%char.
Proof.
  intros Hd. assert (Hx : d = 0 ∨ d = 1 ∨ d = 2 ∨ d = 3 ∨ d = 4 ∨ d = 5 ∨ d = 6 ∨ d = 7 ∨ d = 8 ∨ d = 9 ∨
    d = 10 ∨ d = 11 ∨ d = 12 ∨ d = 13 ∨ d = 14 ∨ d = 15) by lia.
  repeat destruct Hx as [->|Hx]; try (vm_compute; discriminate). by subst.
Qed.

Lemma hex_no_dot bytes : Forall (λ b, 0 <= b < 256) bytes → no_byte "." (hex bytes) = true.
Proof.
  induction 1 as [|b l Hb _ IH]; [done|]. cbn [hex no_byte].
  rewrite IH, !bool_decide_eq_false_2; [done|..]; apply hex_digit_no_dot.
  - apply Z.mod_pos_bound. lia.
  - split; [apply Z.div_pos; lia|]. apply Z.div_lt_upper_bound; lia.
Qed.

(** SRV targets of instances with an address of their own never resolve: the handler
    answers NXDOMAIN to every question on its own synthetic [<hex>.addr.<dc>] target,
    whatever the registry holds, because [addr] is among the labels it refuses. *)
Theorem srv_addr_target_unresolvable `{MapRange} (parseIP : string → option IP)
    (shuffle : list ServiceEntry → list ServiceEntry) (c : DnsConfig) (resolve : Query → option LookupResult)
    (e : ServiceEntry) (zone dc : string) (bytes : list Z) :
  dc_Domain c = zone +:+ "." → label dc →
  ReachableAddress e ≠ Node_Address (Entry_Node e) → parseIP (ReachableAddress e) = Some (IPv4 bytes) →
  length bytes = 4%nat → Forall (λ b, 0 <= b < 256) bytes →
  let target := (srvTarget parseIP e dc (dc_Domain c)).1 in
  answer parseIP shuffle c resolve (mkQuestion target TypeA) = nxdomain (dc_Domain c).
Proof.
  intros Hz Hdc Hne Hip Hlen Hb target.
  assert (Ht : target = fqdn [hex bytes; "addr"%string; dc] zone).
  { unfold target, srvTarget. rewrite Hip, bool_decide_eq_false_2 by done. simpl. rewrite Hz. apply addr_target. }
  assert (Hl : String.length (ToLower (hex bytes)) = 8%nat) by (rewrite ToLower_length, hex_length; lia).
  assert (Hp : pq_kind (parseName target (dc_Domain c)) = kindUnknown).
  { rewrite Ht, Hz, parseName_fqdn; [|done|].
    - cbn [fmap list_fmap]. change (ToLower "addr") with "addr"%string. unfold parse_labels.
      change (HasPrefix "addr" "_") with false. rewrite andb_false_r. cbn [scan_labels].
      rewrite !(bool_decide_eq_false_2 (ToLower (hex bytes) = _)) by (intros E; by rewrite E in Hl).
      by destruct (bool_decide (ToLower (hex bytes) ∈ meshLabels)).
    - assert (Hh : label (hex bytes)).
      { split; [|by apply hex_no_dot]. intros E. by rewrite E in Hl. }
      by repeat (constructor; [done|]). }
  unfold answer. cbn [q_Name q_Qtype]. rewrite Ht, domainFor_primary, <-Ht by done. by rewrite Hp.
Qed.

Lemma srv_addr_target_unresolvable_witness :
  @answer sampleIP id sampleDns list_order (sampleResolve [sampleDnsEntry HealthPassing "10.0.0.9"])
    (mkQuestion "0a000009.addr.east.consul." TypeA) = nxdomain "consul.".
Proof.
  apply (@srv_addr_target_unresolvable list_order sampleIP id sampleDns
    (sampleResolve [sampleDnsEntry HealthPassing "10.0.0.9"]) (sampleDnsEntry HealthPassing "10.0.0.9") "consul" "east"
    [10; 0; 0; 9]).
  - reflexivity.
  - apply plain_dec_web.
  - discriminate.
  - reflexivity.
  - reflexivity.
  - repeat constructor; lia.
Defined.

(** Services whose name has upper-case letters cannot be resolved: the parser lowers
    the queried name, the registry compares it as it is, so a passing instance of
    [Web] is NXDOMAIN under both spellings although node names match in any case. *)
Theorem dns_uppercase_service_missing :
  let m := (@apply list_order (frozen 5)
    (OpRegister (mkRegistration (sampleNode "n1") [sampleService "web-1" "Web" []] 1)) (NewMemory sampleOptions)).1 in
  let resolve q := Some (@Lookup list_order (frozen 5) q m) in
  let ask name := @answer sampleIP id (NewDnsHandler (mkDnsConfig "consul" "" "dc1" 0 0 0)) list_order resolve (mkQuestion name TypeA) in
  msg_rcode (ask "Web.service.consul."%string) = RcodeNameError ∧
  msg_rcode (ask "web.service.consul."%string) = RcodeNameError ∧
  msg_rcode (ask "N1.node.consul."%string) = RcodeSuccess ∧
  length (Lookup_Entries (@Lookup list_order (frozen 5) (mkQuery "Web" "" [] true) m)) = 1%nat.
Proof. vm_compute. repeat split; reflexivity. Qed.
