(* ===== verification/RateLimit.v ===== *)
(** The per-client fixed-window limiter shared by the HTTP, DNS and bootstrap
    surfaces, [src/internal/ratelimit/ratelimit.go]. *)

From Stdlib Require Import ZArith Lia.
From stdpp Require Import base gmap sorting list strings.
From S2P Require Import Prelude.

#[local] Open Scope Z_scope.

(** ** Data and operations *)

Record Limiter := mkLimiter { limit : Z; counts : gmap string Z; resetAt : Z }.

Definition New_limiter (perSecond : Z) : Limiter := mkLimiter perSecond ∅ zeroTime.

(** [Allow] at the clock reading [now]. *)
Definition Allow (now : Z) (key : string) (l : Limiter) : bool * Limiter :=
  if limit l <=? 0 then (true, l)
  else
    let l := if Time_After now (resetAt l) then mkLimiter (limit l) ∅ (now + second) else l in
    let n := default 0 (counts l !! key) + 1 in
    (n <=? limit l, mkLimiter (limit l) (<[key := n]> (counts l)) (resetAt l)).

(** A sequence of calls, and how many of those of [key] were allowed. *)
Fixpoint allowed (key : string) (calls : list (Z * string)) (l : Limiter) : Z :=
  match calls with
  | [] => 0
  | (now, k) :: rest =>
      let '(ok, l') := Allow now k l in
      (if ok && bool_decide (k = key) then 1 else 0) + allowed key rest l'
  end.

Fixpoint after (calls : list (Z * string)) (l : Limiter) : Limiter :=
  match calls with
  | [] => l
  | (now, k) :: rest => after rest (Allow now k l).2
  end.

(** ** Lemmas *)

Definition used (key : string) (l : Limiter) : Z := default 0 (counts l !! key).

Lemma Allow_window now k l key :
  0 < limit l → now <= resetAt l →
  let '(ok, l') := Allow now k l in
  limit l' = limit l ∧ resetAt l' = resetAt l ∧
  used key l' = used key l + (if bool_decide (k = key) then 1 else 0) ∧
  (ok = true ↔ used k l < limit l).
Proof.
  intros Hl Hn. unfold Allow, Time_After, used. destruct (Z.leb_spec (limit l) 0); [lia|].
  destruct (Z.ltb_spec (resetAt l) now); [lia|]. simpl. split_and!; [done..| |].
  - rewrite lookup_insert. case_decide as Hk; simpl.
    + subst. rewrite bool_decide_eq_true_2 by done. done.
    + rewrite bool_decide_eq_false_2 by done. lia.
  - rewrite Z.leb_le. lia.
Qed.

(** Within a window the allowed calls and the used count stay below the limit. *)
Lemma allowed_window key calls l :
  0 < limit l → 0 <= used key l → Forall (λ c, c.1 <= resetAt l) calls →
  allowed key calls l <= Z.max 0 (limit l - used key l).
Proof.
  intros Hl Hu Hc. revert l Hl Hu Hc. induction calls as [|[now k] calls IH]; intros l Hl Hu Hc; cbn [allowed]; [lia|].
  inversion Hc as [|?? Hn Hc']; subst. simpl in Hn.
  pose proof (Allow_window now k l key Hl Hn) as Hw. destruct (Allow now k l) as [ok l'].
  destruct Hw as (H1 & H2 & H3 & H4). specialize (IH l').
  rewrite H1, H2, H3 in IH. specialize (IH Hl ltac:(case_bool_decide; lia) Hc').
  destruct (decide (k = key)) as [->|Hk].
  - rewrite bool_decide_eq_true_2 in * by done. destruct ok; simpl.
    + assert (used key l < limit l) by (by apply H4). lia.
    + lia.
  - rewrite bool_decide_eq_false_2 in * by done. rewrite andb_false_r. lia.
Qed.

Lemma Allow_reset now k l key :
  0 < limit l → resetAt l < now →
  let '(ok, l') := Allow now k l in
  limit l' = limit l ∧ resetAt l' = now + second ∧ ok = true ∧
  used key l' = if bool_decide (k = key) then 1 else 0.
Proof.
  intros Hl Hn. unfold Allow, Time_After, used. destruct (Z.leb_spec (limit l) 0); [lia|].
  destruct (Z.ltb_spec (resetAt l) now); [|lia]. simpl. rewrite lookup_empty. simpl. split_and!; [done..| |].
  - apply Z.leb_le. lia.
  - rewrite lookup_insert. case_decide as Hk; simpl; [by rewrite bool_decide_eq_true_2|].
    rewrite lookup_empty. by rewrite bool_decide_eq_false_2.
Qed.

(** The limiter of a run: a count is never negative. *)
Lemma Allow_used now k l key : 0 <= used key l → 0 <= used key (Allow now k l).2 ∧ limit (Allow now k l).2 = limit l.
Proof.
  intros Hu. unfold Allow, used in *. destruct (limit l <=? 0); [done|].
  destruct (Time_After now (resetAt l)); simpl; (split; [|done]); rewrite lookup_insert; case_decide; subst; simpl.
  - rewrite lookup_empty. simpl. lia.
  - rewrite lookup_empty. simpl. lia.
  - lia.
  - lia.
Qed.

Lemma after_used calls l key : 0 <= used key l → 0 <= used key (after calls l) ∧ limit (after calls l) = limit l.
Proof.
  revert l. induction calls as [|[now k] calls IH]; intros l Hu; cbn [after]; [done|].
  destruct (Allow_used now k l key Hu) as [H1 H2]. destruct (IH _ H1) as [H3 H4]. split; [done|congruence].
Qed.

Lemma allowed_app key a b l : allowed key (a ++ b) l = allowed key a l + allowed key b (after a l).
Proof.
  revert l. induction a as [|[n k] a IH]; intros l; [done|]. rewrite <-app_comm_cons. cbn [allowed after].
  destruct (Allow n k l) as [ok l']. cbn [snd]. rewrite IH. lia.
Qed.

Lemma after_window pre l :
  0 < limit l → Forall (λ c, c.1 <= resetAt l) pre → resetAt (after pre l) = resetAt l ∧ limit (after pre l) = limit l.
Proof.
  revert l. induction pre as [|[n k] pre IH]; intros l Hl Hpre; [done|].
  inversion Hpre; subst. cbn [after]. pose proof (Allow_window n k l ""%string Hl ltac:(done)) as Hw.
  destruct (Allow n k l) as [ok l']. destruct Hw as (E1 & E2 & _). simpl.
  rewrite <-E1, <-E2. apply IH; [lia|by rewrite E2].
Qed.

(** The calls up to the first one past [r]. *)
Lemma first_past (r : Z) (calls : list (Z * string)) :
  Forall (λ c, c.1 <= r) calls ∨
  ∃ pre t k post, calls = pre ++ (t, k) :: post ∧ Forall (λ c, c.1 <= r) pre ∧ r < t.
Proof.
  induction calls as [|[t k] calls [IH|(pre & t' & k' & post & -> & H1 & H2)]]; [by left|..];
    destruct (Z.le_gt_cases t r).
  - left. by constructor.
  - right. exists [], t, k, calls. split; [done|]. split; [constructor|lia].
  - right. exists ((t, k) :: pre), t', k', post. split; [done|]. split; [by constructor|done].
  - right. exists [], t, k, (pre ++ (t', k') :: post). split; [done|]. split; [constructor|lia].
Qed.

(** A call that opens a window, and the calls within it. *)
Lemma allowed_opening key t k post l :
  0 < limit l → resetAt l < t → Forall (λ c, c.1 <= t + second) post →
  allowed key ((t, k) :: post) l <= limit l.
Proof.
  intros Hl Ht Hpost. pose proof (Allow_reset t k l key Hl Ht) as Hr. cbn [allowed].
  destruct (Allow t k l) as [ok l']. destruct Hr as (E1 & E2 & -> & E4).
  pose proof (allowed_window key post l' ltac:(lia) ltac:(rewrite E4; case_bool_decide; lia)) as H2.
  rewrite E2 in H2. specialize (H2 Hpost). rewrite E4, E1 in H2. simpl. case_bool_decide; lia.
Qed.

Lemma allowed_span key calls l a :
  0 < limit l → 0 <= used key l → Forall (λ c, a <= c.1 <= a + second) calls →
  allowed key calls l <= 2 * limit l.
Proof.
  intros Hl Hu Hc. destruct (first_past (resetAt l) calls) as [Hall|(pre & t & k & post & -> & Hpre & Ht)].
  { pose proof (allowed_window key calls l Hl Hu Hall). lia. }
  apply Forall_app in Hc as [_ Hc]. inversion Hc as [|?? Hta Hpost]; subst. simpl in Hta.
  destruct (after_window pre l Hl Hpre) as [Hr Hm].
  pose proof (allowed_window key pre l Hl Hu Hpre) as H1.
  pose proof (allowed_opening key t k post (after pre l) ltac:(lia) ltac:(lia)) as H2.
  rewrite allowed_app. specialize (H2 ltac:(eapply Forall_impl; [exact Hpost|]; simpl; lia)). lia.
Qed.

Lemma after_app a b l : after (a ++ b) l = after b (after a l).
Proof. revert l. induction a as [|[t k] a IH]; intros l; [done|]. cbn [after app]. apply IH. Qed.

(** The window a history has left: it was opened by the call at [t], and the calls of
    a key since then were let through as long as they did not exceed the limit. *)
Lemma current_window n history key :
  0 < n → Forall (λ c, zeroTime < c.1) history →
  let l := after history (New_limiter n) in
  (history = [] ∧ l = New_limiter n) ∨
  ∃ pre t k post, history = pre ++ (t, k) :: post ∧ resetAt l = t + second ∧
    allowed key ((t, k) :: post) (after pre (New_limiter n)) = Z.min n (used key l).
Proof.
  intros Hn. induction history as [|[now k] history IH] using rev_ind; intros Hz l; [by left|right].
  apply Forall_app in Hz as [Hz Hz1]. apply List.Forall_inv in Hz1. simpl in Hz1. specialize (IH Hz). cbv zeta in IH.
  unfold l. rewrite after_app. cbn [after]. clear l. set (l := after history (New_limiter n)) in *.
  assert (Hu : ∀ x, 0 <= used x l ∧ limit l = n).
  { intros x. apply (after_used history (New_limiter n)). unfold used, New_limiter. simpl. by rewrite lookup_empty. }
  destruct (Hu key) as [Hu0 Hm]. destruct (Z.le_gt_cases now (resetAt l)) as [Hle|Hgt].
  - destruct IH as [[-> Hl]|(pre & t & k0 & post & -> & Hr & Ha)].
    { exfalso. rewrite Hl in Hle. unfold New_limiter in Hle. cbn [resetAt] in Hle. lia. }
    exists pre, t, k0, (post ++ [(now, k)]). split; [by rewrite <-app_assoc|].
    pose proof (Allow_window now k l key ltac:(lia) Hle) as Hw.
    rewrite app_comm_cons, allowed_app, Ha, <-after_app. fold l. cbn [allowed].
    destruct (Allow now k l) as [ok l']. destruct Hw as (_ & E2 & E3 & E4). cbn [snd].
    split; [congruence|]. rewrite E3, Z.add_0_r. destruct (decide (k = key)) as [->|Hk].
    + rewrite bool_decide_eq_true_2 by done. rewrite andb_true_r.
      destruct ok; [assert (used key l < n) by (rewrite <-Hm; by apply E4); lia|].
      assert (¬ used key l < limit l) by (intros ?%E4; done). lia.
    + rewrite bool_decide_eq_false_2 by done. rewrite andb_false_r. by rewrite !Z.add_0_r.
  - exists history, now, k, []. split; [done|].
    pose proof (Allow_reset now k l key ltac:(lia) ltac:(lia)) as Hw. fold l. cbn [allowed].
    destruct (Allow now k l) as [ok l']. destruct Hw as (_ & E2 & -> & E4). cbn [snd].
    split; [done|]. rewrite E4. simpl. case_bool_decide; lia.
Qed.

(** A refused call comes within a second of as many calls of its key that were let
    through as the limit allows. *)
Lemma refused_recent n history now key :
  0 < n → Forall (λ c, zeroTime < c.1) history → StronglySorted Z.le (history.*1 ++ [now]) →
  (Allow now key (after history (New_limiter n))).1 = false →
  ∃ pre recent, history = pre ++ recent ∧ Forall (λ c, now - second <= c.1 <= now) recent ∧
    allowed key recent (after pre (New_limiter n)) = n.
Proof.
  intros Hn Hz Hs Hf. pose proof (current_window n history key Hn Hz) as Hw. cbv zeta in Hw.
  set (l := after history (New_limiter n)) in *.
  assert (Hm : limit l = n).
  { apply (after_used history (New_limiter n) key). unfold used, New_limiter. simpl. by rewrite lookup_empty. }
  assert (Hle : now <= resetAt l).
  { destruct (Z.le_gt_cases now (resetAt l)) as [|Hgt]; [done|].
    pose proof (Allow_reset now key l key ltac:(lia) ltac:(lia)) as Hr. destruct (Allow now key l) as [ok l'].
    destruct Hr as (_ & _ & -> & _). done. }
  assert (Hu : n <= used key l).
  { pose proof (Allow_window now key l key ltac:(lia) Hle) as Hr. destruct (Allow now key l) as [ok l'].
    destruct Hr as (_ & _ & _ & Hok). simpl in Hf. subst ok. rewrite <-Hm.
    destruct (Z.le_gt_cases (limit l) (used key l)); [done|]. by assert (false = true) by (apply Hok; lia). }
  destruct Hw as [[-> Hl]|(pre & t & k & post & -> & Hr & Ha)].
  { exfalso. rewrite Hl in Hu. unfold used, New_limiter in Hu. simpl in Hu. rewrite lookup_empty in Hu. simpl in Hu. lia. }
  exists pre, ((t, k) :: post). split; [done|]. split; [|lia].
  rewrite fmap_app, <-app_assoc in Hs. apply StronglySorted_app in Hs as (_ & _ & Hs).
  cbn [fmap list_fmap app] in Hs. apply StronglySorted_inv in Hs as [Hs Ht].
  apply Forall_app in Ht as [Hpost Hnow]. apply List.Forall_inv in Hnow.
  apply StronglySorted_app in Hs as (Hbefore & _ & _). simpl in Hnow.
  apply List.Forall_cons; simpl; [lia|]. apply Forall_forall. intros [t' k'] Hin.
  rewrite Forall_forall in Hpost. assert (Hin' : t' ∈ post.*1) by (apply list_elem_of_fmap; by exists (t', k')).
  specialize (Hpost _ Hin'). specialize (Hbefore t' now Hin' ltac:(by left)). simpl in *. lia.
Qed.

(** ** Claims *)

(** C30: the limiter bounds every client's rate, and refuses no more than that asks:
    after any history, the calls made within one second let at most twice the limit of
    any key through (the limit itself when no window ends in between); while the clock
    goes forward, a call is refused only when as many earlier calls of its key as the
    limit allows were let through within the second before it, so that a client that
    stays below the limit, or waits a second, is served; and a limiter with no positive
    limit refuses nothing. *)
Theorem rate_limit_bound (n : Z) (history calls : list (Z * string)) (key : string) (a : Z) :
  Forall (λ c, a <= c.1 <= a + second) calls →
  let l := after history (New_limiter n) in
  (0 < n → allowed key calls l <= 2 * n) ∧
  (0 < n → Forall (λ c, c.1 <= resetAt l) calls → allowed key calls l <= n) ∧
  (0 < n → Forall (λ c, zeroTime < c.1) history → ∀ now, StronglySorted Z.le (history.*1 ++ [now]) →
     (Allow now key l).1 = false →
     ∃ pre recent, history = pre ++ recent ∧ Forall (λ c, now - second <= c.1 <= now) recent ∧
       allowed key recent (after pre (New_limiter n)) = n) ∧
  (n <= 0 → ∀ now, (Allow now key l).1 = true).
Proof.
  intros Hc l. destruct (after_used history (New_limiter n) key) as [Hu Hm].
  { unfold used, New_limiter. simpl. by rewrite lookup_empty. }
  fold l in Hu, Hm. simpl in Hm. split; [|split; [|split]].
  - intros Hn. rewrite <-Hm. apply (allowed_span key calls l a); [lia|done|done].
  - intros Hn Hw. pose proof (allowed_window key calls l ltac:(lia) Hu Hw). lia.
  - intros Hn Hz now Hs Hf. by apply refused_recent.
  - intros Hn now. unfold Allow. by destruct (Z.leb_spec (limit l) 0); [|lia].
Qed.

Lemma rate_limit_bound_witness :
  let calls := [(10, "c"%string); (11, "c"%string); (12, "d"%string); (13, "c"%string)] in
  (allowed "c" calls (New_limiter 2) = 2 ∧ allowed "c" calls (New_limiter 2) <= 2 * 2) ∧
  ∃ pre recent, calls = pre ++ recent ∧ Forall (λ c, 14 - second <= c.1 <= 14) recent ∧
    allowed "c" recent (after pre (New_limiter 2)) = 2.
Proof.
  intros calls.
  assert (H10 : Forall (λ c, 10 <= c.1 <= 10 + second) calls)
    by (repeat apply List.Forall_cons; try apply List.Forall_nil; vm_compute; split; discriminate).
  split; [split; [vm_compute; reflexivity|by apply (rate_limit_bound 2 [] calls "c" 10)]|].
  apply (rate_limit_bound 2 calls calls "c" 10 H10); [lia| | |vm_compute; reflexivity].
  - repeat apply List.Forall_cons; try apply List.Forall_nil; vm_compute; reflexivity.
  - vm_compute. repeat constructor; discriminate.
Defined.
