(* ===== verification/Membership.v ===== *)
(** The seed tier's self-healing, [src/internal/membership/syncer.go]: the snapshot a
    joining seed pulls before it reports ready, and the periodic anti-entropy pull.

    [resps] are the peers' answers to the empty query, one per peer ([None]: the peer
    did not answer), as the seed client of the peers collects them. *)

From Stdlib Require Import ZArith Lia.
From stdpp Require Import base gmap list strings.
From S2P Require Import Prelude GoStrings Model Health Store StoreSteps StoreInv StoreSpec StoreLookup.
From S2P Require Import StoreOps StoreMerge Watch Protoconv Cred Server SeedClient.

#[local] Open Scope Z_scope.

(** ** Data and operations *)

(** The seed, its readiness, and the convergence-lag gauge. *)
Record Syncer := mkSyncer { sy_seed : Seed; sy_ready : bool; sy_lag : Z }.

Definition Syncer_New (s : Seed) : Syncer := mkSyncer s false 0.

(** The store's [Merge], its events passed on to the watcher. *)
Definition seed_merge `{MapRange} (clk : Clock) (entries : list ServiceEntry) (s : Seed) : Z * Seed :=
  let '(applied, m, evs) := Merge clk entries (sd_store s) in
  let '(w, c) := Notify evs (sd_watcher s) (sd_chans s) in
  (applied, mkSeed m w c).

Definition syncOnce `{MapRange} (clk : Clock) (resps : list (option PbLookupResponse)) (s : Syncer) : Syncer :=
  match SeedClient_Lookup resps with
  | None => mkSyncer (sy_seed s) (sy_ready s) 0
  | Some res =>
      let '(applied, seed) := seed_merge clk (Lookup_Entries res) (sy_seed s) in
      mkSyncer seed (sy_ready s) applied
  end.

Definition markReady (s : Syncer) : Syncer := mkSyncer (sy_seed s) true (sy_lag s).

(** What [Start] does, in order: the join snapshot, the mark, then one pull per tick;
    each pull with the clock and the answers it meets. *)
Inductive SyncAct := Pull (clk : Clock) (resps : list (option PbLookupResponse)) | Mark.

Definition sync_act `{MapRange} (a : SyncAct) (s : Syncer) : Syncer :=
  match a with Pull clk resps => syncOnce clk resps s | Mark => markReady s end.

Definition Start_acts (join : Clock * list (option PbLookupResponse))
    (ticks : list (Clock * list (option PbLookupResponse))) : list SyncAct :=
  Pull join.1 join.2 :: Mark :: ((λ t, Pull t.1 t.2) <$> ticks).

(** The states a run of acts goes through, the first and the last included. *)
Fixpoint sync_states `{MapRange} (acts : list SyncAct) (s : Syncer) : list Syncer :=
  s :: match acts with [] => [] | a :: acts => sync_states acts (sync_act a s) end.

Definition Syncer_Start `{MapRange} (join : Clock * list (option PbLookupResponse))
    (ticks : list (Clock * list (option PbLookupResponse))) (s : Syncer) : list Syncer :=
  sync_states (Start_acts join ticks) s.

Inductive MemberStatus := MemberAlive | MemberFailed.

(** [Members]: the first [reachable] peers of the list count as alive. *)
Definition Members (self : string) (peers : list string) (reachable : Z) : list (string * MemberStatus) :=
  (self, MemberAlive) ::
  imap (λ i addr, (addr, if Z.of_nat i <? reachable then MemberAlive else MemberFailed)) peers.

(** A peer's answer to the pull. *)
Definition peer_answer `{MapRange} (clk : Clock) (m : Memory) : PbLookupResponse :=
  Service_Lookup clk (Some (QueryToProto zeroQuery)) m.

(** ** Lemmas *)

Lemma seed_merge_store `{MapRange} clk entries s :
  sd_store (seed_merge clk entries s).2 = (Merge clk entries (sd_store s)).1.2 ∧
  (seed_merge clk entries s).1 = (Merge clk entries (sd_store s)).1.1.
Proof. unfold seed_merge. destruct (Merge _ _ _) as [[k m] evs]. by destruct (Notify _ _ _). Qed.

Lemma syncOnce_ready `{MapRange} clk resps s : sy_ready (syncOnce clk resps s) = sy_ready s.
Proof. unfold syncOnce. destruct (SeedClient_Lookup resps); [|done]. by destruct (seed_merge _ _ _). Qed.

Lemma syncOnce_store `{MapRange} clk resps s :
  sd_store (sy_seed (syncOnce clk resps s)) =
    match SeedClient_Lookup resps with
    | None => sd_store (sy_seed s)
    | Some res => (Merge clk (Lookup_Entries res) (sd_store (sy_seed s))).1.2
    end.
Proof.
  unfold syncOnce. destruct (SeedClient_Lookup resps) as [res|]; [|done].
  pose proof (seed_merge_store clk (Lookup_Entries res) (sy_seed s)) as [Hs _].
  by destruct (seed_merge _ _ _).
Qed.

(** An offered entry is stored at its generation or a later one. *)
Lemma Merge_stores `{MapRange} clk entries m e :
  MaxServices (opts m) <= 0 → e ∈ entries → mergeable e →
  ∃ s, lookup_service (Merge clk entries m).1.2 (entry_key e).1 (entry_key e).2 = Some s ∧
    Svc_Generation (Entry_Service e) <= Svc_Generation (def s).
Proof.
  intros Hun He Hm. unfold Merge. destruct (merge_loop _ _ _ _ _ _) as [[k m'] evs] eqn:HM.
  apply merge_loop_join in HM as [_ Hj]; [|done]. specialize (Hj (entry_key e).1 (entry_key e).2).
  assert (Hin : offered m e ∈ offers m (entry_key e) entries).
  { apply list_elem_of_fmap_2. apply list_elem_of_filter. done. }
  rewrite <-surjective_pairing in Hj. simpl.
  destruct (lookup_service m' _ _) as [s|].
  - simpl in Hj. symmetry in Hj. apply join_ge in Hj as [Hge _]. specialize (Hge _ Hin).
    apply WinsLWW_false in Hge. unfold lww_lt, lww_key in Hge; simpl in Hge. exists s. split; [done|].
    assert (Hg : Svc_Generation (offered m e) = Svc_Generation (Entry_Service e)) by done. lia.
  - simpl in Hj. destruct (offers m (entry_key e) entries) as [|d ds]; [by apply elem_of_nil in Hin|].
    symmetry in Hj. by apply join_cons_Some in Hj.
Qed.

Lemma Merge_uncapped `{MapRange} clk entries m :
  MaxServices (opts m) <= 0 → opts (Merge clk entries m).1.2 = opts m.
Proof.
  intros Hun. unfold Merge. destruct (merge_loop _ _ _ _ _ _) as [[k m'] evs] eqn:HM.
  by apply merge_loop_join in HM as [Ho _].
Qed.

(** What a peer answers about a live instance. *)
Lemma peer_answer_covers `{MapRange} clk m nid id svc :
  wf m → lookup_service m nid id = Some svc → (lease m svc (clk O)).2 = false →
  ∃ e, e ∈ Lookup_Entries (LookupResultFromProto (Some (peer_answer clk m))) ∧ entry_key e = (nid, id) ∧
    Svc_Generation (Entry_Service e) = Svc_Generation (def svc) ∧ nid ≠ ""%string ∧ id ≠ ""%string.
Proof.
  intros Hwf Hs Hlive. pose proof (lookup_service_is_Some _ _ _ _ Hs) as (n & Hn & Hsn).
  destruct (wf_svc _ Hwf _ _ _ Hs) as (Hid & Hne & _). destruct (wf_node _ Hwf _ _ Hn) as (Hnid & Hnne).
  set (x := entry (meta n) svc (lease m svc (clk O)).1).
  assert (Hx : x ∈ Lookup_Entries (Lookup clk zeroQuery m)).
  { apply elem_of_Lookup; [done|]. exists nid, n, id, svc. split_and!; [done..| |done].
    split; [by left|by left|set_solver|done]. }
  exists (EntryFromProto (Some (EntryToProto x))). split_and!; [| |done|done|done].
  - unfold peer_answer, Service_Lookup. simpl. apply list_elem_of_fmap. exists (Some (EntryToProto x)).
    split; [done|]. apply list_elem_of_fmap. by exists x.
  - rewrite wire_key. unfold x, entry_key. simpl. by rewrite Hid, Hnid.
Qed.

(** A pull stores what an answering peer holds. *)
Lemma syncOnce_covers `{MapRange} clk resps s clkp m nid id svc :
  MaxServices (opts (sd_store (sy_seed s))) <= 0 →
  Some (peer_answer clkp m) ∈ resps → wf m →
  lookup_service m nid id = Some svc → (lease m svc (clkp O)).2 = false →
  ∃ s', lookup_service (sd_store (sy_seed (syncOnce clk resps s))) nid id = Some s' ∧
    Svc_Generation (def svc) <= Svc_Generation (def s').
Proof.
  intros Hun Hin Hwf Hs Hlive.
  destruct (peer_answer_covers clkp m nid id svc Hwf Hs Hlive) as (e & He & Hk & Hg & Hn1 & Hn2).
  destruct (SeedClient_Lookup_covers resps _ e Hin He) as (lr & e' & Hlr & He' & Hk' & Hg').
  rewrite syncOnce_store, Hlr.
  destruct (Merge_stores clk (Lookup_Entries lr) (sd_store (sy_seed s)) e' Hun He') as (s' & Hs' & Hg'').
  { unfold mergeable. rewrite Hk', Hk. done. }
  rewrite Hk', Hk in Hs'. exists s'. split; [done|]. lia.
Qed.

(** Later pulls never lose it, and never take the readiness back. *)
Lemma syncs_keep `{MapRange} ticks s nid id x g s' :
  lookup_service (sd_store (sy_seed s)) nid id = Some x → g <= Svc_Generation (def x) →
  s' ∈ sync_states ((λ t, Pull t.1 t.2) <$> ticks) s →
  sy_ready s' = sy_ready s ∧
  ∃ y, lookup_service (sd_store (sy_seed s')) nid id = Some y ∧ g <= Svc_Generation (def y).
Proof.
  revert s x. induction ticks as [|[clk resps] ticks IH]; intros s x Hx Hg; cbn [fmap list_fmap sync_states sync_act fst snd].
  { intros ->%list_elem_of_singleton. eauto. }
  intros [->|Hin]%elem_of_cons; [by eauto|].
  assert (Hy : ∃ y, lookup_service (sd_store (sy_seed (syncOnce clk resps s))) nid id = Some y ∧ g <= Svc_Generation (def y)).
  { rewrite syncOnce_store. destruct (SeedClient_Lookup resps) as [res|]; [|eauto].
    destruct (merge_loop_keeps clk (Lookup_Entries res) (sd_store (sy_seed s)) (sizeLocked (sd_store (sy_seed s))) 0 [] nid id x Hx)
      as (y & Hy & Hr). exists y. split; [done|].
    destruct Hr as [[->|Hr] _]; [done|]. unfold lww_lt, lww_key in Hr; simpl in Hr. lia. }
  destruct Hy as (y & Hy & Hgy). rewrite <-(syncOnce_ready clk resps s). by apply (IH _ y).
Qed.

(** ** Claims *)

(** C19: a joining seed catches up before it reports ready and never falls back: of the
    states its start goes through, the first two (before the join snapshot, and before
    the mark that follows it) are not ready and all the others are; and in every
    state in which it is ready its registry, when it has no cap, holds every live
    instance of every peer that answered the join snapshot, at that peer's generation or
    a later one, whatever the later pulls bring. *)
Theorem join_snapshot_complete `{MapRange} (clk clkp : Clock) (resps : list (option PbLookupResponse))
    (ticks : list (Clock * list (option PbLookupResponse))) (seed : Seed) (peer : Memory)
    (nid id : string) (svc : service) :
  MaxServices (opts (sd_store seed)) <= 0 →
  Some (peer_answer clkp peer) ∈ resps → wf peer →
  lookup_service peer nid id = Some svc → (lease peer svc (clkp O)).2 = false →
  let states := Syncer_Start (clk, resps) ticks (Syncer_New seed) in
  (∀ k s, states !! k = Some s → sy_ready s = true ↔ (2 <= k)%nat) ∧
  ∀ s, s ∈ states → sy_ready s = true →
    ∃ s', lookup_service (sd_store (sy_seed s)) nid id = Some s' ∧ Svc_Generation (def svc) <= Svc_Generation (def s').
Proof.
  intros Hun Hin Hwf Hs Hlive states.
  destruct (syncOnce_covers clk resps (Syncer_New seed) clkp peer nid id svc) as (x & Hx & Hg); [done..|].
  assert (Hlater : ∀ s, s ∈ sync_states ((λ t, Pull t.1 t.2) <$> ticks) (markReady (syncOnce clk resps (Syncer_New seed))) →
            sy_ready s = true ∧ ∃ s', lookup_service (sd_store (sy_seed s)) nid id = Some s' ∧
              Svc_Generation (def svc) <= Svc_Generation (def s')).
  { intros s. by apply (syncs_keep ticks (markReady (syncOnce clk resps (Syncer_New seed))) nid id x). }
  unfold states, Syncer_Start. cbn [Start_acts sync_states sync_act fst snd]. split.
  - intros [|[|k]] s; simpl; [intros [= <-]|intros [= <-]; rewrite syncOnce_ready|];
      [simpl; split; [done|lia]|simpl; split; [done|lia]|].
    intros Hk%list_elem_of_lookup_2%Hlater. split; [intros _; lia|intros _; by destruct Hk].
  - intros s [->|[->|Hk]%elem_of_cons]%elem_of_cons; [done|by rewrite syncOnce_ready|]. intros _. by apply Hlater.
Qed.

Definition samplePeerStore : Memory :=
  (@apply list_order (frozen 5) (OpRegister sampleReg) (NewMemory uncappedOptions)).1.

Lemma join_snapshot_complete_witness :
  let states := @Syncer_Start list_order (frozen 6, [None; Some (@peer_answer list_order (frozen 5) samplePeerStore)]) []
             (Syncer_New (NewSeed uncappedOptions)) in
  sy_ready <$> states = [false; false; true] ∧
  ∀ s, s ∈ states → sy_ready s = true → ∃ s', lookup_service (sd_store (sy_seed s)) "n1" "web" = Some s'.
Proof.
  intros states. split; [vm_compute; reflexivity|].
  assert (Hwf : wf samplePeerStore).
  { apply (wf_reachable uncappedOptions _
      ([] ++ (@apply list_order (frozen 5) (OpRegister sampleReg) (NewMemory uncappedOptions)).2)).
    eapply reach_step; [constructor|constructor]. }
  destruct (lookup_service samplePeerStore "n1" "web") as [svc|] eqn:E; [|vm_compute in E; discriminate].
  destruct (@join_snapshot_complete list_order (frozen 6) (frozen 5)
    [None; Some (@peer_answer list_order (frozen 5) samplePeerStore)] [] (NewSeed uncappedOptions) samplePeerStore "n1" "web" svc)
    as [_ Hc].
  - vm_compute. discriminate.
  - right. constructor.
  - exact Hwf.
  - exact E.
  - vm_compute in E. injection E as <-. vm_compute. reflexivity.
  - intros s Hs Hr. destruct (Hc s Hs Hr) as (s' & H2 & _). exists s'. exact H2.
Defined.

(** A seed reports ready with an empty registry when no peer answers its join
    snapshot: the pull's failure is only logged, so the window in which clients read
    an empty registry, which the gate is there to close, remains. *)
Theorem ready_without_snapshot `{MapRange} (clk : Clock) (o : Options) (peers : nat) :
  ∃ s, last (Syncer_Start (clk, replicate peers None) [] (Syncer_New (NewSeed o))) = Some s ∧
  sy_ready s = true ∧ sd_store (sy_seed s) = NewMemory o ∧
  ∀ q, Lookup_Entries (Lookup clk q (sd_store (sy_seed s))) = [].
Proof.
  eexists. split; [reflexivity|]. set (s := sync_act Mark _).
  assert (Hr : SeedClient_Lookup (replicate peers None) = None).
  { unfold SeedClient_Lookup. assert (Ha : ∀ acc, foldl Lookup_one acc (replicate peers None) = acc)
      by (induction peers; done). unfold Lookup_acc. by rewrite Ha. }
  assert (Hs : sd_store (sy_seed s) = NewMemory o).
  { unfold s. cbn [sync_act fst snd markReady sy_seed]. by rewrite syncOnce_store, Hr. }
  split; [|split; [done|]].
  - done.
  - intros q. rewrite Hs. destruct (Lookup_Entries _) as [|e l] eqn:E; [done|].
    assert (He : e ∈ Lookup_Entries (Lookup clk q (NewMemory o))) by (rewrite E; constructor).
    apply elem_of_Lookup in He as (nid & n & _ & _ & Hn & _); [|exact (wf_reachable o _ [] (reach_new o))].
    simpl in Hn. by rewrite lookup_empty in Hn.
Qed.
