(* ===== verification/GoCrypto.v ===== *)
(** The parts of Go's [encoding/binary], [encoding/base64], [crypto/sha256] and
    [crypto/hmac] that the bootstrap tokens use, on byte strings: big-endian integers,
    the unpadded URL alphabet of base64 (with the decoder's tolerance for line breaks
    and for nonzero trailing bits), SHA-256 and HMAC. *)

From Stdlib Require Import ZArith Lia Ascii.
From stdpp Require Import base list strings.
From S2P Require Import Prelude GoStrings.

#[local] Open Scope Z_scope.

(** ** Big-endian integers *)

Definition byte (n : Z) : ascii := ascii_of_N (Z.to_N (n mod 256)).

Definition byte_val (c : ascii) : Z := Z.of_N (N_of_ascii c).

(** [binary.BigEndian.PutUint64] and [Uint64], on [k] bytes. *)
Fixpoint put_be (k : nat) (n : Z) : string :=
  match k with
  | O => EmptyString
  | S k => String (byte (n / 256 ^ Z.of_nat k)) (put_be k n)
  end.

Fixpoint get_be (acc : Z) (s : string) : Z :=
  match s with
  | EmptyString => acc
  | String c s => get_be (acc * 256 + byte_val c) s
  end.

(** ** Base64, [base64.RawURLEncoding] *)

Definition b64_char (n : Z) : ascii :=
  if n <? 26 then byte (65 + n) else if n <? 52 then byte (71 + n)
  else if n <? 62 then byte (n - 4) else if n =? 62 then byte 45 else byte 95.

Definition b64_val (c : ascii) : option Z :=
  let n := byte_val c in
  if (65 <=? n) && (n <=? 90) then Some (n - 65)
  else if (97 <=? n) && (n <=? 122) then Some (n - 71)
  else if (48 <=? n) && (n <=? 57) then Some (n + 4)
  else if n =? 45 then Some 62 else if n =? 95 then Some 63 else None.

(** The sextets of a byte string, and the bytes of a sequence of sextets. *)
Fixpoint sextets (s : string) : list Z :=
  match s with
  | EmptyString => []
  | String a EmptyString => let a := byte_val a in [a / 4; a mod 4 * 16]
  | String a (String b EmptyString) =>
      let a := byte_val a in let b := byte_val b in [a / 4; a mod 4 * 16 + b / 16; b mod 16 * 4]
  | String a (String b (String c rest)) =>
      let a := byte_val a in let b := byte_val b in let c := byte_val c in
      a / 4 :: (a mod 4 * 16 + b / 16) :: (b mod 16 * 4 + c / 64) :: c mod 64 :: sextets rest
  end.

Fixpoint of_sextets (l : list Z) : option string :=
  match l with
  | [] => Some EmptyString
  | [_] => None
  | [a; b] => Some (String (byte (a * 4 + b / 16)) EmptyString)
  | [a; b; c] => Some (String (byte (a * 4 + b / 16)) (String (byte (b mod 16 * 16 + c / 4)) EmptyString))
  | a :: b :: c :: d :: rest =>
      tl ← of_sextets rest;
      Some (String (byte (a * 4 + b / 16)) (String (byte (b mod 16 * 16 + c / 4)) (String (byte (c mod 4 * 64 + d)) tl)))
  end.

Fixpoint of_chars (l : list Z) : string :=
  match l with [] => EmptyString | n :: l => String (b64_char n) (of_chars l) end.

(** Line breaks are skipped, any other byte outside the alphabet is an error. *)
Fixpoint b64_vals (s : string) : option (list Z) :=
  match s with
  | EmptyString => Some []
  | String c s =>
      if (byte_val c =? 10) || (byte_val c =? 13) then b64_vals s
      else n ← b64_val c; l ← b64_vals s; Some (n :: l)
  end.

Definition b64_encode (s : string) : string := of_chars (sextets s).

Definition b64_decode (s : string) : option string := l ← b64_vals s; of_sextets l.

(** ** SHA-256 and HMAC *)

Definition u32 (z : Z) : Z := z mod 2 ^ 32.

Definition rotr (n x : Z) : Z := Z.lor (Z.shiftr x n) (u32 (Z.shiftl x (32 - n))).

Record digest := mkDigest { dA : Z; dB : Z; dC : Z; dD : Z; dE : Z; dF : Z; dG : Z; dH : Z }.

(** The constants of the standard: the first 32 bits of the fractional parts of the
    square roots of the first 8 primes and of the cube roots of the first 64. *)
Definition primes : list Z :=
  filter (λ n, forallb (λ d, negb (n mod d =? 0)) (seqZ 2 (n - 2)) = true) (seqZ 2 310).

Definition cube_root (n : Z) : Z :=
  foldr (λ k r, let r' := r + 2 ^ k in if r' * r' * r' <=? n then r' else r) 0 (seqZ 0 36).

Definition sha_init : digest := Eval vm_compute in
  let h i := u32 (Z.sqrt (nth i primes 0 * 2 ^ 64)) in
  mkDigest (h 0%nat) (h 1%nat) (h 2%nat) (h 3%nat) (h 4%nat) (h 5%nat) (h 6%nat) (h 7%nat).

Definition sha_K : list Z := Eval vm_compute in (λ p, u32 (cube_root (p * 2 ^ 96))) <$> primes.

Definition sha_round (k w : Z) (s : digest) : digest :=
  let s1 := Z.lxor (Z.lxor (rotr 6 (dE s)) (rotr 11 (dE s))) (rotr 25 (dE s)) in
  let ch := Z.lxor (Z.land (dE s) (dF s)) (Z.land (2 ^ 32 - 1 - dE s) (dG s)) in
  let t1 := dH s + s1 + ch + k + w in
  let s0 := Z.lxor (Z.lxor (rotr 2 (dA s)) (rotr 13 (dA s))) (rotr 22 (dA s)) in
  let maj := Z.lxor (Z.lxor (Z.land (dA s) (dB s)) (Z.land (dA s) (dC s))) (Z.land (dB s) (dC s)) in
  mkDigest (u32 (t1 + s0 + maj)) (dA s) (dB s) (dC s) (u32 (dD s + t1)) (dE s) (dF s) (dG s).

(** The next word of the message schedule, from the window of the last 16. *)
Definition sha_next (w : list Z) : Z :=
  let at_ i := nth i w 0 in
  let s0 x := Z.lxor (Z.lxor (rotr 7 x) (rotr 18 x)) (Z.shiftr x 3) in
  let s1 x := Z.lxor (Z.lxor (rotr 17 x) (rotr 19 x)) (Z.shiftr x 10) in
  u32 (at_ 0%nat + s0 (at_ 1%nat) + at_ 9%nat + s1 (at_ 14%nat)).

Fixpoint sha_rounds (ks w : list Z) (s : digest) : digest :=
  match ks with
  | [] => s
  | k :: ks => sha_rounds ks (tail w ++ [sha_next w]) (sha_round k (nth 0 w 0) s)
  end.

Definition sha_block (w : list Z) (s : digest) : digest :=
  let r := sha_rounds sha_K w s in
  mkDigest (u32 (dA s + dA r)) (u32 (dB s + dB r)) (u32 (dC s + dC r)) (u32 (dD s + dD r))
    (u32 (dE s + dE r)) (u32 (dF s + dF r)) (u32 (dG s + dG r)) (u32 (dH s + dH r)).

Fixpoint repeat_byte (n : nat) (c : Z) : string :=
  match n with O => EmptyString | S n => String (byte c) (repeat_byte n c) end.

Definition sha_pad (s : string) : string :=
  let n := Z.of_nat (String.length s) in
  s +:+ String (byte 128) (repeat_byte (Z.to_nat ((55 - n) mod 64)) 0) +:+ put_be 8 (u64 (8 * n)).

(** The big-endian words of a byte string. *)
Fixpoint words (s : string) : list Z :=
  match s with
  | String a (String b (String c (String d rest))) =>
      get_be 0 (String a (String b (String c (String d EmptyString)))) :: words rest
  | _ => []
  end.

(** The words in blocks of 16. *)
Fixpoint sha_blocks (n : nat) (ws : list Z) (s : digest) : digest :=
  match n with
  | O => s
  | S n => sha_blocks n (drop 16 ws) (sha_block (take 16 ws) s)
  end.

Definition sha256 (s : string) : string :=
  let ws := words (sha_pad s) in
  let d := sha_blocks (Nat.div (length ws) 16) ws sha_init in
  put_be 4 (dA d) +:+ put_be 4 (dB d) +:+ put_be 4 (dC d) +:+ put_be 4 (dD d) +:+
  put_be 4 (dE d) +:+ put_be 4 (dF d) +:+ put_be 4 (dG d) +:+ put_be 4 (dH d).

Fixpoint xor_bytes (c : Z) (s : string) : string :=
  match s with EmptyString => EmptyString | String a s => String (byte (Z.lxor c (byte_val a))) (xor_bytes c s) end.

(** [hmac.New(sha256.New, key)], [Write(msg)], [Sum(nil)]. *)
Definition hmac_sha256 (key msg : string) : string :=
  let key := if (64 <? String.length key)%nat then sha256 key else key in
  let key := key +:+ repeat_byte (64 - String.length key) 0 in
  sha256 (xor_bytes 0x5c key +:+ sha256 (xor_bytes 0x36 key +:+ msg)).

(** ** Lemmas *)

Lemma byte_val_range c : 0 <= byte_val c < 256.
Proof. unfold byte_val. pose proof (N_ascii_bounded c). lia. Qed.

Lemma byte_val_byte n : byte_val (byte n) = n mod 256.
Proof.
  unfold byte_val, byte. pose proof (Z.mod_pos_bound n 256 ltac:(lia)).
  rewrite N_ascii_embedding by lia. lia.
Qed.

Lemma byte_byte_val c n : n = byte_val c → byte n = c.
Proof.
  intros ->. unfold byte. rewrite Z.mod_small by apply byte_val_range. unfold byte_val.
  rewrite N2Z.id. apply ascii_N_embedding.
Qed.

Lemma put_be_length k n : String.length (put_be k n) = k.
Proof. induction k; simpl; by f_equal. Qed.

Lemma get_be_app acc a b : get_be acc (a +:+ b) = get_be (get_be acc a) b.
Proof. revert acc. induction a as [|c a IH]; intros acc; str_simpl; [done|apply IH]. Qed.

Lemma get_put_be k acc n : get_be acc (put_be k n) = acc * 256 ^ Z.of_nat k + n mod 256 ^ Z.of_nat k.
Proof.
  revert acc. induction k as [|k IH]; intros acc; [simpl; rewrite Z.mod_1_r; lia|].
  cbn [put_be get_be]. rewrite IH, byte_val_byte, Nat2Z.inj_succ, Z.pow_succ_r by lia.
  set (p := 256 ^ Z.of_nat k). assert (Hp : 0 < p) by (apply Z.pow_pos_nonneg; lia).
  rewrite (Z.mul_comm 256 p), Z.rem_mul_r by lia. ring.
Qed.

Lemma check64 (p : Z → bool) : forallb p (seqZ 0 64) = true → ∀ n, 0 <= n < 64 → p n = true.
Proof. intros H n Hn. rewrite forallb_forall in H. apply H, list_elem_of_In, elem_of_seqZ. lia. Qed.

Lemma b64_val_char n : 0 <= n < 64 → b64_val (b64_char n) = Some n.
Proof.
  intros Hn. eapply bool_decide_eq_true_1. revert n Hn.
  apply (check64 (λ n, bool_decide (b64_val (b64_char n) = Some n))). vm_compute. reflexivity.
Qed.

Lemma b64_char_plain n : 0 <= n < 64 → is_space (b64_char n) = false ∧
  (byte_val (b64_char n) =? 10) || (byte_val (b64_char n) =? 13) = false.
Proof.
  intros Hn. rewrite <-!negb_true_iff, <-andb_true_iff. revert n Hn.
  apply (check64 (λ n, negb (is_space (b64_char n)) &&
    negb ((byte_val (b64_char n) =? 10) || (byte_val (b64_char n) =? 13)))). vm_compute. reflexivity.
Qed.

(** Induction three bytes at a time. *)
Lemma string_ind3 (P : string → Prop) :
  P EmptyString → (∀ a, P (String a EmptyString)) → (∀ a b, P (String a (String b EmptyString))) →
  (∀ a b c s, P s → P (String a (String b (String c s)))) → ∀ s, P s.
Proof.
  intros H0 H1 H2 H3. fix IH 1. intros [|a [|b [|c s]]]; [exact H0|apply H1|apply H2|apply H3, IH].
Qed.

Ltac bytes3 a b c :=
  pose proof (byte_val_range a); pose proof (byte_val_range b); pose proof (byte_val_range c).

Lemma sextets_range s : Forall (λ n, 0 <= n < 64) (sextets s).
Proof.
  induction s as [|a|a b|a b c s IH] using string_ind3; simpl; [constructor| | |].
  - bytes3 a a a. repeat constructor; Z.div_mod_to_equations; lia.
  - bytes3 a b b. repeat constructor; Z.div_mod_to_equations; lia.
  - bytes3 a b c. repeat (constructor; [Z.div_mod_to_equations; lia|]). exact IH.
Qed.

Lemma of_sextets_sextets s : of_sextets (sextets s) = Some s.
Proof.
  induction s as [|a|a b|a b c s IH] using string_ind3; cbn [sextets of_sextets]; [done| | |].
  - bytes3 a a a. do 2 f_equal. apply byte_byte_val. Z.div_mod_to_equations; lia.
  - bytes3 a b b. do 2 f_equal; [|f_equal]; apply byte_byte_val; Z.div_mod_to_equations; lia.
  - bytes3 a b c. rewrite IH. simpl. do 2 f_equal; [|f_equal; [|f_equal]];
      apply byte_byte_val; Z.div_mod_to_equations; lia.
Qed.

Lemma b64_vals_chars l : Forall (λ n, 0 <= n < 64) l → b64_vals (of_chars l) = Some l.
Proof.
  induction 1 as [|n l Hn _ IH]; [done|]. simpl. destruct (b64_char_plain n Hn) as [_ ->].
  by rewrite b64_val_char, IH.
Qed.

Lemma b64_round_trip s : b64_decode (b64_encode s) = Some s.
Proof. unfold b64_decode, b64_encode. rewrite b64_vals_chars by apply sextets_range. apply of_sextets_sextets. Qed.

Lemma no_space_TrimSpace s : no_space s = true → TrimSpace s = s.
Proof.
  intros Hs. unfold TrimSpace.
  assert (trim_left s = s) as ->.
  { destruct s as [|c s]; [done|]. simpl in *. apply andb_true_iff in Hs as [Hc _]. by destruct (is_space c). }
  induction s as [|c s IH]; [done|]. simpl in *. apply andb_true_iff in Hs as [Hc Hs]. rewrite IH by done.
  destruct (is_space c); [done|]. by destruct s.
Qed.

Lemma b64_no_space s : TrimSpace (b64_encode s) = b64_encode s.
Proof.
  apply no_space_TrimSpace. unfold b64_encode. induction (sextets_range s) as [|n l Hn _ IH]; [done|].
  simpl. destruct (b64_char_plain n Hn) as [-> _]. exact IH.
Qed.

Lemma sha256_length s : String.length (sha256 s) = 32%nat.
Proof. unfold sha256. by rewrite !str_length_app, !put_be_length. Qed.

Lemma hmac_length key msg : String.length (hmac_sha256 key msg) = 32%nat.
Proof. apply sha256_length. Qed.

(** Published test vectors: SHA-256 of "abc" (FIPS 180-4), HMAC case 2 (RFC 4231). *)
Example sha256_abc : get_be 0 (sha256 "abc") = 0xba7816bf8f01cfea414140de5dae2223b00361a396177a9cb410ff61f20015ad.
Proof. vm_compute. reflexivity. Qed.

Example hmac_rfc4231_2 :
  get_be 0 (hmac_sha256 "Jefe" "what do ya want for nothing?") =
  0x5bdcc146bf60754e6a042426089575c75a003f089d2739839dec58b964ec3843.
Proof. vm_compute. reflexivity. Qed.

Example b64_sample : b64_encode "light work?" = "bGlnaHQgd29yaz8"%string ∧ b64_decode "bGlnaHQgd29yaz8"%string = Some "light work?"%string.
Proof. vm_compute. split; reflexivity. Qed.
