(* ===== verification/Config.v ===== *)
(** The node configuration, [src/internal/config/config.go]: the configuration tree,
    its defaults and its validation.  YAML decoding is not modelled: [Parse] starts
    from the decoded tree ([None]: it does not decode).  The plugin options of
    discovery are opaque to the program and left out. *)

From Stdlib Require Import ZArith Lia Ascii.
From stdpp Require Import base gmap list strings.
From S2P Require Import Prelude GoStrings GoText.

#[local] Open Scope Z_scope.

(** ** Data *)

Record Listener := mkListener { l_Enabled : bool; l_Address : string; l_Port : Z }.

Record Listeners := mkListeners {
  ls_GRPC : Listener; ls_ConsulHTTP : Listener; ls_DNS : Listener; ls_Metrics : Listener
}.

Record Discovery := mkDiscovery { d_Name : string; d_UpdateInterval : Z }.

Record Cluster := mkCluster { cl_Name : string; cl_Seeds : list string; cl_Discovery : option Discovery }.

Record TLS := mkTLS {
  tls_Enabled : bool; tls_CertFile : string; tls_KeyFile : string; tls_CAFile : string; tls_MutualTLS : bool
}.

Record ACL := mkACL { acl_Mode : string; acl_DefaultPolicy : string; acl_TokensFile : string }.

Record Agent := mkAgent {
  ag_SeedTimeout : Z; ag_WriteQuorum : Z; ag_ReadyMinSeeds : Z; ag_DrainWindow : Z; ag_CacheMaxAge : Z
}.

Record DNSConfig := mkDNSConfig {
  dns_Domain : string; dns_AltDomain : string; dns_ServiceTTL : Z; dns_NodeTTL : Z; dns_OnlyPassing : bool;
  dns_ARecordLimit : Z; dns_EnableTruncate : bool; dns_Recursors : list string; dns_RateLimit : Z
}.

Record Federation := mkFederation {
  fed_Enabled : bool; fed_MaxHops : Z; fed_Datacenters : gmap string (list string)
}.

Record MembershipConfig := mkMembershipConfig { mem_Enabled : bool; mem_Peers : list string; mem_SyncInterval : Z }.

Record BootstrapConfig := mkBootstrapConfig {
  bs_Enabled : bool; bs_SigningKey : string; bs_SigningKeyFile : string; bs_TokenTTL : Z;
  bs_AllowSeedJoin : bool; bs_AdvertiseSeeds : list string; bs_RateLimit : Z
}.

Record Config := mkConfig {
  c_Role : string; c_NodeName : string; c_Datacenter : string; c_DataDir : string; c_ConfigDir : string;
  c_EnableScriptChecks : bool; c_Cluster : Cluster; c_Listeners : Listeners; c_MaxServices : Z;
  c_ConsulRateLimit : Z; c_TTL : Z; c_HeartbeatInterval : Z; c_ShutdownTimeout : Z;
  c_TLS : TLS; c_ACL : ACL; c_Agent : Agent; c_DNS : DNSConfig; c_Federation : Federation;
  c_Membership : MembershipConfig; c_Bootstrap : BootstrapConfig
}.

Definition RoleAgent : string := "agent".

Definition RoleSeed : string := "seed".

Definition defaultBind : string := "127.0.0.1".

(** ** Defaults *)

(** [if x == 0 { x = d }] and [if s == "" { s = d }]. *)
Definition or_int (x d : Z) : Z := if x =? 0 then d else x.

Definition or_str (s d : string) : string := if bool_decide (s = ""%string) then d else s.

Definition defaultListener (l : Listener) (port : Z) : Listener :=
  mkListener (l_Enabled l) (or_str (l_Address l) defaultBind) (or_int (l_Port l) port).

(** The trailing dot of a zone. *)
Definition dotted (s : string) : string := if HasSuffix s "." then s else s +:+ ".".

Definition applyDefaults (c : Config) : Config :=
  let ls := c_Listeners c in
  let grpc := mkListener true (l_Address (ls_GRPC ls)) (l_Port (ls_GRPC ls)) in
  let cl := c_Cluster c in
  let ag := c_Agent c in
  let dns := c_DNS c in
  let bs := c_Bootstrap c in
  mkConfig (or_str (c_Role c) RoleAgent) (c_NodeName c) (or_str (c_Datacenter c) "dc1") (c_DataDir c) (c_ConfigDir c)
    (c_EnableScriptChecks c)
    (mkCluster (cl_Name cl) (cl_Seeds cl)
       ((λ d, mkDiscovery (d_Name d) (or_int (d_UpdateInterval d) (30 * second))) <$> cl_Discovery cl))
    (mkListeners (defaultListener grpc 9900) (defaultListener (ls_ConsulHTTP ls) 8500)
       (defaultListener (ls_DNS ls) 8600) (defaultListener (ls_Metrics ls) 9901))
    (c_MaxServices c) (c_ConsulRateLimit c) (or_int (c_TTL c) (30 * second))
    (or_int (c_HeartbeatInterval c) (10 * second)) (or_int (c_ShutdownTimeout c) (15 * second))
    (c_TLS c)
    (mkACL (or_str (acl_Mode (c_ACL c)) "disabled") (acl_DefaultPolicy (c_ACL c)) (acl_TokensFile (c_ACL c)))
    (mkAgent (or_int (ag_SeedTimeout ag) (3 * second)) (or_int (ag_WriteQuorum ag) 1)
       (or_int (ag_ReadyMinSeeds ag) 1) (or_int (ag_DrainWindow ag) (5 * second))
       (or_int (ag_CacheMaxAge ag) (5 * second)))
    (mkDNSConfig
       (if bool_decide (dns_Domain dns = ""%string) then "consul." else dotted (dns_Domain dns))
       (if bool_decide (dns_AltDomain dns ≠ ""%string) then dotted (dns_AltDomain dns) else dns_AltDomain dns)
       (dns_ServiceTTL dns) (dns_NodeTTL dns) (dns_OnlyPassing dns) (dns_ARecordLimit dns) true
       (dns_Recursors dns) (dns_RateLimit dns))
    (mkFederation (fed_Enabled (c_Federation c)) (or_int (fed_MaxHops (c_Federation c)) 1) (fed_Datacenters (c_Federation c)))
    (mkMembershipConfig (mem_Enabled (c_Membership c)) (mem_Peers (c_Membership c))
       (or_int (mem_SyncInterval (c_Membership c)) (30 * second)))
    (mkBootstrapConfig (bs_Enabled bs) (bs_SigningKey bs) (bs_SigningKeyFile bs)
       (or_int (bs_TokenTTL bs) (30 * second)) (bs_AllowSeedJoin bs) (bs_AdvertiseSeeds bs) (or_int (bs_RateLimit bs) 10)).

(** ** Validation *)

Inductive ConfigError :=
  | ErrRole | ErrClusterName | ErrTTL | ErrHeartbeat | ErrHeartbeatTTL | ErrShutdown
  | ErrListenerAddress (path : string) | ErrListenerPort (path : string)
  | ErrBootstrapRole | ErrBootstrapKey | ErrBootstrapSeeds | ErrBootstrapRate
  | ErrDiscoveryName | ErrDiscoveryInterval | ErrAgentSeeds
  | ErrCertFile | ErrKeyFile | ErrCAFile | ErrMutualTLS
  | ErrACLMode | ErrACLPolicy | ErrEnforceIdentity
  | ErrSeedTimeout | ErrWriteQuorum | ErrReadyMinSeeds | ErrDrainWindow | ErrCacheMaxAge.

(** [if cond { errs = append(errs, e) }]. *)
Definition fails (cond : bool) (e : ConfigError) : list ConfigError := if cond then [e] else [].

Definition blank (s : string) : bool := bool_decide (TrimSpace s = ""%string).

Definition validateListener (path : string) (l : Listener) : list ConfigError :=
  fails (blank (l_Address l)) (ErrListenerAddress path) ++ fails (l_Port l =? 0) (ErrListenerPort path).

Definition validateAgent (a : Agent) : list ConfigError :=
  fails (ag_SeedTimeout a <=? 0) ErrSeedTimeout ++ fails (ag_WriteQuorum a <? 1) ErrWriteQuorum ++
  fails (ag_ReadyMinSeeds a <? 1) ErrReadyMinSeeds ++ fails (ag_DrainWindow a <? 0) ErrDrainWindow ++
  fails (ag_CacheMaxAge a <=? 0) ErrCacheMaxAge.

Definition validateTLS (t : TLS) : list ConfigError :=
  (if tls_Enabled t then
     fails (blank (tls_CertFile t)) ErrCertFile ++ fails (blank (tls_KeyFile t)) ErrKeyFile ++
     fails (tls_MutualTLS t && blank (tls_CAFile t)) ErrCAFile
   else []) ++ fails (tls_MutualTLS t && negb (tls_Enabled t)) ErrMutualTLS.

Definition validateACL (c : Config) : list ConfigError :=
  let a := c_ACL c in
  fails (negb (bool_decide (acl_Mode a ∈ [""%string; "disabled"%string; "allow"%string; "enforce"%string]))) ErrACLMode ++
  fails (negb (bool_decide (acl_DefaultPolicy a ∈ [""%string; "allow"%string; "deny"%string]))) ErrACLPolicy ++
  fails (bool_decide (acl_Mode a = "enforce"%string) && negb (tls_MutualTLS (c_TLS c)) && blank (acl_TokensFile a))
    ErrEnforceIdentity.

Definition Validate (c : Config) : list ConfigError :=
  let ls := c_Listeners c in
  let bs := c_Bootstrap c in
  fails (negb (bool_decide (c_Role c = RoleAgent) || bool_decide (c_Role c = RoleSeed))) ErrRole ++
  fails (blank (cl_Name (c_Cluster c))) ErrClusterName ++
  fails (c_TTL c <=? 0) ErrTTL ++
  fails (c_HeartbeatInterval c <=? 0) ErrHeartbeat ++
  fails ((0 <? c_TTL c) && (0 <? c_HeartbeatInterval c) && (c_TTL c <=? c_HeartbeatInterval c)) ErrHeartbeatTTL ++
  fails (c_ShutdownTimeout c <=? 0) ErrShutdown ++
  validateListener "listeners.grpc" (ls_GRPC ls) ++
  (if l_Enabled (ls_ConsulHTTP ls) then validateListener "listeners.consul_http" (ls_ConsulHTTP ls) else []) ++
  (if l_Enabled (ls_DNS ls) then validateListener "listeners.dns" (ls_DNS ls) else []) ++
  (if l_Enabled (ls_Metrics ls) then validateListener "listeners.metrics" (ls_Metrics ls) else []) ++
  (if bs_Enabled bs then
     fails (negb (bool_decide (c_Role c = RoleSeed))) ErrBootstrapRole ++
     fails (blank (bs_SigningKey bs) && blank (bs_SigningKeyFile bs)) ErrBootstrapKey ++
     fails ((length (bs_AdvertiseSeeds bs) =? 0)%nat && (length (cl_Seeds (c_Cluster c)) =? 0)%nat) ErrBootstrapSeeds ++
     fails (bs_RateLimit bs <? 0) ErrBootstrapRate
   else []) ++
  match cl_Discovery (c_Cluster c) with
  | Some d => fails (blank (d_Name d)) ErrDiscoveryName ++ fails (d_UpdateInterval d <? 0) ErrDiscoveryInterval
  | None => []
  end ++
  fails (bool_decide (c_Role c = RoleAgent) && (length (cl_Seeds (c_Cluster c)) =? 0)%nat &&
         match cl_Discovery (c_Cluster c) with None => true | Some _ => false end) ErrAgentSeeds ++
  validateTLS (c_TLS c) ++ validateACL c ++ validateAgent (c_Agent c).

(** [Parse]: the extension, decoding, defaults, validation. *)
Inductive ParseResult := BadExtension | DecodeFailed | Invalid (errs : list ConfigError) | Loaded (c : Config).

Definition Parse (ext : string) (decoded : option Config) : ParseResult :=
  if negb (ToLower_is ext "" || ToLower_is ext ".yaml" || ToLower_is ext ".yml" || ToLower_is ext ".json")
  then BadExtension
  else match decoded with
       | None => DecodeFailed
       | Some c => let c := applyDefaults c in
                   match Validate c with [] => Loaded c | errs => Invalid errs end
       end.

(** ** Lemmas *)

Lemma or_int_idemp x d : or_int (or_int x d) d = or_int x d.
Proof. unfold or_int. destruct (Z.eqb_spec x 0); [by destruct (d =? 0)|]. by destruct (Z.eqb_spec x 0). Qed.

Lemma or_str_idemp s d : or_str (or_str s d) d = or_str s d.
Proof.
  unfold or_str. destruct (bool_decide (s = ""%string)) eqn:E; [by destruct (bool_decide (d = ""%string))|by rewrite E].
Qed.

Lemma or_int_nonzero x d : d ≠ 0 → or_int x d ≠ 0.
Proof. unfold or_int. by destruct (Z.eqb_spec x 0). Qed.

Lemma dotted_suffix s : HasSuffix (dotted s) "." = true.
Proof. unfold dotted. destruct (HasSuffix s ".") eqn:E; [done|]. apply HasSuffix_app. Qed.

Lemma dotted_idemp s : dotted (dotted s) = dotted s.
Proof. unfold dotted at 1. by rewrite dotted_suffix. Qed.

Lemma dotted_nonempty s : dotted s ≠ ""%string.
Proof. intros E. pose proof (dotted_suffix s) as H. by rewrite E in H. Qed.

Lemma defaultListener_idemp l port : defaultListener (defaultListener l port) port = defaultListener l port.
Proof. unfold defaultListener. simpl. by rewrite or_str_idemp, or_int_idemp. Qed.

Lemma default_domain_idemp s :
  let d s := if bool_decide (s = ""%string) then "consul."%string else dotted s in d (d s) = d s.
Proof.
  cbv beta zeta. destruct (bool_decide (s = ""%string)) eqn:E; [reflexivity|].
  rewrite bool_decide_eq_false_2 by apply dotted_nonempty. apply dotted_idemp.
Qed.

Lemma alt_domain_idemp s :
  let d s := if bool_decide (s ≠ ""%string) then dotted s else s in d (d s) = d s.
Proof.
  cbv beta zeta. destruct (bool_decide (s ≠ ""%string)) eqn:E; [|by rewrite E].
  rewrite bool_decide_eq_true_2 by apply dotted_nonempty. apply dotted_idemp.
Qed.

Lemma applyDefaults_idemp c : applyDefaults (applyDefaults c) = applyDefaults c.
Proof.
  unfold applyDefaults.
  cbn [c_Role c_NodeName c_Datacenter c_DataDir c_ConfigDir c_EnableScriptChecks c_Cluster c_Listeners c_MaxServices
    c_ConsulRateLimit c_TTL c_HeartbeatInterval c_ShutdownTimeout c_TLS c_ACL c_Agent c_DNS c_Federation c_Membership
    c_Bootstrap cl_Name cl_Seeds cl_Discovery ls_GRPC ls_ConsulHTTP ls_DNS ls_Metrics acl_Mode acl_DefaultPolicy
    acl_TokensFile ag_SeedTimeout ag_WriteQuorum ag_ReadyMinSeeds ag_DrainWindow ag_CacheMaxAge dns_Domain dns_AltDomain
    dns_ServiceTTL dns_NodeTTL dns_OnlyPassing dns_ARecordLimit dns_EnableTruncate dns_Recursors dns_RateLimit
    fed_Enabled fed_MaxHops fed_Datacenters mem_Enabled mem_Peers mem_SyncInterval bs_Enabled bs_SigningKey
    bs_SigningKeyFile bs_TokenTTL bs_AllowSeedJoin bs_AdvertiseSeeds bs_RateLimit].
  rewrite !or_str_idemp, !or_int_idemp, !defaultListener_idemp.
  rewrite (default_domain_idemp (dns_Domain (c_DNS c))), (alt_domain_idemp (dns_AltDomain (c_DNS c))).
  f_equal. f_equal.
  - destruct (cl_Discovery (c_Cluster c)) as [d|]; [|done]. simpl. by rewrite or_int_idemp.
  - f_equal. unfold defaultListener. simpl. by rewrite or_str_idemp, or_int_idemp.
Qed.

Lemma fails_nil cond e : fails cond e = [] ↔ cond = false.
Proof. by destruct cond. Qed.

(** What [Validate] accepts, in words of the configuration. *)
Record valid_listener (l : Listener) : Prop := {
  vl_address : TrimSpace (l_Address l) ≠ ""%string;
  vl_port : l_Port l ≠ 0
}.

Record valid (c : Config) : Prop := {
  v_role : c_Role c = RoleAgent ∨ c_Role c = RoleSeed;
  v_name : TrimSpace (cl_Name (c_Cluster c)) ≠ ""%string;
  v_lease : 0 < c_HeartbeatInterval c < c_TTL c;
  v_shutdown : 0 < c_ShutdownTimeout c;
  v_grpc : valid_listener (ls_GRPC (c_Listeners c));
  v_http : l_Enabled (ls_ConsulHTTP (c_Listeners c)) = true → valid_listener (ls_ConsulHTTP (c_Listeners c));
  v_dns : l_Enabled (ls_DNS (c_Listeners c)) = true → valid_listener (ls_DNS (c_Listeners c));
  v_metrics : l_Enabled (ls_Metrics (c_Listeners c)) = true → valid_listener (ls_Metrics (c_Listeners c));
  v_bootstrap : bs_Enabled (c_Bootstrap c) = true →
    c_Role c = RoleSeed ∧
    (TrimSpace (bs_SigningKey (c_Bootstrap c)) ≠ ""%string ∨ TrimSpace (bs_SigningKeyFile (c_Bootstrap c)) ≠ ""%string) ∧
    (bs_AdvertiseSeeds (c_Bootstrap c) ≠ [] ∨ cl_Seeds (c_Cluster c) ≠ []) ∧ 0 <= bs_RateLimit (c_Bootstrap c);
  v_discovery : ∀ d, cl_Discovery (c_Cluster c) = Some d → TrimSpace (d_Name d) ≠ ""%string ∧ 0 <= d_UpdateInterval d;
  v_seeds : c_Role c = RoleAgent → cl_Seeds (c_Cluster c) ≠ [] ∨ cl_Discovery (c_Cluster c) ≠ None;
  v_tls : tls_Enabled (c_TLS c) = true →
    TrimSpace (tls_CertFile (c_TLS c)) ≠ ""%string ∧ TrimSpace (tls_KeyFile (c_TLS c)) ≠ ""%string ∧
    (tls_MutualTLS (c_TLS c) = true → TrimSpace (tls_CAFile (c_TLS c)) ≠ ""%string);
  v_mutual : tls_MutualTLS (c_TLS c) = true → tls_Enabled (c_TLS c) = true;
  v_mode : acl_Mode (c_ACL c) ∈ [""%string; "disabled"%string; "allow"%string; "enforce"%string];
  v_policy : acl_DefaultPolicy (c_ACL c) ∈ [""%string; "allow"%string; "deny"%string];
  v_enforce : acl_Mode (c_ACL c) = "enforce"%string →
    tls_MutualTLS (c_TLS c) = true ∨ TrimSpace (acl_TokensFile (c_ACL c)) ≠ ""%string;
  v_agent : 0 < ag_SeedTimeout (c_Agent c) ∧ 1 <= ag_WriteQuorum (c_Agent c) ∧ 1 <= ag_ReadyMinSeeds (c_Agent c) ∧
    0 <= ag_DrainWindow (c_Agent c) ∧ 0 < ag_CacheMaxAge (c_Agent c)
}.

Lemma blank_false s : blank s = false ↔ TrimSpace s ≠ ""%string.
Proof. unfold blank. by rewrite bool_decide_eq_false. Qed.

Lemma validateListener_nil path l : validateListener path l = [] ↔ valid_listener l.
Proof.
  unfold validateListener. rewrite app_nil, !fails_nil, blank_false, Z.eqb_neq.
  split; [intros []; by split|intros []; done].
Qed.

Lemma if_listener_nil path l :
  (if l_Enabled l then validateListener path l else []) = [] ↔ (l_Enabled l = true → valid_listener l).
Proof. rewrite <-(validateListener_nil path). by destruct (l_Enabled l); intuition. Qed.

Lemma length_zero {A} (l : list A) : (length l =? 0)%nat = false ↔ l ≠ [].
Proof. by destruct l. Qed.

Lemma validateTLS_nil t : validateTLS t = [] ↔
  (tls_Enabled t = true → TrimSpace (tls_CertFile t) ≠ ""%string ∧ TrimSpace (tls_KeyFile t) ≠ ""%string ∧
     (tls_MutualTLS t = true → TrimSpace (tls_CAFile t) ≠ ""%string)) ∧
  (tls_MutualTLS t = true → tls_Enabled t = true).
Proof.
  unfold validateTLS. rewrite app_nil, fails_nil.
  destruct (tls_Enabled t), (tls_MutualTLS t); simpl; rewrite ?app_nil, ?fails_nil, ?blank_false; naive_solver.
Qed.

Lemma validateACL_nil c : validateACL c = [] ↔
  acl_Mode (c_ACL c) ∈ [""%string; "disabled"%string; "allow"%string; "enforce"%string] ∧
  acl_DefaultPolicy (c_ACL c) ∈ [""%string; "allow"%string; "deny"%string] ∧
  (acl_Mode (c_ACL c) = "enforce"%string →
    tls_MutualTLS (c_TLS c) = true ∨ TrimSpace (acl_TokensFile (c_ACL c)) ≠ ""%string).
Proof.
  unfold validateACL. cbv zeta. rewrite !app_nil, !fails_nil, !negb_false_iff, !bool_decide_eq_true.
  rewrite !andb_false_iff, bool_decide_eq_false, negb_false_iff, blank_false.
  destruct (decide (acl_Mode (c_ACL c) = "enforce"%string)); tauto.
Qed.

Lemma validateAgent_nil a : validateAgent a = [] ↔
  0 < ag_SeedTimeout a ∧ 1 <= ag_WriteQuorum a ∧ 1 <= ag_ReadyMinSeeds a ∧ 0 <= ag_DrainWindow a ∧ 0 < ag_CacheMaxAge a.
Proof.
  unfold validateAgent. rewrite !app_nil, !fails_nil, !Z.leb_gt, !Z.ltb_ge. intuition lia.
Qed.

Lemma bootstrap_nil c :
  (if bs_Enabled (c_Bootstrap c) then
     fails (negb (bool_decide (c_Role c = RoleSeed))) ErrBootstrapRole ++
     fails (blank (bs_SigningKey (c_Bootstrap c)) && blank (bs_SigningKeyFile (c_Bootstrap c))) ErrBootstrapKey ++
     fails ((length (bs_AdvertiseSeeds (c_Bootstrap c)) =? 0)%nat && (length (cl_Seeds (c_Cluster c)) =? 0)%nat) ErrBootstrapSeeds ++
     fails (bs_RateLimit (c_Bootstrap c) <? 0) ErrBootstrapRate
   else []) = [] ↔
  (bs_Enabled (c_Bootstrap c) = true →
    c_Role c = RoleSeed ∧
    (TrimSpace (bs_SigningKey (c_Bootstrap c)) ≠ ""%string ∨ TrimSpace (bs_SigningKeyFile (c_Bootstrap c)) ≠ ""%string) ∧
    (bs_AdvertiseSeeds (c_Bootstrap c) ≠ [] ∨ cl_Seeds (c_Cluster c) ≠ []) ∧ 0 <= bs_RateLimit (c_Bootstrap c)).
Proof.
  destruct (bs_Enabled (c_Bootstrap c)); [|by split].
  rewrite !app_nil, !fails_nil, negb_false_iff, bool_decide_eq_true, !andb_false_iff, !blank_false, !length_zero, Z.ltb_ge.
  tauto.
Qed.

Lemma discovery_nil (o : option Discovery) :
  match o with
  | Some d => fails (blank (d_Name d)) ErrDiscoveryName ++ fails (d_UpdateInterval d <? 0) ErrDiscoveryInterval
  | None => []
  end = [] ↔ ∀ d, o = Some d → TrimSpace (d_Name d) ≠ ""%string ∧ 0 <= d_UpdateInterval d.
Proof.
  destruct o as [d|]; [|by split]. rewrite app_nil, !fails_nil, blank_false, Z.ltb_ge.
  split; [by intros ? ? [= <-]|]. intros Hd. exact (Hd d eq_refl).
Qed.

Lemma agent_seeds_nil c :
  bool_decide (c_Role c = RoleAgent) && (length (cl_Seeds (c_Cluster c)) =? 0)%nat &&
    match cl_Discovery (c_Cluster c) with None => true | Some _ => false end = false ↔
  (c_Role c = RoleAgent → cl_Seeds (c_Cluster c) ≠ [] ∨ cl_Discovery (c_Cluster c) ≠ None).
Proof.
  rewrite !andb_false_iff, bool_decide_eq_false, length_zero.
  destruct (decide (c_Role c = RoleAgent)), (cl_Discovery (c_Cluster c));
    intuition congruence.
Qed.

Lemma Validate_nil c : Validate c = [] ↔ valid c.
Proof.
  unfold Validate. cbv zeta.
  rewrite !app_nil, !fails_nil, negb_false_iff, orb_true_iff, !bool_decide_eq_true, blank_false.
  rewrite validateListener_nil, !if_listener_nil, bootstrap_nil, discovery_nil, agent_seeds_nil.
  rewrite validateTLS_nil, validateACL_nil, validateAgent_nil, !Z.leb_gt, !andb_false_iff, !Z.ltb_ge, Z.leb_gt.
  split.
  - intros (H1 & H2 & H3 & H4 & H5 & H6 & H7 & H8 & H9 & H10 & H11 & H12 & H13 & (H14 & H15) & (H16 & H17 & H18) & H19).
    split; try assumption. lia.
  - intros []. split_and!; try assumption; try tauto; lia.
Qed.

(** ** Claims *)

(** Loading is exact: a configuration file is accepted exactly when its tree, with
    the defaults filled in, satisfies every documented constraint; the accepted
    configuration has the lease outlive the heartbeat, a positive quorum and cache
    age, nonzero ports on loopback unless configured, and dotted zones; defaults are
    filled in once, so loading what was loaded gives the same configuration. *)
Theorem Parse_correct (ext : string) (c : Config) :
  ext = ""%string ∨ ext = ".yaml"%string ∨ ext = ".yml"%string ∨ ext = ".json"%string →
  (valid (applyDefaults c) → Parse ext (Some c) = Loaded (applyDefaults c)) ∧
  (∀ c', Parse ext (Some c) = Loaded c' →
     c' = applyDefaults c ∧ valid c' ∧ Parse ext (Some c') = Loaded c' ∧
     l_Enabled (ls_GRPC (c_Listeners c')) = true ∧
     l_Port (ls_ConsulHTTP (c_Listeners c')) ≠ 0 ∧ l_Port (ls_DNS (c_Listeners c')) ≠ 0 ∧
     l_Port (ls_Metrics (c_Listeners c')) ≠ 0 ∧
     HasSuffix (dns_Domain (c_DNS c')) "." = true ∧
     (dns_AltDomain (c_DNS c') = ""%string ∨ HasSuffix (dns_AltDomain (c_DNS c')) "." = true)) ∧
  (∀ errs, Parse ext (Some c) = Invalid errs → errs = Validate (applyDefaults c) ∧ errs ≠ [] ∧ ¬ valid (applyDefaults c)).
Proof.
  intros Hext.
  assert (HP : ∀ x, Parse ext (Some x) = match Validate (applyDefaults x) with [] => Loaded (applyDefaults x) | errs => Invalid errs end)
    by (intros x; by destruct Hext as [->|[->|[->| ->]]]).
  split; [|split].
  - intros Hv%Validate_nil. by rewrite HP, Hv.
  - intros c'. rewrite HP. destruct (Validate (applyDefaults c)) eqn:E; [|done]. intros [= <-].
    split; [done|]. split; [by apply Validate_nil|]. split; [by rewrite HP, applyDefaults_idemp, E|].
    split; [done|]. simpl. split_and!; try (by apply or_int_nonzero).
    + case_bool_decide; [done|apply dotted_suffix].
    + case_bool_decide as Ha; [right; apply dotted_suffix|left]. destruct (decide (dns_AltDomain (c_DNS c) = ""%string)); tauto.
  - intros errs. rewrite HP. destruct (Validate (applyDefaults c)) eqn:E; [done|]. intros [= <-].
    split; [done|]. split; [done|]. intros Hv%Validate_nil. congruence.
Qed.

(** A minimal agent file. *)
Definition sampleConfig : Config :=
  let l := mkListener false "" 0 in
  mkConfig "" "" "" "" "" false (mkCluster "prod" ["seed-a:9900"%string] None) (mkListeners l l l l) 0 0 0 0 0
    (mkTLS false "" "" "" false) (mkACL "" "" "") (mkAgent 0 0 0 0 0)
    (mkDNSConfig "" "" 0 0 false 0 false [] 0) (mkFederation false 0 ∅) (mkMembershipConfig false [] 0)
    (mkBootstrapConfig false "" "" 0 false [] 0).

Lemma Parse_correct_witness :
  Parse ".yaml" (Some sampleConfig) = Loaded (applyDefaults sampleConfig) ∧ valid (applyDefaults sampleConfig).
Proof.
  assert (HL : Parse ".yaml" (Some sampleConfig) = Loaded (applyDefaults sampleConfig)) by (vm_compute; reflexivity).
  split; [exact HL|].
  destruct (Parse_correct ".yaml" sampleConfig) as (_ & H & _); [right; left; reflexivity|].
  destruct (H _ HL) as (_ & Hv & _). exact Hv.
Defined.
