(* ===== verification/Bootstrap.v ===== *)
(** Config bootstrap, [src/internal/bootstrap]: the short-lived signed tokens (token.go),
    the sanitized configuration a joining node is given (render.go), and the RPC that
    serves it (server.go).

    Byte slices are byte strings; HMAC and base64 are those of [GoCrypto].  The text
    form of durations is the class [DurationText], with its round trip as a law
    ([time.ParseDuration] computes fractions in floating point, outside the model). *)

From Stdlib Require Import ZArith Lia Ascii.
From stdpp Require Import base gmap list strings.
From S2P Require Import Prelude GoStrings GoText GoCrypto Config RateLimit.

#[local] Open Scope Z_scope.

(** ** token.go *)

Definition tokenPayloadLen : nat := 16.

Definition tokenMACLen : nat := 32.

Definition MinSigningKeyLen : nat := 16.

Definition defaultTokenTTL : Z := 30 * second.

(** [time.Time.Unix]. *)
Definition Unix (t : Z) : Z := t / second.

Inductive TokenError := ErrTokenInvalid | ErrTokenExpired.

Definition sign (key payload : string) : string := hmac_sha256 key payload.

(** [nonce] are the bytes [rand.Read] filled in ([None]: it failed). *)
Definition MintToken (key : string) (ttl now : Z) (nonce : option string) : option string :=
  if (String.length key <? MinSigningKeyLen)%nat then None
  else
    let ttl := if ttl <=? 0 then defaultTokenTTL else ttl in
    match nonce with
    | None => None
    | Some nonce =>
        let payload := put_be 8 (u64 (Unix (now + ttl))) +:+ nonce in
        Some (b64_encode (payload +:+ sign key payload))
    end.

Definition ValidateToken (key token : string) (now : Z) : option TokenError :=
  if (String.length key =? 0)%nat then Some ErrTokenInvalid
  else match b64_decode (TrimSpace token) with
       | None => Some ErrTokenInvalid
       | Some data =>
           if negb (String.length data =? tokenPayloadLen + tokenMACLen)%nat then Some ErrTokenInvalid
           else
             let payload := str_take tokenPayloadLen data in
             let mac := str_drop tokenPayloadLen data in
             if negb (bool_decide (mac = sign key payload)) then Some ErrTokenInvalid
             else
               let exp := i64 (get_be 0 (str_take 8 payload)) in
               if exp <? Unix now then Some ErrTokenExpired else None
       end.

(** [files] is the file system; the outer [None] is a read error, the inner one no key. *)
Definition ResolveSigningKey (files : gmap string string) (inline file : string) : option (option string) :=
  if bool_decide (TrimSpace file ≠ ""%string) then
    match files !! file with
    | None => None
    | Some data => Some (Some (TrimSpace data))
    end
  else if bool_decide (inline ≠ ""%string) then Some (Some inline) else Some None.

(** ** render.go *)

(** [Duration.String], and reading it back as the YAML decoder does. *)
Class DurationText := {
  dur_String : Z → string;
  dur_Parse : string → option Z;
  dur_round_trip : ∀ d, is_i64 d → dur_Parse (dur_String d) = Some d;
  dur_nonempty : ∀ d, dur_String d ≠ ""%string
}.

Record rListener := mkRListener { rl_Enabled : bool; rl_Address : string; rl_Port : Z }.

Record rAgent := mkRAgent {
  ra_SeedTimeout : string; ra_WriteQuorum : Z; ra_ReadyMinSeeds : Z; ra_DrainWindow : string; ra_CacheMaxAge : string
}.

Record rendered := mkRendered {
  r_Role : string; r_Datacenter : string; r_ClusterName : string; r_Seeds : list string;
  r_TTL : string; r_HeartbeatInterval : string; r_ShutdownTimeout : string; r_MaxServices : Z;
  r_GRPC : rListener; r_ConsulHTTP : rListener; r_DNSListener : rListener; r_Metrics : rListener;
  r_DNS : option (string * string); r_Agent : option rAgent; r_TLS : option (bool * bool); r_ACL : option string
}.

Definition durStr `{DurationText} (d : Z) : string := if d =? 0 then "" else dur_String d.

(** [Render], up to [yaml.Marshal]. *)
Definition Render `{DurationText} (cfg : Config) (role : string) (seeds : list string) : rendered :=
  let ls := c_Listeners cfg in
  let ag := c_Agent cfg in
  mkRendered role (c_Datacenter cfg) (cl_Name (c_Cluster cfg)) seeds
    (dur_String (c_TTL cfg)) (dur_String (c_HeartbeatInterval cfg)) (dur_String (c_ShutdownTimeout cfg))
    (if bool_decide (role = RoleSeed) then c_MaxServices cfg else 0)
    (mkRListener false "127.0.0.1" (l_Port (ls_GRPC ls)))
    (mkRListener true "127.0.0.1" (l_Port (ls_ConsulHTTP ls)))
    (mkRListener true "127.0.0.1" (l_Port (ls_DNS ls)))
    (mkRListener false "127.0.0.1" (l_Port (ls_Metrics ls)))
    (if bool_decide (dns_Domain (c_DNS cfg) ≠ ""%string) || bool_decide (dns_AltDomain (c_DNS cfg) ≠ ""%string)
     then Some (dns_Domain (c_DNS cfg), dns_AltDomain (c_DNS cfg)) else None)
    (if bool_decide (role = RoleAgent)
     then Some (mkRAgent (durStr (ag_SeedTimeout ag)) (ag_WriteQuorum ag) (ag_ReadyMinSeeds ag)
                  (durStr (ag_DrainWindow ag)) (durStr (ag_CacheMaxAge ag)))
     else None)
    (if tls_Enabled (c_TLS cfg) then Some (true, tls_MutualTLS (c_TLS cfg)) else None)
    (if bool_decide (acl_Mode (c_ACL cfg) ≠ ""%string) && bool_decide (acl_Mode (c_ACL cfg) ≠ "disabled"%string)
     then Some (acl_Mode (c_ACL cfg)) else None).

(** The configuration tree the rendered document denotes: absent keys are zero. *)
Definition denoted `{DurationText} (r : rendered) : option Config :=
  let dur s := if bool_decide (s = ""%string) then Some 0 else dur_Parse s in
  let lst l := mkListener (rl_Enabled l) (rl_Address l) (rl_Port l) in
  ttl ← dur (r_TTL r); hb ← dur (r_HeartbeatInterval r); sd ← dur (r_ShutdownTimeout r);
  ag ← match r_Agent r with
       | None => Some (mkAgent 0 0 0 0 0)
       | Some a =>
           st ← dur (ra_SeedTimeout a); dw ← dur (ra_DrainWindow a); cm ← dur (ra_CacheMaxAge a);
           Some (mkAgent st (ra_WriteQuorum a) (ra_ReadyMinSeeds a) dw cm)
       end;
  Some (mkConfig (r_Role r) "" (r_Datacenter r) "" "" false (mkCluster (r_ClusterName r) (r_Seeds r) None)
    (mkListeners (lst (r_GRPC r)) (lst (r_ConsulHTTP r)) (lst (r_DNSListener r)) (lst (r_Metrics r)))
    (r_MaxServices r) 0 ttl hb sd
    (match r_TLS r with Some (e, m) => mkTLS e "" "" "" m | None => mkTLS false "" "" "" false end)
    (mkACL (default ""%string (r_ACL r)) "" "") ag
    (mkDNSConfig (default (""%string, ""%string) (r_DNS r)).1 (default (""%string, ""%string) (r_DNS r)).2 0 0 false 0 false [] 0)
    (mkFederation false 0 ∅) (mkMembershipConfig false [] 0) (mkBootstrapConfig false "" "" 0 false [] 0)).

(** ** server.go *)

Record BootService := mkBootService {
  bsv_cfg : Config; bsv_signingKey : string; bsv_allowSeedJoin : bool; bsv_seeds : list string; bsv_rrl : Limiter
}.

Definition NewService (cfg : Config) (key : string) (allow : bool) (seeds : list string) (rate : Z) : BootService :=
  mkBootService cfg key allow seeds (New_limiter rate).

Inductive BootCode := BootResourceExhausted | BootUnauthenticated | BootPermissionDenied | BootInvalidArgument.

(** [md] is the incoming metadata, if any. *)
Definition bootTokenFromMetadata (md : option (gmap string (list string))) : string :=
  match md with
  | None => ""
  | Some md =>
      match default [] (md !! "bootstrap-token"%string) with
      | v :: _ => TrimSpace v
      | [] => match default [] (md !! "authorization"%string) with
              | v :: _ => TrimSpace (TrimPrefix v "Bearer ")
              | [] => ""
              end
      end
  end.

Definition GetConfig `{DurationText} (host : string) (md : option (gmap string (list string)))
    (role : string) (now : Z) (s : BootService) : (BootCode + rendered) * BootService :=
  let '(ok, l) := Allow now host (bsv_rrl s) in
  let s := mkBootService (bsv_cfg s) (bsv_signingKey s) (bsv_allowSeedJoin s) (bsv_seeds s) l in
  if negb ok then (inl BootResourceExhausted, s)
  else match ValidateToken (bsv_signingKey s) (bootTokenFromMetadata md) now with
       | Some _ => (inl BootUnauthenticated, s)
       | None =>
           if bool_decide (role = ""%string) || ToLower_is role "agent"
           then (inr (Render (bsv_cfg s) RoleAgent (bsv_seeds s)), s)
           else if ToLower_is role "seed" then
             if negb (bsv_allowSeedJoin s) then (inl BootPermissionDenied, s)
             else (inr (Render (bsv_cfg s) RoleSeed (bsv_seeds s)), s)
           else (inl BootInvalidArgument, s)
       end.

(** ** Lemmas *)

Lemma str_take_length n s : (n <= String.length s)%nat → String.length (str_take n s) = n.
Proof.
  revert s. induction n as [|n IH]; intros s Hs; [done|]. destruct s as [|c s]; simpl in *; [lia|]. rewrite IH; lia.
Qed.

Lemma str_take_drop n s : str_take n s +:+ str_drop n s = s.
Proof. revert s. induction n as [|n IH]; intros [|c s]; str_simpl; try done. by rewrite IH. Qed.

Lemma str_take_exact n a b : String.length a = n → str_take n (a +:+ b) = a.
Proof. intros <-. apply str_take_app. Qed.

Lemma str_drop_exact n a b : String.length a = n → str_drop n (a +:+ b) = b.
Proof. intros <-. apply str_drop_app. Qed.

Lemma i64_u64 z : is_i64 z → i64 (u64 z) = z.
Proof.
  unfold is_i64, i64, u64, minInt64, maxInt64. intros H. rewrite Zplus_mod_idemp_l, Z.mod_small; lia.
Qed.

(** The expiry written in a payload. *)
Definition expiry (payload : string) : Z := i64 (get_be 0 (str_take 8 payload)).

Lemma expiry_minted exp nonce : is_i64 exp → expiry (put_be 8 (u64 exp) +:+ nonce) = exp.
Proof.
  intros He. unfold expiry. rewrite str_take_exact by apply put_be_length. rewrite get_put_be.
  rewrite (Z.mod_small (u64 exp)); [by rewrite Z.mul_0_l, Z.add_0_l, i64_u64|]. apply u64_range.
Qed.

(** What the validation decides, for a token that decodes to [payload ++ mac]. *)
Lemma ValidateToken_decoded key token payload mac now :
  key ≠ ""%string → b64_decode (TrimSpace token) = Some (payload +:+ mac) →
  String.length payload = tokenPayloadLen → String.length mac = tokenMACLen →
  ValidateToken key token now =
    if negb (bool_decide (mac = sign key payload)) then Some ErrTokenInvalid
    else if expiry payload <? Unix now then Some ErrTokenExpired else None.
Proof.
  intros Hk Hd Hp Hm. unfold ValidateToken. rewrite Hd, str_length_app, Hp, Hm, str_take_exact, str_drop_exact by done.
  by destruct key.
Qed.

Lemma ValidateToken_accepts key token now :
  ValidateToken key token now = None → key ≠ ""%string ∧
  ∃ payload, b64_decode (TrimSpace token) = Some (payload +:+ sign key payload) ∧
    String.length payload = tokenPayloadLen ∧ Unix now <= expiry payload.
Proof.
  intros Hv. assert (Hk : key ≠ ""%string) by (by intros ->). split; [done|].
  unfold ValidateToken in Hv. destruct (String.length key =? 0)%nat; [done|].
  destruct (b64_decode (TrimSpace token)) as [data|]; [|done].
  destruct (Nat.eqb_spec (String.length data) (tokenPayloadLen + tokenMACLen)) as [Hl|]; [|done]. cbv zeta in Hv. cbn [negb] in Hv.
  destruct (bool_decide (str_drop tokenPayloadLen data = sign key (str_take tokenPayloadLen data))) eqn:E; [|done].
  apply bool_decide_eq_true in E.
  exists (str_take tokenPayloadLen data). rewrite <-E, str_take_drop. split; [done|].
  split; [apply str_take_length; unfold tokenPayloadLen, tokenMACLen in *; lia|].
  unfold expiry. cbn [negb] in Hv.
  destruct (Z.ltb_spec (i64 (get_be 0 (str_take 8 (str_take tokenPayloadLen data)))) (Unix now)); [done|lia].
Qed.

(** What a minted token is worth to its own key. *)
Lemma MintToken_token key ttl now nonce token :
  let exp := Unix (now + (if ttl <=? 0 then defaultTokenTTL else ttl)) in
  let payload := put_be 8 (u64 exp) +:+ nonce in
  MintToken key ttl now (Some nonce) = Some token → String.length nonce = 8%nat → is_i64 exp →
  TrimSpace token = token ∧
  ∀ k now', k ≠ ""%string → ValidateToken k token now' =
    if negb (bool_decide (sign key payload = sign k payload)) then Some ErrTokenInvalid
    else if exp <? Unix now' then Some ErrTokenExpired else None.
Proof.
  intros exp payload Hm Hn He. unfold MintToken in Hm. destruct (_ <? _)%nat; [done|].
  change (Some (b64_encode (payload +:+ sign key payload)) = Some token) in Hm. injection Hm as <-.
  assert (Hp : String.length payload = tokenPayloadLen) by (unfold payload; by rewrite str_length_app, put_be_length, Hn).
  split; [apply b64_no_space|]. intros k now' Hk0.
  rewrite (ValidateToken_decoded k _ payload (sign key payload)); [|done| |done|apply hmac_length].
  - by replace (expiry payload) with exp by (symmetry; by apply expiry_minted).
  - by rewrite b64_no_space, b64_round_trip.
Qed.

(** ** Claims *)

(** A minted token is accepted by its key until the second it expires and refused as
    expired afterwards; a key that signs its payload differently refuses it as invalid;
    keys below the floor mint nothing. *)
Theorem token_round_trip (key key' nonce : string) (ttl now : Z) :
  let exp := Unix (now + (if ttl <=? 0 then defaultTokenTTL else ttl)) in
  let payload := put_be 8 (u64 exp) +:+ nonce in
  ((String.length key < MinSigningKeyLen)%nat → MintToken key ttl now (Some nonce) = None) ∧
  ((MinSigningKeyLen <= String.length key)%nat → String.length nonce = 8%nat → is_i64 exp →
   ∃ token, MintToken key ttl now (Some nonce) = Some token ∧
     (∀ now', ValidateToken key token now' = if exp <? Unix now' then Some ErrTokenExpired else None) ∧
     (∀ now', sign key' payload ≠ sign key payload → ValidateToken key' token now' = Some ErrTokenInvalid)).
Proof.
  cbv zeta. set (exp := Unix _). set (payload := put_be 8 (u64 exp) +:+ nonce).
  split; [intros Hk; unfold MintToken; by rewrite (proj2 (Nat.ltb_lt _ _) Hk)|]. intros Hk Hn He.
  destruct (MintToken key ttl now (Some nonce)) as [token|] eqn:Hm.
  2: { unfold MintToken in Hm. by rewrite (proj2 (Nat.ltb_ge _ _) Hk) in Hm. }
  destruct (MintToken_token key ttl now nonce token Hm Hn He) as [_ Hv]. fold exp payload in Hv.
  assert (Hk0 : key ≠ ""%string) by (intros ->; unfold MinSigningKeyLen in Hk; simpl in Hk; lia).
  exists token. split; [done|]. split; intros now'.
  - rewrite Hv by done. by rewrite bool_decide_eq_true_2.
  - intros Hs. destruct (decide (key' = ""%string)) as [->|Hk']; [done|]. rewrite Hv by done.
    by rewrite bool_decide_eq_false_2 by congruence.
Qed.

(** The witnesses' durations: decimal nanoseconds. *)
#[local] Instance decimal_durations : DurationText.
Proof.
  refine {| dur_String d := FormatUint (u64 d); dur_Parse s := i64 <$> ParseUint s 64 |}.
  - intros d Hd. rewrite ParseUint_FormatUint by apply u64_range. simpl. by rewrite i64_u64.
  - intros d. apply format_loop_nonempty.
Defined.

Definition sampleKey : string := "0123456789abcdef".

(** Minted at second 100 for the default 30 seconds: good at 130, expired at 131, and
    refused by another key. *)
Lemma token_round_trip_witness :
  ∃ token, MintToken sampleKey 0 (100 * second) (Some "nonce--8"%string) = Some token ∧
    ValidateToken sampleKey token (130 * second) = None ∧
    ValidateToken sampleKey token (131 * second) = Some ErrTokenExpired ∧
    ValidateToken "another key 0123" token (100 * second) = Some ErrTokenInvalid.
Proof.
  destruct (token_round_trip sampleKey "another key 0123" "nonce--8" 0 (100 * second)) as [_ H].
  destruct H as (token & Hm & Hv & Hi).
  - vm_compute. lia.
  - reflexivity.
  - vm_compute. split; discriminate.
  - exists token. split; [exact Hm|]. split; [rewrite Hv; vm_compute; reflexivity|].
    split; [rewrite Hv; vm_compute; reflexivity|]. apply Hi. vm_compute. discriminate.
Defined.

(** The bootstrap gate: a configuration is served only within the rate limit, to a
    caller whose token was signed with the seed's key and has not expired, for the role
    asked for, and a seed's only where seed joins are allowed; a refusal serves
    nothing, and a call changes nothing but the limiter. *)
Theorem GetConfig_gate `{DurationText} (host role : string) (md : option (gmap string (list string))) (now : Z) (s : BootService) :
  let '(res, s') := GetConfig host md role now s in
  s' = mkBootService (bsv_cfg s) (bsv_signingKey s) (bsv_allowSeedJoin s) (bsv_seeds s) (Allow now host (bsv_rrl s)).2 ∧
  match res with
  | inr r =>
      (Allow now host (bsv_rrl s)).1 = true ∧ bsv_signingKey s ≠ ""%string ∧
      (∃ payload, b64_decode (TrimSpace (bootTokenFromMetadata md)) = Some (payload +:+ sign (bsv_signingKey s) payload) ∧
         String.length payload = tokenPayloadLen ∧ Unix now <= expiry payload) ∧
      (r = Render (bsv_cfg s) RoleAgent (bsv_seeds s) ∧ (role = ""%string ∨ ToLower_is role "agent" = true) ∨
       r = Render (bsv_cfg s) RoleSeed (bsv_seeds s) ∧ ToLower_is role "seed" = true ∧ bsv_allowSeedJoin s = true)
  | inl BootResourceExhausted => (Allow now host (bsv_rrl s)).1 = false
  | inl BootUnauthenticated => ValidateToken (bsv_signingKey s) (bootTokenFromMetadata md) now ≠ None
  | inl BootPermissionDenied => ToLower_is role "seed" = true ∧ bsv_allowSeedJoin s = false
  | inl BootInvalidArgument => role ≠ ""%string ∧ ToLower_is role "agent" = false ∧ ToLower_is role "seed" = false
  end.
Proof.
  unfold GetConfig. destruct (Allow now host (bsv_rrl s)) as [ok l]. cbn [bsv_signingKey bsv_allowSeedJoin bsv_cfg bsv_seeds fst snd].
  destruct ok; cbn [negb]; [|done].
  destruct (ValidateToken _ _ now) eqn:Hv; [done|]. apply ValidateToken_accepts in Hv as [Hk Hp].
  destruct (bool_decide (role = ""%string)) eqn:Hr; cbn [orb].
  { apply bool_decide_eq_true in Hr. split; [done|]. split_and!; try done. left. auto. }
  apply bool_decide_eq_false in Hr. destruct (ToLower_is role "agent") eqn:Ha; cbn [orb].
  { split; [done|]. split_and!; try done. left. auto. }
  destruct (ToLower_is role "seed") eqn:Hs; [|done]. destruct (bsv_allowSeedJoin s) eqn:Hj; simpl; [|done].
  split; [done|]. split_and!; try done. right. auto.
Qed.

(** Two configurations that agree on everything meant to be served: they may differ in
    key and certificate files, token files, the signing key, node names, data
    directories, peers and recursors. *)
Record same_public (a b : Config) : Prop := {
  sp_dc : c_Datacenter a = c_Datacenter b;
  sp_name : cl_Name (c_Cluster a) = cl_Name (c_Cluster b);
  sp_times : (c_TTL a, c_HeartbeatInterval a, c_ShutdownTimeout a) = (c_TTL b, c_HeartbeatInterval b, c_ShutdownTimeout b);
  sp_max : c_MaxServices a = c_MaxServices b;
  sp_ports : (l_Port (ls_GRPC (c_Listeners a)), l_Port (ls_ConsulHTTP (c_Listeners a)),
              l_Port (ls_DNS (c_Listeners a)), l_Port (ls_Metrics (c_Listeners a))) =
             (l_Port (ls_GRPC (c_Listeners b)), l_Port (ls_ConsulHTTP (c_Listeners b)),
              l_Port (ls_DNS (c_Listeners b)), l_Port (ls_Metrics (c_Listeners b)));
  sp_zones : (dns_Domain (c_DNS a), dns_AltDomain (c_DNS a)) = (dns_Domain (c_DNS b), dns_AltDomain (c_DNS b));
  sp_agent : c_Agent a = c_Agent b;
  sp_tls : (tls_Enabled (c_TLS a), tls_MutualTLS (c_TLS a)) = (tls_Enabled (c_TLS b), tls_MutualTLS (c_TLS b));
  sp_acl : acl_Mode (c_ACL a) = acl_Mode (c_ACL b)
}.

Lemma Render_same_public `{DurationText} a b role seeds : same_public a b → Render a role seeds = Render b role seeds.
Proof.
  intros [H1 H2 H3 H4 H5 H6 H7 H8 H9]. unfold Render. simplify_eq H3. simplify_eq H5. simplify_eq H6. simplify_eq H8.
  intros. repeat match goal with E : _ = _ |- _ => rewrite E; clear E end. reflexivity.
Qed.

(** C28: what a seed serves is a function of the public part of its configuration: seeds
    whose configurations differ only in secrets and local settings answer every call
    with the same document or refusal. *)
Theorem served_config_has_no_secrets `{DurationText} (a b : Config) (key : string) (allow : bool) (seeds : list string)
    (l : Limiter) (host role : string) (md : option (gmap string (list string))) (now : Z) :
  same_public a b →
  (GetConfig host md role now (mkBootService a key allow seeds l)).1 =
  (GetConfig host md role now (mkBootService b key allow seeds l)).1.
Proof.
  intros Hab. unfold GetConfig. cbn [bsv_rrl bsv_cfg bsv_signingKey bsv_allowSeedJoin bsv_seeds].
  destruct (Allow now host l) as [ok l']. cbn [bsv_signingKey bsv_cfg bsv_allowSeedJoin bsv_seeds].
  rewrite !(Render_same_public a b) by done.
  repeat (case_match; try reflexivity).
Qed.

(** *** A served configuration loads *)

Definition i64_durations (c : Config) : Prop :=
  Forall is_i64 [c_TTL c; c_HeartbeatInterval c; c_ShutdownTimeout c; ag_SeedTimeout (c_Agent c);
    ag_DrainWindow (c_Agent c); ag_CacheMaxAge (c_Agent c)].

Lemma read_dur `{DurationText} d : is_i64 d →
  (if bool_decide (dur_String d = ""%string) then Some 0 else dur_Parse (dur_String d)) = Some d.
Proof. intros Hd. rewrite bool_decide_eq_false_2 by apply dur_nonempty. by apply dur_round_trip. Qed.

Lemma read_durStr `{DurationText} d : is_i64 d →
  (if bool_decide (durStr d = ""%string) then Some 0 else dur_Parse (durStr d)) = Some d.
Proof. intros Hd. unfold durStr. destruct (Z.eqb_spec d 0) as [->|]; [done|by apply read_dur]. Qed.

(** The tree a rendered configuration denotes. *)
Definition servedConfig (cfg : Config) (role : string) (seeds : list string) : Config :=
  let ls := c_Listeners cfg in
  let ip := "127.0.0.1"%string in
  mkConfig role "" (c_Datacenter cfg) "" "" false (mkCluster (cl_Name (c_Cluster cfg)) seeds None)
    (mkListeners (mkListener false ip (l_Port (ls_GRPC ls))) (mkListener true ip (l_Port (ls_ConsulHTTP ls)))
       (mkListener true ip (l_Port (ls_DNS ls))) (mkListener false ip (l_Port (ls_Metrics ls))))
    (if bool_decide (role = RoleSeed) then c_MaxServices cfg else 0) 0
    (c_TTL cfg) (c_HeartbeatInterval cfg) (c_ShutdownTimeout cfg)
    (if tls_Enabled (c_TLS cfg) then mkTLS true "" "" "" (tls_MutualTLS (c_TLS cfg)) else mkTLS false "" "" "" false)
    (mkACL (if bool_decide (acl_Mode (c_ACL cfg) = "disabled"%string) then "" else acl_Mode (c_ACL cfg)) "" "")
    (if bool_decide (role = RoleAgent) then c_Agent cfg else mkAgent 0 0 0 0 0)
    (mkDNSConfig (dns_Domain (c_DNS cfg)) (dns_AltDomain (c_DNS cfg)) 0 0 false 0 false [] 0)
    (mkFederation false 0 ∅) (mkMembershipConfig false [] 0) (mkBootstrapConfig false "" "" 0 false [] 0).

Lemma denoted_Render `{DurationText} cfg role seeds :
  i64_durations cfg → denoted (Render cfg role seeds) = Some (servedConfig cfg role seeds).
Proof.
  unfold i64_durations. rewrite !Forall_cons. intros (H1 & H2 & H3 & H4 & H5 & H6 & _).
  unfold denoted. cbn [Render r_TTL r_HeartbeatInterval r_ShutdownTimeout r_Agent].
  rewrite !read_dur by done. cbn [mbind option_bind].
  assert (Hag : match (if bool_decide (role = RoleAgent)
     then Some (mkRAgent (durStr (ag_SeedTimeout (c_Agent cfg))) (ag_WriteQuorum (c_Agent cfg)) (ag_ReadyMinSeeds (c_Agent cfg))
                  (durStr (ag_DrainWindow (c_Agent cfg))) (durStr (ag_CacheMaxAge (c_Agent cfg))))
     else None) with
       | None => Some (mkAgent 0 0 0 0 0)
       | Some a =>
           st ← (if bool_decide (ra_SeedTimeout a = ""%string) then Some 0 else dur_Parse (ra_SeedTimeout a));
           dw ← (if bool_decide (ra_DrainWindow a = ""%string) then Some 0 else dur_Parse (ra_DrainWindow a));
           cm ← (if bool_decide (ra_CacheMaxAge a = ""%string) then Some 0 else dur_Parse (ra_CacheMaxAge a));
           Some (mkAgent st (ra_WriteQuorum a) (ra_ReadyMinSeeds a) dw cm)
       end = Some (if bool_decide (role = RoleAgent) then c_Agent cfg else mkAgent 0 0 0 0 0)).
  { destruct (bool_decide (role = RoleAgent)); [|done].
    cbn [ra_SeedTimeout ra_DrainWindow ra_CacheMaxAge ra_WriteQuorum ra_ReadyMinSeeds].
    rewrite !read_durStr by done. by destruct (c_Agent cfg). }
  rewrite Hag. unfold servedConfig, Render.
  cbn [mbind option_bind r_Role r_Datacenter r_ClusterName r_Seeds r_GRPC r_ConsulHTTP r_DNSListener r_Metrics r_MaxServices r_TLS r_ACL r_DNS].
  do 2 f_equal.
  - by destruct (tls_Enabled (c_TLS cfg)).
  - destruct (decide (acl_Mode (c_ACL cfg) = ""%string)) as [E|E]; [by rewrite E|].
    rewrite (bool_decide_eq_true_2 (_ ≠ ""%string)) by done.
    destruct (decide (acl_Mode (c_ACL cfg) = "disabled"%string)) as [E'|E'].
    + by rewrite (bool_decide_eq_false_2 (_ ≠ _)), bool_decide_eq_true_2 by tauto.
    + by rewrite (bool_decide_eq_true_2 (_ ≠ _)), bool_decide_eq_false_2 by tauto.
  - destruct (decide (dns_Domain (c_DNS cfg) = ""%string)) as [E|E], (decide (dns_AltDomain (c_DNS cfg) = ""%string)) as [E'|E'].
    + by rewrite !bool_decide_eq_false_2, E, E' by tauto.
    + by rewrite (bool_decide_eq_true_2 (dns_AltDomain _ ≠ _)), orb_true_r by tauto.
    + by rewrite (bool_decide_eq_true_2 (dns_Domain _ ≠ _)) by tauto.
    + by rewrite (bool_decide_eq_true_2 (dns_Domain _ ≠ _)) by tauto.
Qed.

Lemma Parse_yaml c : Parse ".yaml" (Some c) =
  match Validate (applyDefaults c) with [] => Loaded (applyDefaults c) | errs => Invalid errs end.
Proof. done. Qed.

(** A loaded configuration is valid and has its defaults. *)
Lemma Parse_yaml_Loaded c cfg : Parse ".yaml" (Some c) = Loaded cfg → valid cfg ∧ applyDefaults cfg = cfg.
Proof.
  rewrite Parse_yaml. destruct (Validate _) eqn:E; [|done]. intros [= <-].
  split; [by apply Validate_nil|apply applyDefaults_idemp].
Qed.

Lemma or_int_id x d : x ≠ 0 → or_int x d = x.
Proof. unfold or_int. by destruct (Z.eqb_spec x 0). Qed.

Lemma or_str_id x d : x ≠ ""%string → or_str x d = x.
Proof. intros. unfold or_str. by rewrite bool_decide_eq_false_2. Qed.

Lemma or_int_fixed x d : d ≠ 0 → or_int x d = x → x ≠ 0.
Proof. intros Hd <-. by apply or_int_nonzero. Qed.

(** What a loaded configuration has because of its defaults. *)
Record has_defaults (c : Config) : Prop := {
  hd_dc : c_Datacenter c ≠ ""%string;
  hd_ports : l_Port (ls_GRPC (c_Listeners c)) ≠ 0 ∧ l_Port (ls_ConsulHTTP (c_Listeners c)) ≠ 0 ∧
    l_Port (ls_DNS (c_Listeners c)) ≠ 0 ∧ l_Port (ls_Metrics (c_Listeners c)) ≠ 0;
  hd_drain : ag_DrainWindow (c_Agent c) ≠ 0;
  hd_mode : acl_Mode (c_ACL c) ≠ ""%string;
  hd_domain : (if bool_decide (dns_Domain (c_DNS c) = ""%string) then "consul."%string else dotted (dns_Domain (c_DNS c))) = dns_Domain (c_DNS c);
  hd_alt : (if bool_decide (dns_AltDomain (c_DNS c) ≠ ""%string) then dotted (dns_AltDomain (c_DNS c)) else dns_AltDomain (c_DNS c)) =
    dns_AltDomain (c_DNS c)
}.

Lemma applyDefaults_has_defaults c : applyDefaults c = c → has_defaults c.
Proof.
  intros H. split.
  - intros E. by rewrite <-H in E; simpl in E; unfold or_str in E; case_bool_decide.
  - split_and!; rewrite <-H; simpl; by apply or_int_nonzero.
  - rewrite <-H. simpl. by apply or_int_nonzero.
  - intros E. by rewrite <-H in E; simpl in E; unfold or_str in E; case_bool_decide.
  - apply (f_equal (λ c, dns_Domain (c_DNS c)) H).
  - apply (f_equal (λ c, dns_AltDomain (c_DNS c)) H).
Qed.

Lemma served_agent c role seeds : valid c → has_defaults c →
  c_Agent (applyDefaults (servedConfig c role seeds)) =
  if bool_decide (role = RoleAgent) then c_Agent c else mkAgent (3 * second) 1 1 (5 * second) (5 * second).
Proof.
  intros Hv Hd. destruct (v_agent _ Hv) as (H1 & H2 & H3 & _ & H5). pose proof (hd_drain _ Hd).
  simpl. destruct (bool_decide (role = RoleAgent)); [|done]. rewrite !or_int_id by lia. by destruct (c_Agent c).
Qed.

Lemma served_valid c role seeds :
  valid c → has_defaults c → role = RoleAgent ∨ role = RoleSeed → seeds ≠ [] →
  tls_Enabled (c_TLS c) = false → acl_Mode (c_ACL c) ≠ "enforce"%string →
  valid (applyDefaults (servedConfig c role seeds)).
Proof.
  intros Hv Hd Hr Hs Ht Hm. pose proof (served_agent c role seeds Hv Hd) as Hag.
  destruct (hd_ports _ Hd) as (P1 & P2 & P3 & P4). pose proof (v_lease _ Hv). pose proof (v_shutdown _ Hv).
  assert (Hlst : ∀ e p q, p ≠ 0 → valid_listener (defaultListener (mkListener e "127.0.0.1" p) q)).
  { intros e p q Hp. split; simpl; [done|by rewrite or_int_id]. }
  split; [.. |rewrite Hag; destruct (bool_decide (role = RoleAgent)); [apply (v_agent _ Hv)|done] ];
    cbn -[defaultListener TrimSpace or_int]; try (intros; by apply Hlst); try done; rewrite ?Ht; try done.
  - by destruct Hr as [-> | ->]; [left|right].
  - apply (v_name _ Hv).
  - rewrite !or_int_id by lia. done.
  - rewrite or_int_id by lia. done.
  - intros _. by left.
  - destruct (bool_decide (acl_Mode (c_ACL c) = "disabled"%string)); [right; left|]. rewrite or_str_id by apply (hd_mode _ Hd). apply (v_mode _ Hv).
  - left.
  - destruct (bool_decide (acl_Mode (c_ACL c) = "disabled"%string)); simpl; [done|]. rewrite or_str_id by apply (hd_mode _ Hd). done.
Qed.

Lemma served_invalid c role seeds :
  has_defaults c → tls_Enabled (c_TLS c) = true ∨ bool_decide (acl_Mode (c_ACL c) = "enforce"%string) = true →
  ¬ valid (applyDefaults (servedConfig c role seeds)).
Proof.
  intros Hd Hn Hv. pose proof (v_tls _ Hv) as Ht. pose proof (v_enforce _ Hv) as He. pose proof (v_mutual _ Hv) as Hm. clear Hv.
  cbn -[or_str TrimSpace] in Ht, He, Hm. destruct (tls_Enabled (c_TLS c)) eqn:E.
  { destruct (Ht eq_refl) as [Hc _]. by apply Hc. }
  destruct Hn as [|Hn%bool_decide_eq_true]; [done|]. rewrite Hn in He. destruct (He eq_refl) as [|Hf]; [done|by apply Hf].
Qed.

(** The configuration a seed serves, read back by the joining node, loads exactly
    when no local credentials are needed, that is, TLS is off and authorization is not
    enforced; it then has the seed's cluster, times, zones and mode, the advertised
    seeds, the agent settings for an agent, and does not serve bootstrap itself. *)
Theorem served_config_loads `{DurationText} (c cfg : Config) (role : string) (seeds : list string) :
  Parse ".yaml" (Some c) = Loaded cfg → i64_durations cfg →
  role = RoleAgent ∨ role = RoleSeed → seeds ≠ [] →
  ∃ d, denoted (Render cfg role seeds) = Some d ∧
    if tls_Enabled (c_TLS cfg) || bool_decide (acl_Mode (c_ACL cfg) = "enforce"%string)
    then ∃ errs, Parse ".yaml" (Some d) = Invalid errs
    else ∃ c', Parse ".yaml" (Some d) = Loaded c' ∧
      c_Role c' = role ∧ c_Datacenter c' = c_Datacenter cfg ∧
      c_Cluster c' = mkCluster (cl_Name (c_Cluster cfg)) seeds None ∧
      c_TTL c' = c_TTL cfg ∧ c_HeartbeatInterval c' = c_HeartbeatInterval cfg ∧ c_ShutdownTimeout c' = c_ShutdownTimeout cfg ∧
      dns_Domain (c_DNS c') = dns_Domain (c_DNS cfg) ∧ dns_AltDomain (c_DNS c') = dns_AltDomain (c_DNS cfg) ∧
      acl_Mode (c_ACL c') = acl_Mode (c_ACL cfg) ∧ bs_Enabled (c_Bootstrap c') = false ∧
      (role = RoleAgent → c_Agent c' = c_Agent cfg).
Proof.
  intros HL Hi Hr Hs. destruct (Parse_yaml_Loaded _ _ HL) as [Hv Hd%applyDefaults_has_defaults].
  exists (servedConfig cfg role seeds). split; [by apply denoted_Render|].
  destruct (tls_Enabled (c_TLS cfg) || bool_decide (acl_Mode (c_ACL cfg) = "enforce"%string)) eqn:Hn.
  - rewrite Parse_yaml. destruct (Validate _) as [|e errs] eqn:E; [|by exists (e :: errs)].
    apply Validate_nil in E. apply orb_true_iff in Hn. exfalso. by apply (served_invalid _ _ _ Hd Hn) in E.
  - apply orb_false_iff in Hn as [Ht Hm%bool_decide_eq_false].
    pose proof (served_valid cfg role seeds Hv Hd Hr Hs Ht Hm) as HV. apply Validate_nil in HV.
    exists (applyDefaults (servedConfig cfg role seeds)). rewrite Parse_yaml, HV. split; [done|].
    rewrite (served_agent cfg role seeds) by done. pose proof (v_lease _ Hv). pose proof (v_shutdown _ Hv).
    cbn -[or_int or_str]. rewrite !or_int_id by lia. rewrite (hd_domain _ Hd), (hd_alt _ Hd), (or_str_id (c_Datacenter cfg)) by apply Hd.
    split_and!; try done.
    + by destruct Hr as [-> | ->].
    + destruct (bool_decide (acl_Mode (c_ACL cfg) = "disabled"%string)) eqn:E.
      * apply bool_decide_eq_true in E. by rewrite E.
      * by rewrite or_str_id by apply Hd.
    + intros ->. by rewrite bool_decide_eq_true_2.
Qed.

(** A seed's configuration, as loaded, with local secrets [key_file] and [node]. *)
Definition sampleSeed (key_file node : string) : Config :=
  let l := mkListener false "" 0 in
  mkConfig "seed" node "" "" "" false (mkCluster "prod" ["seed-a:9900"%string] None) (mkListeners l l l l) 0 0 0 0 0
    (mkTLS false "" key_file "" false) (mkACL "" "" "") (mkAgent 0 0 0 0 0)
    (mkDNSConfig "" "" 0 0 false 0 false [] 0) (mkFederation false 0 ∅) (mkMembershipConfig false [] 0)
    (mkBootstrapConfig true sampleKey "" 0 false ["seed-a:9900"%string] 0).

(** A call with a valid token is served, as an agent. *)
Lemma GetConfig_gate_witness :
  let token := default ""%string (MintToken sampleKey 0 (100 * second) (Some "nonce--8"%string)) in
  let s := NewService (applyDefaults (sampleSeed "k" "n")) sampleKey false ["seed-a:9900"%string] 10 in
  (GetConfig "10.0.0.1" (Some {[ "bootstrap-token"%string := [token] ]}) "" (101 * second) s).1 =
    inr (Render (applyDefaults (sampleSeed "k" "n")) RoleAgent ["seed-a:9900"%string]) ∧
  (Allow (101 * second) "10.0.0.1" (bsv_rrl s)).1 = true.
Proof.
  cbv zeta. set (token := default ""%string _). set (s := NewService _ _ _ _ _).
  pose proof (GetConfig_gate "10.0.0.1" "" (Some {[ "bootstrap-token"%string := [token] ]}) (101 * second) s) as H.
  assert (E : (GetConfig "10.0.0.1" (Some {[ "bootstrap-token"%string := [token] ]}) "" (101 * second) s).1 =
    inr (Render (applyDefaults (sampleSeed "k" "n")) RoleAgent ["seed-a:9900"%string])) by (vm_compute; reflexivity).
  destruct (GetConfig _ _ _ _ s) as [res s']. simpl in E. subst res. destruct H as (_ & H & _). split; [done|exact H].
Defined.

Lemma served_config_has_no_secrets_witness :
  (GetConfig "10.0.0.1" None "" 0 (mkBootService (sampleSeed "a.key" "n1") sampleKey false [] (New_limiter 0))).1 =
  (GetConfig "10.0.0.1" None "" 0 (mkBootService (sampleSeed "b.key" "n2") sampleKey false [] (New_limiter 0))).1.
Proof. apply served_config_has_no_secrets. split; reflexivity. Defined.

Lemma served_config_loads_witness :
  ∃ d c', denoted (Render (applyDefaults (sampleSeed "k" "n")) RoleAgent ["seed-a:9900"%string]) = Some d ∧
    Parse ".yaml" (Some d) = Loaded c' ∧ c_TTL c' = 30 * second.
Proof.
  destruct (served_config_loads (sampleSeed "k" "n") (applyDefaults (sampleSeed "k" "n")) RoleAgent ["seed-a:9900"%string])
    as (d & Hd & c' & HL & _ & _ & _ & HT & _).
  - vm_compute. reflexivity.
  - repeat constructor; vm_compute; discriminate.
  - by left.
  - done.
  - exists d, c'. split; [exact Hd|]. split; [exact HL|]. rewrite HT. reflexivity.
Defined.
