(* ===== verification/FakeClock.v ===== *)
(** The controllable clock, [src/internal/clock/fake.go]: timers, tickers and [After]
    channels that fire when [Advance] crosses their deadline.

    Waiters are shared between the clock's queue and the timer or ticker that owns
    them, so they live in a heap; a [fakeTimer] or [fakeTicker] is the reference of
    its waiter.  A waiter's channel has one slot.  [sync.Cond] only wakes up
    [BlockUntil], whose loop returns exactly in the states where [BlockUntil] holds. *)

From Stdlib Require Import ZArith Lia.
From stdpp Require Import base gmap list.
From S2P Require Import Prelude.

#[local] Open Scope Z_scope.

(** ** Data *)

Record waiter := mkWaiter { w_until : Z; w_period : Z; w_ch : option Z; w_stopped : bool }.

Record Fake := mkFake { f_now : Z; f_heap : gmap nat waiter; f_waiters : list nat; f_next : nat }.

Definition NewFake (t : Z) : Fake := mkFake t ∅ [] 0.

(** ** Operations *)

Definition Fake_Now (f : Fake) : Z := f_now f.

Definition Fake_Since (t : Z) (f : Fake) : Z := Time_Sub (Fake_Now f) t.

(** The non-blocking send into the one-slot channel. *)
Definition send (ch : option Z) (t : Z) : option Z := match ch with None => Some t | Some _ => ch end.

Definition newWaiter (d period : Z) (f : Fake) : nat * Fake :=
  let id := f_next f in
  if (d <=? 0) && (period =? 0)
  then (id, mkFake (f_now f) (<[id := mkWaiter (f_now f + d) period (Some (f_now f)) false]> (f_heap f)) (f_waiters f) (S id))
  else (id, mkFake (f_now f) (<[id := mkWaiter (f_now f + d) period None false]> (f_heap f)) (f_waiters f ++ [id]) (S id)).

(** [After] and [NewTimer]; [Sleep] is a receive from the channel of [After]. *)
Definition After (d : Z) (f : Fake) : nat * Fake := newWaiter d 0 f.

(** [None]: it panics. *)
Definition NewTicker (d : Z) (f : Fake) : option (nat * Fake) :=
  if d <=? 0 then None else Some (newWaiter d d f).

(** The loop over the elapsed periods of a ticker. *)
Fixpoint fire_ticks (fuel : nat) (now : Z) (w : waiter) : waiter :=
  match fuel with
  | O => w
  | S fuel =>
      if Time_After (w_until w) now then w
      else fire_ticks fuel now (mkWaiter (w_until w + w_period w) (w_period w) (send (w_ch w) (w_until w)) (w_stopped w))
  end.

(** One turn more than there are elapsed periods. *)
Definition tick_fuel (now : Z) (w : waiter) : nat := Z.to_nat ((now - w_until w) / w_period w + 2).

(** One waiter of the queue: what becomes of it, and whether it is kept. *)
Definition fire (now : Z) (w : waiter) : waiter * bool :=
  if w_stopped w then (w, false)
  else if 0 <? w_period w then (fire_ticks (tick_fuel now w) now w, true)
  else if negb (Time_After (w_until w) now)
  then (mkWaiter (w_until w) (w_period w) (send (w_ch w) (w_until w)) (w_stopped w), false)
  else (w, true).

(** The loop over the queue, with the kept waiters so far. *)
Fixpoint advance_loop (now : Z) (ids : list nat) (heap : gmap nat waiter) (kept : list nat) : gmap nat waiter * list nat :=
  match ids with
  | [] => (heap, kept)
  | id :: rest =>
      match heap !! id with
      | None => advance_loop now rest heap kept
      | Some w =>
          let '(w', keep) := fire now w in
          advance_loop now rest (<[id := w']> heap) (if keep then kept ++ [id] else kept)
      end
  end.

Definition Advance (d : Z) (f : Fake) : Fake :=
  let now := f_now f + d in
  let '(heap, kept) := advance_loop now (f_waiters f) (f_heap f) [] in
  mkFake now heap kept (f_next f).

(** [active] counts the waiters of the queue that are not stopped. *)
Definition live (f : Fake) (id : nat) : bool :=
  match f_heap f !! id with Some w => negb (w_stopped w) | None => false end.

Definition activeLocked (f : Fake) : Z := Z.of_nat (length (filter (λ id, live f id = true) (f_waiters f))).

(** The states in which a call of [BlockUntil n] returns. *)
Definition BlockUntil (n : Z) (f : Fake) : bool := n <=? activeLocked f.

Definition ensureQueuedLocked (id : nat) (f : Fake) : Fake :=
  if bool_decide (id ∈ f_waiters f) then f else mkFake (f_now f) (f_heap f) (f_waiters f ++ [id]) (f_next f).

Definition with_waiter (id : nat) (w : waiter) (f : Fake) : Fake :=
  mkFake (f_now f) (<[id := w]> (f_heap f)) (f_waiters f) (f_next f).

(** [Stop] of a timer or a ticker; the result is the timer's. *)
Definition Timer_Stop (id : nat) (f : Fake) : bool * Fake :=
  match f_heap f !! id with
  | None => (false, f)
  | Some w => (negb (w_stopped w), with_waiter id (mkWaiter (w_until w) (w_period w) (w_ch w) true) f)
  end.

Definition Timer_Reset (id : nat) (d : Z) (f : Fake) : bool * Fake :=
  match f_heap f !! id with
  | None => (false, f)
  | Some w => (negb (w_stopped w), ensureQueuedLocked id (with_waiter id (mkWaiter (f_now f + d) 0 (w_ch w) false) f))
  end.

Definition Ticker_Stop (id : nat) (f : Fake) : Fake := (Timer_Stop id f).2.

Definition Ticker_Reset (id : nat) (d : Z) (f : Fake) : option Fake :=
  if d <=? 0 then None
  else match f_heap f !! id with
       | None => Some f
       | Some w => Some (ensureQueuedLocked id (with_waiter id (mkWaiter (f_now f + d) d (w_ch w) false) f))
       end.

(** A receive from the waiter's channel, when it holds a value. *)
Definition recv (id : nat) (f : Fake) : option (Z * Fake) :=
  w ← f_heap f !! id; t ← w_ch w;
  Some (t, with_waiter id (mkWaiter (w_until w) (w_period w) None (w_stopped w)) f).

(** ** The state machine and its invariant *)

Inductive clock_step (f : Fake) : Fake → Prop :=
  | step_after d : clock_step f (After d f).2
  | step_ticker d id f' : NewTicker d f = Some (id, f') → clock_step f f'
  | step_advance d : clock_step f (Advance d f)
  | step_stop id : clock_step f (Timer_Stop id f).2
  | step_reset id d : clock_step f (Timer_Reset id d f).2
  | step_ticker_reset id d f' : Ticker_Reset id d f = Some f' → clock_step f f'
  | step_recv id t f' : recv id f = Some (t, f') → clock_step f f'.

Inductive clock_reachable (t : Z) : Fake → Prop :=
  | clock_start : clock_reachable t (NewFake t)
  | clock_next f f' : clock_reachable t f → clock_step f f' → clock_reachable t f'.

(** The queue names each waiter once, and only allocated ones. *)
Record clock_wf (f : Fake) : Prop := {
  cw_nodup : NoDup (f_waiters f);
  cw_queued : ∀ id, id ∈ f_waiters f → is_Some (f_heap f !! id);
  cw_fresh : ∀ id w, f_heap f !! id = Some w → (id < f_next f)%nat ∧ 0 <= w_period w
}.

(** ** Lemmas: firing *)

(** A ticker after the loop: the first deadline past [now], and the earliest tick that
    found the slot empty. *)
Definition ticked (now : Z) (w : waiter) : waiter :=
  if now <? w_until w then w
  else mkWaiter (w_until w + ((now - w_until w) / w_period w + 1) * w_period w) (w_period w)
         (send (w_ch w) (w_until w)) (w_stopped w).

Lemma send_some ch t t' : send (send ch t) t' = send ch t.
Proof. by destruct ch. Qed.

Lemma div_past a p : 0 < p → a < 0 → a / p + 1 <= 0.
Proof. intros. pose proof (Z.div_lt_upper_bound a p 0). lia. Qed.

(** The loop ends by itself within its fuel. *)
Lemma fire_ticks_spec fuel now w :
  0 < w_period w → (now - w_until w) / w_period w + 1 < Z.of_nat fuel → fire_ticks fuel now w = ticked now w.
Proof.
  intros Hp. revert w Hp. induction fuel as [|fuel IH]; intros w Hp Hf; simpl; unfold ticked, Time_After.
  { destruct (Z.ltb_spec now (w_until w)); [done|].
    pose proof (Z.div_pos (now - w_until w) (w_period w)). lia. }
  destruct (Z.ltb_spec now (w_until w)) as [|Hle]; [done|].
  assert (Hd : (now - (w_until w + w_period w)) / w_period w = (now - w_until w) / w_period w - 1).
  { replace (now - (w_until w + w_period w)) with (now - w_until w + (-1) * w_period w) by lia.
    rewrite Z.div_add by lia. lia. }
  rewrite IH; simpl; [|done|lia]. unfold ticked; simpl. rewrite send_some, Hd.
  destruct (Z.ltb_spec now (w_until w + w_period w)) as [Hlt|Hge].
  - rewrite (Z.div_small (now - w_until w)) by lia. f_equal. lia.
  - f_equal. lia.
Qed.

(** [fire] in closed form. *)
Lemma fire_spec now w : 0 <= w_period w →
  fire now w =
    if w_stopped w then (w, false)
    else if 0 <? w_period w then (ticked now w, true)
    else if now <? w_until w then (w, true)
    else (mkWaiter (w_until w) (w_period w) (send (w_ch w) (w_until w)) (w_stopped w), false).
Proof.
  intros Hp. unfold fire, Time_After. destruct (w_stopped w); [done|].
  destruct (Z.ltb_spec 0 (w_period w)) as [Hlt|]; [|by destruct (now <? w_until w)].
  rewrite fire_ticks_spec; [done|done|]. unfold tick_fuel.
  destruct (Z_lt_le_dec (now - w_until w) 0) as [Hn|Hn].
  - pose proof (div_past _ _ Hlt Hn). lia.
  - pose proof (Z.div_pos (now - w_until w) (w_period w)). lia.
Qed.

Lemma ticked_ticked n1 n2 w : 0 < w_period w → n1 <= n2 → ticked n2 (ticked n1 w) = ticked n2 w.
Proof.
  intros Hp Hn. unfold ticked at 2. destruct (Z.ltb_spec n1 (w_until w)) as [|Hle]; [done|].
  unfold ticked; simpl. destruct (Z.ltb_spec n2 (w_until w)) as [|_]; [lia|]. rewrite send_some.
  set (p := w_period w) in *. set (u := w_until w) in *. set (k := (n1 - u) / p + 1).
  assert (E : (n2 - (u + k * p)) / p = (n2 - u) / p - k).
  { replace (n2 - (u + k * p)) with (n2 - u + (- k) * p) by lia. rewrite Z.div_add by lia. lia. }
  destruct (Z.ltb_spec n2 (u + k * p)) as [Hlt|Hge]; f_equal; [|nia].
  assert (H0 : (n2 - (u + k * p)) / p < 0) by (apply Z.div_lt_upper_bound; lia).
  assert (H1 : (n1 - u) / p <= (n2 - u) / p) by (apply Z.div_le_mono; lia).
  replace ((n2 - u) / p + 1) with k by lia. done.
Qed.

Lemma ticked_fields now w : w_period (ticked now w) = w_period w ∧ w_stopped (ticked now w) = w_stopped w.
Proof. unfold ticked. by destruct (now <? w_until w). Qed.

Lemma fire_fields now w : 0 <= w_period w →
  w_period (fire now w).1 = w_period w ∧ w_stopped (fire now w).1 = w_stopped w.
Proof.
  intros Hp. rewrite fire_spec by done. destruct (w_stopped w) eqn:E; [done|].
  destruct (0 <? w_period w); simpl; [by rewrite <-E; apply ticked_fields|].
  by destruct (now <? w_until w).
Qed.

(** Firing at two instants is firing at the later one. *)
Lemma fire_fire n1 n2 w : 0 <= w_period w → n1 <= n2 →
  (if (fire n1 w).2 then fire n2 (fire n1 w).1 else fire n1 w) = fire n2 w.
Proof.
  intros Hp Hn. destruct (fire_fields n1 w Hp) as [Ep Es].
  rewrite (fire_spec n2 (fire n1 w).1) by lia. rewrite Ep, Es, !fire_spec by done.
  destruct (w_stopped w); [done|].
  destruct (Z.ltb_spec 0 (w_period w)); simpl; [by rewrite ticked_ticked|].
  destruct (Z.ltb_spec n1 (w_until w)); simpl; [done|]. destruct (Z.ltb_spec n2 (w_until w)); [lia|done].
Qed.

(** ** Lemmas: the queue *)

Definition keeps (now : Z) (heap : gmap nat waiter) (id : nat) : Prop :=
  match heap !! id with Some w => (fire now w).2 = true | None => False end.

#[local] Instance keeps_dec now heap id : Decision (keeps now heap id).
Proof. unfold keeps. destruct (heap !! id); apply _. Defined.

(** What [Advance] makes of the heap cell [id]. *)
Definition fired (now : Z) (ids : list nat) (heap : gmap nat waiter) (id : nat) : option waiter :=
  if decide (id ∈ ids) then (λ w, (fire now w).1) <$> heap !! id else heap !! id.

Lemma filter_ext_in {A} (P Q : A → Prop) `{∀ x, Decision (P x), ∀ x, Decision (Q x)} (l : list A) :
  (∀ x, x ∈ l → P x ↔ Q x) → filter P l = filter Q l.
Proof.
  induction l as [|x l IH]; intros Hx; [done|]. rewrite !filter_cons, IH by (intros; apply Hx; by right).
  specialize (Hx x ltac:(left)). destruct (decide (P x)), (decide (Q x)); tauto.
Qed.

Lemma advance_loop_spec now ids heap kept :
  NoDup ids → (∀ id, id ∈ ids → is_Some (heap !! id)) →
  (advance_loop now ids heap kept).2 = kept ++ filter (keeps now heap) ids ∧
  ∀ id, (advance_loop now ids heap kept).1 !! id = fired now ids heap id.
Proof.
  revert heap kept. induction ids as [|i ids IH]; intros heap kept Hnd Hin; simpl.
  { split; [by rewrite app_nil_r|]. intros id. unfold fired. destruct (decide (id ∈ [])) as [H|]; [set_solver|done]. }
  apply NoDup_cons in Hnd as [Hi Hnd]. destruct (Hin i ltac:(left)) as [w Hw]. rewrite Hw.
  destruct (fire now w) as [w' keep] eqn:Ef.
  assert (Hlk : ∀ id, id ∈ ids → <[i := w']> heap !! id = heap !! id) by (intros id Hid; rewrite lookup_insert_ne; [done|by intros ->]).
  destruct (IH (<[i := w']> heap) (if keep then kept ++ [i] else kept)) as [IHk IHl]; [done|..].
  { intros id Hid. rewrite Hlk by done. apply Hin. by right. }
  rewrite IHk. split.
  - rewrite filter_cons. assert (Hk : keeps now heap i ↔ keep = true) by (unfold keeps; by rewrite Hw, Ef).
    rewrite (filter_ext_in (keeps now (<[i:=w']> heap)) (keeps now heap)) by (intros x Hx; unfold keeps; by rewrite Hlk).
    destruct (decide (keeps now heap i)) as [Hd|Hd]; destruct keep; simpl; [by rewrite <-app_assoc| |tauto|done].
    by apply Hk in Hd.
  - intros id. rewrite IHl. unfold fired. destruct (decide (id ∈ ids)) as [Hid|Hid].
    + rewrite Hlk by done. rewrite decide_True by (by right). done.
    + destruct (decide (id = i)) as [->|Hne].
      * rewrite lookup_insert_eq, decide_True by left. rewrite Hw. simpl. by rewrite Ef.
      * rewrite lookup_insert_ne by done. rewrite decide_False by (intros [?|?]%elem_of_cons; done). done.
Qed.

Lemma Advance_spec d f : clock_wf f →
  f_waiters (Advance d f) = filter (keeps (f_now f + d) (f_heap f)) (f_waiters f) ∧
  (∀ id, f_heap (Advance d f) !! id = fired (f_now f + d) (f_waiters f) (f_heap f) id) ∧
  f_now (Advance d f) = f_now f + d ∧ f_next (Advance d f) = f_next f.
Proof.
  intros Hw. unfold Advance.
  destruct (advance_loop_spec (f_now f + d) (f_waiters f) (f_heap f) []) as [H1 H2]; [apply Hw|apply Hw|].
  by destruct (advance_loop _ _ _ _) as [heap kept].
Qed.

Lemma cw_period f id w : clock_wf f → f_heap f !! id = Some w → 0 <= w_period w.
Proof. intros Hw Hid. by destruct (cw_fresh _ Hw _ _ Hid). Qed.

Lemma wf_NewFake t : clock_wf (NewFake t).
Proof. split; simpl; [constructor|set_solver|done]. Qed.

Lemma wf_newWaiter d period f : 0 <= period → clock_wf f → clock_wf (newWaiter d period f).2.
Proof.
  intros Hp [Hn Hq Hf]. unfold newWaiter.
  assert (Hnew : f_next f ∉ f_waiters f).
  { intros [w Hw]%Hq. apply Hf in Hw. lia. }
  assert (Hfr : ∀ w id x, 0 <= w_period w → <[f_next f := w]> (f_heap f) !! id = Some x → (id < S (f_next f))%nat ∧ 0 <= w_period x).
  { intros w id x Hw [[<- <-]|[_ [? ?]%Hf]]%lookup_insert_Some; split; [lia|done|lia|done]. }
  destruct ((d <=? 0) && (period =? 0)); split; simpl.
  - done.
  - intros id Hid. rewrite lookup_insert_is_Some'. auto.
  - intros id x Hx. by eapply Hfr, Hx.
  - apply NoDup_app. split_and!; [done|set_solver|apply NoDup_singleton].
  - intros id [Hid| ->%list_elem_of_singleton]%elem_of_app; rewrite lookup_insert_is_Some'; [auto|by left].
  - intros id x Hx. by eapply Hfr, Hx.
Qed.

Lemma wf_with_waiter id w w' f : f_heap f !! id = Some w → 0 <= w_period w' → clock_wf f → clock_wf (with_waiter id w' f).
Proof.
  intros Hw Hp [Hn Hq Hf]. split; simpl; [done| |].
  - intros i Hi. rewrite lookup_insert_is_Some'. auto.
  - intros i x [[<- <-]|[_ Hx]]%lookup_insert_Some; [|by apply Hf]. split; [by eapply Hf|done].
Qed.

Lemma wf_ensureQueued id f : is_Some (f_heap f !! id) → clock_wf f → clock_wf (ensureQueuedLocked id f).
Proof.
  intros Hi [Hn Hq Hf]. unfold ensureQueuedLocked. case_bool_decide as Hin; split; simpl; try done.
  - apply NoDup_app. split_and!; [done|set_solver|apply NoDup_singleton].
  - intros i [?| ->%list_elem_of_singleton]%elem_of_app; auto.
Qed.

Lemma wf_Advance d f : clock_wf f → clock_wf (Advance d f).
Proof.
  intros Hw. destruct (Advance_spec d f Hw) as (Hq & Hh & Hn & Hx). destruct Hw as [Hn' Hq' Hf]. split.
  - rewrite Hq. by apply NoDup_filter.
  - intros id. rewrite Hq, list_elem_of_filter, Hh. intros [_ Hid]. unfold fired. rewrite decide_True by done.
    apply fmap_is_Some. auto.
  - intros id w. rewrite Hh, Hx. unfold fired. destruct (decide (id ∈ f_waiters f)); [|apply Hf].
    destruct (f_heap f !! id) as [w0|] eqn:E; [|done]. intros [= <-]. destruct (Hf _ _ E) as [? Hp].
    split; [done|]. by destruct (fire_fields (f_now f + d) w0 Hp) as [-> _].
Qed.

#[local] Hint Resolve wf_NewFake wf_newWaiter wf_with_waiter wf_ensureQueued wf_Advance : yp.

Lemma wf_clock_step f f' : clock_step f f' → clock_wf f → clock_wf f'.
Proof.
  intros Hs Hw. destruct Hs as [d|d id f' Hf|d|id|id d|id d f' Hf|id t f' Hf].
  - by apply wf_newWaiter.
  - unfold NewTicker in Hf. destruct (Z.leb_spec d 0); [done|]. injection Hf as Hf.
    replace f' with (newWaiter d d f).2 by (by rewrite Hf). apply wf_newWaiter; [lia|done].
  - by apply wf_Advance.
  - unfold Timer_Stop. destruct (f_heap f !! id) as [w|] eqn:E; [|done]. eapply wf_with_waiter; [done| |done].
    simpl; by eapply cw_period.
  - unfold Timer_Reset. destruct (f_heap f !! id) as [w|] eqn:E; [|done]. apply wf_ensureQueued.
    + simpl. rewrite lookup_insert_eq. done.
    + by eapply wf_with_waiter.
  - unfold Ticker_Reset in Hf. destruct (Z.leb_spec d 0); [done|]. destruct (f_heap f !! id) as [w|] eqn:E; simplify_eq; [|done].
    apply wf_ensureQueued; [simpl; by rewrite lookup_insert_eq|]. eapply wf_with_waiter; [done|simpl; lia|done].
  - unfold recv in Hf. destruct (f_heap f !! id) as [w|] eqn:E; [|done]. simpl in Hf.
    destruct (w_ch w) as [t'|]; [|done]. simplify_eq/=. eapply wf_with_waiter; [done| |done]. simpl; by eapply cw_period.
Qed.

Lemma wf_clock_reachable t f : clock_reachable t f → clock_wf f.
Proof. induction 1; [apply wf_NewFake|by eapply wf_clock_step]. Qed.

Lemma Advance_Advance a b f : clock_wf f → 0 <= b → Advance b (Advance a f) = Advance (a + b) f.
Proof.
  intros Hw Hb. pose proof (wf_Advance a f Hw) as Hwa.
  destruct (Advance_spec a f Hw) as (Q1 & H1 & N1 & X1).
  destruct (Advance_spec b _ Hwa) as (Q2 & H2 & N2 & X2).
  destruct (Advance_spec (a + b) f Hw) as (Q3 & H3 & N3 & X3).
  rewrite N1 in *. replace (f_now f + (a + b)) with (f_now f + a + b) in * by lia.
  set (n1 := f_now f + a) in *. set (n2 := n1 + b) in *.
  assert (Hff : ∀ w id, f_heap f !! id = Some w →
    (if (fire n1 w).2 then fire n2 (fire n1 w).1 else fire n1 w) = fire n2 w).
  { intros w id Hid. apply fire_fire; [by apply (cw_period f id)|lia]. }
  assert (HQ : f_waiters (Advance b (Advance a f)) = f_waiters (Advance (a + b) f)).
  { rewrite Q2, Q1, Q3, list_filter_filter. apply filter_ext_in. intros id Hid. unfold keeps. rewrite H1. unfold fired.
    rewrite decide_True by done. destruct (cw_queued _ Hw _ Hid) as [w Hid']. rewrite Hid'; simpl.
    specialize (Hff _ _ Hid'). rewrite <-Hff. destruct (fire n1 w) as [w1 []]; simpl; intuition congruence. }
  assert (HH : f_heap (Advance b (Advance a f)) = f_heap (Advance (a + b) f)).
  { apply map_eq. intros id. rewrite H2, H3. unfold fired at 1. rewrite Q1, H1. unfold fired.
    destruct (decide (id ∈ f_waiters f)) as [Hid|Hid].
    - destruct (cw_queued _ Hw _ Hid) as [w Hid']. rewrite Hid'. simpl. specialize (Hff _ _ Hid').
      destruct (decide (id ∈ filter _ _)) as [Hk|Hk]; rewrite list_elem_of_filter in Hk; unfold keeps in Hk; rewrite Hid' in Hk.
      + destruct Hk as [Hk _]. rewrite Hk in Hff. simpl. by rewrite Hff.
      + destruct (fire n1 w) as [w1 []]; [tauto|]. by rewrite <-Hff.
    - rewrite decide_False; [done|]. by rewrite list_elem_of_filter; intros []. }
  destruct (Advance b (Advance a f)), (Advance (a + b) f); simpl in *; congruence.
Qed.

(** The sum of a run of advances. *)
Definition total (ds : list Z) : Z := foldr Z.add 0 ds.

Lemma total_nonneg ds : Forall (λ d, 0 <= d) ds → 0 <= total ds.
Proof. induction 1; simpl; lia. Qed.

Lemma Advance_all ds d f : clock_wf f → Forall (λ d, 0 <= d) ds → foldl (λ f d, Advance d f) (Advance d f) ds = Advance (d + total ds) f.
Proof.
  intros Hw Hds. revert d. induction Hds as [|x ds Hx _ IH]; intros d; simpl; [by rewrite Z.add_0_r|].
  rewrite Advance_Advance, IH by done. f_equal. lia.
Qed.

(** What a queued waiter becomes. *)
Lemma Advance_queued d f id w : clock_wf f → id ∈ f_waiters f → f_heap f !! id = Some w →
  f_heap (Advance d f) !! id = Some (fire (f_now f + d) w).1 ∧
  (id ∈ f_waiters (Advance d f) ↔ (fire (f_now f + d) w).2 = true).
Proof.
  intros Hw Hq Hid. destruct (Advance_spec d f Hw) as (Q & H & _). rewrite H, Q. unfold fired.
  rewrite decide_True by done. rewrite Hid. split; [done|]. rewrite list_elem_of_filter. unfold keeps. rewrite Hid. tauto.
Qed.

(** A new waiter that does not fire at once. *)
Lemma newWaiter_queued d period f : 0 < d →
  let '(id, f1) := newWaiter d period f in
  id ∈ f_waiters f1 ∧ f_heap f1 !! id = Some (mkWaiter (f_now f + d) period None false) ∧ f_now f1 = f_now f.
Proof.
  intros Hd. unfold newWaiter. destruct (Z.leb_spec d 0); [lia|]. simpl. rewrite lookup_insert_eq. set_solver.
Qed.

(** ** Claims *)

(** Moving the clock in steps is moving it at once: in every reachable state a run of
    advances leaves the same queue, deadlines and channel contents as one advance by
    their sum. *)
Theorem Advance_compose (t d : Z) (ds : list Z) (f : Fake) :
  clock_reachable t f → Forall (λ d, 0 <= d) ds →
  foldl (λ f d, Advance d f) (Advance d f) ds = Advance (d + total ds) f.
Proof. intros Hw%wf_clock_reachable Hds. by apply Advance_all. Qed.

(** Timers and tickers fire on time: however the clock is moved, a timer set for [d]
    delivers its own deadline exactly when the clock has moved by [d] or more, and
    leaves the queue then; a ticker delivers its first tick, stays queued, and its next
    deadline is the first multiple of its period that is still ahead. *)
Theorem timers_fire_on_time (t d x : Z) (ds : list Z) (f : Fake) :
  clock_reachable t f → 0 < d → Forall (λ d, 0 <= d) (x :: ds) →
  let moved := x + total ds in
  (let '(id, f1) := After d f in
   let f2 := foldl (λ f d, Advance d f) (Advance x f1) ds in
   f_heap f2 !! id = Some (mkWaiter (f_now f + d) 0 (if d <=? moved then Some (f_now f + d) else None) false) ∧
   (id ∈ f_waiters f2 ↔ moved < d)) ∧
  (∃ id f1, NewTicker d f = Some (id, f1) ∧
   let f2 := foldl (λ f d, Advance d f) (Advance x f1) ds in
   f_heap f2 !! id = Some (mkWaiter (f_now f + (moved / d + 1) * d) d (if d <=? moved then Some (f_now f + d) else None) false) ∧
   id ∈ f_waiters f2 ∧ moved < (moved / d + 1) * d <= moved + d).
Proof.
  intros Hw%wf_clock_reachable Hd [Hx Hds]%Forall_cons. cbv zeta. pose proof (total_nonneg ds Hds) as Ht.
  set (moved := x + total ds). assert (Hm : 0 <= moved) by (unfold moved; lia).
  split.
  - pose proof (newWaiter_queued d 0 f Hd) as Hn. pose proof (wf_newWaiter d 0 f ltac:(lia) Hw) as Hw1.
    unfold After. destruct (newWaiter d 0 f) as [id f1]. destruct Hn as (Hq & Hh & Hnow). simpl in Hw1.
    rewrite Advance_all by done. fold moved. destruct (Advance_queued moved f1 id _ Hw1 Hq Hh) as [E Eq]. rewrite E, Eq, Hnow.
    rewrite fire_spec by (simpl; lia). simpl.
    destruct (Z.ltb_spec (f_now f + moved) (f_now f + d)), (Z.leb_spec d moved); simpl; try lia; split; done || lia.
  - pose proof (newWaiter_queued d d f Hd) as Hn. pose proof (wf_newWaiter d d f ltac:(lia) Hw) as Hw1.
    unfold NewTicker. destruct (Z.leb_spec d 0); [lia|]. destruct (newWaiter d d f) as [id f1]. destruct Hn as (Hq & Hh & Hnow).
    exists id, f1. split; [done|]. simpl in Hw1. rewrite Advance_all by done. fold moved.
    destruct (Advance_queued moved f1 id _ Hw1 Hq Hh) as [E Eq]. rewrite E, Eq, Hnow, fire_spec by (simpl; lia). simpl.
    destruct (Z.ltb_spec 0 d); [|lia]. unfold ticked; simpl. pose proof (Z.mul_div_le moved d Hd).
    pose proof (Z.mul_succ_div_gt moved d Hd). split; [|split; [done|lia]].
    destruct (Z.ltb_spec (f_now f + moved) (f_now f + d)), (Z.leb_spec d moved); try lia; do 2 f_equal.
    + rewrite (Z.div_small moved d) by lia. lia.
    + replace (f_now f + moved - (f_now f + d)) with (moved + (-1) * d) by lia. rewrite Z.div_add by lia. lia.
Qed.

(** The contract says that a timer behaves as [time.Timer]'s, whose [Stop] and [Reset]
    report whether the timer was still pending.  Here a timer that has fired reports
    that it was, and one reset to a past deadline waits for the next advance. *)
Theorem fired_timer_reports_active :
  let '(id, f) := After 5 (NewFake 0) in
  let f1 := Advance 5 f in
  w_ch <$> f_heap f1 !! id = Some (Some 5) ∧ id ∉ f_waiters f1 ∧
  (Timer_Stop id f1).1 = true ∧ (Timer_Reset id 7 f1).1 = true ∧
  (let f2 := (Timer_Reset id 0 (default f1 (snd <$> recv id f1))).2 in
   w_ch <$> f_heap f2 !! id = Some None ∧ w_ch <$> f_heap (Advance 0 f2) !! id = Some (Some 5)).
Proof. vm_compute. split_and!; try done. by intros H%elem_of_nil. Qed.

(** A clock with a running ticker of period 10. *)
Definition sampleClock : Fake := (newWaiter 10 10 (NewFake 0)).2.

Lemma sampleClock_reachable : clock_reachable 0 sampleClock.
Proof. eapply clock_next; [apply clock_start|]. by apply (step_ticker _ 10 0%nat). Qed.

Lemma Advance_compose_witness : foldl (λ f d, Advance d f) (Advance 5 sampleClock) [7; 30] = Advance 42 sampleClock.
Proof. apply (Advance_compose 0 5 [7; 30] sampleClock sampleClock_reachable). repeat constructor; lia. Defined.

Lemma timers_fire_on_time_witness :
  let '(id, f1) := After 12 sampleClock in
  w_ch <$> f_heap (foldl (λ f d, Advance d f) (Advance 5 f1) [7]) !! id = Some (Some 12).
Proof.
  destruct (timers_fire_on_time 0 12 5 [7] sampleClock sampleClock_reachable) as [H _]; [lia|repeat constructor; lia|].
  cbv zeta in H. destruct (After 12 sampleClock) as [id f1]. destruct H as [H _]. rewrite H. reflexivity.
Defined.
