(* ===== verification/App.v ===== *)
(** The process lifecycle, [src/internal/app/app.go]: components started under one
    errgroup, the trigger that ends the run, and the bounded shutdown.

    [Run] is a state machine.  Its threads are the components' [Start]s, the goroutine
    of [stopComponents] that calls the [Stop]s one after the other, and [Run] itself;
    when a [Start] or a [Stop] returns, if it does, and with which error, is the
    environment's.  A
    component is named by its position.  An error that is [context.Canceled] is
    [ErrCanceled].  What the logger writes is left out. *)

From Stdlib Require Import ZArith Lia.
From stdpp Require Import base list strings sets.
From S2P Require Import Prelude.

(** ** Options *)

(** The clock of an application: the system's, or one a test injects. *)
Inductive ClockRef := SystemRef | InjectedRef.

(** [a_log]: the logger that was set, [None] for the default one. *)
Record App (L : Type) := mkApp {
  a_components : list string; a_log : option L; a_clk : ClockRef; a_shutdownTimeout : Z; a_signals : list string
}.
Arguments mkApp {L}.
Arguments a_components {L}.
Arguments a_log {L}.
Arguments a_clk {L}.
Arguments a_shutdownTimeout {L}.
Arguments a_signals {L}.

Section Options.
Context {L : Type}.

Definition Option : Type := App L → App L.

Definition WithComponents (cs : list string) : Option :=
  λ a, mkApp (a_components a ++ cs) (a_log a) (a_clk a) (a_shutdownTimeout a) (a_signals a).

(** A nil logger or clock is ignored. *)
Definition WithLogger (l : option L) : Option :=
  λ a, match l with
       | Some l => mkApp (a_components a) (Some l) (a_clk a) (a_shutdownTimeout a) (a_signals a)
       | None => a
       end.

Definition WithClock (c : option ClockRef) : Option :=
  λ a, match c with
       | Some c => mkApp (a_components a) (a_log a) c (a_shutdownTimeout a) (a_signals a)
       | None => a
       end.

Definition WithShutdownTimeout (d : Z) : Option :=
  λ a, if (0 <? d)%Z then mkApp (a_components a) (a_log a) (a_clk a) d (a_signals a) else a.

Definition WithSignals (sig : list string) : Option :=
  λ a, mkApp (a_components a) (a_log a) (a_clk a) (a_shutdownTimeout a) sig.

Definition New (opts : list Option) : App L :=
  foldl (λ a o, o a) (mkApp [] None SystemRef (15 * second) ["interrupt"%string; "terminated"%string]) opts.
End Options.

(** ** Run *)

Inductive Err := ErrCanceled | ErrOther (msg : string).

(** What ended the context: a signal or the parent's end, or the first failure. *)
Inductive Cause := Triggered | ComponentFailed (i : nat) (msg : string).

(** What [stopComponents] returns: the joined [Stop] errors, or the timeout. *)
Inductive StopResult := StopJoined (errs : list (nat * string)) | ErrShutdownTimeout.

Inductive RunError := RunFailed (i : nat) (msg : string) | RunStopFailed (errs : list (nat * string)) | RunTimedOut.

(** [Run]'s own thread: at [<-gctx.Done()], in the select of [stopComponents], at
    [g.Wait()], or returned. *)
Inductive Main := AtDone | AtSelect | AtWait (r : StopResult) | Returned (r : option RunError).

(** [r_starts]: whether each [Start] has returned; [r_cause]: the end of [gctx];
    [r_err]: the error the errgroup holds; [r_stopper]: the components the stopping
    goroutine has still to stop, the one it is in first, and the errors so far;
    [r_done]: the channel it answers on; [r_cancelled]: the end of [stopCtx];
    [r_stops]: the [Stop] calls that have returned, in order. *)
Record Run := mkRun {
  r_starts : list bool;
  r_cause : option Cause;
  r_err : option (nat * string);
  r_main : Main;
  r_stopper : option (list nat * list (nat * string));
  r_done : option (list (nat * string));
  r_cancelled : bool;
  r_stops : list nat
}.

Definition run_start (n : nat) : Run := mkRun (replicate n false) None None AtDone None None false [].

(** The return of a [Start] in the errgroup's goroutine: the first error that is not a
    cancellation is kept and ends the context. *)
Definition start_returns (i : nat) (e : option Err) (s : Run) : Run :=
  let starts := <[i := true]> (r_starts s) in
  match e, r_err s with
  | Some (ErrOther msg), None =>
      mkRun starts (match r_cause s with None => Some (ComponentFailed i msg) | c => c end) (Some (i, msg))
        (r_main s) (r_stopper s) (r_done s) (r_cancelled s) (r_stops s)
  | _, _ => mkRun starts (r_cause s) (r_err s) (r_main s) (r_stopper s) (r_done s) (r_cancelled s) (r_stops s)
  end.

(** [stopComponents] up to its select, or all of it when there is nothing to stop. *)
Definition stopComponents (s : Run) : Run :=
  let n := length (r_starts s) in
  if (n =? 0)%nat
  then mkRun (r_starts s) (r_cause s) (r_err s) (AtWait (StopJoined [])) (r_stopper s) (r_done s) (r_cancelled s) (r_stops s)
  else mkRun (r_starts s) (r_cause s) (r_err s) AtSelect (Some (rev (seq 0 n), [])) (r_done s) (r_cancelled s) (r_stops s).

(** The [Stop] of component [i] returns in the goroutine. *)
Definition stop_returns (i : nat) (e : option Err) (rest : list nat) (errs : list (nat * string)) (s : Run) : Run :=
  let errs := match e with Some (ErrOther msg) => errs ++ [(i, msg)] | _ => errs end in
  mkRun (r_starts s) (r_cause s) (r_err s) (r_main s) (Some (rest, errs)) (r_done s) (r_cancelled s) (r_stops s ++ [i]).

(** [g.Wait()] and the result of [Run]. *)
Definition run_result (err : option (nat * string)) (r : StopResult) : option RunError :=
  match err, r with
  | Some (i, msg), _ => Some (RunFailed i msg)
  | None, StopJoined [] => None
  | None, StopJoined errs => Some (RunStopFailed errs)
  | None, ErrShutdownTimeout => Some RunTimedOut
  end.

Inductive run_step : Run → Run → Prop :=
  (** A signal arrives or the parent context ends. *)
  | rs_trigger s :
      r_cause s = None →
      run_step s (mkRun (r_starts s) (Some Triggered) (r_err s) (r_main s) (r_stopper s) (r_done s) (r_cancelled s) (r_stops s))
  | rs_start_returns s i e :
      r_starts s !! i = Some false → run_step s (start_returns i e s)
  | rs_stopping s :
      r_main s = AtDone → r_cause s ≠ None → run_step s (stopComponents s)
  | rs_stop_returns s i e rest errs :
      r_stopper s = Some (i :: rest, errs) → run_step s (stop_returns i e rest errs s)
  (** The goroutine sends the joined errors on its buffered channel. *)
  | rs_stopper_done s errs :
      r_stopper s = Some ([], errs) →
      run_step s (mkRun (r_starts s) (r_cause s) (r_err s) (r_main s) None (Some errs) (r_cancelled s) (r_stops s))
  (** The two branches of the select. *)
  | rs_stopped s errs :
      r_main s = AtSelect → r_done s = Some errs →
      run_step s (mkRun (r_starts s) (r_cause s) (r_err s) (AtWait (StopJoined errs)) (r_stopper s) None true (r_stops s))
  | rs_timeout s :
      r_main s = AtSelect →
      run_step s (mkRun (r_starts s) (r_cause s) (r_err s) (AtWait ErrShutdownTimeout) (r_stopper s) (r_done s) true (r_stops s))
  (** [g.Wait()] returns once every [Start] has. *)
  | rs_return s r :
      r_main s = AtWait r → Forall (λ b, b = true) (r_starts s) →
      run_step s (mkRun (r_starts s) (r_cause s) (r_err s) (Returned (run_result (r_err s) r)) (r_stopper s) (r_done s) (r_cancelled s) (r_stops s)).

Inductive run_reachable (n : nat) : Run → Prop :=
  | rr_start : run_reachable n (run_start n)
  | rr_step s s' : run_reachable n s → run_step s s' → run_reachable n s'.

(** ** Invariant *)

(** What the stopping goroutine has done: its calls in order, and what is left. *)
Definition stopped_so_far (n : nat) (s : Run) : Prop :=
  match r_stopper s with
  | Some (rest, _) => r_stops s ++ rest = rev (seq 0 n) ∧ r_done s = None
  | None => r_stops s = rev (seq 0 n)
  end.

(** Where [Run] is, and what holds there. *)
Definition main_ok (n : nat) (s : Run) : Prop :=
  match r_main s with
  | AtDone => r_stops s = [] ∧ r_stopper s = None ∧ r_done s = None
  | AtSelect => stopped_so_far n s ∧ r_cause s ≠ None ∧ (r_stopper s = None → r_done s ≠ None)
  | AtWait r =>
      stopped_so_far n s ∧ r_cause s ≠ None ∧
      match r with StopJoined _ => r_stopper s = None | ErrShutdownTimeout => r_cancelled s = true end
  | Returned res =>
      stopped_so_far n s ∧ r_cause s ≠ None ∧ Forall (λ b, b = true) (r_starts s) ∧
      ∃ r, res = run_result (r_err s) r ∧
        match r with StopJoined _ => r_stopper s = None | ErrShutdownTimeout => r_cancelled s = true end
  end.

Record run_inv (n : nat) (s : Run) : Prop := {
  ri_length : length (r_starts s) = n;
  ri_main : main_ok n s;
  ri_err : ∀ i msg, r_err s = Some (i, msg) → r_cause s ≠ None ∧ r_starts s !! i = Some true
}.

Lemma run_inv_start n : run_inv n (run_start n).
Proof. split; simpl; [apply length_replicate|done|done]. Qed.

Lemma start_returns_fields i e s :
  r_starts (start_returns i e s) = <[i := true]> (r_starts s) ∧ r_main (start_returns i e s) = r_main s ∧
  r_stopper (start_returns i e s) = r_stopper s ∧ r_done (start_returns i e s) = r_done s ∧
  r_cancelled (start_returns i e s) = r_cancelled s ∧ r_stops (start_returns i e s) = r_stops s ∧
  (r_cause s ≠ None → r_cause (start_returns i e s) = r_cause s).
Proof.
  unfold start_returns. destruct e as [[|msg]|]; try (split_and!; done).
  destruct (r_err s); split_and!; simpl; try done. by destruct (r_cause s).
Qed.

Lemma run_inv_start_returns n i e s : r_starts s !! i = Some false → run_inv n s → run_inv n (start_returns i e s).
Proof.
  intros Hi [Hl Hm He].
  destruct (start_returns_fields i e s) as (F1 & F2 & F3 & F4 & F5 & F6 & F7). split.
  - by rewrite F1, length_insert.
  - unfold main_ok, stopped_so_far in *. rewrite F2, F3, F4, F5, F6. destruct (r_main s) as [| |r|res].
    + done.
    + destruct Hm as (H1 & H2 & H3). rewrite F7 by done. done.
    + destruct Hm as (H1 & H2 & H3). rewrite F7 by done. done.
    + destruct Hm as (H1 & H2 & H3 & _). exfalso. by apply (Forall_lookup_1 _ _ _ _ H3) in Hi.
  - intros j msg Hj. rewrite F1. assert (Hcase : (j = i ∧ r_cause (start_returns i e s) ≠ None) ∨ r_err s = Some (j, msg)).
    { unfold start_returns in *. destruct e as [[|m]|]; try (by right). destruct (r_err s); [by right|].
      left. simpl in *. split; [congruence|]. by destruct (r_cause s). }
    destruct Hcase as [[-> Hc]|Hj'].
    + split; [done|]. apply list_lookup_insert_eq. by eapply lookup_lt_Some.
    + destruct (He _ _ Hj') as [Hc Hs]. rewrite F7 by done. split; [done|].
      rewrite list_lookup_insert_ne; [done|]. intros ->. congruence.
Qed.

Lemma run_inv_step n s s' : run_step s s' → run_inv n s → run_inv n s'.
Proof.
  intros Hst Hinv. destruct Hst as [s Hc|s i e Hi|s Hm Hc|s i e rest errs Hs|s errs Hs|s errs Hm Hd|s Hm|s r Hm Hall].
  2: by apply run_inv_start_returns.
  all: destruct Hinv as [Hl Hmain He]; unfold main_ok in Hmain; rewrite ?Hm in Hmain.
  - split; simpl; [done| |intros i msg [? ?]%He; done]. unfold main_ok; simpl.
    destruct (r_main s); [done|..]; destruct Hmain as (_ & ? & _); congruence.
  - unfold stopComponents. destruct Hmain as (E1 & E2 & E3). rewrite Hl. destruct (Nat.eqb_spec n 0) as [->|Hn].
    + split; simpl; [done| |done]. unfold main_ok, stopped_so_far; simpl. rewrite E2, E1. done.
    + split; simpl; [done| |done]. unfold main_ok, stopped_so_far; simpl. rewrite E1, E3. done.
  - split; simpl; [done| |done]. unfold main_ok, stopped_so_far in *; simpl. rewrite Hs in Hmain.
    rewrite <-app_assoc. destruct (r_main s) as [| |r|res]; [by destruct Hmain as (_ & ? & _)|..].
    + by destruct Hmain as (? & ? & _).
    + destruct Hmain as (? & ? & Hr). by destruct r.
    + destruct Hmain as ([? ?] & ? & ? & r & ? & Hr). split; [done|]. split; [done|]. split; [done|]. exists r. by destruct r.
  - split; simpl; [done| |done]. unfold main_ok, stopped_so_far in *; simpl. rewrite Hs in Hmain.
    rewrite app_nil_r in Hmain. destruct (r_main s) as [| |r|res]; [by destruct Hmain as (_ & ? & _)|..].
    + by destruct Hmain as ([? ?] & ? & _).
    + destruct Hmain as ([? ?] & ? & Hr). by destruct r.
    + destruct Hmain as ([? ?] & ? & ? & r & ? & Hr). split; [done|]. split; [done|]. split; [done|]. exists r. by destruct r.
  - split; simpl; [done| |done]. unfold main_ok, stopped_so_far in *; simpl. destruct Hmain as (H1 & H2 & H3).
    destruct (r_stopper s) as [[rest es]|]; [|done]. destruct H1 as [_ H1]. congruence.
  - split; simpl; [done| |done]. unfold main_ok, stopped_so_far in *; simpl. destruct Hmain as (H1 & H2 & H3). done.
  - split; simpl; [done| |done]. unfold main_ok, stopped_so_far in *; simpl. destruct Hmain as (H1 & H2 & H3).
    split_and!; [done..|]. by exists r.
Qed.

Lemma run_inv_reachable n s : run_reachable n s → run_inv n s.
Proof. induction 1; [apply run_inv_start|by eapply run_inv_step]. Qed.

(** The stops that have returned are the last components, in reverse start order. *)
Lemma run_inv_stops n s : run_inv n s → r_stops s `prefix_of` rev (seq 0 n).
Proof.
  intros [_ Hm _]. unfold main_ok, stopped_so_far in Hm. destruct (r_main s).
  - destruct Hm as [-> _]. apply prefix_nil.
  - destruct (r_stopper s) as [[rest es]|]; destruct Hm as [Hm _]; [|by rewrite Hm]. destruct Hm as [<- _]. by apply prefix_app_r.
  - destruct (r_stopper s) as [[rest es]|]; destruct Hm as [Hm _]; [|by rewrite Hm]. destruct Hm as [<- _]. by apply prefix_app_r.
  - destruct (r_stopper s) as [[rest es]|]; destruct Hm as [Hm _]; [|by rewrite Hm]. destruct Hm as [<- _]. by apply prefix_app_r.
Qed.

(** The errgroup keeps the first failure. *)
Lemma run_step_err s s' x : run_step s s' → r_err s = Some x → r_err s' = Some x.
Proof.
  intros Hst Hx. destruct Hst; simpl; try done.
  - unfold start_returns. rewrite Hx. by destruct e as [[]|].
  - unfold stopComponents. by destruct (_ =? 0)%nat.
Qed.

(** ** Termination *)

(** Some [Stop]s may hang: the steps of a run in which those of [hung] never return. *)
Definition hangs (hung : nat → Prop) (s : Run) : Prop :=
  match r_stopper s with Some (i :: _, _) => hung i | _ => False end.

Definition hung_step (hung : nat → Prop) (s s' : Run) : Prop := run_step s s' ∧ (hangs hung s → r_stops s' = r_stops s).

(** Every maximal run from [s] in which those [Stop]s never return goes through [P]. *)
Inductive inevitably (hung : nat → Prop) (P : Run → Prop) (s : Run) : Prop :=
  | inev_now : P s → inevitably hung P s
  | inev_later : (∃ s', hung_step hung s s') → (∀ s', hung_step hung s s' → inevitably hung P s') → inevitably hung P s.

Definition count_running (l : list bool) : nat := length (filter (λ b, b = false) l).

Definition run_measure (s : Run) : nat :=
  count_running (r_starts s) + (match r_cause s with None => 1 | Some _ => 0 end) +
  (match r_stopper s with Some (rest, _) => S (length rest) | None => 0 end) +
  match r_main s with AtDone => length (r_starts s) + 4 | AtSelect => 2 | AtWait _ => 1 | Returned _ => 0 end.

Lemma count_running_insert l i : l !! i = Some false → count_running l = S (count_running (<[i := true]> l)).
Proof.
  unfold count_running. revert i. induction l as [|b l IH]; intros [|i] Hi; simplify_eq/=.
  - done.
  - specialize (IH i Hi). rewrite !filter_cons. destruct (decide (b = false)); simpl; lia.
Qed.

Lemma run_measure_step n s s' : run_inv n s → run_step s s' → (run_measure s' < run_measure s)%nat.
Proof.
  intros Hinv Hst. destruct Hst as [s Hc|s i e Hi|s Hm Hc|s i e rest errs Hs|s errs Hs|s errs Hm Hd|s Hm|s r Hm Hall];
    unfold run_measure.
  - simpl. rewrite Hc. lia.
  - destruct (start_returns_fields i e s) as (-> & -> & -> & _ & _ & _ & F7).
    rewrite (count_running_insert _ _ Hi), length_insert. apply Nat.add_lt_mono_r, Nat.add_lt_mono_r.
    destruct (r_cause s) eqn:E; [rewrite F7 by done; lia|]. destruct (r_cause (start_returns i e s)); lia.
  - pose proof (ri_main _ _ Hinv) as Hmain. unfold main_ok in Hmain. rewrite Hm in *. destruct Hmain as (_ & Hs & _).
    unfold stopComponents. destruct (Nat.eqb_spec (length (r_starts s)) 0) as [E|E]; simpl; rewrite Hs; [lia|].
    rewrite length_rev, length_seq. lia.
  - simpl. rewrite Hs. simpl. lia.
  - simpl. rewrite Hs. simpl. lia.
  - simpl. rewrite Hm. destruct (r_stopper s) as [[]|]; lia.
  - simpl. rewrite Hm. destruct (r_stopper s) as [[]|]; lia.
  - simpl. rewrite Hm. destruct (r_stopper s) as [[]|]; lia.
Qed.

Lemma all_or_running l : Forall (λ b, b = true) l ∨ ∃ i, l !! i = Some false.
Proof.
  induction l as [|[] l [IH|[i IH]]]; [by left|left; by constructor|right; by exists (S i)|right; by exists O..].
Qed.

Lemma run_progress hung n s :
  run_inv n s → r_cause s ≠ None → (∃ r, r_main s = Returned r) ∨ ∃ s', hung_step hung s s'.
Proof.
  intros Hinv Hc. destruct (r_main s) as [| |r|r] eqn:Hm; [| | |by left; eauto]; right.
  - eexists. split; [by apply rs_stopping|]. intros _. unfold stopComponents. by destruct (_ =? 0)%nat.
  - eexists. split; [by apply rs_timeout|done].
  - destruct (all_or_running (r_starts s)) as [Hall|[i Hi]]; eexists; (split; [|intros _]);
      [by apply (rs_return _ r)|done|by apply (rs_start_returns s i None)|by apply start_returns_fields].
Qed.

(** A step appends at most the [Stop] that was being called. *)
Lemma run_step_stops s s' :
  run_step s s' → r_stops s' = r_stops s ∨ ∃ i rest errs, r_stopper s = Some (i :: rest, errs) ∧ r_stops s' = r_stops s ++ [i].
Proof.
  intros Hst. destruct Hst as [|s i e Hi|s|s i e rest errs Hs| | | |]; try by left.
  - left. apply start_returns_fields.
  - left. unfold stopComponents. by destruct (_ =? 0)%nat.
  - right. by exists i, rest, errs.
Qed.

Lemma hung_step_stops hung s s' :
  hung_step hung s s' → Forall (λ i, ¬ hung i) (r_stops s) → Forall (λ i, ¬ hung i) (r_stops s').
Proof.
  intros [Hst Hh] Hall. destruct (run_step_stops _ _ Hst) as [->|(i & rest & errs & Hs & Heq)]; [done|].
  rewrite Heq. apply Forall_app. split; [done|]. apply Forall_singleton. intros Hi.
  unfold hangs in Hh. rewrite Hs in Hh. specialize (Hh Hi). rewrite Heq in Hh.
  apply (f_equal length) in Hh. rewrite length_app in Hh. simpl in Hh. lia.
Qed.

Lemma run_step_cause s s' : run_step s s' → r_cause s ≠ None → r_cause s' ≠ None.
Proof.
  intros Hst Hc. destruct Hst as [| s i e Hi|s| | | | | ]; simpl; try done.
  - destruct (start_returns_fields i e s) as (_ & _ & _ & _ & _ & _ & ->); done.
  - unfold stopComponents. by destruct (_ =? 0)%nat.
Qed.

(** What a [Run] that has returned gives: a result only after every [Start] has returned,
    and, when no component failed, nil or the joined errors when every [Stop] returned,
    the timeout only with [stopCtx] cancelled. *)
Definition returned_ok (n : nat) (s : Run) : Prop :=
  ∃ res, r_main s = Returned res ∧ Forall (λ b, b = true) (r_starts s) ∧
    match r_err s with
    | Some (i, msg) => res = Some (RunFailed i msg)
    | None =>
        match res with
        | None | Some (RunStopFailed _) => r_stops s = rev (seq 0 n)
        | Some RunTimedOut => r_cancelled s = true
        | Some (RunFailed _ _) => False
        end
    end.

Lemma run_inv_returned n s res : run_inv n s → r_main s = Returned res → returned_ok n s.
Proof.
  intros Hinv Hm. pose proof (ri_main _ _ Hinv) as Hmain. unfold main_ok, stopped_so_far in Hmain. rewrite Hm in Hmain.
  destruct Hmain as (Hs & Hc & Hall & r & -> & Hr). eexists. split; [exact Hm|]. split; [done|].
  unfold run_result. destruct (r_err s) as [[i msg]|]; [done|].
  destruct r as [[|e errs]|]; [by rewrite Hr in Hs..|done].
Qed.

Lemma run_inevitable hung n s :
  run_inv n s → r_cause s ≠ None → Forall (λ i, ¬ hung i) (r_stops s) →
  inevitably hung (λ s, returned_ok n s ∧ Forall (λ i, ¬ hung i) (r_stops s)) s.
Proof.
  remember (run_measure s) as k eqn:Hk. revert s Hk. induction (lt_wf k) as [k _ IH]. intros s -> Hinv Hc Hh.
  destruct (run_progress hung n s Hinv Hc) as [[r Hr]|Hp].
  { apply inev_now. split; [by eapply run_inv_returned|done]. }
  apply inev_later; [done|]. intros s' Hst. pose proof (hung_step_stops _ _ _ Hst Hh) as Hh'. destruct Hst as [Hst _].
  eapply IH; [by eapply run_measure_step|done|by eapply run_inv_step|by eapply run_step_cause|done].
Qed.

Lemma inevitably_mono hung (P Q : Run → Prop) s : (∀ s, P s → Q s) → inevitably hung P s → inevitably hung Q s.
Proof.
  intros HPQ. induction 1 as [s HP|s Hp _ IH]; [apply inev_now; auto|by apply inev_later].
Qed.

(** ** Order of the shutdown *)

(** The component whose [Stop] is being called. *)
Definition stopping (s : Run) : option nat := match r_stopper s with Some (i :: _, _) => Some i | _ => None end.

Lemma prefix_rev_seq (l : list nat) n i : l `prefix_of` rev (seq 0 n) → i ∈ l → ∀ j, (i < j < n)%nat → j ∈ l.
Proof.
  intros [k Hk] Hi j Hj. apply list_elem_of_lookup in Hi as [p Hp].
  assert (Hlk : ∀ q x, rev (seq 0 n) !! q = Some x → x = (n - 1 - q)%nat ∧ (q < n)%nat).
  { intros q x Hx. rewrite rev_alt in Hx. apply reverse_lookup_Some in Hx as [Hx Hq]. rewrite length_seq in *.
    apply lookup_seq in Hx as [-> ?]. lia. }
  destruct (Hlk p i) as [Hpi Hpn]; [rewrite Hk; by apply lookup_app_l_Some|].
  assert (Hjl : is_Some (l !! (n - 1 - j)%nat)).
  { apply lookup_lt_is_Some. apply lookup_lt_Some in Hp. lia. }
  destruct Hjl as [x Hx]. destruct (Hlk (n - 1 - j)%nat x) as [Hxj _]; [rewrite Hk; by apply lookup_app_l_Some|].
  apply list_elem_of_lookup. exists (n - 1 - j)%nat. rewrite Hx. f_equal. lia.
Qed.

Lemma shutdown_order n s i : run_reachable n s → stopping s = Some i → ∀ j, (i < j < n)%nat → j ∈ r_stops s.
Proof.
  intros Hr%run_inv_reachable Hi j Hj. unfold stopping in Hi.
  destruct (r_stopper s) as [[[|i' rest] errs]|] eqn:Hs; simplify_eq.
  assert (Hp : r_stops s ++ i :: rest = rev (seq 0 n)).
  { pose proof (ri_main _ _ Hr) as Hm. unfold main_ok, stopped_so_far in Hm. rewrite Hs in Hm.
    destruct (r_main s); [by destruct Hm as (_ & ? & _)|by destruct Hm as [[? _] _]..]. }
  assert (Hin : j ∈ r_stops s ++ [i]).
  { apply (prefix_rev_seq _ n i); [|set_solver|done]. exists rest. by rewrite <-Hp, <-app_assoc. }
  apply elem_of_app in Hin as [| ->%list_elem_of_singleton]; [done|lia].
Qed.

(** The [Stop]s that returned before that of [d] is called: those of the components after
    it, last first; and the context of every [Start] has ended. *)
Lemma stops_before n s d :
  run_reachable n s → stopping s = Some d → r_stops s = rev (seq (S d) (n - S d)) ∧ r_cause s ≠ None.
Proof.
  intros Hr%run_inv_reachable Hi. unfold stopping in Hi.
  destruct (r_stopper s) as [[[|i' rest] errs]|] eqn:Hs; simplify_eq.
  pose proof (ri_main _ _ Hr) as Hm. unfold main_ok, stopped_so_far in Hm. rewrite Hs in Hm.
  assert (Hp : r_stops s ++ d :: rest = rev (seq 0 n) ∧ r_cause s ≠ None).
  { destruct (r_main s); [by destruct Hm as (_ & ? & _)|..].
    - by destruct Hm as ([? _] & ? & _).
    - by destruct Hm as ([? _] & ? & _).
    - by destruct Hm as ([? _] & ? & _). }
  clear Hm. destruct Hp as [Hp Hc]. split; [|done].
  assert (Hd : (d < n)%nat).
  { assert (Hin : d ∈ rev (seq 0 n)) by (rewrite <-Hp, elem_of_app, elem_of_cons; auto).
    rewrite <-Permutation_rev, elem_of_seq in Hin. lia. }
  assert (Hn : rev (seq 0 n) = rev (seq (S d) (n - S d)) ++ d :: rev (seq 0 d)).
  { replace n with (d + S (n - S d))%nat at 1 by lia. rewrite seq_app, rev_app_distr. simpl. by rewrite <-app_assoc. }
  rewrite Hn in Hp.
  assert (Hnd : NoDup (rev (seq (S d) (n - S d)) ++ d :: rev (seq 0 d))).
  { rewrite <-Hn, <-Permutation_rev. apply NoDup_seq. }
  assert (Hnot : ∀ l l' k k' : list nat, l ++ d :: k = l' ++ d :: k' → d ∉ l → d ∉ l' → l = l').
  { clear. intros l. induction l as [|x l IH]; intros [|y l'] k k' He Hl Hl'; simplify_eq/=; [done|set_solver..|].
    f_equal. eapply IH; [done|set_solver..]. }
  eapply Hnot; [exact Hp| |].
  - rewrite <-Hp in Hnd. apply NoDup_app in Hnd as (_ & Hx & _). intros Hin. apply (Hx d Hin). by left.
  - apply NoDup_app in Hnd as (_ & Hx & _). intros Hin. apply (Hx d Hin). by left.
Qed.

(** A component is not stopped before its turn. *)
Lemma not_stopped_yet n s i : run_reachable n s → stopping s = Some i → ∀ j, (j <= i)%nat → j ∉ r_stops s.
Proof.
  intros Hr%run_inv_reachable Hi j Hj Hin. unfold stopping in Hi.
  destruct (r_stopper s) as [[[|i' rest] errs]|] eqn:Hs; simplify_eq.
  assert (Hp : r_stops s ++ i :: rest = rev (seq 0 n)).
  { pose proof (ri_main _ _ Hr) as Hm. unfold main_ok, stopped_so_far in Hm. rewrite Hs in Hm.
    destruct (r_main s); [by destruct Hm as (_ & ? & _)|by destruct Hm as [[? _] _]..]. }
  assert (Hnd : NoDup (r_stops s ++ i :: rest)).
  { rewrite Hp, <-Permutation_rev. apply NoDup_seq. }
  assert (Hi' : i ∈ r_stops s).
  { destruct (decide (j = i)) as [->|]; [done|].
    assert (Hin' : i ∈ r_stops s ++ i :: rest) by (apply elem_of_app; right; apply elem_of_cons; by left).
    apply (prefix_rev_seq _ n j); [by exists (i :: rest)|done|]. rewrite Hp, <-Permutation_rev, elem_of_seq in Hin'. lia. }
  apply NoDup_app in Hnd as (_ & Hd & _). apply (Hd i Hi'). apply elem_of_cons. by left.
Qed.

(** Every component gets its turn in some run. *)
Lemma stopping_reachable n i : (i < n)%nat → ∃ s, run_reachable n s ∧ stopping s = Some i.
Proof.
  intros Hi.
  assert (Hk : ∀ k, (k < n)%nat → ∃ s, run_reachable n s ∧ r_stopper s = Some (rev (seq 0 (n - k)), [])).
  { induction k as [|k IH]; intros Hk.
    - eexists. split.
      + eapply rr_step; [eapply rr_step; [apply rr_start|by apply rs_trigger]|by apply rs_stopping].
      + unfold stopComponents. simpl. rewrite length_replicate, Nat.sub_0_r. by destruct (Nat.eqb_spec n 0); [lia|].
    - destruct IH as (s & Hr & Hs); [lia|]. replace (n - k)%nat with (S (n - S k)) in Hs by lia.
      rewrite seq_S, rev_app_distr in Hs. simpl in Hs. eexists. split.
      + eapply rr_step; [exact Hr|]. by eapply (rs_stop_returns s _ None).
      + done. }
  destruct (Hk (n - S i)%nat) as (s & Hr & Hs); [lia|]. exists s. split; [done|].
  unfold stopping. rewrite Hs. replace (n - (n - S i))%nat with (S i) by lia. by rewrite seq_S, rev_app_distr.
Qed.

(** ** Claims *)

(** What [Run] returns is exact: it returns only after a trigger and after every
    [Start] has returned; the result is the first component failure if there was one;
    otherwise nil means that every component was stopped in reverse start order without
    error, and joined stop errors that all were stopped and some failed. *)
Theorem Run_correct (n : nat) (s : Run) (res : option RunError) :
  run_reachable n s → r_main s = Returned res →
  r_cause s ≠ None ∧ Forall (λ b, b = true) (r_starts s) ∧ r_stops s `prefix_of` rev (seq 0 n) ∧
  match r_err s with
  | Some (i, msg) => res = Some (RunFailed i msg)
  | None =>
      match res with
      | None => r_stops s = rev (seq 0 n)
      | Some (RunStopFailed errs) => errs ≠ [] ∧ r_stops s = rev (seq 0 n)
      | Some RunTimedOut => r_cancelled s = true
      | Some (RunFailed _ _) => False
      end
  end.
Proof.
  intros Hinv%run_inv_reachable Hm. pose proof (run_inv_stops _ _ Hinv) as Hp. pose proof (ri_main _ _ Hinv) as Hmain.
  unfold main_ok, stopped_so_far in Hmain. rewrite Hm in Hmain. destruct Hmain as (Hs & Hc & Hall & r & -> & Hr).
  split_and!; [done..|]. unfold run_result. destruct (r_err s) as [[i msg]|]; [done|].
  destruct r as [[|e errs]|]; [|split; [done|]|done]; by rewrite Hr in Hs.
Qed.

(** C34: a shutdown ends even when [Stop]s hang.  Once a signal arrived or a component
    failed, every run in which the [Start]s eventually return goes on to the return of
    [Run], whichever [Stop]s ([hung]) never return: the timeout of the select gives them
    up.  What [Run] then returns is the component failure if there was one; otherwise,
    when a [Stop] never returned, it is the shutdown timeout, [stopCtx] having been
    cancelled, and when none hangs it is nil or the joined errors only with every
    component stopped in reverse start order. *)
Theorem Run_terminates (n : nat) (hung : nat → Prop) (s : Run) :
  run_reachable n s → r_cause s ≠ None → (∀ i, i ∈ r_stops s → ¬ hung i) →
  inevitably hung (λ s', ∃ res, r_main s' = Returned res ∧ Forall (λ b, b = true) (r_starts s') ∧
    match r_err s' with
    | Some (i, msg) => res = Some (RunFailed i msg)
    | None =>
        ((∃ i, (i < n)%nat ∧ hung i) → res = Some RunTimedOut) ∧
        match res with
        | None | Some (RunStopFailed _) => r_stops s' = rev (seq 0 n)
        | Some RunTimedOut => r_cancelled s' = true
        | Some (RunFailed _ _) => False
        end
    end) s.
Proof.
  intros Hinv%run_inv_reachable Hc Hh%Forall_forall. eapply inevitably_mono; [|by apply (run_inevitable hung n)].
  clear s Hinv Hc Hh. intros s ((res & Hres & Hall & Hr) & Hh). exists res. split; [done|]. split; [done|].
  destruct (r_err s) as [[i msg]|]; [done|]. split; [|done]. intros (i & Hi & Hhi). rewrite Forall_forall in Hh.
  assert (Hin : r_stops s = rev (seq 0 n) → i ∈ r_stops s).
  { intros ->. rewrite <-Permutation_rev, elem_of_seq. lia. }
  destruct res as [[| |]|]; [done|by destruct (Hh i (Hin Hr) Hhi)|done|by destruct (Hh i (Hin Hr) Hhi)].
Qed.

(** The shutdown is documented as bounded, components that ignore the cancelled context
    being abandoned.  The timeout bounds only the [Stop]s: [Run] then waits for every
    [Start], so one that ignores its context keeps [Run] from returning for ever. *)
Theorem unreturned_start_blocks_Run :
  (∀ n s i r, run_reachable n s → r_starts s !! i = Some false → r_main s ≠ Returned r) ∧
  ∃ s, run_reachable 1 s ∧ r_main s = AtWait ErrShutdownTimeout ∧ r_cancelled s = true ∧ r_starts s = [false].
Proof.
  split.
  - intros n s i r Hinv%run_inv_reachable Hi Hm. pose proof (ri_main _ _ Hinv) as Hmain. unfold main_ok in Hmain.
    rewrite Hm in Hmain. destruct Hmain as (_ & _ & Hall & _). by apply (Forall_lookup_1 _ _ _ _ Hall) in Hi.
  - eexists. split.
    + eapply rr_step; [eapply rr_step; [eapply rr_step; [apply rr_start|by apply rs_trigger]|by apply rs_stopping]|].
      by apply rs_timeout.
    + done.
Qed.

(** Two components, the first of which has failed. *)
Definition failedRun (starts : list bool) := mkRun starts (Some (ComponentFailed 0 "boom")) (Some (0%nat, "boom"%string)).

(** Both have been stopped, the second first. *)
Definition sampleRun : Run :=
  failedRun [true; true] (Returned (Some (RunFailed 0 "boom"))) None None true [1%nat; 0%nat].

Lemma sampleShutdown_reachable : run_reachable 2 sampleRun.
Proof.
  eapply rr_step; [|apply (rs_return (failedRun [true; true] (AtWait (StopJoined [])) None None true [1%nat; 0%nat]) (StopJoined [])); [done|by repeat constructor] ].
  eapply rr_step; [|by apply (rs_stopped (failedRun [true; true] AtSelect None (Some []) false [1%nat; 0%nat]) [])].
  eapply rr_step; [|by apply (rs_stopper_done (failedRun [true; true] AtSelect (Some ([], [])) None false [1%nat; 0%nat]) [])].
  eapply rr_step; [|by apply (rs_stop_returns (failedRun [true; true] AtSelect (Some ([0%nat], [])) None false [1%nat]) 0 None [] [])].
  eapply rr_step; [|by apply (rs_stop_returns (failedRun [true; true] AtSelect (Some ([1%nat; 0%nat], [])) None false []) 1 None [0%nat] [])].
  eapply rr_step; [|by apply (rs_start_returns (failedRun [true; false] AtSelect (Some ([1%nat; 0%nat], [])) None false []) 1 (Some ErrCanceled))].
  eapply rr_step; [|by apply (rs_stopping (failedRun [true; false] AtDone None None false []))].
  eapply rr_step; [|by apply (rs_start_returns (run_start 2) 0 (Some (ErrOther "boom")))].
  apply rr_start.
Qed.

Lemma Run_correct_witness : r_cause sampleRun ≠ None ∧ r_stops sampleRun `prefix_of` rev (seq 0 2).
Proof. destruct (Run_correct 2 sampleRun _ sampleShutdown_reachable eq_refl) as (H1 & _ & H2 & _). split; assumption. Defined.

(** A signal, and neither [Stop] ever returns. *)
Lemma Run_terminates_witness :
  inevitably (λ _, True) (λ s, ∃ res, r_main s = Returned res ∧ (r_err s = None → res = Some RunTimedOut))
    (mkRun [false; false] (Some Triggered) None AtDone None None false []).
Proof.
  eapply inevitably_mono; [|apply (Run_terminates 2 (λ _, True)); [|discriminate|intros i Hi; by apply elem_of_nil in Hi] ].
  - intros s (res & Hres & _ & Hr). exists res. split; [exact Hres|]. intros He. rewrite He in Hr.
    apply (proj1 Hr). exists 0%nat. split; [lia|done].
  - eapply rr_step; [apply rr_start|]. apply (rs_trigger (run_start 2)). reflexivity.
Defined.
