(* ===== verification/Monitor.v ===== *)
(** Active health checks, [src/internal/healthcheck] (check.go, monitor.go): the probes,
    and the monitor that runs one check loop per hosted service and keeps its lease alive
    while the checks pass.

    What the network and the scripts answer is the record [ProbeNet].  A check loop is a
    thread with its own context; the monitor's map names the context of the loop it
    started last for a service.  Under an ended context every probe fails. *)

From Stdlib Require Import ZArith Lia Ascii.
From stdpp Require Import base gmap list strings.
From S2P Require Import Prelude GoStrings Model Store StoreSteps StoreInv StoreSpec StoreOps.
From S2P Require Import Protoconv Cred Server SeedClient Cache Proxy Consul.

#[local] Open Scope Z_scope.

(** ** check.go *)

Definition defaultInterval : Z := 10 * second.

Definition defaultTimeout : Z := 5 * second.

Definition interval (d : CheckDefinition) : Z := if 0 <? cd_Interval d then cd_Interval d else defaultInterval.

Definition timeout (d : CheckDefinition) : Z :=
  if 0 <? cd_Timeout d then cd_Timeout d
  else if (0 <? cd_Interval d) && (cd_Interval d <? defaultTimeout) then cd_Interval d
  else defaultTimeout.

Inductive UdpOutcome := UdpDialError | UdpWriteError | UdpReadTimeout | UdpReadError | UdpReply.

(** The answers within a timeout: the status of a request with a method, target, headers
    and verification flag ([None]: an error), the dial of an address, a datagram, and
    whether a command exits with 0. *)
Record ProbeNet := mkProbeNet {
  net_http : Z → string → string → gmap string (list string) → bool → option Z;
  net_tcp : Z → string → bool;
  net_udp : Z → string → UdpOutcome;
  net_exec : Z → list string → bool
}.

Inductive ProbeError := ErrScriptsDisabled | ErrNoArgs | ErrNotAbsolute | ErrProbe | ErrStatus (code : Z).

(** [filepath.IsAbs]. *)
Definition IsAbs (path : string) : bool := HasPrefix path "/".

Definition probeHTTP (net : ProbeNet) (d : CheckDefinition) : option ProbeError :=
  let method := if bool_decide (cd_Method d = ""%string) then "GET"%string else cd_Method d in
  match net_http net (timeout d) method (cd_Target d) (cd_Header d) (cd_TLSSkipVerify d) with
  | None => Some ErrProbe
  | Some code => if (code <? 200) || (299 <? code) then Some (ErrStatus code) else None
  end.

Definition probeTCP (net : ProbeNet) (t : Z) (addr : string) : option ProbeError :=
  if net_tcp net t addr then None else Some ErrProbe.

Definition probeUDP (net : ProbeNet) (t : Z) (addr : string) : option ProbeError :=
  match net_udp net t addr with UdpReadTimeout | UdpReply => None | _ => Some ErrProbe end.

(** The outcome, and the command that was run. *)
Definition probeScript (net : ProbeNet) (t : Z) (args : list string) : option ProbeError * list (list string) :=
  match args with
  | [] => (Some ErrNoArgs, [])
  | cmd :: _ =>
      if negb (IsAbs cmd) then (Some ErrNotAbsolute, [])
      else (if net_exec net t args then None else Some ErrProbe, [args])
  end.

Definition probe (net : ProbeNet) (enableScript : bool) (d : CheckDefinition) : option ProbeError * list (list string) :=
  match cd_Kind d with
  | KindHTTP => (probeHTTP net d, [])
  | KindTCP => (probeTCP net (timeout d) (cd_Target d), [])
  | KindUDP => (probeUDP net (timeout d) (cd_Target d), [])
  | KindScript =>
      if negb enableScript then (Some ErrScriptsDisabled, []) else probeScript net (timeout d) (cd_Args d)
  end.

(** ** monitor.go *)

(** The check loops, by the number of their context; [lp_cancelled] is the end of the
    loop's own context, [m_root] that of the monitor's. *)
Record checkLoop := mkLoop { lp_service : string; lp_defs : list CheckDefinition; lp_cancelled : bool }.

Record svcState := mkSvcState { ss_cancel : nat; ss_healthy : bool }.

Record Monitor := mkMonitor {
  m_enableScript : bool; m_root : bool; m_services : gmap string svcState; m_loops : list checkLoop
}.

Definition Monitor_New (enableScript : bool) : Monitor := mkMonitor enableScript false ∅ [].

Definition cancel_loop (k : nat) (loops : list checkLoop) : list checkLoop :=
  alter (λ l, mkLoop (lp_service l) (lp_defs l) true) k loops.

Definition Monitor_Remove (serviceID : string) (m : Monitor) : Monitor :=
  match m_services m !! serviceID with
  | None => m
  | Some s => mkMonitor (m_enableScript m) (m_root m) (delete serviceID (m_services m)) (cancel_loop (ss_cancel s) (m_loops m))
  end.

(** The second half of [Set]: the new context, the map entry, the loop. *)
Definition set_insert (serviceID : string) (defs : list CheckDefinition) (m : Monitor) : Monitor :=
  mkMonitor (m_enableScript m) (m_root m) (<[serviceID := mkSvcState (length (m_loops m)) true]> (m_services m))
    (m_loops m ++ [mkLoop serviceID defs false]).

Definition Monitor_Set (serviceID : string) (defs : list CheckDefinition) (m : Monitor) : Monitor :=
  let m := Monitor_Remove serviceID m in
  if (length defs =? 0)%nat then m else set_insert serviceID defs m.

Definition Active (serviceID : string) (m : Monitor) : bool :=
  match m_services m !! serviceID with Some _ => true | None => false end.

Definition rootCancel (m : Monitor) : Monitor := mkMonitor (m_enableScript m) true (m_services m) (m_loops m).

Definition Monitor_Stop (m : Monitor) : Monitor :=
  let m := rootCancel m in mkMonitor (m_enableScript m) (m_root m) ∅ (m_loops m).

Definition note (serviceID : string) (healthy : bool) (m : Monitor) : Monitor :=
  match m_services m !! serviceID with
  | None => m
  | Some s =>
      if bool_decide (ss_healthy s = healthy) then m
      else mkMonitor (m_enableScript m) (m_root m) (<[serviceID := mkSvcState (ss_cancel s) healthy]> (m_services m)) (m_loops m)
  end.

(** The probes of one tick, up to the first failure, with the commands that were run. *)
Fixpoint probe_all (net : ProbeNet) (enableScript : bool) (defs : list CheckDefinition) : bool * list (list string) :=
  match defs with
  | [] => (true, [])
  | d :: rest =>
      let '(err, cmds) := probe net enableScript d in
      match err with
      | Some _ => (false, cmds)
      | None => let '(ok, cmds') := probe_all net enableScript rest in (ok, cmds ++ cmds')
      end
  end.

Definition ctx_done (m : Monitor) (l : checkLoop) : bool := m_root m || lp_cancelled l.

(** One tick of a loop: the service whose lease is kept alive, if any, and the monitor. *)
Definition tick (net : ProbeNet) (k : nat) (m : Monitor) : option string * Monitor :=
  match m_loops m !! k with
  | None => (None, m)
  | Some l =>
      let healthy := negb (ctx_done m l) && (probe_all net (m_enableScript m) (lp_defs l)).1 in
      (if healthy then Some (lp_service l) else None, note (lp_service l) healthy m)
  end.

(** [minInterval]; the list has a head where it is called. *)
Fixpoint min_loop (lowest : Z) (defs : list CheckDefinition) : Z :=
  match defs with
  | [] => lowest
  | d :: rest => min_loop (if interval d <? lowest then interval d else lowest) rest
  end.

Definition minInterval (defs : list CheckDefinition) : Z :=
  match defs with [] => 0 | d :: rest => min_loop (interval d) rest end.

(** ** The state machine *)

(** The calls one after the other. *)
Inductive monitor_step (m : Monitor) : Monitor → Prop :=
  | ms_set id defs : monitor_step m (Monitor_Set id defs m)
  | ms_remove id : monitor_step m (Monitor_Remove id m)
  | ms_tick net k : monitor_step m (tick net k m).2
  | ms_stop : monitor_step m (Monitor_Stop m).

(** The calls as data, and a sequence of them. *)
Inductive call :=
  | CallSet (id : string) (defs : list CheckDefinition) | CallRemove (id : string) | CallTick (net : ProbeNet) (k : nat) | CallStop.

Definition do_call (m : Monitor) (c : call) : Monitor :=
  match c with
  | CallSet id defs => Monitor_Set id defs m
  | CallRemove id => Monitor_Remove id m
  | CallTick net k => (tick net k m).2
  | CallStop => Monitor_Stop m
  end.

Definition do_calls (enable : bool) (calls : list call) : Monitor := foldl do_call (Monitor_New enable) calls.

(** The checks each service was last given, if they have not been taken away. *)
Definition checks_after (w : gmap string (list CheckDefinition)) (c : call) : gmap string (list CheckDefinition) :=
  match c with
  | CallSet id [] | CallRemove id => delete id w
  | CallSet id defs => <[id := defs]> w
  | CallTick _ _ => w
  | CallStop => ∅
  end.

Definition last_checks (calls : list call) : gmap string (list CheckDefinition) := foldl checks_after ∅ calls.

(** A probe of a check fails, by what the network and the script answer. *)
Definition check_fails (net : ProbeNet) (scripts : bool) (d : CheckDefinition) : Prop :=
  match cd_Kind d with
  | KindHTTP =>
      match net_http net (timeout d) (if decide (cd_Method d = ""%string) then "GET"%string else cd_Method d) (cd_Target d) (cd_Header d)
              (cd_TLSSkipVerify d) with
      | None => True
      | Some code => code < 200 ∨ 299 < code
      end
  | KindTCP => net_tcp net (timeout d) (cd_Target d) = false
  | KindUDP => net_udp net (timeout d) (cd_Target d) ∈ [UdpDialError; UdpWriteError; UdpReadError]
  | KindScript =>
      scripts = false ∨ cd_Args d = [] ∨ (∃ c, head (cd_Args d) = Some c ∧ HasPrefix c "/" = false) ∨
      net_exec net (timeout d) (cd_Args d) = false
  end.

Inductive monitor_reachable (enable : bool) : Monitor → Prop :=
  | mr_new : monitor_reachable enable (Monitor_New enable)
  | mr_step m m' : monitor_reachable enable m → monitor_step m m' → monitor_reachable enable m'.

(** Concurrent calls: [Set] holds the lock twice, and other calls may come between; the
    second component is the calls in between. *)
Inductive monitor_cstep : Monitor * list (string * list CheckDefinition) → Monitor * list (string * list CheckDefinition) → Prop :=
  | mc_step m m' c : monitor_step m m' → monitor_cstep (m, c) (m', c)
  | mc_set_removed m c id defs : defs ≠ [] → monitor_cstep (m, c) (Monitor_Remove id m, (id, defs) :: c)
  | mc_set_inserted m c1 id defs c2 : monitor_cstep (m, c1 ++ (id, defs) :: c2) (set_insert id defs m, c1 ++ c2).

Inductive monitor_creachable (enable : bool) : Monitor * list (string * list CheckDefinition) → Prop :=
  | mcr_new : monitor_creachable enable (Monitor_New enable, [])
  | mcr_step s s' : monitor_creachable enable s → monitor_cstep s s' → monitor_creachable enable s'.

(** A loop that still probes. *)
Definition running (m : Monitor) (k : nat) (l : checkLoop) : Prop := m_loops m !! k = Some l ∧ ctx_done m l = false.

(** Every entry names the live loop of its service, and every live loop has its entry. *)
Record monitor_inv (m : Monitor) : Prop := {
  mi_entry : ∀ id s, m_services m !! id = Some s →
    ∃ l, m_loops m !! ss_cancel s = Some l ∧ lp_service l = id ∧ lp_cancelled l = false;
  mi_loop : ∀ k l, m_loops m !! k = Some l → ctx_done m l = false →
    ∃ s, m_services m !! lp_service l = Some s ∧ ss_cancel s = k;
  mi_defs : ∀ k l, m_loops m !! k = Some l → lp_defs l ≠ []
}.

(** ** Lemmas: the monitor *)

Lemma cancel_loop_lookup k loops j l :
  cancel_loop k loops !! j = Some l →
  if decide (j = k) then ∃ l0, loops !! k = Some l0 ∧ l = mkLoop (lp_service l0) (lp_defs l0) true else loops !! j = Some l.
Proof.
  unfold cancel_loop. destruct (decide (j = k)) as [->|Hne].
  - rewrite list_lookup_alter_eq. destruct (loops !! k) as [l0|]; [|done]. intros [= <-]. eauto.
  - by rewrite list_lookup_alter_ne.
Qed.

Lemma Remove_none id m : m_services (Monitor_Remove id m) !! id = None.
Proof. unfold Monitor_Remove. destruct (m_services m !! id) eqn:E; [apply lookup_delete_eq|done]. Qed.

Lemma inv_Remove id m : monitor_inv m → monitor_inv (Monitor_Remove id m).
Proof.
  intros [He Hl Hd]. unfold Monitor_Remove. destruct (m_services m !! id) as [s|] eqn:Hs; [|done].
  destruct (He _ _ Hs) as (l0 & Hl0 & Hl0s & _). split; simpl.
  - intros id' s' [Hne Hs']%lookup_delete_Some. destruct (He _ _ Hs') as (l & Hk & Hks & Hc). exists l. split; [|done].
    unfold cancel_loop. rewrite list_lookup_alter_ne; [done|]. intros E. rewrite E in Hl0. congruence.
  - intros k l Hk Hc. apply cancel_loop_lookup in Hk. destruct (decide (k = ss_cancel s)) as [->|Hne].
    + destruct Hk as (? & _ & ->). unfold ctx_done in Hc; simpl in Hc. by rewrite orb_true_r in Hc.
    + destruct (Hl _ _ Hk Hc) as (s' & Hs' & <-). exists s'. split; [|done]. rewrite lookup_delete_ne; [done|].
      intros E. rewrite <-E in Hs'. congruence.
  - intros k l Hk. apply cancel_loop_lookup in Hk. case_decide; [|by eapply Hd].
    destruct Hk as (l1 & Hk & ->). by apply Hd in Hk.
Qed.

Lemma inv_insert id defs m : defs ≠ [] → m_services m !! id = None → monitor_inv m → monitor_inv (set_insert id defs m).
Proof.
  intros Hdef Hno [He Hl Hd]. unfold set_insert. split; simpl.
  - intros id' s [[<- <-]|[Hne Hs]]%lookup_insert_Some; simpl.
    + exists (mkLoop id defs false). split; [by apply list_lookup_middle|done].
    + destruct (He _ _ Hs) as (l & Hk & ?). exists l. split; [by apply lookup_app_l_Some|done].
  - intros k l [Hk|[Hge Hk]]%lookup_app_Some Hc.
    + destruct (Hl _ _ Hk Hc) as (s & Hs & <-). exists s. split; [|done]. rewrite lookup_insert_ne; [done|]. intros E. congruence.
    + apply list_lookup_singleton_Some in Hk as [Hk <-]. simpl. rewrite lookup_insert_eq. eexists. split; [done|simpl; lia].
  - intros k l [Hk|[_ Hk]]%lookup_app_Some; [by eapply Hd|]. by apply list_lookup_singleton_Some in Hk as [_ <-].
Qed.

Lemma inv_note id h m : monitor_inv m → monitor_inv (note id h m).
Proof.
  intros [He Hl Hd]. unfold note. destruct (m_services m !! id) as [s|] eqn:Hs; [|done]. case_bool_decide; [done|].
  split; simpl; [| |done].
  - intros id' s' [[<- <-]|[Hne Hs']]%lookup_insert_Some; [apply (He _ _ Hs)|apply (He _ _ Hs')].
  - intros k l Hk Hc. destruct (Hl _ _ Hk Hc) as (s' & Hs' & <-). destruct (decide (lp_service l = id)) as [E|Hne].
    + rewrite E in *. rewrite lookup_insert_eq. eexists. split; [done|]. simpl. congruence.
    + rewrite lookup_insert_ne by done. eauto.
Qed.

Lemma inv_monitor_step m m' : monitor_step m m' → monitor_inv m → monitor_inv m'.
Proof.
  intros Hs Hi. destruct Hs as [id defs|id|net k|].
  - unfold Monitor_Set. pose proof (inv_Remove id m Hi). destruct (Nat.eqb_spec (length defs) 0); [done|].
    apply inv_insert; [by intros ->|apply Remove_none|done].
  - by apply inv_Remove.
  - unfold tick. destruct (m_loops m !! k); [|done]. by apply inv_note.
  - destruct Hi as [He Hl Hd]. unfold Monitor_Stop. by split.
Qed.

Lemma inv_monitor_reachable enable m : monitor_reachable enable m → monitor_inv m.
Proof.
  induction 1 as [|m m' _ IH Hs]; [|by eapply inv_monitor_step]. split; simpl; [done| |]; intros k l Hk; by rewrite lookup_nil in Hk.
Qed.

Lemma probe_all_scripts net enable defs cmd :
  cmd ∈ (probe_all net enable defs).2 → enable = true ∧ ∃ d c rest, d ∈ defs ∧ cd_Kind d = KindScript ∧ cd_Args d = cmd ∧ cmd = c :: rest ∧ IsAbs c = true.
Proof.
  induction defs as [|d defs IH]; cbn [probe_all]; [by intros ?%elem_of_nil|].
  assert (Hd : cmd ∈ (probe net enable d).2 → enable = true ∧ ∃ c rest, cd_Kind d = KindScript ∧ cd_Args d = cmd ∧ cmd = c :: rest ∧ IsAbs c = true).
  { unfold probe. destruct (cd_Kind d) eqn:E; simpl; try (by intros ?%elem_of_nil). destruct enable; simpl; [|by intros ?%elem_of_nil].
    unfold probeScript. destruct (cd_Args d) as [|c rest] eqn:Ea; simpl; [by intros ?%elem_of_nil|].
    destruct (IsAbs c) eqn:Ec; simpl; [|by intros ?%elem_of_nil]. intros ->%list_elem_of_singleton. eauto 10. }
  assert (Hd' : cmd ∈ (probe net enable d).2 → enable = true ∧ ∃ d0 c rest, d0 ∈ d :: defs ∧ cd_Kind d0 = KindScript ∧ cd_Args d0 = cmd ∧ cmd = c :: rest ∧ IsAbs c = true).
  { intros (? & c & rest & ?)%Hd. split; [done|]. exists d, c, rest. split; [left|done]. }
  destruct (probe net enable d) as [[e|] cmds]; simpl in *; [done|].
  destruct (probe_all net enable defs) as [ok cmds']; simpl in *. intros [?|?]%elem_of_app; [auto|].
  destruct IH as (? & d0 & c & rest & ? & ?); [done|]. split; [done|]. exists d0, c, rest. split; [by right|done].
Qed.

Lemma min_loop_spec lowest defs : (∀ d, d ∈ defs → min_loop lowest defs <= interval d) ∧ min_loop lowest defs <= lowest ∧ (0 < lowest → 0 < min_loop lowest defs).
Proof.
  revert lowest. induction defs as [|d defs IH]; intros lowest; simpl.
  { split; [by intros ? ?%elem_of_nil|lia]. }
  destruct (IH (if interval d <? lowest then interval d else lowest)) as (H1 & H2 & H3).
  assert (0 < interval d) by (unfold interval, defaultInterval, second; destruct (Z.ltb_spec 0 (cd_Interval d)); lia).
  destruct (Z.ltb_spec (interval d) lowest); split; try lia; intros x [->|Hx]%elem_of_cons; auto; lia.
Qed.

(** ** The agent's background work on a seed *)

(** A tick of the renew loop, or of a check loop; [clk] is the seed's clock at it. *)
Inductive agent_act := RenewTick (clk : Clock) | CheckTick (net : ProbeNet) (k : nat) (clk : Clock).

(** The renew loop's gate is the monitor's [Active]; a kept-alive service is registered
    again ([Proxy.KeepAlive]). *)
Definition agent_step `{MapRange} (p : Proxy) (a : agent_act) (s : Monitor * Memory) : Monitor * Memory :=
  let '(mo, st) := s in
  match a with
  | RenewTick clk =>
      (mo, match renewOnce (SetCheckGate (λ id, Active id mo) p) with
           | None => st
           | Some (nid, ids) => (Renew clk nid ids st).2
           end)
  | CheckTick net k clk =>
      let '(ka, mo) := tick net k mo in
      (mo, match ka with
           | None => st
           | Some id =>
               match px_hosted p !! id with
               | None => st
               | Some svc => (Register clk (mkRegistration (px_node p) [svc] (Svc_Generation svc)) st).1.2
               end
           end)
  end.

(** The monitor's map and loops hold the checks last given. *)
Definition tracks (enable : bool) (w : gmap string (list CheckDefinition)) (m : Monitor) : Prop :=
  m_enableScript m = enable ∧
  ∀ id, match m_services m !! id with
        | Some s => ∃ l, m_loops m !! ss_cancel s = Some l ∧ w !! id = Some (lp_defs l)
        | None => w !! id = None
        end.

Lemma tracks_Remove enable w id m :
  monitor_inv m → tracks enable w m → tracks enable (delete id w) (Monitor_Remove id m).
Proof.
  intros [He _ _] [Hen Ht]. unfold Monitor_Remove. destruct (m_services m !! id) as [s|] eqn:Hs.
  - split; [done|]. intros id'. simpl. destruct (decide (id' = id)) as [->|Hne].
    + by rewrite !lookup_delete_eq.
    + rewrite !lookup_delete_ne by done. specialize (Ht id'). destruct (m_services m !! id') as [s'|] eqn:Hs'; [|done].
      destruct Ht as (l & Hl & Hw). exists l. split; [|done]. unfold cancel_loop. rewrite list_lookup_alter_ne; [done|].
      intros E. destruct (He _ _ Hs) as (l1 & H1 & <- & _), (He _ _ Hs') as (l2 & H2 & <- & _). congruence.
  - split; [done|]. intros id'. destruct (decide (id' = id)) as [->|Hne].
    + by rewrite lookup_delete_eq, Hs.
    + rewrite lookup_delete_ne by done. apply Ht.
Qed.

Lemma tracks_call enable w m c : monitor_inv m → tracks enable w m → tracks enable (checks_after w c) (do_call m c).
Proof.
  intros Hi Ht. destruct c as [id defs|id|net k|]; cbn [do_call checks_after].
  - pose proof (tracks_Remove _ _ id _ Hi Ht) as [Hen Hr]. unfold Monitor_Set. destruct defs as [|d defs]; [done|].
    cbn [length Nat.eqb]. split; [done|]. intros id'. cbn [set_insert m_services m_loops]. destruct (decide (id' = id)) as [->|Hne].
    + rewrite !lookup_insert_eq. eexists. split; [by apply list_lookup_middle|done].
    + rewrite !lookup_insert_ne by done. specialize (Hr id'). rewrite lookup_delete_ne in Hr by done.
      destruct (m_services _ !! id') as [s|]; [|done]. destruct Hr as (l & Hl & ?). exists l. split; [by apply lookup_app_l_Some|done].
  - by apply tracks_Remove.
  - unfold tick. destruct (m_loops m !! k) as [l|]; [|done]. cbn [snd]. unfold note.
    destruct (m_services m !! lp_service l) as [s|] eqn:Hs; [|done]. case_bool_decide; [done|].
    destruct Ht as [Hen Ht]. split; [done|]. intros id. cbn [m_services m_loops]. destruct (decide (id = lp_service l)) as [->|Hne].
    + rewrite lookup_insert_eq. specialize (Ht (lp_service l)). by rewrite Hs in Ht.
    + rewrite lookup_insert_ne by done. apply Ht.
  - destruct Ht as [Hen _]. split; [done|]. intros id. simpl. by rewrite !lookup_empty.
Qed.

Lemma do_call_step m c : monitor_step m (do_call m c).
Proof. destruct c; constructor. Qed.

Lemma do_calls_inv enable calls :
  monitor_inv (do_calls enable calls) ∧ tracks enable (last_checks calls) (do_calls enable calls).
Proof.
  unfold do_calls, last_checks. induction calls as [|c calls IH] using rev_ind; simpl.
  - split; [eapply inv_monitor_reachable, mr_new|]. split; [done|]. intros id. simpl. by rewrite !lookup_empty.
  - rewrite !foldl_app. destruct IH as [Hi Ht]. simpl. split; [eapply inv_monitor_step; [apply do_call_step|done]|].
    by apply tracks_call.
Qed.

Lemma do_call_root m c : m_root (do_call m c) = m_root m || match c with CallStop => true | _ => false end.
Proof.
  assert (Hr : ∀ id, m_root (Monitor_Remove id m) = m_root m) by (intros id; unfold Monitor_Remove; by destruct (m_services m !! id)).
  destruct c as [id defs|id|net k|]; cbn [do_call]; rewrite ?orb_false_r, ?orb_true_r; [|apply Hr| |done].
  - unfold Monitor_Set. destruct (_ =? 0)%nat; apply Hr.
  - unfold tick. destruct (m_loops m !! k); [|done]. simpl. unfold note. destruct (m_services m !! _); [|done]. by case_bool_decide.
Qed.

Lemma do_calls_root enable calls : m_root (do_calls enable calls) = true ↔ CallStop ∈ calls.
Proof.
  unfold do_calls. induction calls as [|c calls IH] using rev_ind; [simpl; split; [done|by intros ?%elem_of_nil]|].
  rewrite foldl_app. simpl. rewrite do_call_root, orb_true_iff, IH, elem_of_app, list_elem_of_singleton. destruct c; naive_solver.
Qed.

(** A tick passes exactly when no probe of the loop fails. *)
Lemma probe_fails net scripts d : check_fails net scripts d ↔ (probe net scripts d).1 ≠ None.
Proof.
  unfold check_fails, probe. destruct (cd_Kind d); cbn [fst].
  - unfold probeHTTP. replace (if decide (cd_Method d = ""%string) then "GET"%string else cd_Method d)
      with (if bool_decide (cd_Method d = ""%string) then "GET"%string else cd_Method d) by (case_bool_decide; by case_decide).
    destruct (net_http _ _ _ _ _ _) as [code|]; [|done].
    destruct (Z.ltb_spec code 200), (Z.ltb_spec 299 code); cbn [orb]; split; try done; try lia; by left || by right.
  - unfold probeTCP. by destruct (net_tcp _ _ _).
  - unfold probeUDP. rewrite !elem_of_cons, elem_of_nil. destruct (net_udp _ _ _); naive_solver.
  - destruct scripts; simpl; [|split; [done|by left]]. unfold probeScript. destruct (cd_Args d) as [|c args]; simpl; [split; [done|]; intros _; right; by left|].
    unfold IsAbs. destruct (HasPrefix c "/") eqn:Hp; simpl.
    + destruct (net_exec _ _ _).
      * split; [|by intros []]. intros [|[|[(c' & [= <-] & Hc)|] ] ]; congruence.
      * split; [done|]. intros _. by right; right; right.
    + split; [done|]. intros _. right. right. left. by exists c.
Qed.

Lemma probe_all_fails net scripts defs : (probe_all net scripts defs).1 = false ↔ ∃ d, d ∈ defs ∧ check_fails net scripts d.
Proof.
  induction defs as [|d defs IH]; cbn [probe_all]; [split; [done|by intros (d & ?%elem_of_nil & _)]|].
  pose proof (probe_fails net scripts d) as Hd. destruct (probe net scripts d) as [[e|] cmds]; cbn [fst] in *.
  - split; [|done]. intros _. exists d. split; [by left|by apply Hd].
  - destruct (probe_all net scripts defs) as [ok cmds']. cbn [fst] in *. rewrite IH. split.
    + intros (d' & ? & ?). exists d'. split; [by right|done].
    + intros (d' & [->|?]%elem_of_cons & Hcf); [by apply Hd in Hcf|by exists d'].
Qed.

Lemma tick_alive net k m id :
  (tick net k m).1 = Some id ↔
  ∃ l, running m k l ∧ lp_service l = id ∧ ∀ d, d ∈ lp_defs l → ¬ check_fails net (m_enableScript m) d.
Proof.
  unfold tick, running. destruct (m_loops m !! k) as [l|]; [|split; [done|by intros (l & [? _] & _)]]. cbn [fst].
  destruct (ctx_done m l) eqn:Hc; simpl.
  { split; [done|]. intros (l' & [[= <-] Hc'] & _). congruence. }
  pose proof (probe_all_fails net (m_enableScript m) (lp_defs l)) as Hf. destruct (probe_all _ _ _).1.
  - split.
    + intros [= <-]. exists l. split; [done|]. split; [done|]. intros d Hd Hcf.
      assert (Hx : true = false) by (apply Hf; by exists d). done.
    + intros (l' & [[= <-] _] & <- & _). done.
  - split; [done|]. intros (l' & [[= <-] _] & _ & Hn). destruct (proj1 Hf eq_refl) as (d & Hd & Hcf). by destruct (Hn d Hd).
Qed.

Lemma Active_tick id net k m : Active id (tick net k m).2 = Active id m.
Proof.
  unfold tick. destruct (m_loops m !! k) as [l|]; [|done]. simpl. unfold note, Active.
  destruct (m_services m !! lp_service l) as [s|] eqn:Hs; [|done]. case_bool_decide; [done|]. simpl.
  destruct (decide (lp_service l = id)) as [<-|]; [by rewrite lookup_insert_eq, Hs|by rewrite lookup_insert_ne].
Qed.

Lemma renew_gated `{MapRange} p gate clk m id : gate id = true →
  match renewOnce (SetCheckGate gate p) with
  | None => True
  | Some (nid, ids) => ∀ nid', lookup_service (Renew clk nid ids m).2 nid' id = lookup_service m nid' id
  end.
Proof.
  intros Hg. unfold renewOnce, renewAll. simpl. destruct (hostedCount _ =? 0); [done|].
  set (ids := filter _ _). destruct (Nat.eqb_spec (length ids) 0) as [|Hne]; [done|]. intros nid'. unfold Renew.
  destruct (nodes m !! Node_ID (px_node p)); [|done]. destruct ids as [|i0 ids0] eqn:Ei; [done|]. rewrite <-Ei in *.
  destruct (renew_loop_spec (clk O) (Node_ID (px_node p)) ids m) as [[Hl _ _ _] _]. rewrite Hl, decide_False; [done|].
  intros [_ Hin]. assert (Hx : id ∈ ids).
  { clear -Hin. induction ids as [|x l IH]; [done|]. simpl in Hin. destruct (lookup_service m _ x); [|by apply elem_of_nil in Hin].
    apply elem_of_cons in Hin as [->|]; [left|right; auto]. }
  unfold ids in Hx. apply list_elem_of_filter in Hx as [Hx _]. simpl in Hx. congruence.
Qed.

Lemma keepalive_frame `{MapRange} clk n svc gen m nid id : reg_id svc ≠ id →
  lookup_service (Register clk (mkRegistration n [svc] gen) m).1.2 nid id = lookup_service m nid id.
Proof.
  intros Hne. destruct (Register clk _ m) as [[err m'] evs] eqn:E. simpl.
  assert (Hinv : Node_ID n = ""%string ∨ Svc_Name svc = ""%string → m' = m).
  { intros Hi. rewrite Register_invalid in E; [by simplify_eq|]. simpl. destruct Hi; [by left|right].
    exists svc. split; [left|done]. }
  destruct (decide (Node_ID n = ""%string)) as [?|Hn]; [by rewrite Hinv by (by left)|].
  destruct (decide (Svc_Name svc = ""%string)) as [?|Hs]; [by rewrite Hinv by (by right)|].
  assert (Hv : valid_registration (mkRegistration n [svc] gen)) by (split; simpl; [done|by intros i ->%list_elem_of_singleton]).
  destruct (Register_spec _ _ _ _ _ _ Hv E) as [_ _ Hf _ _]. apply Hf. right. simpl. set_solver.
Qed.

Lemma hosted_reg_id p id svc : hosted_ok p → px_hosted p !! id = Some svc → reg_id svc = id.
Proof. intros Hh Hs. destruct (Hh _ _ Hs) as (<- & Hne & _). unfold reg_id. by rewrite bool_decide_eq_false_2. Qed.

Lemma agent_step_frame `{MapRange} p a s id :
  hosted_ok p → Active id s.1 = true →
  match a with CheckTick net k _ => (tick net k s.1).1 ≠ Some id | RenewTick _ => True end →
  Active id (agent_step p a s).1 = true ∧
  ∀ nid, lookup_service (agent_step p a s).2 nid id = lookup_service s.2 nid id.
Proof.
  destruct s as [mo st]; simpl. intros Hh Ha Hf. destruct a as [clk|net k clk]; simpl.
  - split; [done|]. intros nid. pose proof (renew_gated p (λ id, Active id mo) clk st id Ha) as Hr.
    destruct (renewOnce _) as [[nid' ids]|]; [apply Hr|done].
  - pose proof (Active_tick id net k mo) as Ht. destruct (tick net k mo) as [ka mo']; simpl in *.
    split; [congruence|]. intros nid. destruct ka as [id'|]; [|done]. destruct (px_hosted p !! id') as [svc|] eqn:Hs; [|done].
    apply keepalive_frame. rewrite (hosted_reg_id p id') by done. congruence.
Qed.

(** The options of the store do not change. *)
Lemma agent_step_opts `{MapRange} p a s : opts (agent_step p a s).2 = opts s.2.
Proof.
  destruct s as [mo st]. destruct a as [clk|net k clk]; simpl.
  - destruct (renewOnce _) as [[nid ids]|]; [|done]. apply (prims_opts _ _ _ (Renew_prims clk nid ids st)).
  - destruct (tick net k mo) as [[id|] mo']; simpl; [|done]. destruct (px_hosted p !! id); [|done].
    match goal with |- context [Register clk ?reg st] => destruct (Register_prims clk reg st) as (err & m' & evs & -> & Hp) end.
    by apply prims_opts in Hp.
Qed.

(** A seed accepts one service when it has room for it or holds it. *)
Lemma Register_single_accepted `{MapRange} clk n svc gen st err m' evs :
  valid_registration (mkRegistration n [svc] gen) → Register clk (mkRegistration n [svc] gen) st = (err, m', evs) →
  MaxServices (opts st) <= 0 ∨ is_Some (lookup_service st (Node_ID n) (reg_id svc)) → err = None.
Proof.
  intros Hv E [Hm|[old Hold]].
  - destruct (Register_spec _ _ _ _ _ _ Hv E) as [_ _ _ [?|(_ & ? & _)] _]; [done|lia].
  - rewrite Register_valid in E by done. cbn [Reg_Node Reg_Services Reg_Generation] in E. destruct (ensure_node_lookup st n) as (nd & Hnd & Hmt).
    destruct (register_loop_cons clk n gen (clk O) svc [] (ensure_node n st) (total (ensure_node n st)) [] nd Hnd Hmt)
      as [(Hl & _)|(m1 & size1 & events1 & E1 & _)].
    + rewrite lookup_ensure_node in Hl. congruence.
    + rewrite E1 in E. by simplify_eq/=.
Qed.

(** ** Claims *)

(** C36: one check loop per service, with its latest checks.  After any sequence of
    calls ([Set], [Remove] and [Stop], one after the other, and ticks), a service is active
    exactly when checks were set for it last and neither removed nor stopped; while the
    monitor has not been stopped exactly one loop probes for each active service and none
    for any other, with all the checks of its last [Set] and no others and a positive
    period; after [Stop] none does; and a tick of a loop keeps its service alive exactly
    when the loop still probes and no probe of its checks fails.  Concurrent [Set]s of one
    service are another matter ([concurrent_sets_leak_loop]). *)
Theorem monitor_one_loop (enable : bool) (calls : list call) :
  let m := do_calls enable calls in
  let w := last_checks calls in
  (∀ id, Active id m = true ↔ is_Some (w !! id)) ∧
  (CallStop ∉ calls → ∀ id defs, w !! id = Some defs →
     ∃ k, (∀ k' l, running m k' l ∧ lp_service l = id ↔ k' = k ∧ l = mkLoop id defs false) ∧ 0 < minInterval defs) ∧
  (∀ k l, running m k l → CallStop ∉ calls ∧ w !! lp_service l = Some (lp_defs l)) ∧
  (∀ net k id, (tick net k m).1 = Some id ↔
     ∃ defs, running m k (mkLoop id defs false) ∧ ∀ d, d ∈ defs → ¬ check_fails net enable d).
Proof.
  intros m w. destruct (do_calls_inv enable calls) as [[He Hl Hd] [Hen Ht] ]. fold m w in He, Hl, Hd, Hen, Ht.
  pose proof (do_calls_root enable calls) as Hroot. fold m in Hroot. clearbody m w.
  assert (Hrun : ∀ k l, running m k l → CallStop ∉ calls ∧ w !! lp_service l = Some (lp_defs l) ∧ lp_cancelled l = false).
  { intros k l [Hk Hc]. destruct (Hl _ _ Hk Hc) as (s & Hs & <-). specialize (Ht (lp_service l)). rewrite Hs in Ht.
    destruct Ht as (l' & Hl' & ->). unfold ctx_done in Hc. apply orb_false_iff in Hc as [Hr Hc].
    split; [rewrite <-Hroot; congruence|]. split; [congruence|done]. }
  split_and!.
  - intros id. unfold Active. specialize (Ht id). destruct (m_services m !! id) as [s|].
    + destruct Ht as (l & _ & ->). by split; eauto.
    + rewrite Ht. split; [done|]. by intros [].
  - intros Hns id defs Hw. pose proof (Ht id) as Hid. destruct (m_services m !! id) as [s|] eqn:Hs; [|congruence].
    destruct Hid as (l & Hk & Hw'). rewrite Hw in Hw'. injection Hw' as ->.
    destruct (He _ _ Hs) as (l' & Hk' & Hsv & Hcl). rewrite Hk in Hk'. injection Hk' as <-.
    assert (Hrt : m_root m = false) by (destruct (m_root m) eqn:E; [by destruct Hns; apply Hroot|done]).
    exists (ss_cancel s). split.
    + intros k' l'. split.
      * intros [[Hk' Hc'] Hs']. destruct (Hl _ _ Hk' Hc') as (s' & Hss & <-). rewrite Hs', Hs in Hss. injection Hss as <-.
        split; [done|]. rewrite Hk in Hk'. injection Hk' as <-. destruct l; simpl in *; congruence.
      * intros [-> ->]. split; [|done]. split; [rewrite Hk; destruct l; simpl in *; congruence|]. unfold ctx_done. by rewrite Hrt.
    + pose proof (Hd _ _ Hk) as Hne. destruct (lp_defs l) as [|d defs]; [done|]. simpl.
      apply min_loop_spec. unfold interval, defaultInterval, second. destruct (Z.ltb_spec 0 (cd_Interval d)); lia.
  - intros k l Hr. by destruct (Hrun k l Hr) as (? & ? & _).
  - intros net k id. rewrite tick_alive, Hen. split.
    + intros (l & Hr & <- & Hn). exists (lp_defs l). split; [|done]. destruct (Hrun k l Hr) as (_ & _ & Hc). by destruct l; simpl in *; subst.
    + intros (defs & Hr & Hn). by exists (mkLoop id defs false).
Qed.

(** C37: failing checks let the lease lapse.  Take a hosted service whose checks, as last
    set, are [defs], and any sequence of ticks of the agent's renew and check loops during
    which every tick of a loop of the service meets a failing probe of [defs], by what the
    network and the scripts answer.  Then a seed's record of the service stays as it was,
    so the instance is critical once its age exceeds the TTL and expired past the grace. *)
Theorem failing_checks_lapse `{MapRange} (p : Proxy) (enable : bool) (calls : list call) (st : Memory) (id : string)
    (defs : list CheckDefinition) (acts : list agent_act) :
  hosted_ok p → last_checks calls !! id = Some defs →
  let mo := do_calls enable calls in
  (∀ net k clk l, CheckTick net k clk ∈ acts → m_loops mo !! k = Some l → lp_service l = id →
     ∃ d, d ∈ defs ∧ check_fails net enable d) →
  let st' := (foldl (λ s a, agent_step p a s) (mo, st) acts).2 in
  let nid := Node_ID (px_node p) in
  lookup_service st' nid id = lookup_service st nid id ∧
  ∀ svc t, lookup_service st nid id = Some svc → Svc_TTL (def svc) < Time_Sub t (Svc_LastSeen (def svc)) →
    (lease st' svc t).1 = HealthCritical ∧
    (failed svc = false → i64 (Svc_TTL (def svc) + GracePeriod (opts st)) < Time_Sub t (Svc_LastSeen (def svc)) →
     (lease st' svc t).2 = true).
Proof.
  intros Hh Hw mo Hf. cbv zeta. set (nid := Node_ID (px_node p)).
  destruct (do_calls_inv enable calls) as [Hi Ht]. fold mo in Hi, Ht.
  assert (Hmain : lookup_service (foldl (λ s a, agent_step p a s) (mo, st) acts).2 nid id = lookup_service st nid id ∧
    opts (foldl (λ s a, agent_step p a s) (mo, st) acts).2 = opts st).
  { clearbody mo. revert mo st Hi Ht Hf. induction acts as [|a acts IH]; intros mo st Hi Ht Hf; [done|].
    assert (Ha : Active id mo = true).
    { unfold Active. destruct Ht as [_ Ht]. specialize (Ht id). destruct (m_services mo !! id); [done|]. congruence. }
    destruct (agent_step_frame p a (mo, st) id Hh Ha) as [_ Hl].
    { destruct a as [|net k clk]; [done|]. cbn [fst]. rewrite tick_alive. intros (l & [Hk Hc] & Hs & Hn).
      destruct (Hf net k clk l) as (d & Hd & Hcf); [by left|done|done|]. apply (Hn d); [|by rewrite (proj1 Ht)].
      destruct Hi as [_ Hlp _]. destruct (Hlp _ _ Hk Hc) as (s & Hss & <-). destruct Ht as [_ Ht]. specialize (Ht (lp_service l)).
      rewrite Hss in Ht. destruct Ht as (l' & Hl' & Hw'). rewrite Hk in Hl'. injection Hl' as <-. rewrite Hs, Hw in Hw'. by injection Hw' as <-. }
    pose proof (agent_step_opts p a (mo, st)) as Ho.
    assert (Hm : ∃ c, (agent_step p a (mo, st)).1 = do_call mo c ∧ m_loops (do_call mo c) = m_loops mo ∧ ∀ w, checks_after w c = w).
    { destruct a as [clk|net k clk]; simpl.
      - exists (CallTick (mkProbeNet (λ _ _ _ _ _, None) (λ _ _, false) (λ _ _, UdpReply) (λ _ _, false)) (length (m_loops mo))).
        cbn [do_call]. unfold tick. by rewrite (lookup_ge_None_2 (m_loops mo)).
      - exists (CallTick net k). cbn [do_call]. assert (Hlp : m_loops (tick net k mo).2 = m_loops mo).
        { unfold tick. destruct (m_loops mo !! k); [|done]. simpl. unfold note. destruct (m_services mo !! _); [|done]. by case_bool_decide. }
        by destruct (tick net k mo). }
    destruct Hm as (c & Hm & Hlp & Hca). cbn [foldl]. destruct (agent_step p a (mo, st)) as [mo1 st1]. cbn [fst snd] in *. subst mo1.
    destruct (IH (do_call mo c) st1) as [-> ->].
    - eapply inv_monitor_step; [apply do_call_step|done].
    - rewrite <-(Hca (last_checks calls)). by apply tracks_call.
    - rewrite Hlp. intros net k clk l Hin. apply (Hf net k clk l). by right.
    - split; [apply Hl|done]. }
  destruct Hmain as [Hl Ho]. split; [done|]. intros svc t _ Htt. unfold lease. rewrite Ho.
  destruct (failed svc); [done|]. destruct (Z.leb_spec (Time_Sub t (Svc_LastSeen (def svc))) (Svc_TTL (def svc))); [lia|].
  destruct (Z.leb_spec (Time_Sub t (Svc_LastSeen (def svc))) (i64 (Svc_TTL (def svc) + GracePeriod (opts st)))); simpl; split; try done; lia.
Qed.

(** A passing check keeps the lease: a tick whose probes all pass refreshes the
    hosted service on a seed that has room or already holds it, creating it again if it
    was gone; unless it is marked failed it is passing at that instant. *)
Theorem passing_check_keeps_alive `{MapRange} (p : Proxy) (mo : Monitor) (st : Memory) (net : ProbeNet) (k : nat) (clk : Clock)
    (id : string) (svc : ServiceInstance) :
  wf st → hosted_ok p → Node_ID (px_node p) ≠ ""%string →
  (tick net k mo).1 = Some id → px_hosted p !! id = Some svc →
  MaxServices (opts st) <= 0 ∨ is_Some (lookup_service st (Node_ID (px_node p)) id) →
  ∃ svc', lookup_service (agent_step p (CheckTick net k clk) (mo, st)).2 (Node_ID (px_node p)) id = Some svc' ∧
    Svc_LastSeen (def svc') = clk O ∧
    failed svc' = match lookup_service st (Node_ID (px_node p)) id with Some old => failed old | None => false end ∧
    (failed svc' = false → lease st svc' (clk O) = (HealthPassing, false)).
Proof.
  intros Hwf Hh Hn Ht Hs Hroom. simpl. destruct (tick net k mo) as [ka mo']; simpl in Ht. subst ka. simpl. rewrite Hs.
  destruct (Hh _ _ Hs) as (Hid & Hidn & Hname). pose proof (hosted_reg_id p id svc Hh Hs) as Hreg.
  set (reg := mkRegistration (px_node p) [svc] (Svc_Generation svc)).
  assert (Hv : valid_registration reg) by (split; simpl; [done|by intros i ->%list_elem_of_singleton]).
  destruct (Register clk reg st) as [[err m'] evs] eqn:E. simpl.
  destruct (Register_spec _ _ _ _ _ _ Hv E) as [Ho _ _ Herr Hst].
  assert (He : err = None) by (apply (Register_single_accepted clk (px_node p) svc (Svc_Generation svc) st err m' evs); [done|done|by rewrite Hreg]).
  destruct (Hst He) with svc as (svc' & Hl & Hsto); [apply NoDup_singleton|left|]. simpl in Hl, Hsto. rewrite Hreg in Hl, Hsto.
  exists svc'. split; [done|].
  assert (HT : 0 <= Svc_TTL (def svc')).
  { pose proof (wf_apply clk (OpRegister reg) st Hwf) as Hwf'. cbn [apply] in Hwf'. rewrite E in Hwf'. simpl in Hwf'.
    destruct (wf_svc _ Hwf' _ _ _ Hl) as (_ & _ & [Hp _ _]). lia. }
  assert (HL : Svc_LastSeen (def svc') = clk O ∧ failed svc' = match lookup_service st (Node_ID (px_node p)) id with Some old => failed old | None => false end).
  { unfold stored in Hsto. destruct (lookup_service st _ id) as [old|]; [|destruct Hsto as [idx ->]; done].
    destruct (changed (def old) _); [destruct Hsto as [idx ->]|rewrite Hsto]; done. }
  destruct HL as [HL HF]. split_and!; [done|done|]. intros Hfl. unfold lease. rewrite Hfl, HL, Time_Sub_diag.
  by destruct (Z.leb_spec 0 (Svc_TTL (def svc'))); [|lia].
Qed.

(** Script checks run only when enabled, and only absolute paths. *)
Theorem script_gate (net : ProbeNet) (enable : bool) (defs : list CheckDefinition) (cmd : list string) :
  cmd ∈ (probe_all net enable defs).2 →
  enable = true ∧ ∃ d c rest, d ∈ defs ∧ cd_Kind d = KindScript ∧ cd_Args d = cmd ∧ cmd = c :: rest ∧ IsAbs c = true.
Proof. apply probe_all_scripts. Qed.

(** The network of the concrete runs: every probe has the given outcome. *)
Definition constNet (ok : bool) : ProbeNet :=
  mkProbeNet (λ _ _ _ _ _, if ok then Some 200 else Some 503) (λ _ _, ok) (λ _ _, if ok then UdpReply else UdpReadError) (λ _ _, ok).

Definition sampleCheck : CheckDefinition := mkDefinition KindTCP "10.0.0.1:80" "" ∅ [] false 0 0.

Definition sampleMonitor : Monitor := Monitor_Set "web" [sampleCheck] (Monitor_New false).

Definition sampleProxy : Proxy := mkProxy (sampleNode "n1") 1 {[ "web"%string := sampleService "web" "web" [] ]} None.

Lemma sampleMonitor_reachable : monitor_reachable false sampleMonitor.
Proof. eapply mr_step; [apply mr_new|]. apply ms_set. Qed.

Lemma sampleProxy_ok : hosted_ok sampleProxy.
Proof. intros id s Hs. unfold sampleProxy in Hs; simpl in Hs. apply lookup_singleton_Some in Hs as [<- <-]. done. Qed.

(** [Set] is documented to replace a service's checks.  It is not one step: two concurrent
    calls for a service (a registration and a reload of the definition files, say) both
    start a loop, and the first loop's cancel function is lost.  It goes on probing with
    its checks and keeps the lease alive, also after the service is removed. *)
Theorem concurrent_sets_leak_loop :
  ∃ m, monitor_creachable false (m, []) ∧ Active "web" m = false ∧
    (∃ l, running m 0 l ∧ lp_service l = "web"%string) ∧ (tick (constNet true) 0 m).1 = Some "web"%string.
Proof.
  exists (Monitor_Remove "web" (set_insert "web" [sampleCheck] (set_insert "web" [sampleCheck]
    (Monitor_Remove "web" (Monitor_Remove "web" (Monitor_New false)))))). split.
  - eapply mcr_step; [|apply mc_step, ms_remove].
    eapply mcr_step; [|apply (mc_set_inserted _ [] "web" [sampleCheck] [])].
    eapply mcr_step; [|apply (mc_set_inserted _ [] "web" [sampleCheck] [("web"%string, [sampleCheck])])].
    eapply mcr_step; [|by apply mc_set_removed].
    eapply mcr_step; [|by apply mc_set_removed]. apply mcr_new.
  - split; [vm_compute; done|]. split; [|vm_compute; done].
    exists (mkLoop "web" [sampleCheck] false). split; [split|]; vm_compute; done.
Qed.

(** Two checks, the second of which fails on a network where only TCP is up. *)
Definition sampleChecks : list CheckDefinition :=
  [sampleCheck; mkDefinition KindHTTP "http://10.0.0.1/health" "" ∅ [] false 0 0].

Definition tcpOnly : ProbeNet := mkProbeNet (λ _ _ _ _ _, Some 503) (λ _ _, true) (λ _ _, UdpReply) (λ _ _, true).

Definition sampleCalls : list call := [CallSet "web" [sampleCheck]; CallSet "web" sampleChecks].

Lemma failing_checks_lapse_witness :
  lookup_service (foldl (λ s a, @agent_step list_order sampleProxy a s) (do_calls false [CallSet "web" [sampleCheck]; CallSet "web" sampleChecks], sampleRun.1)
    [RenewTick (frozen (1010 * second)); CheckTick tcpOnly 1 (frozen (1012 * second))]).2 "n1" "web" =
  lookup_service sampleRun.1 "n1" "web".
Proof.
  apply (@failing_checks_lapse list_order sampleProxy false sampleCalls sampleRun.1 "web" sampleChecks).
  - exact sampleProxy_ok.
  - vm_compute. reflexivity.
  - intros net k clk l Hin _ _. rewrite !elem_of_cons, elem_of_nil in Hin. destruct Hin as [|[Hin|[] ] ]; [done|].
    injection Hin as -> _ _. exists (mkDefinition KindHTTP "http://10.0.0.1/health" "" ∅ [] false 0 0). split.
    + right. by left.
    + vm_compute. by right.
Defined.

Lemma passing_check_keeps_alive_witness :
  ∃ svc, lookup_service (@agent_step list_order sampleProxy (CheckTick (constNet true) 0 (frozen (1012 * second))) (sampleMonitor, sampleRun.1)).2 "n1" "web" = Some svc ∧
    Svc_LastSeen (def svc) = 1012 * second.
Proof.
  destruct (@passing_check_keeps_alive list_order sampleProxy sampleMonitor sampleRun.1 (constNet true) 0 (frozen (1012 * second)) "web" (sampleService "web" "web" []))
    as (svc & H1 & H2 & _).
  - eapply wf_reachable. exact sampleRun_reachable.
  - exact sampleProxy_ok.
  - discriminate.
  - vm_compute. reflexivity.
  - vm_compute. reflexivity.
  - right. vm_compute. eexists. reflexivity.
  - exists svc. split; [exact H1|exact H2].
Defined.
