(* ===== verification/GoNet.v ===== *)
(** The functions of Go's [net] package in use, on byte strings: host:port addresses
    ([net.JoinHostPort], [net.SplitHostPort]); and the peer helpers of
    [src/internal/grpcx/grpcx.go] built on them. *)

From Stdlib Require Import ZArith Lia Ascii.
From stdpp Require Import base list strings.
From S2P Require Import Prelude GoStrings.

Definition colon : ascii := ":".

Definition lbracket : ascii := "[".

Definition rbracket : ascii := "]".

(** The first and the last position of a byte. *)
Fixpoint IndexByte (s : string) (c : ascii) : option nat :=
  match s with
  | EmptyString => None
  | String a s => if bool_decide (a = c) then Some 0 else S <$> IndexByte s c
  end.

Fixpoint LastIndexByte (s : string) (c : ascii) : option nat :=
  match s with
  | EmptyString => None
  | String a s =>
      match LastIndexByte s c with
      | Some i => Some (S i)
      | None => if bool_decide (a = c) then Some 0 else None
      end
  end.

Definition has_byte (s : string) (c : ascii) : bool := match IndexByte s c with Some _ => true | None => false end.

Definition JoinHostPort (host port : string) : string :=
  if has_byte host colon
  then String lbracket (host +:+ String rbracket (String colon port))
  else host +:+ String colon port.

(** [None]: an error. *)
Definition SplitHostPort (hostport : string) : option (string * string) :=
  match LastIndexByte hostport colon with
  | None => None
  | Some i =>
      let finish (host : string) (j k : nat) :=
        if has_byte (str_drop j hostport) lbracket then None
        else if has_byte (str_drop k hostport) rbracket then None
        else Some (host, str_drop (S i) hostport) in
      if HasPrefix hostport "[" then
        match IndexByte hostport rbracket with
        | None => None
        | Some e =>
            if (S e =? String.length hostport)%nat then None
            else if (S e =? i)%nat then finish (str_drop 1 (str_take e hostport)) 1 (S e)
            else None
        end
      else
        let host := str_take i hostport in
        if has_byte host colon then None else finish host 0 0
  end.

(** ** grpcx.go *)

(** [peer] is the text of the peer's address, when the context has one. *)
Definition PeerAddr (peer : option string) : string := default "unknown"%string peer.

Definition PeerHost (peer : option string) : string :=
  match SplitHostPort (PeerAddr peer) with Some (host, _) => host | None => PeerAddr peer end.

(** ** Lemmas *)

Lemma IndexByte_app a b c : no_byte c a = true → IndexByte (a +:+ b) c = (λ i, String.length a + i) <$> IndexByte b c.
Proof.
  induction a as [|x a IH]; str_simpl; [by destruct (IndexByte b c)|]. intros [Hx Ha]%andb_true_iff.
  destruct (bool_decide (x = c)); [done|]. rewrite IH by done. by destruct (IndexByte b c).
Qed.

Lemma IndexByte_none s c : no_byte c s = true ↔ IndexByte s c = None.
Proof.
  induction s as [|x s IH]; simpl; [done|]. destruct (bool_decide (x = c)); simpl; [done|].
  rewrite IH. by destruct (IndexByte s c).
Qed.

Lemma has_byte_no s c : has_byte s c = negb (no_byte c s).
Proof.
  unfold has_byte. destruct (no_byte c s) eqn:E.
  - apply IndexByte_none in E. by rewrite E.
  - destruct (IndexByte s c) eqn:E'; [done|]. apply IndexByte_none in E'. congruence.
Qed.

Lemma LastIndexByte_none s c : no_byte c s = true → LastIndexByte s c = None.
Proof.
  induction s as [|x s IH]; simpl; [done|]. intros [Hx Hs]%andb_true_iff. rewrite IH by done. by destruct (bool_decide (x = c)).
Qed.

Lemma LastIndexByte_app a b c : no_byte c b = true → LastIndexByte (a +:+ String c b) c = Some (String.length a).
Proof.
  intros Hb. induction a as [|x a IH]; str_simpl; [|by rewrite IH].
  rewrite LastIndexByte_none by done. by rewrite bool_decide_eq_true_2.
Qed.

Lemma no_byte_app c a b : no_byte c (a +:+ b) = no_byte c a && no_byte c b.
Proof. induction a as [|x a IH]; str_simpl; [done|]. rewrite IH. by rewrite andb_assoc. Qed.

(** An address text without the bytes that delimit its parts. *)
Definition plain_host (s : string) : Prop := no_byte lbracket s = true ∧ no_byte rbracket s = true.

Definition plain_port (s : string) : Prop := no_byte colon s = true ∧ plain_host s.

Lemma no_byte_bracket_prefix s : no_byte lbracket s = true → HasPrefix s "[" = false.
Proof.
  destruct s as [|x s]; [done|]. simpl. intros [Hx _]%andb_true_iff. apply negb_true_iff, bool_decide_eq_false in Hx.
  unfold HasPrefix. destruct (String.prefix "[" (String x s)) eqn:E; [|done]. cbn [String.prefix] in E.
  destruct (ascii_dec "[" x) as [E'|]; [|done]. by destruct Hx.
Qed.

Lemma SplitHostPort_JoinHostPort host port :
  plain_host host → plain_port port → SplitHostPort (JoinHostPort host port) = Some (host, port).
Proof.
  intros [Hl Hr] (Hc & Hpl & Hpr). unfold JoinHostPort. rewrite (has_byte_no host).
  assert (Hlp : no_byte lbracket (String colon port) = true) by (simpl; by rewrite Hpl).
  assert (Hrp : no_byte rbracket (String colon port) = true) by (simpl; by rewrite Hpr).
  destruct (no_byte colon host) eqn:Hh; cbn [negb].
  - unfold SplitHostPort. rewrite LastIndexByte_app by done.
    rewrite no_byte_bracket_prefix by (by rewrite no_byte_app, Hl, Hlp).
    rewrite str_take_app, has_byte_no, Hh. cbn [negb].
    assert (D0 : ∀ s, str_drop 0 s = s) by done. rewrite !D0.
    rewrite !has_byte_no, !no_byte_app, Hl, Hr, Hlp, Hrp. cbn [negb andb].
    replace (S (String.length host)) with (String.length (host +:+ String colon EmptyString)) by (rewrite str_length_app; simpl; lia).
    change (String colon port) with (String colon EmptyString +:+ port). by rewrite <-str_app_assoc, str_drop_app.
  - unfold SplitHostPort.
    change (String lbracket (host +:+ String rbracket (String colon port))) with
      (String lbracket host +:+ String rbracket EmptyString +:+ String colon port).
    rewrite <-str_app_assoc, LastIndexByte_app by done. set (pre := String lbracket host).
    assert (HP : HasPrefix ((pre +:+ String rbracket EmptyString) +:+ String colon port) "[" = true) by (unfold pre; rewrite str_app_assoc, str_app_cons; apply (HasPrefix_app "[")). rewrite HP.
    assert (Hpre : no_byte rbracket pre = true) by (unfold pre; simpl; by rewrite Hr).
    rewrite str_app_assoc, IndexByte_app by done. simpl IndexByte. cbn [fmap option_fmap option_map].
    rewrite Nat.add_0_r, !str_length_app. cbn [String.length].
    destruct (Nat.eqb_spec (S (String.length pre)) (String.length pre + (1 + S (String.length port)))) as [|_]; [lia|].
    destruct (Nat.eqb_spec (S (String.length pre)) (String.length pre + 1)) as [_|]; [|lia].
    rewrite str_take_app. change (str_drop 1 pre) with host.
    assert (D1 : str_drop (S (String.length host)) (host +:+ String rbracket EmptyString +:+ String colon port) = String colon port).
    { replace (S (String.length host)) with (String.length (host +:+ String rbracket EmptyString)) by (rewrite str_length_app; simpl; lia).
      by rewrite <-str_app_assoc, str_drop_app. }
    assert (D0 : str_drop 1 (pre +:+ String rbracket EmptyString +:+ String colon port) = host +:+ String rbracket EmptyString +:+ String colon port) by done.
    rewrite D0.
    assert (DS : ∀ n, str_drop (S n) (pre +:+ String rbracket EmptyString +:+ String colon port) = str_drop n (host +:+ String rbracket EmptyString +:+ String colon port)) by done.
    rewrite !DS. unfold pre. cbn [String.length]. rewrite D1, !has_byte_no, !no_byte_app, Hl, Hlp, Hrp. cbn [negb andb].
    replace (no_byte lbracket (String rbracket EmptyString)) with true by done. cbn [negb andb].
    replace (S (String.length host) + 1) with (String.length (host +:+ String rbracket (String colon EmptyString))) by (rewrite str_length_app; simpl; lia).
    change (String rbracket EmptyString +:+ String colon port) with (String rbracket (String colon EmptyString) +:+ port).
    by rewrite <-str_app_assoc, str_drop_app.
Qed.

(** The peer's host is found whatever its ephemeral port. *)
Lemma PeerHost_JoinHostPort host port : plain_host host → plain_port port → PeerHost (Some (JoinHostPort host port)) = host.
Proof. intros. unfold PeerHost, PeerAddr. simpl. by rewrite SplitHostPort_JoinHostPort. Qed.

(** A printed port is plain. *)
Lemma format_loop_no_byte c fuel n s :
  (∀ d, (0 <= d < 10)%Z → digit d ≠ c) → no_byte c s = true → no_byte c (format_loop fuel n s) = true.
Proof.
  intros Hc. revert n s. induction fuel as [|fuel IH]; intros n s Hs; cbn [format_loop]; [done|].
  assert (Hd : no_byte c (String (digit (n mod 10)) s) = true).
  { simpl. rewrite bool_decide_eq_false_2; [done|]. apply Hc, Z.mod_pos_bound. lia. }
  destruct (n <? 10)%Z; [done|]. by apply IH.
Qed.

Lemma digit_ne c d : digit_val c = None → (0 <= d < 10)%Z → digit d ≠ c.
Proof. intros Hc Hd <-. by rewrite digit_val_digit in Hc. Qed.

Lemma FormatUint_plain n : plain_port (FormatUint n).
Proof. split; [|split]; apply format_loop_no_byte; try done; intros d; by apply digit_ne. Qed.
