(* ===== verification/GrpcResolver.v ===== *)
(** The [yp://] name resolver of gRPC clients, [src/client/grpcresolver/resolver.go]: the
    target it parses, and the addresses it hands to the connection for every set of
    instances the watch delivers. *)

From Stdlib Require Import ZArith Lia Ascii.
From stdpp Require Import base gmap list strings.
From S2P Require Import Prelude GoStrings GoNet Model Store StoreSpec Protoconv SeedClient Cache Proxy.

#[local] Open Scope Z_scope.

(** [sdk.DefaultAgentAddress]. *)
Definition DefaultAgentAddress : string := "127.0.0.1:9900".

Record Address := mkAddress { addr_Addr : string; addr_weight : option Z }.

Definition Weight (a : Address) : Z := default 1 (addr_weight a).

(** [e.GetService().GetWeights().GetPassing()] through nil-safe getters. *)
Definition pb_passing (e : PbEntry) : Z :=
  match pbe_service e with
  | Some s => match pbs_weights s with Some w => pbw_passing w | None => 0 end
  | None => 0
  end.

Definition weightOf (e : PbEntry) : Z := if 0 <? pb_passing e then pb_passing e else 1.

(** The host an entry is dialed at: the service's address, or else its node's. *)
Definition pb_host (e : PbEntry) : string :=
  let host := match pbe_service e with Some s => pbs_address s | None => ""%string end in
  if bool_decide (host = ""%string) then match pbe_node e with Some n => pbn_address n | None => ""%string end else host.

Definition pb_port (e : PbEntry) : Z := match pbe_service e with Some s => pbs_port s | None => 0 end.

Fixpoint toAddresses (entries : list PbEntry) : list Address :=
  match entries with
  | [] => []
  | e :: rest =>
      if bool_decide (pb_host e = ""%string) then toAddresses rest
      else mkAddress (JoinHostPort (pb_host e) (FormatUint (pb_port e))) (Some (weightOf e)) :: toAddresses rest
  end.

(** [Build] up to dialing: the agent's address and the watched query ([None]: the target
    has no service name). *)
Definition Build (host path : string) : option (string * Query) :=
  let agentAddr := if bool_decide (host = ""%string) then DefaultAgentAddress else host in
  let service := TrimPrefix path "/" in
  if bool_decide (service = ""%string) then None
  else Some (agentAddr, mkQuery service "" [] true).

(** [run] on one delivered set: the addresses of the new state.  A closed channel
    delivers nothing. *)
Definition run_update (update : option (list PbEntry)) : option (list Address) := toAddresses <$> update.

(** ** Lemmas *)

Lemma elem_of_toAddresses a entries :
  a ∈ toAddresses entries ↔ ∃ e, e ∈ entries ∧ pb_host e ≠ ""%string ∧
    a = mkAddress (JoinHostPort (pb_host e) (FormatUint (pb_port e))) (Some (weightOf e)).
Proof.
  induction entries as [|e l IH]; cbn [toAddresses]; [split; [by intros ?%elem_of_nil|by intros (? & ?%elem_of_nil & _)]|].
  case_bool_decide as Hh; [rewrite IH|rewrite elem_of_cons, IH]; split.
  - intros (x & ? & ?). exists x. split; [by right|done].
  - intros (x & [->|?]%elem_of_cons & ? & ?); [done|eauto].
  - intros [->|(x & ? & ?)]; [exists e; split; [left|done]|exists x; split; [by right|done]].
  - intros (x & [->|?]%elem_of_cons & ? & ?); [by left|right; eauto].
Qed.

Lemma weightOf_pos e : 1 <= weightOf e.
Proof. unfold weightOf. destruct (Z.ltb_spec 0 (pb_passing e)); lia. Qed.

Lemma elem_of_snapshot `{MapRange} (set : gmap string PbEntry) e : e ∈ snapshot set ↔ ∃ k, set !! k = Some e.
Proof.
  unfold snapshot. rewrite list_elem_of_fmap. split.
  - intros ([k x] & -> & Hk%elem_of_range). eauto.
  - intros (k & Hk). exists (k, e). by rewrite elem_of_range.
Qed.

(** An instance with its own address is dialed there. *)
Lemma pb_host_own e : Svc_Address (Entry_Service e) ≠ ""%string →
  pb_host (EntryToProto e) = Svc_Address (Entry_Service e) ∧ pb_port (EntryToProto e) = Svc_Port (Entry_Service e).
Proof. intros Hne. unfold pb_host, pb_port. simpl. by rewrite bool_decide_eq_false_2. Qed.

(** After an answered turn the stream shows the answer. *)
Lemma stream_answered `{MapRange} turns idx entries :
  let s := foldl stream_turn (watch_start, sdk_start) turns in
  ws_first s.1 = true ∨ idx ≠ ws_lastIdx s.1 →
  let s' := stream_turn s (idx, Some entries) in
  shows (sdk_entries s'.2) (watch_set entries) ∧ sdk_out s'.2 = Some (snapshot (sdk_entries s'.2)).
Proof.
  intros s Hidx s'.
  assert (Hok : stream_ok s).
  { subst s. clear. induction turns as [|t l IH] using rev_ind; [done|]. rewrite foldl_app. by apply stream_turn_ok. }
  pose proof (stream_turn_ok _ (idx, Some entries) Hok) as Hok'. fold s' in Hok'.
  assert (Hs' : ws_first s'.1 = false ∧ ws_last s'.1 = watch_set entries).
  { subst s'. unfold stream_turn, watch_turn. cbn [fst snd].
    destruct (Z.eqb_spec idx (ws_lastIdx s.1)), (ws_first s.1); simpl; naive_solver. }
  destruct Hs' as [Hf Hl]. unfold stream_ok in Hok'. rewrite Hf, Hl in Hok'. naive_solver.
Qed.

(** ** Claims *)


(** The resolver is documented to update the addresses live.  The agent's stream compares
    only the service's address, port, generation and health, so when the address of a node
    changes under an unchanged registration, an instance that is dialed at its node's
    address keeps the old one. *)
Theorem resolver_misses_node_address :
  let svc := mkService "web" "web" "" 80 [] ∅ DefaultWeights 0 zeroTime 1 in
  let entry addr := mkEntry (mkNode "n1" "n1" addr "dc1" ∅ ∅) svc HealthPassing false 1 1 in
  let s := foldl (@stream_turn list_order) (watch_start, sdk_start) [(1, Some [entry "10.0.0.1"%string]); (2, Some [entry "10.0.0.2"%string])] in
  pb_host (EntryToProto (entry "10.0.0.2"%string)) = "10.0.0.2"%string ∧
  addr_Addr <$> default [] (run_update (sdk_out s.2)) = ["10.0.0.1:80"%string].
Proof. vm_compute. split; reflexivity. Qed.

