(* ===== verification/Resolver.v ===== *)
(** Seed discovery, [src/internal/resolver] (resolver.go, plugin.go) and the provider a
    node builds from its configuration ([buildSeedProvider] of [src/cmd/yp/root.go]): the
    configured list, an external executable, and their non-destructive merge.

    The file system's answer to [os.Stat] and what running the executable gives are
    parameters; its YAML output is given decoded ([None]: it does not decode). *)

From Stdlib Require Import ZArith Lia Ascii.
From stdpp Require Import base gmap list strings.
From S2P Require Import Prelude GoStrings GoText Config.

#[local] Open Scope Z_scope.

(** ** plugin.go *)

Definition DefaultOptionsEnv : string := "YP_SEED_PLUGIN_OPTIONS".

Definition defaultPluginTimeout : Z := 10 * second.

(** The options are opaque. *)
Record PluginConfig := mkPluginConfig { pc_Path : string; pc_Timeout : Z; pc_OptionsEnv : string }.

Definition NewPlugin (cfg : PluginConfig) : PluginConfig :=
  mkPluginConfig (pc_Path cfg) (if pc_Timeout cfg <=? 0 then defaultPluginTimeout else pc_Timeout cfg)
    (if bool_decide (pc_OptionsEnv cfg = ""%string) then DefaultOptionsEnv else pc_OptionsEnv cfg).

Record FileInfo := mkFileInfo { fi_regular : bool; fi_perm : Z }.

Inductive SeedError :=
  | ErrPathEmpty | ErrPathRelative | ErrPathStat | ErrNotRegular | ErrNotExecutable
  | ErrPluginTimeout | ErrPluginFailed | ErrPluginOutput
  | ErrNoSeeds (errs : list (string * SeedError)).

(** What a run of the executable ends in. *)
Inductive PluginRun := PluginTimedOut | PluginFailed | PluginPrinted (seeds : option (list string)).

Record PluginHost := mkPluginHost { ph_stat : string → option FileInfo; ph_run : string → Z → PluginRun }.

(** The permission bits [0o111]. *)
Definition execBits : Z := 0x49.

Definition validatePath (host : PluginHost) (path : string) : option SeedError :=
  if bool_decide (path = ""%string) then Some ErrPathEmpty
  else if negb (HasPrefix path "/") then Some ErrPathRelative
  else match ph_stat host path with
       | None => Some ErrPathStat
       | Some info =>
           if negb (fi_regular info) then Some ErrNotRegular
           else if Z.land (fi_perm info) execBits =? 0 then Some ErrNotExecutable
           else None
       end.

Definition Plugin_Seeds (host : PluginHost) (cfg : PluginConfig) : list string + SeedError :=
  match validatePath host (pc_Path cfg) with
  | Some e => inr e
  | None =>
      match ph_run host (pc_Path cfg) (pc_Timeout cfg) with
      | PluginTimedOut => inr ErrPluginTimeout
      | PluginFailed => inr ErrPluginFailed
      | PluginPrinted None => inr ErrPluginOutput
      | PluginPrinted (Some seeds) => inl seeds
      end
  end.

(** ** resolver.go *)

Inductive SeedProvider := Static (seeds : list string) | Plugin (cfg : PluginConfig).

(** [filepath.Base] of a path without a trailing slash. *)
Definition base_name (path : string) : string := default path (last (Split path "/")).

Definition Provider_Name (p : SeedProvider) : string :=
  match p with Static _ => "static" | Plugin cfg => "plugin:" +:+ base_name (pc_Path cfg) end.

Definition Provider_Seeds (host : PluginHost) (p : SeedProvider) : list string + SeedError :=
  match p with Static seeds => inl seeds | Plugin cfg => Plugin_Seeds host cfg end.

(** The inner loop of [Merged.Seeds]; [seen] is a set. *)
Fixpoint merge_seeds (seeds : list string) (seen : gset string) (out : list string) : gset string * list string :=
  match seeds with
  | [] => (seen, out)
  | s :: rest =>
      let s := TrimSpace s in
      if bool_decide (s = ""%string) then merge_seeds rest seen out
      else if bool_decide (s ∈ seen) then merge_seeds rest seen out
      else merge_seeds rest ({[ s ]} ∪ seen) (out ++ [s])
  end.

(** Its outer loop, over the named results of the providers. *)
Fixpoint merge_providers (results : list (string * (list string + SeedError))) (seen : gset string) (out : list string)
    (errs : list (string * SeedError)) : list string * list (string * SeedError) :=
  match results with
  | [] => (out, errs)
  | (name, inr e) :: rest => merge_providers rest seen out (errs ++ [(name, e)])
  | (_, inl seeds) :: rest => let '(seen, out) := merge_seeds seeds seen out in merge_providers rest seen out errs
  end.

Definition merged_result (results : list (string * (list string + SeedError))) : list string + SeedError :=
  let '(out, errs) := merge_providers results ∅ [] [] in
  if (length out =? 0)%nat then inr (ErrNoSeeds errs) else inl out.

Definition Merged_Seeds (host : PluginHost) (providers : list SeedProvider) : list string + SeedError :=
  merged_result ((λ p, (Provider_Name p, Provider_Seeds host p)) <$> providers).

(** ** buildSeedProvider *)

Definition buildSeedProvider (cfg : Config) : list SeedProvider :=
  (if (0 <? length (cl_Seeds (c_Cluster cfg)))%nat then [Static (cl_Seeds (c_Cluster cfg))] else []) ++
  match cl_Discovery (c_Cluster cfg) with
  | Some d => [Plugin (NewPlugin (mkPluginConfig (d_Name d) 0 ""))]
  | None => []
  end.

(** ** Lemmas *)

(** The trimmed, nonempty seeds of the providers that answered. *)
Definition offered (results : list (string * (list string + SeedError))) : list string :=
  flat_map (λ r, match r.2 with inl seeds => filter (λ s, s ≠ ""%string) (TrimSpace <$> seeds) | inr _ => [] end) results.

Definition failures (results : list (string * (list string + SeedError))) : list (string * SeedError) :=
  omap (λ r, match r.2 with inl _ => None | inr e => Some (r.1, e) end) results.

(** The first occurrences. *)
Definition first_seen (l out : list string) : list string :=
  foldl (λ out s, if bool_decide (s ∈ out) then out else out ++ [s]) out l.

Lemma merge_seeds_spec seeds seen out : (∀ s, s ∈ seen ↔ s ∈ out) →
  (∀ s, s ∈ (merge_seeds seeds seen out).1 ↔ s ∈ (merge_seeds seeds seen out).2) ∧
  (merge_seeds seeds seen out).2 = first_seen (filter (λ s, s ≠ ""%string) (TrimSpace <$> seeds)) out.
Proof.
  revert seen out. induction seeds as [|s l IH]; intros seen out Hso; cbn [merge_seeds]; [done|].
  rewrite fmap_cons, filter_cons. case_bool_decide as He.
  - rewrite decide_False by tauto. by apply IH.
  - rewrite decide_True by done. unfold first_seen. cbn [foldl]. fold (first_seen).
    assert (Hs : bool_decide (TrimSpace s ∈ out) = bool_decide (TrimSpace s ∈ seen)) by (apply bool_decide_ext; by rewrite Hso).
    rewrite Hs. destruct (bool_decide (TrimSpace s ∈ seen)); [by apply IH|]. apply IH. intros x. rewrite elem_of_union, elem_of_singleton, Hso, elem_of_app, list_elem_of_singleton. tauto.
Qed.

Lemma first_seen_app l1 l2 out : first_seen (l1 ++ l2) out = first_seen l2 (first_seen l1 out).
Proof. apply foldl_app. Qed.

Lemma merge_providers_spec results seen out errs : (∀ s, s ∈ seen ↔ s ∈ out) →
  merge_providers results seen out errs = (first_seen (offered results) out, errs ++ failures results).
Proof.
  revert seen out errs. induction results as [|[name [seeds|e]] l IH]; intros seen out errs Hso; cbn [merge_providers].
  - by rewrite app_nil_r.
  - destruct (merge_seeds_spec seeds seen out Hso) as [H1 H2]. destruct (merge_seeds seeds seen out) as [seen' out']; simpl in *.
    rewrite IH by done. f_equal. by rewrite first_seen_app, H2.
  - rewrite IH by done. by rewrite <-app_assoc.
Qed.

Lemma first_seen_elem l out s : s ∈ first_seen l out ↔ s ∈ out ∨ s ∈ l.
Proof.
  revert out. induction l as [|x l IH]; intros out; simpl; [set_solver|]. rewrite IH.
  case_bool_decide; set_solver.
Qed.

Lemma first_seen_NoDup l out : NoDup out → NoDup (first_seen l out).
Proof.
  revert out. induction l as [|x l IH]; intros out Hnd; simpl; [done|]. apply IH. case_bool_decide; [done|].
  apply NoDup_app. split_and!; [done|set_solver|apply NoDup_singleton].
Qed.

Lemma first_seen_prefix l out : out `prefix_of` first_seen l out.
Proof.
  revert out. induction l as [|x l IH]; intros out; simpl; [done|]. etrans; [|apply IH]. case_bool_decide; [done|by apply prefix_app_r].
Qed.

(** The first occurrences come in the order of the list. *)
Lemma first_seen_sublist l out : ∃ l', first_seen l out = out ++ l' ∧ l' `sublist_of` l.
Proof.
  revert out. induction l as [|x l IH]; intros out; simpl; [exists []; by rewrite app_nil_r|].
  case_bool_decide.
  - destruct (IH out) as (l' & -> & Hs). exists l'. split; [done|by constructor].
  - destruct (IH (out ++ [x])) as (l' & -> & Hs). exists (x :: l'). rewrite <-app_assoc. split; [done|by constructor].
Qed.

Lemma offered_app a b : offered (a ++ b) = offered a ++ offered b.
Proof. apply flat_map_app. Qed.

(** ** Claims *)

(** The merge of the seed providers is non-destructive and ordered: the seeds are
    exactly the trimmed nonempty ones of the providers that answered, each once, in the
    order they were first offered; a failing provider changes nothing, a further provider
    only appends; an error is returned only when there is no seed at all, and it names
    every failure. *)
Theorem Merged_Seeds_correct (host : PluginHost) (ps1 ps2 : list SeedProvider) (p : SeedProvider) :
  let results := (λ p, (Provider_Name p, Provider_Seeds host p)) <$> ps1 ++ ps2 in
  match Merged_Seeds host (ps1 ++ ps2) with
  | inl seeds =>
      seeds ≠ [] ∧ NoDup seeds ∧ seeds `sublist_of` offered results ∧ (∀ s, s ∈ seeds ↔ s ∈ offered results) ∧
      (∀ e, Provider_Seeds host p = inr e → Merged_Seeds host (ps1 ++ p :: ps2) = inl seeds) ∧
      (∃ more, Merged_Seeds host ((ps1 ++ ps2) ++ [p]) = inl (seeds ++ more))
  | inr (ErrNoSeeds errs) => offered results = [] ∧ errs = failures results
  | inr _ => False
  end.
Proof.
  cbv zeta. set (res := fmap _). unfold Merged_Seeds, merged_result. fold res.
  rewrite !merge_providers_spec by set_solver. set (out := first_seen (offered (res (ps1 ++ ps2))) []).
  pose proof (first_seen_elem (offered (res (ps1 ++ ps2))) []) as Hel. fold out in Hel.
  destruct (Nat.eqb_spec (length out) 0) as [Hz|Hz].
  - split; [|done]. apply length_zero_iff_nil in Hz. destruct (offered (res (ps1 ++ ps2))) as [|s l]; [done|].
    exfalso. assert (s ∈ out) as Hs by (apply Hel; right; left). rewrite Hz in Hs. by apply elem_of_nil in Hs.
  - split_and!.
    + by intros E; rewrite E in Hz.
    + apply first_seen_NoDup. constructor.
    + destruct (first_seen_sublist (offered (res (ps1 ++ ps2))) []) as (l' & Ho & Hs). unfold out. by rewrite Ho.
    + intros s. rewrite Hel. split; [by intros [?%elem_of_nil|?]|by right].
    + intros e He. assert (Ho : offered (res (ps1 ++ p :: ps2)) = offered (res (ps1 ++ ps2))).
      { unfold res. rewrite !fmap_app, fmap_cons, !offered_app. simpl. by rewrite He. }
      rewrite Ho. fold out. destruct (Nat.eqb_spec (length out) 0); [lia|done].
    + unfold res. rewrite fmap_app, offered_app, first_seen_app. fold res. fold out.
      destruct (first_seen_prefix (offered (res [p])) out) as [more Hm]. rewrite Hm. exists more.
      destruct (Nat.eqb_spec (length (out ++ more)) 0) as [E|_]; [rewrite length_app in E; lia|done].
Qed.

(** A plugin is run only when its path is an absolute, regular, executable file. *)
Theorem plugin_runs_validated (host : PluginHost) (cfg : PluginConfig) (seeds : list string) :
  Plugin_Seeds host cfg = inl seeds →
  HasPrefix (pc_Path cfg) "/" = true ∧
  (∃ info, ph_stat host (pc_Path cfg) = Some info ∧ fi_regular info = true ∧ Z.land (fi_perm info) execBits ≠ 0) ∧
  ph_run host (pc_Path cfg) (pc_Timeout cfg) = PluginPrinted (Some seeds).
Proof.
  unfold Plugin_Seeds, validatePath. case_bool_decide; [done|]. destruct (HasPrefix (pc_Path cfg) "/"); [|done]. simpl.
  destruct (ph_stat host (pc_Path cfg)) as [info|]; [|done]. destruct (fi_regular info) eqn:Er; [|done]. simpl.
  destruct (Z.eqb_spec (Z.land (fi_perm info) execBits) 0); [done|].
  destruct (ph_run host (pc_Path cfg) (pc_Timeout cfg)) as [| |[?|]]; try done. intros [= <-]. split_and!; [done|eauto|done].
Qed.

(** A configured list and a plugin that repeats one of its seeds. *)
Lemma plugin_runs_validated_witness :
  let host := mkPluginHost (λ _, Some (mkFileInfo true 0x1ed)) (λ _ _, PluginPrinted (Some [" seed-b:9900"%string])) in
  HasPrefix (pc_Path (mkPluginConfig "/usr/bin/seeds" 1 "")) "/" = true.
Proof.
  intros host. apply (plugin_runs_validated host (mkPluginConfig "/usr/bin/seeds" 1 "") [" seed-b:9900"%string]). reflexivity.
Defined.

Example merged_sample :
  let host := mkPluginHost (λ _, Some (mkFileInfo true 0x1ed)) (λ _ _, PluginPrinted (Some [" seed-b:9900"%string; "seed-a:9900"%string])) in
  Merged_Seeds host [Static ["seed-a:9900"%string; ""%string]; Plugin (mkPluginConfig "" 1 ""); Plugin (mkPluginConfig "/bin/p" 1 "")] =
    inl ["seed-a:9900"%string; "seed-b:9900"%string].
Proof. vm_compute. reflexivity. Qed.
