(* ===== verification/CredFiles.v ===== *)
(** The parts of [src/internal/cred] that live in files: the persisted node identity
    (nodeid.go), the token file (acl.go), TLS credentials (credentials.go) and the
    certificate that is reloaded when its files change (reload.go).

    Files are a map from paths to contents, with modification times where they matter;
    [tls.LoadX509KeyPair], the parsing of certificate bundles and YAML decoding are
    parameters. *)

From Stdlib Require Import ZArith Lia Ascii.
From stdpp Require Import base gmap list strings.
From S2P Require Import Prelude GoStrings GoCrypto Model Watch Cred.

#[local] Open Scope Z_scope.

(** ** nodeid.go *)

Definition nodeIDFile : string := "node-id".

Definition hex_char (d : Z) : ascii := if d <? 10 then byte (48 + d) else byte (87 + d).

(** [%x] of a byte slice. *)
Fixpoint hex_bytes (s : string) : string :=
  match s with
  | EmptyString => EmptyString
  | String c s => String (hex_char (byte_val c / 16)) (String (hex_char (byte_val c mod 16)) (hex_bytes s))
  end.

(** [b[i] = f b[i]]. *)
Fixpoint str_alter (f : Z → Z) (i : nat) (s : string) : string :=
  match s, i with
  | EmptyString, _ => EmptyString
  | String c s, O => String (byte (f (byte_val c))) s
  | String c s, S i => String c (str_alter f i s)
  end.

Definition slice (a b : nat) (s : string) : string := str_take (b - a) (str_drop a s).

(** [b]: the 16 bytes [rand.Read] gave ([None]: it failed). *)
Definition newUUID (b : option string) : option string :=
  match b with
  | None => None
  | Some b =>
      let b := str_alter (λ x, Z.lor (Z.land x 0x0f) 0x40) 6 b in
      let b := str_alter (λ x, Z.lor (Z.land x 0x3f) 0x80) 8 b in
      Some (hex_bytes (slice 0 4 b) +:+ "-" +:+ hex_bytes (slice 4 6 b) +:+ "-" +:+ hex_bytes (slice 6 8 b) +:+ "-" +:+
            hex_bytes (slice 8 10 b) +:+ "-" +:+ hex_bytes (slice 10 16 b))
  end.

(** [filepath.Join(dataDir, nodeIDFile)] for a clean [dataDir]. *)
Definition node_id_path (dataDir : string) : string := dataDir +:+ "/" +:+ nodeIDFile.

(** [None]: an error. *)
Definition NodeID (nodeName dataDir : string) (rand : option string) (mkdir_ok : bool) (out : write_outcome) (fs : FS)
  : option string * FS :=
  if bool_decide (nodeName ≠ ""%string) then (Some nodeName, fs)
  else if bool_decide (dataDir = ""%string) then (newUUID rand, fs)
  else
    let generate :=
      match newUUID rand with
      | None => (None, fs)
      | Some id =>
          if negb mkdir_ok then (None, fs)
          else match out with
               | WriteFailed None => (None, fs)
               | WriteFailed (Some s) => (None, <[node_id_path dataDir := s]> fs)
               | WriteOK => (Some id, <[node_id_path dataDir := id +:+ newline]> fs)
               end
      end in
    match fs !! node_id_path dataDir with
    | Some data => if bool_decide (TrimSpace data ≠ ""%string) then (Some (TrimSpace data), fs) else generate
    | None => generate
    end.

(** ** acl.go: the token file *)

(** The outer [None] is an error. *)
Definition LoadTokens (yaml : string → option (gmap string string)) (fs : FS) (path : string) : option (gmap string string) :=
  if bool_decide (path = ""%string) then Some ∅
  else match fs !! path with None => None | Some data => yaml data end.

(** Whether the warning is logged. *)
Definition WarnPolicyMismatch (m : Mode) (defaultPolicy : string) : bool :=
  bool_decide (m = ModeAllow) && bool_decide (defaultPolicy = "deny"%string).

(** ** reload.go *)

Record File := mkFile { file_data : string; file_mtime : Z }.

Notation Files := (gmap string File).

Section Reload.
Context {Cert : Type}.

(** [X509KeyPair] of the contents: the certificate, when the pair is valid. *)
Context (keypair : string → string → option Cert).

Record certReloader := mkReloader {
  cr_certFile : string; cr_keyFile : string; cached : option Cert; modCert : Z; modKey : Z
}.

(** [tls.LoadX509KeyPair]. *)
Definition LoadX509KeyPair (fs : Files) (certFile keyFile : string) : option Cert :=
  c ← fs !! certFile; k ← fs !! keyFile; keypair (file_data c) (file_data k).

(** [reload] reads the pair in [fs1] and the modification times in [fs2], later. *)
Definition reload (fs1 fs2 : Files) (r : certReloader) : bool * certReloader :=
  match LoadX509KeyPair fs1 (cr_certFile r) (cr_keyFile r) with
  | None => (false, r)
  | Some cert =>
      (true, mkReloader (cr_certFile r) (cr_keyFile r) (Some cert)
               (match fs2 !! cr_certFile r with Some f => file_mtime f | None => modCert r end)
               (match fs2 !! cr_keyFile r with Some f => file_mtime f | None => modKey r end))
  end.

Definition newCertReloader (fs1 fs2 : Files) (certFile keyFile : string) : option certReloader :=
  let '(ok, r) := reload fs1 fs2 (mkReloader certFile keyFile None zeroTime zeroTime) in
  if ok then Some r else None.

Definition cert_changed (fs : Files) (r : certReloader) : bool :=
  match fs !! cr_certFile r, fs !! cr_keyFile r with
  | Some c, Some k => negb (file_mtime c =? modCert r) || negb (file_mtime k =? modKey r)
  | _, _ => false
  end.

(** [current], at three instants: the test, the load and the second look. *)
Definition current (fs0 fs1 fs2 : Files) (r : certReloader) : option Cert * certReloader :=
  let r := if cert_changed fs0 r then (reload fs1 fs2 r).2 else r in (cached r, r).

(** [GetCertificate] and [GetClientCertificate]. *)
Definition GetCertificate := current.

(** ** credentials.go *)

Context {Pool : Type}.
Context (parse_pool : string → option Pool).

Record TLSConfig := mkTLSConfig {
  tc_CertFile : string; tc_KeyFile : string; tc_CAFile : string; tc_MutualTLS : bool; tc_ServerName : string
}.

Record tlsCreds := mkTlsCreds { tls_cfg : TLSConfig; tls_reloader : certReloader; tls_caPool : option Pool }.

(** [None]: the file cannot be read or has no certificates. *)
Definition loadCAPool (fs : Files) (path : string) : option Pool := f ← fs !! path; parse_pool (file_data f).

Definition NewTLS (fs1 fs2 : Files) (cfg : TLSConfig) : option tlsCreds :=
  reloader ← newCertReloader fs1 fs2 (tc_CertFile cfg) (tc_KeyFile cfg);
  pool ← (if bool_decide (tc_CAFile cfg ≠ ""%string) then Some <$> loadCAPool fs2 (tc_CAFile cfg) else Some None);
  if tc_MutualTLS cfg && match pool with None => true | Some _ => false end then None
  else Some (mkTlsCreds cfg reloader pool).

(** The [tls.Config] of a server and of a dial: whether a client certificate is required
    and verified, against which pool, whether the node's certificate is presented. *)
Record tlsConfig := mkTlsConfig { tcf_requireClient : bool; tcf_pool : option Pool; tcf_presents : bool }.

Definition ServerOptions (t : tlsCreds) : tlsConfig :=
  if tc_MutualTLS (tls_cfg t) then mkTlsConfig true (tls_caPool t) true else mkTlsConfig false None true.

Definition DialOptions (t : tlsCreds) : tlsConfig := mkTlsConfig false (tls_caPool t) (tc_MutualTLS (tls_cfg t)).
End Reload.

Arguments certReloader : clear implicits.
Arguments tlsCreds : clear implicits.
Arguments tlsConfig : clear implicits.

(** ** Lemmas: the node identity *)

Lemma hex_char_plain d : 0 <= d < 16 → is_space (hex_char d) = false.
Proof.
  intros Hd. rewrite <-negb_true_iff. assert (Hn : 0 <= d < 64) by lia. revert d Hn Hd.
  intros d Hn _. revert d Hn. apply (check64 (λ n, negb (is_space (hex_char n)))). vm_compute. reflexivity.
Qed.

Lemma hex_no_space s : no_space (hex_bytes s) = true.
Proof.
  induction s as [|c s IH]; [done|]. simpl. pose proof (byte_val_range c).
  rewrite !hex_char_plain, IH by (Z.div_mod_to_equations; lia). done.
Qed.

Lemma no_space_app a b : no_space (a +:+ b) = no_space a && no_space b.
Proof. induction a as [|c a IH]; str_simpl; [done|]. rewrite IH. by rewrite andb_assoc. Qed.

Lemma newUUID_plain b id : newUUID b = Some id → no_space id = true ∧ id ≠ ""%string.
Proof.
  destruct b as [b|]; [|done]. unfold newUUID. cbv zeta. intros [= <-]. split.
  - by rewrite !no_space_app, !hex_no_space.
  - intros E. apply (f_equal String.length) in E. rewrite !str_length_app in E. simpl in E. lia.
Qed.

(** The two marked bytes, on every value of a byte. *)
Lemma marked_digits x : 0 <= x < 256 →
  Z.lor (Z.land x 15) 64 / 16 = 4 ∧ 0 <= Z.lor (Z.land x 15) 64 < 256 ∧
  8 <= Z.lor (Z.land x 63) 128 / 16 < 12 ∧ 0 <= Z.lor (Z.land x 63) 128 < 256.
Proof.
  intros Hx.
  assert (H : forallb (λ x, (Z.lor (Z.land x 15) 64 / 16 =? 4) && (0 <=? Z.lor (Z.land x 15) 64) && (Z.lor (Z.land x 15) 64 <? 256) &&
    (8 <=? Z.lor (Z.land x 63) 128 / 16) && (Z.lor (Z.land x 63) 128 / 16 <? 12) && (0 <=? Z.lor (Z.land x 63) 128) &&
    (Z.lor (Z.land x 63) 128 <? 256)) (seqZ 0 256) = true) by (vm_compute; reflexivity).
  rewrite forallb_forall in H. specialize (H x). rewrite !andb_true_iff, Z.eqb_eq, !Z.leb_le, !Z.ltb_lt in H.
  destruct H as [[[[[[? ?] ?] ?] ?] ?] ?]; [|lia]. apply list_elem_of_In, elem_of_seqZ. lia.
Qed.

Lemma NodeID_existing dataDir rand mk out fs data :
  dataDir ≠ ""%string → fs !! node_id_path dataDir = Some data → TrimSpace data ≠ ""%string →
  NodeID "" dataDir rand mk out fs = (Some (TrimSpace data), fs).
Proof.
  intros Hd Hf Hne. unfold NodeID. rewrite bool_decide_eq_false_2 by tauto. rewrite bool_decide_eq_false_2 by done.
  rewrite Hf. by rewrite bool_decide_eq_true_2.
Qed.

(** ** Claims *)

(** The node identity is stable: whatever call of [NodeID] succeeded on a data
    directory, every later call on it answers the same identity, whatever its randomness
    and however writing would go, and leaves the files alone. *)
Theorem NodeID_stable (nodeName dataDir id : string) (rand rand' : option string) (mk mk' : bool) (out out' : write_outcome) (fs fs1 : FS) :
  dataDir ≠ ""%string → NodeID nodeName dataDir rand mk out fs = (Some id, fs1) →
  id ≠ ""%string ∧ NodeID nodeName dataDir rand' mk' out' fs1 = (Some id, fs1).
Proof.
  intros Hd H. destruct (decide (nodeName = ""%string)) as [->|Hn].
  2: { unfold NodeID in *. rewrite bool_decide_eq_true_2 in * by done. by simplify_eq. }
  assert (Hgen : ∀ i, newUUID rand = Some i → (Some i, <[node_id_path dataDir := i +:+ newline]> fs) = (Some id, fs1) →
    id ≠ ""%string ∧ NodeID "" dataDir rand' mk' out' fs1 = (Some id, fs1)).
  { intros i [Hs Hne]%newUUID_plain [= -> <-]. split; [done|]. rewrite (NodeID_existing _ _ _ _ _ (id +:+ newline)).
    - by rewrite TrimSpace_newline.
    - done.
    - apply lookup_insert_eq.
    - by rewrite TrimSpace_newline. }
  destruct (fs !! node_id_path dataDir) as [data|] eqn:Hf; [destruct (decide (TrimSpace data = ""%string)) as [Ht|Ht]|].
  2: { rewrite (NodeID_existing _ _ _ _ _ data) in H by done. simplify_eq. split; [done|]. by apply NodeID_existing. }
  all: unfold NodeID in H; rewrite bool_decide_eq_false_2 in H by tauto; rewrite bool_decide_eq_false_2 in H by done;
    rewrite Hf in H; rewrite ?(bool_decide_eq_false_2 (TrimSpace data ≠ ""%string)) in H by tauto;
    destruct (newUUID rand) as [i|] eqn:Hu; [|done]; destruct mk; [|done]; simpl in H; destruct out as [|[?|]]; try done;
    by apply (Hgen i).
Qed.

(** A generated identity is a version-4 UUID: 36 bytes, dashed, with its version and
    variant digits. *)
Theorem newUUID_v4 (b id : string) :
  String.length b = 16%nat → newUUID (Some b) = Some id →
  String.length id = 36%nat ∧ String.get 14 id = Some "4"%char ∧
  (∃ d, 8 <= d < 12 ∧ String.get 19 id = Some (hex_char d)) ∧
  Forall (λ i, String.get i id = Some "-"%char) [8; 13; 18; 23]%nat.
Proof.
  intros Hb. do 16 (destruct b as [|? b]; [discriminate Hb|]). destruct b; [|discriminate Hb].
  unfold newUUID, slice. cbn [str_alter str_drop str_take Nat.sub hex_bytes]. intros [= <-].
  match goal with |- context [Z.lor (Z.land (byte_val ?x) 15) 64] => destruct (marked_digits (byte_val x) (byte_val_range x)) as (V1 & V2 & _) end.
  match goal with |- context [Z.lor (Z.land (byte_val ?x) 63) 128] => destruct (marked_digits (byte_val x) (byte_val_range x)) as (_ & _ & V3 & V4) end.
  rewrite !byte_val_byte, (Z.mod_small _ _ V2), (Z.mod_small _ _ V4), V1. split; [done|]. split; [done|]. split.
  - match type of V3 with 8 <= ?d < 12 => exists d end. split; [done|reflexivity].
  - by repeat constructor.
Qed.

(** What the reloader holds is the pair of [fs]. *)
Definition holds_pair {Cert} (keypair : string → string → option Cert) (fs : Files) (r : certReloader Cert) : Prop :=
  ∃ c k, fs !! cr_certFile r = Some c ∧ fs !! cr_keyFile r = Some k ∧
    cached r = keypair (file_data c) (file_data k) ∧ modCert r = file_mtime c ∧ modKey r = file_mtime k.

(** Files with the same modification time have the same content. *)
Definition identified (fs fs' : Files) : Prop :=
  ∀ path f g, fs !! path = Some f → fs' !! path = Some g → file_mtime f = file_mtime g → file_data f = file_data g.

Lemma reload_holds {Cert} (keypair : string → string → option Cert) fs r cert :
  LoadX509KeyPair keypair fs (cr_certFile r) (cr_keyFile r) = Some cert →
  (reload keypair fs fs r).1 = true ∧ holds_pair keypair fs (reload keypair fs fs r).2 ∧ cached (reload keypair fs fs r).2 = Some cert.
Proof.
  intros HL. unfold reload. rewrite HL. unfold LoadX509KeyPair in HL.
  destruct (fs !! cr_certFile r) as [c|] eqn:Hc; [|done]. destruct (fs !! cr_keyFile r) as [k|] eqn:Hk; [|done]. simpl in HL.
  split; [done|]. split; [|done]. exists c, k. simpl. rewrite Hc, Hk. done.
Qed.

(** Certificates are rotated without a restart: when the files do not change during a
    call and modification times tell their contents apart, a handshake answers the pair
    that is on disk if it is valid, and otherwise the last good one; a reloader is built
    only over a valid pair. *)
Theorem certificate_rotation {Cert} (keypair : string → string → option Cert) (certFile keyFile : string) (fs0 : Files) :
  (∀ r, newCertReloader keypair fs0 fs0 certFile keyFile = Some r → is_Some (cached r) ∧ holds_pair keypair fs0 r) ∧
  (LoadX509KeyPair keypair fs0 certFile keyFile = None → newCertReloader keypair fs0 fs0 certFile keyFile = None) ∧
  (∀ fs r, holds_pair keypair fs0 r → identified fs0 fs →
     let '(c, r') := current keypair fs fs fs r in
     match LoadX509KeyPair keypair fs (cr_certFile r) (cr_keyFile r) with
     | Some cert => c = Some cert ∧ holds_pair keypair fs r'
     | None => c = cached r ∧ r' = r
     end).
Proof.
  split; [|split].
  - intros r. unfold newCertReloader. set (r0 := mkReloader _ _ _ _ _).
    destruct (LoadX509KeyPair keypair fs0 (cr_certFile r0) (cr_keyFile r0)) as [cert|] eqn:HL.
    + destruct (reload_holds keypair fs0 r0 cert HL) as (H1 & H2 & H3). destruct (reload keypair fs0 fs0 r0) as [ok r']; simpl in *.
      subst ok. intros [= <-]. by rewrite H3.
    + unfold reload. by rewrite HL.
  - intros HL. unfold newCertReloader, reload. simpl. by rewrite HL.
  - intros fs r (c0 & k0 & Hc0 & Hk0 & Hca & Hmc & Hmk) Hid. unfold current.
    destruct (LoadX509KeyPair keypair fs (cr_certFile r) (cr_keyFile r)) as [cert|] eqn:HL.
    + destruct (cert_changed fs r) eqn:Hch.
      * destruct (reload_holds keypair fs r cert HL) as (_ & H2 & H3). by rewrite H3.
      * unfold LoadX509KeyPair in HL. unfold cert_changed in Hch.
        destruct (fs !! cr_certFile r) as [c|] eqn:Hc; [|done]. destruct (fs !! cr_keyFile r) as [k|] eqn:Hk; [|done]. simpl in HL.
        apply orb_false_iff in Hch as [E1%negb_false_iff%Z.eqb_eq E2%negb_false_iff%Z.eqb_eq].
        assert (D1 : file_data c0 = file_data c) by (eapply Hid; eauto; congruence).
        assert (D2 : file_data k0 = file_data k) by (eapply Hid; eauto; congruence).
        rewrite Hca, D1, D2. split; [done|]. exists c, k. rewrite Hca, D1, D2. done.
    + destruct (cert_changed fs r); [|done]. unfold reload. by rewrite HL.
Qed.

(** The comment promises that rotation needs no restart.  [reload] reads the pair first
    and the modification times afterwards: when the files are replaced in between, the old
    certificate is kept under the new times, and no later handshake notices. *)
Theorem rotation_during_reload_lost :
  let keypair c k := if bool_decide (c = k) then Some c else None in
  let at_ (v : string) (t : Z) : Files := {[ "crt"%string := mkFile v t; "key"%string := mkFile v t ]} in
  let r := (reload keypair (at_ "v2" 2) (at_ "v3" 3) (mkReloader "crt" "key" (Some "v1"%string) 1 1)).2 in
  cached r = Some "v2"%string ∧ cert_changed (at_ "v3"%string 3) r = false ∧
  ∀ fs1 fs2, current keypair (at_ "v3"%string 3) fs1 fs2 r = (Some "v2"%string, r).
Proof. cbv zeta. split_and!; [reflexivity|reflexivity|]. intros fs1 fs2. reflexivity. Qed.

Lemma NodeID_stable_witness :
  ∃ id fs1, NodeID "" "/var/lib/yp" (Some "0123456789abcdef"%string) true WriteOK ∅ = (Some id, fs1) ∧
    NodeID "" "/var/lib/yp" None false WriteOK fs1 = (Some id, fs1).
Proof.
  eexists _, _. split; [reflexivity|].
  refine (proj2 (NodeID_stable "" "/var/lib/yp" _ (Some "0123456789abcdef"%string) _ true _ WriteOK _ ∅ _ _ _)); [discriminate|reflexivity].
Defined.

Lemma newUUID_v4_witness : ∃ id, newUUID (Some "0123456789abcdef"%string) = Some id ∧ String.get 14 id = Some "4"%char.
Proof.
  eexists. split; [reflexivity|]. refine (proj1 (proj2 (newUUID_v4 "0123456789abcdef" _ _ _))); reflexivity.
Defined.

Lemma certificate_rotation_witness :
  let keypair c k := if bool_decide (c = k) then Some c else None in
  let at_ (v : string) (t : Z) : Files := {[ "crt"%string := mkFile v t; "key"%string := mkFile v t ]} in
  ∃ r, newCertReloader keypair (at_ "v1" 1) (at_ "v1" 1) "crt" "key" = Some r ∧
    (current keypair (at_ "v2"%string 2) (at_ "v2"%string 2) (at_ "v2"%string 2) r).1 = Some "v2"%string.
Proof.
  intros keypair at_. eexists. split; [reflexivity|]. set (r := mkReloader _ _ _ _ _).
  destruct (certificate_rotation keypair "crt" "key" (at_ "v1"%string 1)) as (H1 & _ & H3).
  destruct (H1 r eq_refl) as [_ Hh].
  assert (Hid : identified (at_ "v1"%string 1) (at_ "v2"%string 2)).
  { intros p f f' Hf Hf' Hm. exfalso. unfold at_ in Hf, Hf'. rewrite !lookup_insert_Some, !lookup_singleton_Some in Hf, Hf'.
    assert (Ha : file_mtime f = 1) by (destruct Hf as [[_ <-]|[_ [_ <-]]]; reflexivity).
    assert (Hb : file_mtime f' = 2) by (destruct Hf' as [[_ <-]|[_ [_ <-]]]; reflexivity). congruence. }
  specialize (H3 (at_ "v2"%string 2) r Hh Hid).
  destruct (current keypair (at_ "v2"%string 2) (at_ "v2"%string 2) (at_ "v2"%string 2) r) as [c r'].
  replace (LoadX509KeyPair keypair (at_ "v2"%string 2) (cr_certFile r) (cr_keyFile r)) with (Some "v2"%string) in H3 by reflexivity.
  apply H3.
Defined.
