(* ===== verification/Migrate.v ===== *)
(** The migration from Consul ([internal/migrate]): the one-shot import of a
    catalogue into a yellow-pages target ([import.go]) and the normalized
    comparison of two catalogues ([shadowdiff.go]).

    The import talks HTTP: the client is a record of what the two requests return,
    threading a state of its own, with an instance ([import_client]) that answers the
    reads from a fixed Consul catalogue and the writes by the handler of
    [Consul.catalogRegister] on a seed. *)

From Stdlib Require Import ZArith Lia Ascii.
From stdpp Require Import base gmap list strings sorting.
From S2P Require Import Prelude.
From S2P Require Import GoStrings.
From S2P Require Import GoText.
From S2P Require Import GoNet.
From S2P Require Import Model.
From S2P Require Import Health.
From S2P Require Import Store.
From S2P Require Import StoreSteps.
From S2P Require Import StoreInv.
From S2P Require Import StoreSpec.
From S2P Require Import StoreOps.
From S2P Require Import Watch.
From S2P Require Import Cred.
From S2P Require Import Server.
From S2P Require Import Consul.

Local Open Scope Z_scope.

(** ** The shadow diff *)

Record ShadowEntry := mkShadowEntry {
  se_Node : string; se_ServiceID : string; se_Address : string; se_Port : Z;
  se_Tags : list string; se_Status : string
}.

#[export] Instance ShadowEntry_eq_dec : EqDecision ShadowEntry.
Proof. solve_decision. Defined.

(** The separator \x1f of the fields, and the comma of the tags. *)
Definition US : ascii := ascii_of_N 31.
Definition COMMA : ascii := ",".

Definition entry_tags (e : ShadowEntry) : string :=
  Join (merge_sort String.le (se_Tags e)) (String COMMA EmptyString).

Definition entry_fields (e : ShadowEntry) : list string :=
  [se_Node e; se_ServiceID e; se_Address e; Itoa (se_Port e); entry_tags e; se_Status e].

Definition key (e : ShadowEntry) : string := Join (entry_fields e) (String US EmptyString).

Record Diff := mkDiff { OnlyLeft : list ShadowEntry; OnlyRight : list ShadowEntry }.

Definition Empty (d : Diff) : bool := (length (OnlyLeft d) =? 0)%nat && (length (OnlyRight d) =? 0)%nat.

(** [index]: a later entry replaces an earlier one of its key. *)
Fixpoint index_loop (entries : list ShadowEntry) (m : gmap string ShadowEntry) : gmap string ShadowEntry :=
  match entries with
  | [] => m
  | e :: rest => index_loop rest (<[key e := e]> m)
  end.

Definition index (entries : list ShadowEntry) : gmap string ShadowEntry := index_loop entries ∅.

Fixpoint diff_loop (l : list (string * ShadowEntry)) (r : gmap string ShadowEntry) (acc : list ShadowEntry)
  : list ShadowEntry :=
  match l with
  | [] => acc
  | (k, e) :: rest =>
      match r !! k with
      | Some _ => diff_loop rest r acc
      | None => diff_loop rest r (acc ++ [e])
      end
  end.

Definition ShadowDiff `{MapRange} (left right : list ShadowEntry) : Diff :=
  let l := index left in
  let r := index right in
  mkDiff (diff_loop (range l) r []) (diff_loop (range r) l []).

(** ** Lemmas of the key *)

(** Joining two lists of the same length loses nothing, empty fields included. *)
Lemma Join_inj_length c l l' :
  length l = length l' →
  Forall (λ s, no_byte c s = true) l → Forall (λ s, no_byte c s = true) l' →
  Join l (String c EmptyString) = Join l' (String c EmptyString) → l = l'.
Proof.
  revert l'. induction l as [|s l IH]; intros [|s' l']; try done.
  intros Hlen [Hs Hl]%Forall_cons [Hs' Hl']%Forall_cons. cbn [Join].
  destruct l as [|x l], l' as [|y l']; try done; [by intros ->|].
  rewrite !str_app_cons, !str_app_nil_l. intros [-> E]%cut_byte_unique; [|done..].
  f_equal. apply IH; [simpl in *; lia|done..].
Qed.

Lemma Join_no_byte b c l :
  b ≠ c → Forall (λ s, no_byte b s = true) l → no_byte b (Join l (String c EmptyString)) = true.
Proof.
  intros Hne. induction 1 as [|s l Hs Hl IH]; [done|]. cbn [Join]. destruct l as [|x l]; [done|].
  rewrite str_app_cons, str_app_nil_l, no_byte_app, Hs. cbn [no_byte andb].
  by rewrite bool_decide_eq_false_2, IH by done.
Qed.

Lemma Itoa_no_byte c z : c ≠ "-"%char → digit_val c = None → no_byte c (Itoa z) = true.
Proof.
  intros Hm Hd. assert (Hf : ∀ n, no_byte c (FormatUint n) = true).
  { intros n. apply format_loop_no_byte; [|done]. intros d. by apply digit_ne. }
  unfold Itoa. destruct (z <? 0); [|done]. rewrite no_byte_app, Hf. simpl.
  by rewrite bool_decide_eq_false_2.
Qed.

Lemma Itoa_inj a b : is_i64 a → is_i64 b → Itoa a = Itoa b → a = b.
Proof.
  unfold is_i64, minInt64, maxInt64. intros Ha Hb.
  assert (Hinj : ∀ x y, 0 <= x <= 2 ^ 63 → 0 <= y <= 2 ^ 63 → FormatUint x = FormatUint y → x = y).
  { intros x y Hx Hy E. assert (Some x = Some y) as [= ->]; [|done].
    rewrite <-(ParseUint_FormatUint x), <-(ParseUint_FormatUint y) by (unfold is_u64; lia). by rewrite E. }
  assert (Hne : ∀ x y, FormatUint x ≠ "-" +:+ FormatUint y).
  { intros x y E. assert (Hn : no_byte "-" (FormatUint x) = true); [|by rewrite E in Hn].
    apply format_loop_no_byte; [|done]. intros d. by apply digit_ne. }
  unfold Itoa. destruct (Z.ltb_spec a 0), (Z.ltb_spec b 0); intros E.
  - injection E as E. apply Hinj in E; lia.
  - by destruct (Hne b (- a)).
  - by destruct (Hne a (- b)).
  - apply Hinj; [lia..|done].
Qed.

(** An entry whose fields survive the joining: no separator in a field, tags that
    are not empty and hold no comma. *)
Record plain_entry (e : ShadowEntry) : Prop := {
  pe_fields : Forall (λ s, no_byte US s = true) [se_Node e; se_ServiceID e; se_Address e; se_Status e];
  pe_port : is_i64 (se_Port e);
  pe_tags : Forall (λ t, no_byte US t = true ∧ no_byte COMMA t = true ∧ t ≠ ""%string) (se_Tags e)
}.

(** Entries that agree up to the order of their tags. *)
Definition same_entry (a b : ShadowEntry) : Prop :=
  se_Node a = se_Node b ∧ se_ServiceID a = se_ServiceID b ∧ se_Address a = se_Address b ∧
  se_Port a = se_Port b ∧ se_Status a = se_Status b ∧ se_Tags a ≡ₚ se_Tags b.

#[export] Instance same_entry_equiv : Equivalence same_entry.
Proof.
  split.
  - done.
  - intros a b (?&?&?&?&?&?). done.
  - intros a b c (H1&H2&H3&H4&H5&H6) (K1&K2&K3&K4&K5&K6). unfold same_entry.
    by rewrite H1, H2, H3, H4, H5, H6.
Qed.

Lemma sort_perm_eq (l l' : list string) : l ≡ₚ l' ↔ merge_sort String.le l = merge_sort String.le l'.
Proof.
  split; intros E.
  - apply (StronglySorted_unique String.le); [apply StronglySorted_merge_sort; apply _..|].
    by rewrite !merge_sort_Permutation.
  - by rewrite <-(merge_sort_Permutation String.le l), E, merge_sort_Permutation.
Qed.

#[export] Instance key_proper : Proper (same_entry ==> eq) key.
Proof.
  intros a b (H1&H2&H3&H4&H5&H6%sort_perm_eq). unfold key, entry_fields, entry_tags.
  by rewrite H1, H2, H3, H4, H5, H6.
Qed.

Lemma plain_fields e : plain_entry e → Forall (λ s, no_byte US s = true) (entry_fields e).
Proof.
  intros [Hf _ Ht]. rewrite !Forall_cons in Hf. destruct Hf as (H1&H2&H3&H4&_). unfold entry_fields.
  rewrite !Forall_cons. split_and!; try done; [by apply Itoa_no_byte|].
  apply Join_no_byte; [done|]. rewrite merge_sort_Permutation.
  eapply Forall_impl; [exact Ht|]. by intros t [? _].
Qed.

(** On plain entries the key is faithful. *)
Lemma key_faithful a b : plain_entry a → plain_entry b → key a = key b ↔ same_entry a b.
Proof.
  intros Ha Hb. split; [|by intros ->]. unfold key. intros E%Join_inj_length; [|done|by apply plain_fields..].
  unfold entry_fields in E. injection E as H1 H2 H3 H4 H5 H6. split_and!; try done.
  - apply Itoa_inj; [apply Ha|apply Hb|done].
  - apply sort_perm_eq. apply Join_inj in H5; [done|..]; rewrite merge_sort_Permutation;
      (eapply Forall_impl; [by eapply pe_tags|]); by intros t (_&?&?).
Qed.

(** ** Lemmas of the diff *)

Lemma index_loop_spec entries m k :
  index_loop entries m !! k =
    match last (filter (λ e, key e = k) entries) with Some e => Some e | None => m !! k end.
Proof.
  revert m. induction entries as [|e entries IH]; intros m; [done|]. cbn [index_loop]. rewrite IH, filter_cons.
  destruct (last (filter _ entries)) as [e'|] eqn:E.
  - case_decide; [|by rewrite E]. by rewrite last_cons, E.
  - case_decide as Hk; [|by rewrite E, lookup_insert_ne]. rewrite last_cons, E. subst k. apply lookup_insert_eq.
Qed.

Lemma index_key entries k e : index entries !! k = Some e → key e = k ∧ e ∈ entries.
Proof.
  unfold index. rewrite index_loop_spec. destruct (last _) as [e'|] eqn:E; [|by rewrite lookup_empty].
  intros [= ->]. apply last_Some_elem_of, list_elem_of_filter in E. done.
Qed.

Lemma index_none entries k : index entries !! k = None ↔ k ∉ key <$> entries.
Proof.
  unfold index. rewrite index_loop_spec. destruct (last _) as [e'|] eqn:E.
  - split; [done|]. intros Hn. destruct Hn. apply last_Some_elem_of, list_elem_of_filter in E as [<- ?].
    by apply list_elem_of_fmap_2.
  - split; [|intros; apply lookup_empty]. intros _ (e & -> & He)%list_elem_of_fmap.
    apply last_None in E. assert (e ∈ filter (λ e0, key e0 = key e) entries) by (by apply list_elem_of_filter).
    rewrite E in H. by apply elem_of_nil in H.
Qed.

Lemma elem_of_diff_loop l r acc e :
  e ∈ diff_loop l r acc ↔ e ∈ acc ∨ ∃ k, (k, e) ∈ l ∧ r !! k = None.
Proof.
  revert acc. induction l as [|[k e'] l IH]; intros acc; cbn [diff_loop].
  - split; [by left|]. intros [?|(k&Hk&_)]; [done|by apply elem_of_nil in Hk].
  - destruct (r !! k) as [x|] eqn:E; rewrite IH; [|rewrite elem_of_app, list_elem_of_singleton]; split.
    + intros [?|(k'&?&?)]; [by left|]. right. exists k'. by rewrite elem_of_cons; auto.
    + intros [?|(k'&[[= -> ->]|?]%elem_of_cons&?)]; [by left|congruence|]. right. eauto.
    + intros [[? | -> ]|(k'&?&?)]; [by left|right; exists k; rewrite elem_of_cons; auto|].
      right. exists k'. rewrite elem_of_cons; auto.
    + intros [?|(k'&[[= -> ->]|?]%elem_of_cons&?)]; [tauto|tauto|]. right. eauto.
Qed.

(** What one side of the diff holds. *)
Lemma diff_side `{MapRange} left right e :
  e ∈ diff_loop (range (index left)) (index right) [] ↔
  index left !! key e = Some e ∧ key e ∉ key <$> right.
Proof.
  rewrite elem_of_diff_loop, <-index_none. split.
  - intros [Hx|(k & Hk%elem_of_range & Hn)]; [by apply elem_of_nil in Hx|]. by destruct (index_key _ _ _ Hk) as [<- _].
  - intros [Hl Hr]. right. exists (key e). by rewrite elem_of_range.
Qed.

Lemma diff_loop_nil `{MapRange} left right :
  diff_loop (range (index left)) (index right) [] = [] ↔ ∀ e, e ∈ left → key e ∈ key <$> right.
Proof.
  split.
  - intros E e He. destruct (decide (key e ∈ key <$> right)) as [|Hn]; [done|].
    destruct (index left !! key e) as [e'|] eqn:Hl.
    + destruct (index_key _ _ _ Hl) as [Hk _]. rewrite <-Hk in Hl, Hn.
      pose proof (conj Hl Hn) as Hd%diff_side. rewrite E in Hd. by apply elem_of_nil in Hd.
    + apply index_none in Hl. destruct Hl. by apply list_elem_of_fmap_2.
  - intros Hall. apply elem_of_nil_inv. intros e [Hl Hr]%diff_side. apply Hr, Hall.
    by apply index_key in Hl as [_ ?].
Qed.

(** ** The import *)

Record consulNode := mkConsulNode {
  mn_Node : string; mn_Address : string; mn_Datacenter : string; mn_Meta : gmap string string
}.

Record consulService := mkConsulService {
  ms_ID : string; ms_Service : string; ms_Address : string; ms_Port : Z;
  ms_Tags : list string; ms_Meta : gmap string string
}.

Record healthEntry := mkHealthEntry { me_Node : consulNode; me_Service : consulService }.

Record serviceBody := mkServiceBody {
  sb_ID : string; sb_Name : string; sb_Address : string; sb_Port : Z;
  sb_Tags : list string; sb_Meta : gmap string string
}.

Record registerBody := mkRegisterBody {
  rb_Node : string; rb_Address : string; rb_Datacenter : string; rb_NodeMeta : gmap string string;
  rb_Service : serviceBody
}.

(** A JSON answer, as the type it decodes to; null decodes to both, the empty one. *)
Inductive Payload :=
  | ServicesJSON (m : gmap string (list string))
  | EntriesJSON (l : list healthEntry)
  | NullJSON
  | OtherJSON.

Inductive HttpErr := BadURL | TransportError | BadStatus (status : Z) | BadJSON.

Inductive MigrateError :=
  | ReadServices (e : HttpErr)
  | ReadService (name : string) (e : HttpErr)
  | RegisterFailed (node id : string) (e : HttpErr).

(** [*http.Client]: whether [http.NewRequestWithContext] accepts the URL, and what
    [Do] returns for a GET and for a PUT ([None] for a transport error, the context
    ending included). *)
Record HttpClient (W : Type) := mkHttpClient {
  cl_NewRequest : string → bool;
  cl_Get : string → W → option (Z * Payload) * W;
  cl_Put : string → registerBody → W → option Z * W
}.
Arguments cl_NewRequest {W}.
Arguments cl_Get {W}.
Arguments cl_Put {W}.

Section Importer.
Context {W : Type} (client : HttpClient W).

Definition getJSON {A} (decode : Payload → option A) (url : string) (w : W) : (HttpErr + A) * W :=
  if negb (cl_NewRequest client url) then (inl BadURL, w)
  else match cl_Get client url w with
       | (None, w) => (inl TransportError, w)
       | (Some (status, p), w) =>
           if negb (status =? 200) then (inl (BadStatus status), w)
           else match decode p with
                | Some a => (inr a, w)
                | None => (inl BadJSON, w)
                end
       end.

Definition putJSON (url : string) (body : registerBody) (w : W) : option HttpErr * W :=
  if negb (cl_NewRequest client url) then (Some BadURL, w)
  else match cl_Put client url body w with
       | (None, w) => (Some TransportError, w)
       | (Some status, w) => (if negb (status =? 200) then Some (BadStatus status) else None, w)
       end.

Definition decode_services (p : Payload) : option (gmap string (list string)) :=
  match p with ServicesJSON m => Some m | NullJSON => Some ∅ | _ => None end.

Definition decode_entries (p : Payload) : option (list healthEntry) :=
  match p with EntriesJSON l => Some l | NullJSON => Some [] | _ => None end.

(** The body built of an entry. *)
Definition entry_body (e : healthEntry) : registerBody :=
  mkRegisterBody (mn_Node (me_Node e)) (mn_Address (me_Node e)) (mn_Datacenter (me_Node e)) (mn_Meta (me_Node e))
    (mkServiceBody (ms_ID (me_Service e)) (ms_Service (me_Service e)) (ms_Address (me_Service e))
       (ms_Port (me_Service e)) (ms_Tags (me_Service e)) (ms_Meta (me_Service e))).

(** The inner loop: the entries of one service. *)
Fixpoint import_entries (to : string) (entries : list healthEntry) (written : Z) (w : W)
  : Z * option MigrateError * W :=
  match entries with
  | [] => (written, None, w)
  | e :: rest =>
      match putJSON (to +:+ "/v1/catalog/register") (entry_body e) w with
      | (Some err, w) => (written, Some (RegisterFailed (mn_Node (me_Node e)) (ms_ID (me_Service e)) err), w)
      | (None, w) => import_entries to rest (written + 1) w
      end
  end.

(** The outer loop: the services. *)
Fixpoint import_services (from to : string) (names : list string) (written : Z) (w : W)
  : Z * option MigrateError * W :=
  match names with
  | [] => (written, None, w)
  | name :: rest =>
      match getJSON decode_entries (from +:+ "/v1/health/service/" +:+ name) w with
      | (inl err, w) => (written, Some (ReadService name err), w)
      | (inr entries, w) =>
          match import_entries to entries written w with
          | (written, Some err, w) => (written, Some err, w)
          | (written, None, w) => import_services from to rest written w
          end
      end
  end.

Definition Import `{MapRange} (from to : string) (w : W) : Z * option MigrateError * W :=
  let from := trim_right_byte "/" from in
  let to := trim_right_byte "/" to in
  match getJSON decode_services (from +:+ "/v1/catalog/services") w with
  | (inl err, w) => (0, Some (ReadServices err), w)
  | (inr services, w) => import_services from to (range services).*1 0 w
  end.

End Importer.

(** ** The import into a seed *)

(** The Consul catalogue imported from: per service, its health entries. *)
Notation ConsulCatalog := (gmap string (list healthEntry)).

(** The JSON of a [registerBody], decoded by the handler. *)
Definition body_input (b : registerBody) : catalogRegisterInput :=
  mkCatalogRegisterInput (rb_Node b) (rb_Address b) (rb_Datacenter b) (rb_NodeMeta b)
    (Some (mkCatalogServiceInput (sb_ID (rb_Service b)) (sb_Name (rb_Service b)) (sb_Address (rb_Service b))
       (sb_Port (rb_Service b)) (sb_Tags (rb_Service b)) (sb_Meta (rb_Service b)))).

(** What the server at [from] is asked for: the path ends at the query. *)
Definition url_path_of (from url : string) : string := (Cut (TrimPrefix url from) "?").1.1.

Definition source_get (src : ConsulCatalog) (from url : string) : Z * Payload :=
  let path := url_path_of from url in
  if bool_decide (path = "/v1/catalog/services"%string) then (200, ServicesJSON ((λ _, []) <$> src))
  else if HasPrefix path "/v1/health/service/" then
    (200, EntriesJSON (default [] (src !! TrimPrefix path "/v1/health/service/")))
  else (404, OtherJSON).

(** A client between the catalogue at [from] and a seed's handler at [to].  The
    state counts the writes, each of which reads the clock anew. *)
Definition import_client `{MapRange} (clks : nat → Clock) (n : Node) (h : Handler) (r : HttpRequest)
    (src : ConsulCatalog) (from to : string) : HttpClient (nat * Seed) := {|
  cl_NewRequest url := true;
  cl_Get url w := (Some (source_get src from url), w);
  cl_Put url body w :=
    if bool_decide (url = to +:+ "/v1/catalog/register") then
      let '(resp, s') := catalogRegister (StoreRegistry (clks w.1) n) h r (Some (body_input body)) w.2 in
      (Some (http_status resp), (S w.1, s'))
    else (Some 404, w)
|}.

(** The entries of the catalogue in the order they are imported. *)
Definition import_order `{MapRange} (src : ConsulCatalog) : list healthEntry :=
  (range ((λ _, []) <$> src : gmap string (list string))).*1 ≫= λ name, default [] (src !! name).

(** The instance an entry stands for: its node, and its service as the store holds
    it (the node's data centre defaulting to the seed's, the port clamped). *)
Definition entry_id (e : healthEntry) : string * string :=
  (mn_Node (me_Node e),
   if bool_decide (ms_ID (me_Service e) = ""%string) then ms_Service (me_Service e) else ms_ID (me_Service e)).

Definition imports (m : Memory) (e : healthEntry) (svc : service) : Prop :=
  let s := me_Service e in
  Svc_Name (def svc) = ms_Service s ∧ Svc_Address (def svc) = ms_Address s ∧
  Svc_Port (def svc) = clampPort (ms_Port s) ∧ Svc_Tags (def svc) = ms_Tags s ∧
  equalMap (Svc_Meta (def svc)) (ms_Meta s) = true ∧ Svc_TTL (def svc) = clampTTL m 0.

(** The node an entry is registered under, by a handler of the datacenter [dc], and what
    a seed says of a node. *)
Definition imported_node (dc : string) (e : healthEntry) : Node :=
  let n := me_Node e in
  mkNode (mn_Node n) (mn_Node n) (mn_Address n)
    (if decide (mn_Datacenter n = "")%string then dc else mn_Datacenter n) (mn_Meta n) ∅.

Definition node_at (s : Seed) (nid : string) : option Node := meta <$> nodes (sd_store s) !! nid.

(** The nodes after the entries [l] are written: each as the last entry that names it
    says, the others as they were. *)
Definition nodes_written (dc : string) (l : list healthEntry) (s s' : Seed) : Prop :=
  ∀ nid, node_at s' nid =
    match last (filter (λ e, mn_Node (me_Node e) = nid) l) with
    | Some e => Some (imported_node dc e)
    | None => node_at s nid
    end.

Lemma nodes_written_app dc l l' s s1 s2 :
  nodes_written dc l s s1 → nodes_written dc l' s1 s2 → nodes_written dc (l ++ l') s s2.
Proof.
  intros H1 H2 nid. rewrite H2, filter_app, last_app. destruct (last (filter _ l')); [done|apply H1].
Qed.

(** ** Lemmas of the import *)

Section ImportSeed.
Context `{MapRange} (clks : nat → Clock) (n : Node) (h : Handler) (r : HttpRequest).
Context (src : ConsulCatalog) (from to : string).
Context (Hauth : authorizeWrite h r = true).

Notation client := (import_client clks n h r src from to).

Definition valid_entry (e : healthEntry) : Prop := mn_Node (me_Node e) ≠ ""%string ∧ ms_Service (me_Service e) ≠ ""%string.

Definition at_id (s : Seed) (id : string * string) : option service := lookup_service (sd_store s) id.1 id.2.

(** The registration of an entry: its node, and its instance. *)
Definition node_of (e : healthEntry) : Node := Reg_Node (catalog_registration h (body_input (entry_body e))).

Definition instance_of (e : healthEntry) : ServiceInstance :=
  mkService (entry_id e).2 (ms_Service (me_Service e)) (ms_Address (me_Service e))
    (clampPort (ms_Port (me_Service e))) (ms_Tags (me_Service e)) (ms_Meta (me_Service e)) (mkWeights 0 0) 0 zeroTime 0.

Lemma instance_id e : valid_entry e → (entry_id e).2 ≠ ""%string.
Proof. intros [_ Hs]. unfold entry_id. simpl. by case_bool_decide. Qed.

(** One write: an accepted registration. *)
Lemma put_store k s e :
  valid_entry e → MaxServices (opts (sd_store s)) <= 0 →
  ∃ s', putJSON client (to +:+ "/v1/catalog/register") (entry_body e) (k, s) = (None, (S k, s')) ∧
    (∃ evs, Register (clks k) (mkRegistration (node_of e) [instance_of e] 1) (sd_store s) = (None, sd_store s', evs)) ∧
    registered (node_of e) 1 (clks k O) [instance_of e] (sd_store s) None (sd_store s') ∧ reg_id (instance_of e) = (entry_id e).2.
Proof.
  intros Hv Hmax. pose proof (instance_id e Hv) as Hid. destruct Hv as [Hn Hs].
  unfold putJSON. cbn [cl_NewRequest cl_Put import_client negb fst snd].
  rewrite bool_decide_eq_true_2 by done. unfold catalogRegister. rewrite Hauth. cbn [negb].
  rewrite bool_decide_eq_false_2 by done. cbn [r_RegisterExternal StoreRegistry].
  assert (Hrg : catalog_registration h (body_input (entry_body e)) = mkRegistration (node_of e) [instance_of e] 1).
  { unfold node_of, catalog_registration. simpl. by rewrite (bool_decide_eq_true_2 (ms_Service (me_Service e) ≠ ""%string)). }
  rewrite Hrg. destruct (seed_register (clks k) (mkRegistration (node_of e) [instance_of e] 1) s) as (s' & -> & HR & Hrs); [|done|].
  { split; [exact Hn|]. intros j ->%list_elem_of_singleton. exact Hs. }
  exists s'. split; [done|]. split; [done|]. split; [done|].
  unfold reg_id. by rewrite bool_decide_eq_false_2 by exact Hid.
Qed.

Lemma node_of_imported e : node_of e = imported_node (info_Datacenter (h_info h)) e.
Proof.
  unfold node_of, imported_node, catalog_registration, body_input, entry_body. simpl.
  case_bool_decide; case_decide; done.
Qed.

(** What it leaves under the entry's identity, and elsewhere. *)
Lemma put_entry k s e :
  valid_entry e → MaxServices (opts (sd_store s)) <= 0 →
  ∃ s', putJSON client (to +:+ "/v1/catalog/register") (entry_body e) (k, s) = (None, (S k, s')) ∧
    opts (sd_store s') = opts (sd_store s) ∧
    (∃ svc, at_id s' (entry_id e) = Some svc ∧ imports (sd_store s) e svc) ∧
    (∀ id, id ≠ entry_id e → at_id s' id = at_id s id) ∧
    nodes_written (info_Datacenter (h_info h)) [e] s s'.
Proof.
  intros Hv Hmax. destruct (put_store k s e Hv Hmax) as (s' & Hput & (evs & HR) & [Hop Hnode Hfr _ Hsto] & Hri).
  exists s'. split; [done|]. split; [done|]. split; [|split].
  - destruct (Hsto eq_refl ltac:(apply NoDup_singleton) (instance_of e)) as (svc & Hl & Hsv); [by apply list_elem_of_singleton|].
    exists svc. split; [unfold at_id; by rewrite <-Hri|].
    apply (stored_up_to_date _ _ _ _ 0), changed_false in Hsv. unfold incoming in Hsv.
    rewrite bool_decide_eq_false_2 in Hsv by exact (instance_id e Hv). exact Hsv.
  - intros [nid id] Hne. apply Hfr. destruct (decide (nid = (entry_id e).1)) as [->|]; [right|by left].
    rewrite list_fmap_singleton, list_elem_of_singleton, Hri. intros E. destruct Hne. by apply injective_projections.
  - intros nid. rewrite filter_cons, filter_nil. pose proof (node_of_imported e) as Hni. case_decide as Hd; simpl.
    + destruct Hnode as (n' & Hn' & Hmt). unfold node_at. subst nid.
      replace (mn_Node (me_Node e)) with (Node_ID (node_of e)) by (by rewrite Hni). rewrite Hn'. simpl. by rewrite Hmt, Hni.
    + unfold node_at. pose proof (Register_only (clks k) (mkRegistration (node_of e) [instance_of e] 1) (sd_store s) nid) as Ho.
      rewrite HR in Ho. simpl in Ho. rewrite Ho; [done|]. intros E. apply Hd. by rewrite E.
Qed.

Definition plain_name (name : string) : Prop := no_byte "?" name = true.

Lemma Cut_plain s c : no_byte c s = true → (Cut s c).1.1 = s.
Proof.
  induction s as [|a s IH]; [done|]. cbn [Cut no_byte]. rewrite andb_true_iff, negb_true_iff.
  intros [-> Hs]. specialize (IH Hs). destruct (Cut s c) as [[b x] f]. simpl in *. by subst.
Qed.

Lemma source_service name :
  plain_name name → source_get src from (from +:+ "/v1/health/service/" +:+ name) = (200, EntriesJSON (default [] (src !! name))).
Proof.
  intros Hp. unfold source_get, url_path_of. rewrite TrimPrefix_app, Cut_plain.
  2: { rewrite no_byte_app. by rewrite Hp. }
  rewrite bool_decide_eq_false_2 by (by destruct name).
  by rewrite HasPrefix_app, TrimPrefix_app.
Qed.

(** The whole import, for any relation between the seed before and after that holds of
    each write and composes. *)
Section Writes.
Context (R : nat → nat → list healthEntry → Seed → Seed → Prop).
Context (R_opts : ∀ k k' l s s', R k k' l s s' → opts (sd_store s') = opts (sd_store s)).
Context (R_nil : ∀ k s, R k k [] s s).
Context (R_app : ∀ k k1 k2 l l' s s1 s2, R k k1 l s s1 → R k1 k2 l' s1 s2 → R k k2 (l ++ l') s s2).
Context (R_put : ∀ k s e, valid_entry e → MaxServices (opts (sd_store s)) <= 0 →
  ∃ s', putJSON client (to +:+ "/v1/catalog/register") (entry_body e) (k, s) = (None, (S k, s')) ∧ R k (S k) [e] s s').

Lemma import_entries_rel entries k s written :
  Forall valid_entry entries → MaxServices (opts (sd_store s)) <= 0 →
  ∃ k' s', import_entries client to entries written (k, s) = (written + Z.of_nat (length entries), None, (k', s')) ∧
    R k k' entries s s'.
Proof.
  revert k s written. induction entries as [|e entries IH]; intros k s written.
  - intros _ _. exists k, s. split; [simpl; by rewrite Z.add_0_r|apply R_nil].
  - intros [He Hes]%Forall_cons Hmax. cbn [import_entries]. destruct (R_put k s e He Hmax) as (s1 & -> & H1).
    destruct (IH (S k) s1 (written + 1)) as (k' & s' & -> & H2); [done|by rewrite (R_opts _ _ _ _ _ H1)|].
    exists k', s'. split; [f_equal; f_equal; cbn [length]; lia|]. by apply (R_app k (S k) k' [e] entries s s1 s').
Qed.

Lemma import_services_rel names k s written :
  Forall plain_name names → MaxServices (opts (sd_store s)) <= 0 →
  Forall valid_entry (names ≫= λ name, default [] (src !! name)) →
  let entries := names ≫= λ name, default [] (src !! name) in
  ∃ k' s', import_services client from to names written (k, s) = (written + Z.of_nat (length entries), None, (k', s')) ∧
    R k k' entries s s'.
Proof.
  revert k s written. induction names as [|name names IH]; intros k s written Hp Hmax Hv entries.
  { exists k, s. split; [simpl; by rewrite Z.add_0_r|apply R_nil]. }
  apply Forall_cons in Hp as [Hp Hps]. unfold entries in *. clear entries.
  rewrite bind_cons in *. apply Forall_app in Hv as [Hv Hvs].
  cbn [import_services]. unfold getJSON. cbn [cl_NewRequest cl_Get import_client negb].
  rewrite source_service by done. cbn [Z.eqb Pos.eqb negb decode_entries].
  destruct (import_entries_rel (default [] (src !! name)) k s written Hv Hmax) as (k1 & s1 & -> & H1).
  destruct (IH k1 s1 (written + Z.of_nat (length (default [] (src !! name))))) as (k' & s' & -> & H2);
    [done|by rewrite (R_opts _ _ _ _ _ H1)|done|].
  exists k', s'. split; [rewrite length_app; f_equal; f_equal; lia|]. by eapply R_app.
Qed.
End Writes.

Record imported (dc : string) (entries : list healthEntry) (s s' : Seed) : Prop := {
  im_opts : opts (sd_store s') = opts (sd_store s);
  im_all : NoDup (entry_id <$> entries) → ∀ e, e ∈ entries →
    ∃ svc, at_id s' (entry_id e) = Some svc ∧ imports (sd_store s) e svc;
  im_frame : ∀ id, id ∉ entry_id <$> entries → at_id s' id = at_id s id;
  im_nodes : nodes_written dc entries s s'
}.

Lemma imports_opts m m' e svc : opts m = opts m' → imports m e svc → imports m' e svc.
Proof. unfold imports, clampTTL. by intros ->. Qed.

Lemma imported_app dc l l' s s1 s2 : imported dc l s s1 → imported dc l' s1 s2 → imported dc (l ++ l') s s2.
Proof.
  intros [Ho1 Ha1 Hf1 Hn1] [Ho2 Ha2 Hf2 Hn2]. split; [| | |by eapply nodes_written_app].
  - by rewrite Ho2.
  - rewrite fmap_app. intros (Hnd1 & Hd & Hnd2)%NoDup_app e [He|He]%elem_of_app.
    + rewrite Hf2; [by apply Ha1|]. by apply Hd, list_elem_of_fmap_2.
    + destruct (Ha2 Hnd2 e He) as (svc & ? & ?). exists svc. split; [done|]. by eapply imports_opts.
  - intros id. rewrite fmap_app, not_elem_of_app. intros [H1 H2]. by rewrite Hf2, Hf1.
Qed.

Lemma import_services_seed names k s written :
  Forall plain_name names → MaxServices (opts (sd_store s)) <= 0 →
  Forall valid_entry (names ≫= λ name, default [] (src !! name)) →
  let entries := names ≫= λ name, default [] (src !! name) in
  ∃ k' s', import_services client from to names written (k, s) = (written + Z.of_nat (length entries), None, (k', s')) ∧
    imported (info_Datacenter (h_info h)) entries s s'.
Proof.
  apply (import_services_rel (λ _ _, imported (info_Datacenter (h_info h)))).
  - intros _ _ l s0 s' Him. apply Him.
  - intros _ s0. split; [done| |done|done]. intros _ e He. by apply elem_of_nil in He.
  - intros _ _ _. apply imported_app.
  - intros k0 s0 e Hv Hmax. destruct (put_entry k0 s0 e Hv Hmax) as (s' & Hput & Ho & Hat & Hfr & Hns).
    exists s'. split; [done|]. split; [done| | |done].
    + by intros _ e' ->%list_elem_of_singleton.
    + intros id. rewrite list_fmap_singleton, list_elem_of_singleton. apply Hfr.
Qed.

End ImportSeed.

(** ** Claims *)

(** The shadow diff is the symmetric difference of the two catalogues: each side
    lists exactly one entry for every key the other catalogue lacks; and when the
    fields hold no separator and the tags are not empty and hold no comma, the diff is
    empty exactly when every entry of one catalogue has a counterpart in the other,
    equal up to the order of the tags, so neither the order nor the repetition of the
    entries matters. *)
Theorem ShadowDiff_exact `{MapRange} (left right : list ShadowEntry) :
  let d := ShadowDiff left right in
  (∀ k, (∃ e, e ∈ OnlyLeft d ∧ key e = k) ↔ k ∈ key <$> left ∧ k ∉ key <$> right) ∧
  (∀ k, (∃ e, e ∈ OnlyRight d ∧ key e = k) ↔ k ∈ key <$> right ∧ k ∉ key <$> left) ∧
  (∀ e, e ∈ OnlyLeft d → e ∈ left) ∧ (∀ e, e ∈ OnlyRight d → e ∈ right) ∧
  (Forall plain_entry left → Forall plain_entry right →
   Empty d = true ↔
     (∀ a, a ∈ left → ∃ b, b ∈ right ∧ same_entry a b) ∧ (∀ b, b ∈ right → ∃ a, a ∈ left ∧ same_entry a b)).
Proof.
  intros d.
  assert (Hk : ∀ l r k, (∃ e, e ∈ diff_loop (range (index l)) (index r) [] ∧ key e = k) ↔ k ∈ key <$> l ∧ k ∉ key <$> r).
  { intros l r k. split.
    - intros (e & [Hl Hr]%diff_side & <-). split; [|done]. apply index_key in Hl as [_ ?]. by apply list_elem_of_fmap_2.
    - intros [Hl Hr]. destruct (index l !! k) as [e|] eqn:E; [|by apply index_none in E].
      destruct (index_key _ _ _ E) as [<- _]. exists e. by rewrite diff_side. }
  assert (Hin : ∀ l r e, e ∈ diff_loop (range (index l)) (index r) [] → e ∈ l).
  { intros l r e [Hl _]%diff_side. by apply index_key in Hl as [_ ?]. }
  split; [apply Hk|]. split; [apply Hk|]. split; [apply Hin|]. split; [apply Hin|].
  intros Hpl Hpr. rewrite Forall_forall in Hpl, Hpr.
  unfold Empty. rewrite andb_true_iff, !Nat.eqb_eq, !length_zero_iff_nil. unfold d, ShadowDiff. cbn [OnlyLeft OnlyRight].
  rewrite !diff_loop_nil. split.
  - intros [H1 H2]. split.
    + intros a Ha. pose proof (H1 a Ha) as (b & Hb & Hbr)%list_elem_of_fmap. exists b. split; [done|]. apply key_faithful; auto.
    + intros b Hb. pose proof (H2 b Hb) as (a & Ha & Hal)%list_elem_of_fmap. exists a. split; [done|]. apply key_faithful; auto.
  - intros [H1 H2]. split.
    + intros a Ha. pose proof (H1 a Ha) as (b & Hb & ->). by apply list_elem_of_fmap_2.
    + intros b Hb. pose proof (H2 b Hb) as (a & Ha & <-). by apply list_elem_of_fmap_2.
Qed.

Definition sampleShadow (id : string) (tags : list string) : ShadowEntry :=
  mkShadowEntry "n1" id "10.0.0.1" 80 tags "passing".

Lemma ShadowDiff_exact_witness :
  Empty (@ShadowDiff list_order [sampleShadow "a" ["v1"; "v2"]%string; sampleShadow "b" []]
    [sampleShadow "b" []; sampleShadow "a" ["v2"; "v1"]%string; sampleShadow "b" []]) = true.
Proof.
  assert (Hp : ∀ id tags, no_byte US id = true →
    Forall (λ t, no_byte US t = true ∧ no_byte COMMA t = true ∧ t ≠ ""%string) tags → plain_entry (sampleShadow id tags)).
  { intros id tags Hid Ht. split; [|by vm_compute|done]. simpl. rewrite !Forall_cons. split_and!; done. }
  assert (Hs : same_entry (sampleShadow "a" ["v1"; "v2"]%string) (sampleShadow "a" ["v2"; "v1"]%string)).
  { split_and!; try done. constructor. }
  apply (@ShadowDiff_exact list_order).
  - repeat (constructor; [apply Hp; [done|repeat constructor; done]|]). constructor.
  - repeat (constructor; [apply Hp; [done|repeat constructor; done]|]). constructor.
  - split; intros x Hx; repeat (apply elem_of_cons in Hx as [-> |Hx]); try by apply elem_of_nil in Hx.
    + exists (sampleShadow "a" ["v2"; "v1"]%string). split; [set_solver|done].
    + exists (sampleShadow "b" []). split; [set_solver|done].
    + exists (sampleShadow "b" []). split; [set_solver|done].
    + exists (sampleShadow "a" ["v1"; "v2"]%string). split; [set_solver|done].
    + exists (sampleShadow "b" []). split; [set_solver|done].
Defined.

(** The import backfills the whole catalogue: run against a Consul catalogue
    (distinct instances, with node and service names, service names without a
    question mark) and a seed without a cap that accepts the writes, it returns no
    error and the number of the catalogue's instances; every one of them is then in
    the seed's registry under its node and ID with its name, address, clamped port,
    tags, metadata and the default lease; and every other instance is as it was. *)
Theorem Import_backfills `{MapRange} (clks : nat → Clock) (n : Node) (h : Handler) (r : HttpRequest)
    (src : ConsulCatalog) (from to : string) (k : nat) (s : Seed) :
  let client := import_client clks n h r src (trim_right_byte "/" from) (trim_right_byte "/" to) in
  let entries := import_order src in
  authorizeWrite h r = true → MaxServices (opts (sd_store s)) <= 0 →
  (∀ name es, src !! name = Some es → plain_name name ∧ Forall valid_entry es) →
  NoDup (entry_id <$> entries) →
  (∀ e, e ∈ entries ↔ ∃ name es, src !! name = Some es ∧ e ∈ es) ∧
  ∃ k' s', Import client from to (k, s) = (Z.of_nat (length entries), None, (k', s')) ∧
    (∀ e, e ∈ entries → ∃ svc, at_id s' (entry_id e) = Some svc ∧ imports (sd_store s) e svc) ∧
    (∀ id, id ∉ entry_id <$> entries → at_id s' id = at_id s id).
Proof.
  intros client entries Hauth Hmax Hsrc Hnd.
  assert (Hnames : ∀ name, name ∈ (range ((λ _, []) <$> src : gmap string (list string))).*1 ↔ is_Some (src !! name)).
  { intros name. rewrite list_elem_of_fmap. split.
    - intros ([k' v] & -> & Hv%elem_of_range). apply lookup_fmap_Some in Hv as (es & _ & Hes). by exists es.
    - intros [es He]. exists (name, []). split; [done|]. apply elem_of_range, lookup_fmap_Some. by exists es. }
  assert (Hmem : ∀ e, e ∈ entries ↔ ∃ name es, src !! name = Some es ∧ e ∈ es).
  { intros e. unfold entries, import_order. rewrite list_elem_of_bind. split.
    - intros (name & He & [es Hes]%Hnames). rewrite Hes in He. by exists name, es.
    - intros (name & es & Hes & He). exists name. rewrite Hes, Hnames. eauto. }
  split; [done|]. unfold Import, getJSON. cbn [cl_NewRequest cl_Get import_client client negb].
  unfold source_get, url_path_of. rewrite TrimPrefix_app. cbn [Cut fst]. rewrite bool_decide_eq_true_2 by done.
  cbn [Z.eqb Pos.eqb negb decode_services]. unfold client.
  destruct (import_services_seed clks n h r src (trim_right_byte "/" from) (trim_right_byte "/" to) Hauth
    (range ((λ _, []) <$> src : gmap string (list string))).*1 k s 0) as (k' & s' & -> & [_ Ha Hf _]).
  - apply Forall_forall. intros name [es Hes]%Hnames. by eapply Hsrc.
  - done.
  - apply Forall_forall. intros e (name & es & Hes & He)%Hmem. destruct (Hsrc _ _ Hes) as [_ Hv].
    rewrite Forall_forall in Hv. auto.
  - exists k', s'. split; [done|]. split; [by apply Ha|done].
Qed.

Definition sampleHealthEntry (node id name : string) (port : Z) : healthEntry :=
  mkHealthEntry (mkConsulNode node "10.1.0.1" "dc1" ∅) (mkConsulService id name "" port ["v1"%string] ∅).

Definition sampleCatalog : ConsulCatalog :=
  {[ "web"%string := [sampleHealthEntry "n1" "web-1" "web" 80; sampleHealthEntry "n2" "" "web" 70000];
     "db"%string := [sampleHealthEntry "n1" "db-1" "db" 5432] ]}.

Definition uncapped : Options := mkOptions (30 * second) 0 0 (60 * second) 100 0.

Lemma Import_backfills_witness :
  let client := @import_client list_order (λ _, frozen 5) (sampleNode "s1") (sampleHandler ModeAllow)
    (sampleRequest "/v1/catalog/register" "" []) sampleCatalog "http://c:8500" "http://y:8500" in
  ∃ k' s', @Import _ client list_order "http://c:8500/" "http://y:8500" (0%nat, NewSeed uncapped) = (3, None, (k', s')) ∧
    ∃ svc, at_id s' ("n2", "web")%string = Some svc ∧ Svc_Port (def svc) = 65535.
Proof.
  intros client.
  destruct (@Import_backfills list_order (λ _, frozen 5) (sampleNode "s1") (sampleHandler ModeAllow)
    (sampleRequest "/v1/catalog/register" "" []) sampleCatalog "http://c:8500/" "http://y:8500" 0%nat (NewSeed uncapped))
    as (Hmem & k' & s' & HI & Ha & _).
  - vm_compute. reflexivity.
  - apply Z.leb_le. vm_compute. reflexivity.
  - intros name es. unfold sampleCatalog. rewrite lookup_insert. case_decide; [subst name; intros [= <-]|].
    { split; [done|]. repeat constructor; done. }
    rewrite lookup_singleton. case_decide; [subst name; intros [= <-]|done].
    split; [done|]. repeat constructor; done.
  - apply (bool_decide_unpack _). vm_compute. exact I.
  - exists k', s'. split; [exact HI|].
    destruct (Ha (sampleHealthEntry "n2" "" "web" 70000)) as (svc & Hl & (_ & _ & Hp & _)).
    { apply Hmem. exists "web"%string. eexists. split; [apply lookup_insert_eq|]. rewrite !elem_of_cons. by right; left. }
    exists svc. split; [exact Hl|exact Hp].
Defined.

(** The comma that joins the tags is not kept out of them: an instance tagged "a,b"
    and one tagged "a" and "b" (and an empty tag against no tag at all) have the same
    key, so the diff of two catalogues that differ in it is empty. *)
Theorem ShadowDiff_tags_collide :
  Empty (@ShadowDiff list_order [sampleShadow "a" ["a,b"%string]] [sampleShadow "a" ["a"; "b"]%string]) = true ∧
  Empty (@ShadowDiff list_order [sampleShadow "a" [""%string]] [sampleShadow "a" []]) = true ∧
  ¬ same_entry (sampleShadow "a" ["a,b"%string]) (sampleShadow "a" ["a"; "b"]%string).
Proof.
  split; [vm_compute; reflexivity|]. split; [vm_compute; reflexivity|].
  intros (_&_&_&_&_&Hp). apply Permutation_length in Hp. done.
Qed.

(** The name of a service is put into the URL unescaped: of a service whose name holds
    a question mark the import reads the entries of another one (the part before the
    mark), reports success and leaves the service out. *)
Theorem Import_unescaped_name :
  let src : ConsulCatalog := {[ "web"%string := [sampleHealthEntry "n1" "web-1" "web" 80];
                                "web?2"%string := [sampleHealthEntry "n1" "web-2" "web?2" 81] ]} in
  let client := @import_client list_order (λ _, frozen 5) (sampleNode "s1") (sampleHandler ModeAllow)
    (sampleRequest "/v1/catalog/register" "" []) src "http://c:8500" "http://y:8500" in
  let '(written, err, (_, s')) :=
    @Import _ client list_order "http://c:8500" "http://y:8500" (0%nat, NewSeed uncapped) in
  written = 2 ∧ err = None ∧ at_id s' ("n1", "web-1")%string ≠ None ∧ at_id s' ("n1", "web-2")%string = None.
Proof. vm_compute. repeat split; try reflexivity. discriminate. Qed.
