(* ===== verification/Readiness.v ===== *)
(** The readiness gate ([internal/observability/readiness.go]), the gRPC server
    component that opens and closes it ([internal/server/component.go]) and the
    agent's probe that drives it from the seeds ([ReadinessProbe] of
    [internal/seedclient/loops.go]).

    The health server is the one of the gRPC library: the class [HealthServer] states
    what its documentation says of setting and checking a status.  The three threads
    (the server's [Start], its [Stop] as the application calls it once the context has
    ended, and the probe) are interleaved status by status in [gate_step]; [g_last] is
    a ghost: the verdict of the last probe that ran entirely while the server was up. *)

From Stdlib Require Import ZArith Lia.
From stdpp Require Import base gmap list strings relations.
From S2P Require Import Prelude.
From S2P Require Import SeedClient.

Local Open Scope Z_scope.

(** ** The health server and the gate *)

Inductive ServingStatus := SERVING | NOT_SERVING.

#[export] Instance ServingStatus_eq_dec : EqDecision ServingStatus.
Proof. solve_decision. Defined.

Class HealthServer (H : Type) := {
  SetServingStatus : string → ServingStatus → H → H;
  health_Check : string → H → option ServingStatus;
  health_set_eq : ∀ s st h, health_Check s (SetServingStatus s st h) = Some st;
  health_set_ne : ∀ s s' st h, s ≠ s' → health_Check s' (SetServingStatus s st h) = health_Check s' h
}.

(** The statuses as a map: one such server. *)
#[export] Instance map_health : HealthServer (gmap string ServingStatus).
Proof.
  refine {| SetServingStatus s st h := <[s := st]> h; health_Check s h := h !! s |}.
  - intros. apply lookup_insert_eq.
  - intros. by apply lookup_insert_ne.
Defined.

Section Gate.
Context {H : Type} `{HealthServer H}.

(** [Readiness.set]. *)
Definition set_status (services : list string) (st : ServingStatus) (h : H) : H :=
  foldl (λ h s, SetServingStatus s st h) h services.

Definition status_of (ready : bool) : ServingStatus := if ready then SERVING else NOT_SERVING.

Definition SetReady (services : list string) (ready : bool) (h : H) : H := set_status services (status_of ready) h.

Definition NewReadiness (services : list string) (h : H) : H := set_status services NOT_SERVING h.

(** ** The server component *)

Record Component := mkComponent { co_addr : string; co_drainWindow : Z; co_startNotRdy : bool }.

Definition agentServiceName : string := "discovery.v1.AgentService".

(** The services [NewComponent] gates: the whole server and the agent service. *)
Definition gated : list string := [""%string; agentServiceName].

(** [NewReadinessProbe] clamps the number of seeds. *)
Definition probe_minSeeds (minSeeds : Z) : Z := if minSeeds <? 1 then 1 else minSeeds.

(** [Start]: before [net.Listen]; setting the statuses; serving; returned. *)
Inductive StartPC := StNew | StSetting (rest : list string) | StServing | StReturned.

(** The probe: waiting; the answer of [Reachable] not yet looked at; setting. *)
Inductive ProbePC := PIdle | PAsked (reachable : Z) | PSetting (reachable : Z) (clean : bool) (rest : list string) | PReturned.

(** [Stop]: not called; setting; the drain window; the graceful stop; the server
    stopped, by force or not. *)
Inductive StopPC := SNot | SSetting (rest : list string) | SDrain | SGraceful | SStopped (forced : bool).

Record Gate := mkGate {
  g_health : H; g_cancelled : bool; g_start : StartPC; g_probe : ProbePC; g_stop : StopPC; g_last : option bool
}.

Definition NewComponent (h : H) : Gate := mkGate (NewReadiness gated h) false StNew PIdle SNot None.

Definition start_done (s : StartPC) : bool := match s with StServing | StReturned => true | _ => false end.

Context (c : Component) (minSeeds : Z).

Definition enough (n : Z) : bool := probe_minSeeds minSeeds <=? n.

Inductive gate_step : Gate → Gate → Prop :=
  (** The context of the components ends. *)
  | gs_cancel h st pr sp l : gate_step (mkGate h false st pr sp l) (mkGate h true st pr sp l)
  (** [Start]. *)
  | gs_listen h x pr sp l :
      gate_step (mkGate h x StNew pr sp l) (mkGate h x (if co_startNotRdy c then StServing else StSetting gated) pr sp l)
  | gs_listen_error h x pr sp l : gate_step (mkGate h x StNew pr sp l) (mkGate h x StReturned pr sp l)
  | gs_start_set h x s rest pr sp l :
      gate_step (mkGate h x (StSetting (s :: rest)) pr sp l) (mkGate (SetServingStatus s SERVING h) x (StSetting rest) pr sp l)
  | gs_start_serve h x pr sp l : gate_step (mkGate h x (StSetting []) pr sp l) (mkGate h x StServing pr sp None)
  | gs_start_returns h x pr sp l : gate_step (mkGate h x StServing pr sp l) (mkGate h x StReturned pr sp l)
  (** The probe. *)
  | gs_probe h x st sp l serving :
      gate_step (mkGate h x st PIdle sp l) (mkGate h x st (PAsked (Reachable serving)) sp l)
  | gs_probe_check h x st n sp l :
      gate_step (mkGate h x st (PAsked n) sp l) (mkGate h x st (if x then PIdle else PSetting n (start_done st) gated) sp l)
  | gs_probe_set h x st n cl s rest sp l :
      gate_step (mkGate h x st (PSetting n cl (s :: rest)) sp l)
        (mkGate (SetServingStatus s (status_of (enough n)) h) x st (PSetting n cl rest) sp l)
  | gs_probe_done h x st n cl sp l :
      gate_step (mkGate h x st (PSetting n cl []) sp l) (mkGate h x st PIdle sp (if cl then Some (enough n) else None))
  | gs_probe_returns h st sp l : gate_step (mkGate h true st PIdle sp l) (mkGate h true st PReturned sp l)
  (** [Stop]. *)
  | gs_stop h st pr l : gate_step (mkGate h true st pr SNot l) (mkGate h true st pr (SSetting gated) l)
  | gs_stop_set h x st pr s rest l :
      gate_step (mkGate h x st pr (SSetting (s :: rest)) l) (mkGate (SetServingStatus s NOT_SERVING h) x st pr (SSetting rest) l)
  | gs_stop_drain h x st pr l :
      gate_step (mkGate h x st pr (SSetting []) l)
        (mkGate h x st pr (if 0 <? co_drainWindow c then SDrain else SGraceful) l)
  | gs_drained h x st pr l : gate_step (mkGate h x st pr SDrain l) (mkGate h x st pr SGraceful l)
  | gs_drain_deadline h x st pr l : gate_step (mkGate h x st pr SDrain l) (mkGate h x st pr (SStopped true) l)
  | gs_graceful h x st pr l : gate_step (mkGate h x st pr SGraceful l) (mkGate h x st pr (SStopped false) l)
  | gs_graceful_deadline h x st pr l : gate_step (mkGate h x st pr SGraceful l) (mkGate h x st pr (SStopped true) l).

(** The gate has [st] for all of the services. *)
Definition gate_is (services : list string) (st : ServingStatus) (h : H) : Prop :=
  ∀ s, s ∈ services → health_Check s h = Some st.

(** A thread that sets [st] on the services one by one has done a prefix. *)
Definition set_so_far (rest : list string) (st : ServingStatus) (h : H) : Prop :=
  ∃ pre, gated = pre ++ rest ∧ gate_is pre st h.

(** ** Lemmas *)

Lemma gated_NoDup : NoDup gated.
Proof. apply (bool_decide_unpack _). vm_compute. exact I. Qed.

Lemma set_so_far_start st h : set_so_far gated st h.
Proof. exists []. split; [done|]. intros s Hs. by apply elem_of_nil in Hs. Qed.

Lemma set_so_far_end st h : set_so_far [] st h → gate_is gated st h.
Proof. intros (pre & E & Hg). by rewrite E, app_nil_r. Qed.

Lemma set_so_far_step s rest st h : set_so_far (s :: rest) st h → set_so_far rest st (SetServingStatus s st h).
Proof.
  intros (pre & E & Hg). exists (pre ++ [s]). split; [by rewrite <-app_assoc|].
  intros x [Hx|Hx]%elem_of_app; [|apply list_elem_of_singleton in Hx as ->; apply health_set_eq].
  rewrite health_set_ne; [by apply Hg|]. intros ->.
  pose proof gated_NoDup as Hnd. rewrite E in Hnd. apply NoDup_app in Hnd as (_ & Hd & _).
  apply (Hd x Hx). apply elem_of_cons. by left.
Qed.

Lemma gate_is_new h : gate_is gated NOT_SERVING (NewReadiness gated h).
Proof.
  apply set_so_far_end. unfold NewReadiness, set_status.
  assert (Hf : ∀ rest h, set_so_far rest NOT_SERVING h → set_so_far [] NOT_SERVING (foldl (λ h s, SetServingStatus s NOT_SERVING h) h rest)).
  { induction rest as [|s rest IH]; intros h' Hh; [done|]. simpl. by apply IH, set_so_far_step. }
  apply Hf, set_so_far_start.
Qed.

(** What the statuses say of the last probe, once the server is up and until it stops. *)
Definition verdict_ok (s : Gate) : Prop :=
  if start_done (g_start s) then
    g_stop s = SNot →
    match g_probe s with
    | PSetting n true rest =>
        set_so_far rest (status_of (enough n)) (g_health s) ∧
        ∀ b, g_last s = Some b → gate_is rest (status_of b) (g_health s)
    | PSetting n false rest => g_last s = None
    | _ => ∀ b, g_last s = Some b → gate_is gated (status_of b) (g_health s)
    end
  else g_last s = None ∧ ∀ n rest, g_probe s ≠ PSetting n true rest.

Lemma verdict_ok_new h : verdict_ok (NewComponent h).
Proof. done. Qed.

Lemma gate_is_tail s rest st st' h :
  NoDup (s :: rest) → gate_is (s :: rest) st h → gate_is rest st (SetServingStatus s st' h).
Proof.
  intros [Hs _]%NoDup_cons Hg x Hx. rewrite health_set_ne; [apply Hg; apply elem_of_cons; by right|].
  intros ->. done.
Qed.

Lemma verdict_ok_step s s' : gate_step s s' → verdict_ok s → verdict_ok s'.
Proof.
  intros Hst. destruct Hst; unfold verdict_ok; cbn [g_start g_stop g_probe g_last g_health start_done]; try done.
  - intros [-> Hp]. destruct (co_startNotRdy c); cbn [start_done]; [|done]. intros _.
    destruct pr as [| |n [] rest|]; try done. by destruct (Hp n rest).
  - intros [-> Hp] _. destruct pr as [| |n [] rest|]; try done. by destruct (Hp n rest).
  - intros [-> Hp] _. destruct pr as [| |n [] rest|]; try done. by destruct (Hp n rest).
  - intros Hv. destruct (start_done st); [exact Hv|]. by destruct Hv.
  - intros Hv. destruct (start_done st) eqn:E; [|destruct Hv as [-> Hv]; split; [done|]; by destruct x].
    intros Hs. specialize (Hv Hs). destruct x; [exact Hv|]. split; [apply set_so_far_start|exact Hv].
  - intros Hv. destruct (start_done st) eqn:E.
    + intros Hs. specialize (Hv Hs). destruct cl; [|done]. destruct Hv as [(pre & Hpre & Hg) Hl]. split.
      * apply set_so_far_step. by exists pre.
      * intros b Hb. specialize (Hl b Hb). apply gate_is_tail; [|exact Hl].
        pose proof gated_NoDup as Hnd. rewrite Hpre in Hnd. by apply NoDup_app in Hnd as (_ & _ & ?).
    + destruct Hv as [-> Hp]. split; [done|]. intros n' rest' [= -> -> ->]. by destruct (Hp n' (s :: rest')).
  - intros Hv. destruct (start_done st) eqn:E.
    + intros Hs. specialize (Hv Hs). destruct cl; [|done]. intros b [= <-]. apply set_so_far_end. by destruct Hv.
    + destruct Hv as [-> Hp]. split; [|done]. destruct cl; [by destruct (Hp n [])|done].
  - intros Hv. destruct (start_done st); [exact Hv|]. by destruct Hv.
  - intros Hv. by destruct (start_done st).
  - intros Hv. by destruct (start_done st).
  - intros Hv. destruct (start_done st); [|done]. by destruct (0 <? co_drainWindow c).
  - intros Hv. by destruct (start_done st).
  - intros Hv. by destruct (start_done st).
  - intros Hv. by destruct (start_done st).
  - intros Hv. by destruct (start_done st).
Qed.

Lemma verdict_ok_reachable h s : rtc gate_step (NewComponent h) s → verdict_ok s.
Proof.
  intros Hr. eapply (rtc_ind_r (λ s, verdict_ok s)); [apply verdict_ok_new| |exact Hr].
  intros s1 s2 _ Hst Hv. by eapply verdict_ok_step.
Qed.

(** No thread but [Stop] will write a status any more. *)
Definition quiet (s : Gate) : Prop :=
  g_cancelled s = true ∧ start_done (g_start s) = true ∧ ∀ n cl rest, g_probe s ≠ PSetting n cl rest.

Definition drained_ok (s : Gate) : Prop :=
  quiet s ∧
  match g_stop s with
  | SNot => False
  | SSetting rest => set_so_far rest NOT_SERVING (g_health s)
  | _ => gate_is gated NOT_SERVING (g_health s)
  end.

Lemma drained_ok_step s s' : gate_step s s' → drained_ok s → drained_ok s'.
Proof.
  intros Hst. destruct Hst; unfold drained_ok, quiet; cbn [g_start g_stop g_probe g_health g_cancelled start_done];
    intros [(Hc & Hd & Hp) Hs]; try done.
  - subst x. by repeat split.
  - by destruct (Hp n cl (s :: rest)).
  - split; [by split_and!|]. by apply set_so_far_step.
  - split; [by split_and!|]. apply set_so_far_end in Hs. by destruct (0 <? co_drainWindow c).
Qed.

End Gate.

Arguments Gate : clear implicits.

(** ** Claims *)

(** C35: a probe gates the server k-of-N once the server is up.  In any interleaving of the
    server's start, the probes and the shutdown, take a probe that reached [n] seeds and
    began to write when the server's own start had already set its statuses (an earlier
    probe may be overridden by that start, [start_overrides_probe]).  From the end of its
    writes on, for as long as no probe has come to another verdict and the server has not
    been told to stop, and whenever no probe is writing, every gated service reports
    SERVING exactly when [n] is at least the configured number of seeds (at least one). *)
Theorem probe_gates_readiness {H} `{HealthServer H} (c : Component) (minSeeds : Z) (h : H) (s s' : Gate H) (n : Z) :
  rtc (gate_step c minSeeds) (NewComponent h) s →
  g_probe s = PSetting n true [] → gate_step c minSeeds s s' → g_probe s' = PIdle →
  ∀ s'', rtc (gate_step c minSeeds) s' s'' → g_last s'' = g_last s' → start_done (g_start s'') = true →
    g_stop s'' = SNot → (∀ m cl rest, g_probe s'' ≠ PSetting m cl rest) →
    ∀ svc, svc ∈ gated →
      health_Check svc (g_health s'') = Some (if bool_decide (1 <= n ∧ minSeeds <= n) then SERVING else NOT_SERVING).
Proof.
  intros Hr Hp Hst Hi s'' Hr' Hl Hd Hs Hq svc Hsvc.
  assert (Hlast : g_last s' = Some (enough minSeeds n)).
  { destruct Hst; cbn [g_probe g_last] in *; simplify_eq; try done; by destruct x. }
  assert (Hv : verdict_ok minSeeds s'').
  { eapply (verdict_ok_reachable c minSeeds h). etrans; [exact Hr|]. by eapply rtc_l. }
  unfold verdict_ok in Hv. rewrite Hd in Hv. specialize (Hv Hs). rewrite Hl, Hlast in Hv.
  assert (E : status_of (enough minSeeds n) = if bool_decide (1 <= n ∧ minSeeds <= n) then SERVING else NOT_SERVING).
  { unfold enough, probe_minSeeds, status_of. destruct (Z.ltb_spec minSeeds 1);
      (destruct (Z.leb_spec 1 n), (Z.leb_spec minSeeds n); case_bool_decide; try done; lia). }
  rewrite <-E. destruct (g_probe s'') as [| |m cl rest|] eqn:Ep; [by apply Hv..| |by apply Hv]. by destruct (Hq m cl rest).
Qed.

Notation StatusMap := (gmap string ServingStatus).

Definition agentServer : Component := mkComponent "127.0.0.1:9900" (5 * second) false.

(** The statuses with the same verdict for both gated services. *)
Definition both (st : ServingStatus) : StatusMap := SetReady gated (bool_decide (st = SERVING)) ∅.

(** One more step of a run, and its end. *)
Tactic Notation "gate_go" uconstr(rule) :=
  eapply rtc_l; [apply rule|cbn [co_startNotRdy co_drainWindow agentServer start_done]].

Ltac gate_end := match goal with |- rtc _ ?a ?b => replace b with a by (vm_compute; reflexivity); apply rtc_refl end.

Definition up (st : ServingStatus) (x : bool) (pr : ProbePC) (sp : StopPC) (l : option bool) : Gate StatusMap :=
  mkGate (both st) x StServing pr sp l.

(** The server started. *)
Lemma started : rtc (gate_step agentServer 2) (NewComponent ∅) (up SERVING false PIdle SNot None).
Proof.
  unfold NewComponent. gate_go gs_listen. gate_go gs_start_set. gate_go gs_start_set. gate_go gs_start_serve. gate_end.
Qed.

(** A probe that reached [serving], up to its last write. *)
Lemma probed serving l :
  rtc (gate_step agentServer 2) (up SERVING false PIdle SNot l)
    (up (status_of (enough 2 (Reachable serving))) false (PSetting (Reachable serving) true []) SNot l).
Proof.
  unfold up. gate_go (gs_probe _ _ _ _ _ _ _ serving). gate_go gs_probe_check. gate_go gs_probe_set. gate_go gs_probe_set.
  replace (SetServingStatus _ _ _) with (both (status_of (enough 2 (Reachable serving)))); [apply rtc_refl|].
  by destruct (enough 2 (Reachable serving)).
Qed.

Lemma probe_gates_readiness_witness :
  health_Check ""%string (both NOT_SERVING) = Some NOT_SERVING ∧
  health_Check agentServiceName (both NOT_SERVING) = Some NOT_SERVING.
Proof.
  assert (Hall : ∀ svc, svc ∈ gated → health_Check svc (both NOT_SERVING) = Some NOT_SERVING).
  { intros svc Hsvc.
    refine (probe_gates_readiness agentServer 2 ∅ (up NOT_SERVING false (PSetting 1 true []) SNot None)
      (up NOT_SERVING false PIdle SNot (Some false)) 1 _ eq_refl _ eq_refl
      (up NOT_SERVING false PIdle SNot (Some false)) (rtc_refl _ _) eq_refl eq_refl eq_refl _ svc Hsvc).
    - etrans; [exact started|]. exact (probed [true; false] None).
    - unfold up. apply gs_probe_done.
    - intros m cl rest. discriminate. }
  split; apply Hall; unfold gated; rewrite !elem_of_cons; auto.
Defined.

(** The drain keeps the gate shut: when [Stop] is called after [Start] has set the
    statuses and no probe is writing, then from the end of its own writes on, through
    the lame-duck window and the graceful stop, every gated service reports
    NOT_SERVING, whatever the probe does. *)
Theorem drain_keeps_not_serving {H} `{HealthServer H} (c : Component) (minSeeds : Z) (s s' s'' : Gate H) :
  g_stop s = SNot → gate_step c minSeeds s s' → g_stop s' = SSetting gated → quiet s →
  rtc (gate_step c minSeeds) s' s'' →
  g_stop s'' ≠ SNot ∧
  ((∀ rest, g_stop s'' ≠ SSetting rest) → ∀ svc, svc ∈ gated → health_Check svc (g_health s'') = Some NOT_SERVING).
Proof.
  intros Hs Hst Hs' Hq Hr.
  assert (Hok : drained_ok s').
  { split; [|rewrite Hs'; apply set_so_far_start]. destruct Hq as (Hc & Hd & Hp).
    destruct Hst; cbn [g_stop g_cancelled g_start g_probe] in *; simplify_eq; by repeat split. }
  assert (Hok'' : drained_ok s'').
  { eapply (rtc_ind_r (λ s, drained_ok s)); [exact Hok| |exact Hr].
    intros s1 s2 _ H12 H1. by eapply drained_ok_step. }
  destruct Hok'' as [_ Hg]. destruct (g_stop s'') as [|rest| | |]; try done.
  split; [done|]. intros Hn. by destruct (Hn rest).
Qed.

Lemma drain_keeps_not_serving_witness :
  health_Check agentServiceName (both NOT_SERVING) = Some NOT_SERVING.
Proof.
  destruct (drain_keeps_not_serving agentServer 2 (up SERVING true (PAsked 2) SNot None)
    (up SERVING true (PAsked 2) (SSetting gated) None) (up NOT_SERVING true PIdle SDrain None)) as [_ Hg].
  - reflexivity.
  - unfold up. apply gs_stop.
  - reflexivity.
  - split; [reflexivity|]. split; [reflexivity|]. intros n cl rest. discriminate.
  - unfold up. gate_go gs_probe_check. gate_go gs_stop_set. gate_go gs_stop_set. gate_go gs_stop_drain. gate_end.
  - apply Hg; [intros rest; discriminate|]. unfold gated. rewrite !elem_of_cons. auto.
Defined.

(** The agent's server is built without StartNotReady: a probe that has found too few
    seeds is undone by the server's own start, and the agent reports SERVING with no
    seed reachable until the next tick of the probe. *)
Theorem start_overrides_probe :
  ∃ s, rtc (gate_step agentServer 1) (NewComponent (∅ : StatusMap))
         (mkGate (both NOT_SERVING) false StNew (PSetting (Reachable [false; false]) false []) SNot None) ∧
       rtc (gate_step agentServer 1)
         (mkGate (both NOT_SERVING) false StNew (PSetting (Reachable [false; false]) false []) SNot None) s ∧
       g_start s = StServing ∧ g_probe s = PIdle ∧ gate_is gated SERVING (g_health s).
Proof.
  exists (up SERVING false PIdle SNot None). split; [|split; [|split; [|split]]]; try reflexivity.
  - unfold NewComponent. gate_go (gs_probe _ _ _ _ _ _ _ [false; false]). gate_go gs_probe_check.
    gate_go gs_probe_set. gate_go gs_probe_set. gate_end.
  - gate_go gs_probe_done. gate_go gs_listen. gate_go gs_start_set. gate_go gs_start_set. gate_go gs_start_serve. gate_end.
  - intros svc Hsvc. unfold gated in Hsvc. rewrite !elem_of_cons in Hsvc.
    destruct Hsvc as [-> |[-> |Hsvc]]; [reflexivity|reflexivity|by apply elem_of_nil in Hsvc].
Qed.

(** The probe looks at the context before it writes: one that looked just before the
    shutdown writes after the server's [Stop] has shut the gate, and the draining
    server reports SERVING again. *)
Theorem probe_reopens_drain :
  ∃ s, rtc (gate_step agentServer 1) (NewComponent (∅ : StatusMap)) s ∧
       g_cancelled s = true ∧ g_stop s = SDrain ∧ gate_is gated SERVING (g_health s).
Proof.
  exists (up SERVING true PIdle SDrain (Some true)). split; [|split; [|split]]; try reflexivity.
  - unfold NewComponent. gate_go gs_listen. gate_go gs_start_set. gate_go gs_start_set. gate_go gs_start_serve.
    gate_go (gs_probe _ _ _ _ _ _ _ [true; true]). gate_go gs_probe_check. gate_go gs_cancel. gate_go gs_stop.
    gate_go gs_stop_set. gate_go gs_stop_set. gate_go gs_stop_drain. gate_go gs_probe_set. gate_go gs_probe_set.
    gate_go gs_probe_done. gate_end.
  - intros svc Hsvc. unfold gated in Hsvc. rewrite !elem_of_cons in Hsvc.
    destruct Hsvc as [-> |[-> |Hsvc]]; [reflexivity|reflexivity|by apply elem_of_nil in Hsvc].
Qed.
