(* ===== verification/ServiceDefs.v ===== *)
(** The service-definition files ([internal/consul/servicedef.go]): the directory of
    Consul definitions that a node registers when it starts and again on SIGHUP.

    The directory and its files are values; [decode] is what [encoding/json] makes of a
    file.  The registrar is a parameter, of which a seed's store and an agent's proxy are the two
    instances; the calls to the check monitor are listed in order. *)

From Stdlib Require Import ZArith Lia Ascii.
From stdpp Require Import base gmap list strings.
From S2P Require Import Prelude.
From S2P Require Import GoStrings.
From S2P Require Import GoNet.
From S2P Require Import Model.
From S2P Require Import Health.
From S2P Require Import Store.
From S2P Require Import StoreSteps.
From S2P Require Import StoreInv.
From S2P Require Import StoreSpec.
From S2P Require Import StoreOps.
From S2P Require Import Watch.
From S2P Require Import Server.
From S2P Require Import SeedClient.
From S2P Require Import Proxy.
From S2P Require Import Consul.

Local Open Scope Z_scope.

(** ** Data *)

Record serviceDefFile := mkServiceDefFile { sf_Service : option registerInput; sf_Services : list registerInput }.

(** [fs.DirEntry], in the order of [os.ReadDir]. *)
Record DirEntry := mkDirEntry { de_Name : string; de_IsDir : bool }.

(** [filepath.Ext] of a name without a separator. *)
Definition Ext (name : string) : string :=
  match LastIndexByte name "." with Some i => str_drop i name | None => "" end.

(** ** Loading *)

Section Load.
(** [defRegistrar]: its one method, and what it returns. *)
Context {R E : Type} (registrar : Registration → R → option E * R).
Context (dur : string → option Z) (decode : string → option serviceDefFile).

(** The monitor is given ([checks != nil]). *)
Context (checks : bool).

Definition parseServiceDef (files : gmap string string) (path : string) : option (list registerInput) :=
  match files !! path with
  | None => None
  | Some data =>
      match decode data with
      | None => None
      | Some f =>
          Some (match sf_Service f with Some i => [i] | None => [] end ++ sf_Services f)
      end
  end.

(** The registration built of an input; the registrar stamps its own node. *)
Definition def_registration (i : registerInput) : Registration :=
  mkRegistration zeroNode [inputToService dur i] 1.

(** The inner loop. *)
Fixpoint load_inputs (inputs : list registerInput) (count : Z) (s : R) (calls : list ChecksCall)
  : Z * R * list ChecksCall :=
  match inputs with
  | [] => (count, s, calls)
  | i :: rest =>
      if bool_decide (ri_Name i = ""%string) then load_inputs rest count s calls
      else
        match registrar (def_registration i) s with
        | (Some _, s) => load_inputs rest count s calls
        | (None, s) =>
            let calls := if checks then calls ++ [ChecksSet (Svc_ID (inputToService dur i)) (activeChecks dur i)] else calls in
            load_inputs rest (count + 1) s calls
        end
  end.

(** The outer loop. *)
Fixpoint load_files (dir : string) (files : gmap string string) (entries : list DirEntry)
    (count : Z) (s : R) (calls : list ChecksCall) : Z * R * list ChecksCall :=
  match entries with
  | [] => (count, s, calls)
  | e :: rest =>
      if de_IsDir e || bool_decide (Ext (de_Name e) ≠ ".json"%string)
      then load_files dir files rest count s calls
      else
        match parseServiceDef files (dir +:+ "/" +:+ de_Name e) with
        | None => load_files dir files rest count s calls
        | Some inputs =>
            let '(count, s, calls) := load_inputs inputs count s calls in
            load_files dir files rest count s calls
        end
  end.

(** [None]: the directory cannot be read. *)
Definition LoadServiceDefs (dir : string) (readdir : option (list DirEntry)) (files : gmap string string) (s : R)
  : option Z * R * list ChecksCall :=
  if bool_decide (dir = ""%string) then (Some 0, s, [])
  else match readdir with
       | None => (None, s, [])
       | Some entries =>
           let '(count, s, calls) := load_files dir files entries 0 s [] in (Some count, s, calls)
       end.

(** [Loader.Start]: the directory at the start and at each SIGHUP. *)
Definition Loader_Start (dir : string) (loads : list (option (list DirEntry) * gmap string string)) (s : R)
  : R * list ChecksCall :=
  if bool_decide (dir = ""%string) then (s, [])
  else foldl (λ acc l, let '(_, s, calls) := LoadServiceDefs dir l.1 l.2 acc.1 in (s, acc.2 ++ calls)) (s, []) loads.

(** ** The reference: the definitions a directory declares *)

Definition file_inputs (dir : string) (files : gmap string string) (e : DirEntry) : list registerInput :=
  if de_IsDir e || bool_decide (Ext (de_Name e) ≠ ".json"%string) then []
  else default [] (parseServiceDef files (dir +:+ "/" +:+ de_Name e)).

Definition declared (dir : string) (files : gmap string string) (entries : list DirEntry) : list registerInput :=
  filter (λ i, ri_Name i ≠ ""%string) (entries ≫= file_inputs dir files).

(** Registering a list one by one: what is counted and reported is what succeeded. *)
Fixpoint register_all (inputs : list registerInput) (s : R) : list registerInput * R :=
  match inputs with
  | [] => ([], s)
  | i :: rest =>
      match registrar (def_registration i) s with
      | (Some _, s) => register_all rest s
      | (None, s) => let '(ok, s) := register_all rest s in (i :: ok, s)
      end
  end.

Definition set_call (i : registerInput) : ChecksCall := ChecksSet (Svc_ID (inputToService dur i)) (activeChecks dur i).

(** ** Lemmas *)

Lemma register_all_app l l' s :
  register_all (l ++ l') s =
    let '(ok, s) := register_all l s in let '(ok', s) := register_all l' s in (ok ++ ok', s).
Proof.
  revert s. induction l as [|i l IH]; intros s; simpl; [by destruct (register_all l' s)|].
  destruct (registrar (def_registration i) s) as [[err|] s1]; [apply IH|]. rewrite IH.
  destruct (register_all l s1) as [ok s2]. by destruct (register_all l' s2).
Qed.

Lemma load_inputs_spec inputs count s calls :
  load_inputs inputs count s calls =
    let '(ok, s') := register_all (filter (λ i, ri_Name i ≠ ""%string) inputs) s in
    (count + Z.of_nat (length ok), s', calls ++ if checks then set_call <$> ok else []).
Proof.
  revert count s calls. induction inputs as [|i inputs IH]; intros count s calls.
  { simpl. rewrite Z.add_0_r. destruct checks; by rewrite app_nil_r. }
  cbn [load_inputs]. rewrite filter_cons. destruct (bool_decide (ri_Name i = ""%string)) eqn:En.
  { apply bool_decide_eq_true in En. rewrite decide_False by tauto. apply IH. }
  apply bool_decide_eq_false in En. rewrite decide_True by done. cbn [register_all].
  destruct (registrar (def_registration i) s) as [[err|] s1]; [apply IH|]. rewrite IH.
  destruct (register_all (filter _ inputs) s1) as [ok s2]. f_equal; [f_equal; cbn [length]; lia|].
  destruct checks; [by rewrite <-app_assoc|done].
Qed.

Lemma load_files_spec dir files entries count s calls :
  load_files dir files entries count s calls =
    let '(ok, s') := register_all (declared dir files entries) s in
    (count + Z.of_nat (length ok), s', calls ++ if checks then set_call <$> ok else []).
Proof.
  revert count s calls. induction entries as [|e entries IH]; intros count s calls.
  { simpl. rewrite Z.add_0_r. destruct checks; by rewrite app_nil_r. }
  change (declared dir files (e :: entries)) with (filter (λ i, ri_Name i ≠ ""%string) ((e :: entries) ≫= file_inputs dir files)).
  rewrite bind_cons, filter_app, register_all_app. fold (declared dir files entries). cbn [load_files]. unfold file_inputs at 1.
  destruct (de_IsDir e || _); [rewrite IH; simpl; by destruct (register_all (declared dir files entries) s)|].
  destruct (parseServiceDef files _) as [inputs|]; [|rewrite IH; simpl; by destruct (register_all (declared dir files entries) s)].
  change (default [] (Some inputs)) with inputs. rewrite load_inputs_spec. destruct (register_all (filter _ inputs) s) as [ok s1]. rewrite IH.
  destruct (register_all (declared dir files entries) s1) as [ok' s2].
  cbn beta iota. rewrite length_app. f_equal; [f_equal; lia|]. destruct checks; [by rewrite fmap_app, app_assoc|by rewrite !app_nil_r].
Qed.

End Load.

(** ** On a seed *)

Definition def_id (dur : string → option Z) (i : registerInput) : string := Svc_ID (inputToService dur i).

Section Seed.
Context `{MapRange} (clk : Clock) (n : Node) (dur : string → option Z).

Notation registrar := (r_RegisterServices (StoreRegistry clk n)).

(** The record of a definition: its name, address, clamped port, tags, metadata, lease. *)
Definition defines (m : Memory) (i : registerInput) (svc : service) : Prop :=
  Svc_Name (def svc) = ri_Name i ∧ Svc_Address (def svc) = ri_Address i ∧ Svc_Port (def svc) = clampPort (ri_Port i) ∧
  Svc_Tags (def svc) = ri_Tags i ∧ equalMap (Svc_Meta (def svc)) (ri_Meta i) = true ∧
  Svc_TTL (def svc) = clampTTL m (firstTTL dur i).

Lemma def_id_name i : ri_Name i ≠ ""%string → reg_id (inputToService dur i) = def_id dur i ∧ def_id dur i ≠ ""%string.
Proof.
  intros Hn. assert (Hne : def_id dur i ≠ ""%string) by (unfold def_id, inputToService; simpl; by case_bool_decide).
  split; [|done]. unfold reg_id. by rewrite bool_decide_eq_false_2.
Qed.

Lemma register_all_seed inputs s :
  Node_ID n ≠ ""%string → MaxServices (opts (sd_store s)) <= 0 → Forall (λ i, ri_Name i ≠ ""%string) inputs →
  ∃ s', register_all registrar dur inputs s = (inputs, s') ∧ opts (sd_store s') = opts (sd_store s) ∧
    (NoDup (def_id dur <$> inputs) → ∀ i, i ∈ inputs → ∃ svc,
       lookup_service (sd_store s') (Node_ID n) (def_id dur i) = Some svc ∧ defines (sd_store s) i svc) ∧
    (∀ nid id, nid ≠ Node_ID n ∨ id ∉ def_id dur <$> inputs →
       lookup_service (sd_store s') nid id = lookup_service (sd_store s) nid id).
Proof.
  intros Hn. revert s. induction inputs as [|i inputs IH]; intros s Hmax.
  { intros _. exists s. split_and!; [done|done| |done]. intros _ i Hi. by apply elem_of_nil in Hi. }
  intros [Hi His]%Forall_cons. destruct (def_id_name i Hi) as [Hid Hne]. cbn [register_all].
  set (rg := mkRegistration n [inputToService dur i] 1).
  change (registrar (def_registration dur i) s) with (seed_result (Register clk rg (sd_store s)) s).
  destruct (seed_register_one clk rg (inputToService dur i) s) as (s1 & -> & Hop & (svc & Hl & Hch) & Hfr); [done| |done|].
  { split; [done|]. intros j ->%list_elem_of_singleton. done. }
  destruct (IH s1) as (s' & -> & Hop' & Ha & Hf); [by rewrite Hop|done|]. exists s'.
  split; [done|]. split; [by rewrite Hop'|]. rewrite Hid in Hl, Hfr. split.
  - intros [Hni Hnd]%NoDup_cons j [->|Hj]%elem_of_cons.
    + exists svc. rewrite Hf by (by right). split; [done|]. apply changed_false in Hch. unfold incoming in Hch.
      rewrite bool_decide_eq_false_2 in Hch by done. exact Hch.
    + destruct (Ha Hnd j Hj) as (svc' & ? & Hd). exists svc'. split; [done|].
      unfold defines, clampTTL in *. by rewrite <-Hop.
  - intros nid id Hx. rewrite fmap_cons, not_elem_of_cons in Hx. rewrite Hf, Hfr; [done| |tauto].
    intros [= -> ->]. by destruct Hx as [?|[? _]].
Qed.

End Seed.

(** ** Claims *)

(** Loading a directory registers exactly what its files declare: each definition
    with a name, of each file named *.json that decodes, once and in order; an
    unreadable directory and an empty setting change nothing; files that do not decode
    and definitions without a name are passed over; a registration that fails leaves the
    later ones to go on; and the count returned and the calls to the check monitor are
    those of the registrations that succeeded. *)
Theorem LoadServiceDefs_correct {R E} (registrar : Registration → R → option E * R) (dur : string → option Z)
    (decode : string → option serviceDefFile) (checks : bool) (dir : string) (files : gmap string string) (s : R) :
  LoadServiceDefs registrar dur decode checks "" None files s = (Some 0, s, []) ∧
  (dir ≠ ""%string →
   LoadServiceDefs registrar dur decode checks dir None files s = (None, s, []) ∧
   ∀ entries, let '(ok, s') := register_all registrar dur (declared decode dir files entries) s in
     LoadServiceDefs registrar dur decode checks dir (Some entries) files s =
       (Some (Z.of_nat (length ok)), s', if checks then set_call dur <$> ok else []) ∧
     ok `sublist_of` declared decode dir files entries).
Proof.
  split; [done|]. intros Hd. unfold LoadServiceDefs. rewrite bool_decide_eq_false_2 by done. split; [done|].
  intros entries. rewrite load_files_spec.
  assert (Hsub : ∀ l s, (register_all registrar dur l s).1 `sublist_of` l).
  { induction l as [|i l IH]; intros s0; [constructor|]. simpl.
    destruct (registrar (def_registration dur i) s0) as [[err|] s1]; [by apply sublist_cons|].
    specialize (IH s1). destruct (register_all registrar dur l s1) as [ok s2]. by apply sublist_skip. }
  specialize (Hsub (declared decode dir files entries) s).
  destruct (register_all registrar dur _ s) as [ok s']. done.
Qed.

Definition sampleDef (id name : string) : registerInput := mkRegisterInput id name [] "10.0.0.9" 80 ∅ None None [].

(** A decoder for the samples: the file's text names what it declares. *)
Definition sample_decode (data : string) : option serviceDefFile :=
  if bool_decide (data = "two"%string) then Some (mkServiceDefFile (Some (sampleDef "web-1" "web")) [sampleDef "" "db"; sampleDef "x" ""])
  else if bool_decide (data = "one"%string) then Some (mkServiceDefFile None [sampleDef "" "cache"])
  else None.

Definition sampleFiles : gmap string string :=
  {[ "/d/a.json"%string := "two"%string; "/d/b.json"%string := "broken"%string; "/d/c.json"%string := "one"%string;
     "/d/d.txt"%string := "one"%string ]}.

Definition sampleEntries : list DirEntry :=
  [mkDirEntry "a.json" false; mkDirEntry "b.json" false; mkDirEntry "c.json" false; mkDirEntry "d.txt" false;
   mkDirEntry "e.json" true].

(** A registrar that refuses one name and logs the others. *)
Definition sample_registrar (reg : Registration) (s : list string) : option unit * list string :=
  match Reg_Services reg with
  | [svc] => if bool_decide (Svc_Name svc = "db"%string) then (Some (), s) else (None, s ++ [Svc_ID svc])
  | _ => (Some (), s)
  end.

Lemma LoadServiceDefs_correct_witness :
  LoadServiceDefs sample_registrar (λ _, None) sample_decode true "/d" (Some sampleEntries) sampleFiles [] =
    (Some 2, ["web-1"; "cache"]%string, [ChecksSet "web-1" []; ChecksSet "cache" []]).
Proof.
  destruct (LoadServiceDefs_correct sample_registrar (λ _, None) sample_decode true "/d" sampleFiles []) as [_ Hl].
  destruct (Hl ltac:(discriminate)) as [_ Hs]. specialize (Hs sampleEntries).
  replace (declared sample_decode "/d" sampleFiles sampleEntries)
    with [sampleDef "web-1" "web"; sampleDef "" "db"; sampleDef "" "cache"] in Hs by (vm_compute; reflexivity).
  destruct Hs as [Hs _]. exact Hs.
Defined.

(** A seed serves its own definitions: on a seed without a cap, loading a directory
    whose definitions have distinct IDs counts them all, and each is then in the
    registry under the seed's node with its name, address, clamped port, tags, metadata
    and lease; the records of other nodes and IDs are as they were. *)
Theorem seed_loads_definitions `{MapRange} (clk : Clock) (n : Node) (dur : string → option Z)
    (decode : string → option serviceDefFile) (checks : bool) (dir : string) (files : gmap string string)
    (entries : list DirEntry) (s : Seed) :
  let defs := declared decode dir files entries in
  dir ≠ ""%string → Node_ID n ≠ ""%string → MaxServices (opts (sd_store s)) <= 0 → NoDup (def_id dur <$> defs) →
  ∃ s' calls,
    LoadServiceDefs (r_RegisterServices (StoreRegistry clk n)) dur decode checks dir (Some entries) files s =
      (Some (Z.of_nat (length defs)), s', calls) ∧
    (∀ i, i ∈ defs → ∃ svc, lookup_service (sd_store s') (Node_ID n) (def_id dur i) = Some svc ∧
       defines dur (sd_store s) i svc) ∧
    (∀ nid id, nid ≠ Node_ID n ∨ id ∉ def_id dur <$> defs →
       lookup_service (sd_store s') nid id = lookup_service (sd_store s) nid id).
Proof.
  intros defs Hd Hn Hmax Hnd.
  assert (Hnames : Forall (λ i, ri_Name i ≠ ""%string) defs) by (apply Forall_forall; by intros i [? _]%list_elem_of_filter).
  destruct (register_all_seed clk n dur defs s Hn Hmax Hnames) as (s' & HR & _ & Ha & Hf).
  unfold LoadServiceDefs. rewrite bool_decide_eq_false_2 by done. rewrite load_files_spec. fold defs. rewrite HR.
  eexists s', _. split; [reflexivity|]. split; [by apply Ha|done].
Qed.

Definition sampleSeed0 : Seed := NewSeed (mkOptions (30 * second) 0 0 (60 * second) 100 0).

Lemma seed_loads_definitions_witness :
  ∃ s' calls,
    LoadServiceDefs (r_RegisterServices (@StoreRegistry list_order (frozen 5) (sampleNode "s1"))) (λ _, None)
      sample_decode false "/d" (Some sampleEntries) sampleFiles sampleSeed0 = (Some 3, s', calls) ∧
    ∃ svc, lookup_service (sd_store s') "s1" "db" = Some svc ∧ Svc_Name (def svc) = "db"%string.
Proof.
  destruct (@seed_loads_definitions list_order (frozen 5) (sampleNode "s1") (λ _, None) sample_decode false "/d"
    sampleFiles sampleEntries sampleSeed0) as (s' & calls & HL & Ha & _).
  - discriminate.
  - discriminate.
  - apply Z.leb_le. vm_compute. reflexivity.
  - apply (bool_decide_unpack _). vm_compute. exact I.
  - exists s', calls. split; [exact HL|]. destruct (Ha (sampleDef "" "db")) as (svc & Hl & Hn & _).
    + replace (declared sample_decode "/d" sampleFiles sampleEntries)
        with [sampleDef "web-1" "web"; sampleDef "" "db"; sampleDef "" "cache"] by (vm_compute; reflexivity).
      rewrite !elem_of_cons. auto.
    + exists svc. split; [exact Hl|exact Hn].
Defined.

(** A seed loads the definitions of its directory but renews no lease of its own: after
    the default lease a healthy lookup no longer finds the service, and after the grace
    window the collector removes it, until the next SIGHUP. *)
Theorem seed_definitions_lapse :
  let '(count, s1, _) :=
    LoadServiceDefs (r_RegisterServices (@StoreRegistry list_order (frozen 0) (sampleNode "s1"))) (λ _, None)
      sample_decode false "/d" (Some [mkDirEntry "c.json" false]) sampleFiles sampleSeed0 in
  let q := mkQuery "cache" "" [] false in
  let health t := Entry_Health <$> Lookup_Entries (@Lookup list_order (frozen t) q (sd_store s1)) in
  count = Some 1 ∧ health (29 * second) = [HealthPassing] ∧ health (31 * second) = [HealthCritical] ∧
  (@GC list_order (frozen (91 * second)) (sd_store s1)).1.1 = 1.
Proof. vm_compute. repeat split; reflexivity. Qed.

(** An agent that starts before its write quorum is reachable drops its definitions: the
    registration fails, nothing is hosted, so the renew loop has nothing to send, and
    they are not registered until a SIGHUP. *)
Theorem agent_definitions_not_retried `{MapRange} (p : Proxy) (dur : string → option Z) (decode : string → option serviceDefFile)
    (checks : bool) (dir : string) (entries : list DirEntry) (files : gmap string string) :
  dir ≠ ""%string → 0 < px_quorum p → px_hosted p = ∅ →
  let down := λ _ : Registration, mkWriteResult 3 0 ∅ in
  let '(count, p', calls) := LoadServiceDefs (RegisterServices down) dur decode checks dir (Some entries) files p in
  count = Some 0 ∧ calls = [] ∧ renewOnce p' = None.
Proof.
  intros Hd Hq Hh down. unfold LoadServiceDefs. rewrite bool_decide_eq_false_2 by done. rewrite load_files_spec.
  assert (Hf : ∀ rg p, 0 < px_quorum p → ∃ err, RegisterServices down rg p = (Some err, p)).
  { intros rg p0 Hq0. unfold RegisterServices. destruct (_ =? 0)%nat; [eauto|]. destruct (stamped p0 rg); [|eauto].
    unfold WriteResult_OK. simpl. destruct (Z.leb_spec (px_quorum p0) 0); [lia|]. simpl. eauto. }
  assert (Hall : ∀ l, register_all (RegisterServices down) dur l p = ([], p)).
  { induction l as [|i l IH]; [done|]. simpl. destruct (Hf (def_registration dur i) p Hq) as [err ->]. exact IH. }
  rewrite Hall. split; [done|]. split; [by destruct checks|]. unfold renewOnce, hostedCount. by rewrite Hh.
Qed.

Lemma agent_definitions_not_retried_witness :
  let '(count, p', calls) := LoadServiceDefs (RegisterServices (λ _, mkWriteResult 3 0 ∅)) (λ _, None) sample_decode true "/d"
      (Some sampleEntries) sampleFiles sampleProxy in
  count = Some 0 ∧ calls = [] ∧ @renewOnce list_order p' = None.
Proof. apply (@agent_definitions_not_retried list_order); [discriminate|reflexivity|reflexivity]. Defined.
