(* ===== verification/Root.v ===== *)
(** The command line's wiring ([cmd/yp/root.go], [cmd/yp/bootstrap.go]): what a node is
    made of.  From the validated configuration: the identity, credentials and authorizer
    ([setupSecurity]), the components of the node's role with the settings each is given
    ([buildComponents]), the bootstrap service of a seed, and the application that runs
    them; and the two bootstrap commands up to their calls.

    A component is a value of [Comp]: its constructor and the settings that reach it.
    Dialling a list of addresses ([seedclient.New], lazy in gRPC) is the parameter [dial];
    the file system, randomness and decoders are those of [CredFiles] and [Bootstrap].
    Of the logger there are its level and format; the metrics registry and the version are
    left out. *)

From Stdlib Require Import ZArith Lia Ascii.
From stdpp Require Import base gmap list strings.
From S2P Require Import Prelude.
From S2P Require Import GoStrings.
From S2P Require Import GoText.
From S2P Require Import GoNet.
From S2P Require Import Model.
From S2P Require Import Store.
From S2P Require Import Watch.
From S2P Require Import Cred.
From S2P Require Import Proxy.
From S2P Require Import Consul.
From S2P Require Import DNS.
From S2P Require Import RateLimit.
From S2P Require Import Config.
From S2P Require Import Bootstrap.
From S2P Require Import App.
From S2P Require Import Resolver.
From S2P Require Import CredFiles.

Local Open Scope Z_scope.

(** ** Small functions *)

(** [Listener.Addr]; the port is a [uint16]. *)
Definition Listener_Addr (l : Listener) : string := JoinHostPort (l_Address l) (FormatUint (l_Port l)).

Definition listenerState (l : Listener) : string := if negb (l_Enabled l) then "disabled" else Listener_Addr l.

(** [ttlSeconds]: the division truncates. *)
Definition ttlSeconds (d : Z) : Z :=
  let s := Z.quot d second in
  if s <? 0 then 0 else if 4294967295 <? s then 4294967295 else s.

(** *** The logger *)

(** The numbers of [slog]'s levels. *)
Definition LevelDebug : Z := -4.
Definition LevelInfo : Z := 0.
Definition LevelWarn : Z := 4.
Definition LevelError : Z := 8.

(** [slog.Level.UnmarshalText]: the name of a level in any case, with an offset or not. *)
Definition parse_level (s : string) : option Z :=
  let '(name, sign) := span (λ c, negb (bool_decide (c = "+"%char)) && negb (bool_decide (c = "-"%char))) s in
  offset ← (if bool_decide (sign = ""%string) then Some 0 else Atoi sign);
  level ← (if ToUpper_is name "DEBUG" then Some LevelDebug
           else if ToUpper_is name "INFO" then Some LevelInfo
           else if ToUpper_is name "WARN" then Some LevelWarn
           else if ToUpper_is name "ERROR" then Some LevelError
           else None);
  Some (i64 (level + offset)).

Inductive LogFormat := LogJSON | LogText.

Inductive LoggerError := BadLevel (level : string) | BadFormat (format : string).

Definition Logger : Type := Z * LogFormat.

Definition newLogger (level format : string) : LoggerError + Logger :=
  match parse_level level with
  | None => inl (BadLevel level)
  | Some lvl =>
      if bool_decide (format = "json"%string) then inr (lvl, LogJSON)
      else if bool_decide (format = "text"%string) then inr (lvl, LogText)
      else inl (BadFormat format)
  end.

Fixpoint federated_loop (local : string) (dcs : list (string * list string)) (acc : list string) : list string :=
  match dcs with
  | [] => acc
  | (dc, _) :: rest => federated_loop local rest (if bool_decide (dc ≠ local) then acc ++ [dc] else acc)
  end.

Definition federatedDCs `{MapRange} (cfg : Config) : list string :=
  if negb (fed_Enabled (c_Federation cfg)) then []
  else federated_loop (c_Datacenter cfg) (range (fed_Datacenters (c_Federation cfg))) [].

(** ** Security *)

(** The files and decoders at the start: [w_yaml] reads the token file; [w_keypair] and
    [w_pool] read certificates; [w_fs] are the files as text, [w_files] with their
    modification times; [w_rand], [w_mkdir] and [w_write] are what generating and saving
    the node ID meets. *)
Record World (Cert CertPool : Type) := mkWorld {
  w_fs : FS; w_files : Files; w_rand : option string; w_mkdir : bool; w_write : write_outcome;
  w_yaml : string → option (gmap string string);
  w_keypair : string → string → option Cert; w_pool : string → option CertPool
}.
Arguments w_fs {Cert CertPool}.
Arguments w_files {Cert CertPool}.
Arguments w_rand {Cert CertPool}.
Arguments w_mkdir {Cert CertPool}.
Arguments w_write {Cert CertPool}.
Arguments w_yaml {Cert CertPool}.
Arguments w_keypair {Cert CertPool}.
Arguments w_pool {Cert CertPool}.

Section Wiring.
Context {Cert CertPool : Type} (w : World Cert CertPool).

(** [s_creds]: [None] for the insecure credentials. *)
Record security := mkSecurity {
  s_nodeID : string; s_creds : option (tlsCreds Cert CertPool); s_identity : Identity; s_authz : Authorizer
}.

Inductive SetupError := NodeIDFailed | TLSFailed | TokensFailed | ModeFailed.

Definition tls_config (t : TLS) : TLSConfig :=
  mkTLSConfig (tls_CertFile t) (tls_KeyFile t) (tls_CAFile t) (tls_MutualTLS t) "".

(** [setupSecurity], with the file system it leaves. *)
Definition setupSecurity (cfg : Config) : (SetupError + security) * FS :=
  match NodeID (c_NodeName cfg) (c_DataDir cfg) (w_rand w) (w_mkdir w) (w_write w) (w_fs w) with
  | (None, fs) => (inl NodeIDFailed, fs)
  | (Some nodeID, fs) =>
      match (if tls_Enabled (c_TLS cfg)
             then Some <$> NewTLS (w_keypair w) (w_pool w) (w_files w) (w_files w) (tls_config (c_TLS cfg))
             else Some None) with
      | None => (inl TLSFailed, fs)
      | Some creds =>
          match LoadTokens (w_yaml w) fs (acl_TokensFile (c_ACL cfg)) with
          | None => (inl TokensFailed, fs)
          | Some tokens =>
              match ParseMode (acl_Mode (c_ACL cfg)) with
              | None => (inl ModeFailed, fs)
              | Some m => (inr (mkSecurity nodeID creds (NewIdentity tokens) (NewAuthorizer m)), fs)
              end
          end
      end
  end.

(** ** The bootstrap service *)

Inductive BuildError :=
  | BootstrapKeyUnreadable | BootstrapKeyEmpty | DialPeersFailed | NoSeedsResolved | DialSeedsFailed | FederationFailed.

(** [inr None]: bootstrap is disabled. *)
Definition bootstrapRegistrar (cfg : Config) (fs : FS) : BuildError + option BootService :=
  let bs := c_Bootstrap cfg in
  if negb (bs_Enabled bs) then inr None
  else match ResolveSigningKey fs (bs_SigningKey bs) (bs_SigningKeyFile bs) with
       | None => inl BootstrapKeyUnreadable
       | Some key =>
           match default "" key with
           | EmptyString => inl BootstrapKeyEmpty
           | key =>
               let seeds := if (length (bs_AdvertiseSeeds bs) =? 0)%nat then cl_Seeds (c_Cluster cfg) else bs_AdvertiseSeeds bs in
               inr (Some (Bootstrap.NewService cfg key (bs_AllowSeedJoin bs) seeds (bs_RateLimit bs)))
           end
       end.

(** ** The components *)

(** What the gRPC server serves: a seed's store, empty, with the watcher its changes
    reach; or an agent's proxy, with its client, its cache's bound and its watcher.  The
    gate of the proxy's renewals is the check monitor's.  A client ([SeedClient]) is the
    list of the addresses it was dialled with. *)
Inductive GrpcService :=
  | SeedService (store : Memory) (watcher : Watcher)
  | ProxyService (proxy : Proxy) (client : list string) (cacheMaxAge : Z) (watcher : Watcher).

Inductive Comp :=
  | MetricsServer (addr : string)
  | GrpcServer (addr : string) (svc : GrpcService) (identity : Identity) (authz : Authorizer) (startNotReady : bool)
      (drain : Z) (boot : option BootService)
  | GCLoop (interval : Z)
  | MembershipSyncer (self : string) (peers : list string) (interval : Z)
  | FederationPool (pool : Proxy.Pool)
  | Deregistrar (client : list string) (nodeID : string)
  | ReadinessProbe (client : list string) (minSeeds interval : Z)
  | RenewLoop (interval : Z)
  | RefreshLoop (maxAge : Z)
  | IndexFlusher (dataDir : string) (interval : Z)
  | CheckMonitor (enableScript : bool)
  | ConsulHTTP (addr : string) (handler : Consul.Handler) (rateLimit : Z)
  | ConsulDNS (addr : string) (cfg : DnsConfig) (onlyPassing truncate : bool) (rateLimit : Z)
  | ServiceDefLoader (dir : string) (checks : bool).

(** The components' [Name]s. *)
Definition comp_Name (c : Comp) : string :=
  match c with
  | MetricsServer _ => "metrics-http" | GrpcServer _ _ _ _ _ _ _ => "grpc-server" | GCLoop _ => "store-gc"
  | MembershipSyncer _ _ _ => "membership" | FederationPool _ => "federation" | Deregistrar _ _ => "deregistrar"
  | ReadinessProbe _ _ _ => "readiness-probe" | RenewLoop _ => "renew-loop" | RefreshLoop _ => "cache-refresh"
  | IndexFlusher _ _ => "index-flusher" | CheckMonitor _ => "healthchecks" | ConsulHTTP _ _ _ => "consul-http"
  | ConsulDNS _ _ _ _ _ => "consul-dns" | ServiceDefLoader _ _ => "service-defs"
  end.

Context `{MapRange} (cfg : Config) (sec : security) (seeds : list string) (fs : FS).

(** The client of a list of addresses, when all of them can be dialled. *)
Context (dial : list string → option (Query → option LookupResult)).

(** [seedclient.New] *)
Definition seedclient_New (addrs : list string) : option (Query → option LookupResult) :=
  if (length addrs =? 0)%nat then None else dial addrs.

Definition dnsComponent : list Comp :=
  let l := ls_DNS (c_Listeners cfg) in
  let d := c_DNS cfg in
  if negb (l_Enabled l) then []
  else [ConsulDNS (Listener_Addr l)
          (NewDnsHandler (mkDnsConfig (dns_Domain d) (dns_AltDomain d) (c_Datacenter cfg)
             (ttlSeconds (dns_ServiceTTL d)) (ttlSeconds (dns_NodeTTL d)) (dns_ARecordLimit d)))
          (dns_OnlyPassing d) (dns_EnableTruncate d) (dns_RateLimit d)].

Definition consulComponent (node : Node) (checks : bool) : list Comp :=
  let l := ls_ConsulHTTP (c_Listeners cfg) in
  if negb (l_Enabled l) then []
  else [ConsulHTTP (Listener_Addr l)
          (Consul.NewHandler (mkNodeInfo (Node_ID node) (c_NodeName cfg) (c_Datacenter cfg) (Node_Address node) seeds (federatedDCs cfg))
             (s_identity sec) (Some (s_authz sec)) checks 0)
          (c_ConsulRateLimit cfg)].

Definition loaderComponent (checks : bool) : list Comp :=
  if bool_decide (c_ConfigDir cfg ≠ ""%string) then [ServiceDefLoader (c_ConfigDir cfg) checks] else [].

Definition metricsComponent : list Comp :=
  let l := ls_Metrics (c_Listeners cfg) in if l_Enabled l then [MetricsServer (Listener_Addr l)] else [].

(** The node of both roles. *)
Definition self_node : Node :=
  mkNode (s_nodeID sec) (c_NodeName cfg) (l_Address (ls_GRPC (c_Listeners cfg))) (c_Datacenter cfg) ∅ ∅.

(** The registry and watcher of a seed. *)
Definition seed_service : GrpcService :=
  SeedService (NewMemory (mkOptions (c_TTL cfg) 0 0 0 0 (c_MaxServices cfg))) (Watch.New 0).

(** The proxy of an agent; its watcher goes on from the saved index. *)
Definition proxy_service : GrpcService :=
  ProxyService (NewProxy self_node (ag_WriteQuorum (c_Agent cfg))) seeds (ag_CacheMaxAge (c_Agent cfg))
    (Watch.New (LoadBase fs (c_DataDir cfg))).

Definition gateReadiness : bool :=
  mem_Enabled (c_Membership cfg) && (0 <? length (mem_Peers (c_Membership cfg)))%nat.

Definition buildSeed : BuildError + list Comp :=
  let grpc := Listener_Addr (ls_GRPC (c_Listeners cfg)) in
  let mem := c_Membership cfg in
  match bootstrapRegistrar cfg fs with
  | inl e => inl e
  | inr boot =>
      if gateReadiness && match seedclient_New (mem_Peers mem) with None => true | Some _ => false end then inl DialPeersFailed
      else
        inr (metricsComponent ++
             [GrpcServer grpc seed_service (s_identity sec) (s_authz sec) gateReadiness 0 boot; GCLoop (c_HeartbeatInterval cfg)] ++
             (if gateReadiness then [MembershipSyncer grpc (mem_Peers mem) (mem_SyncInterval mem)] else []) ++
             consulComponent self_node false ++ dnsComponent ++ loaderComponent false)
  end.

(** The federation pool of an agent: the outer [None] is a failure. *)
Definition fedRouter : option (option Proxy.Pool) :=
  let fed := c_Federation cfg in
  if fed_Enabled fed then Some <$> Proxy.NewPool seedclient_New (c_Datacenter cfg) (fed_Datacenters fed) else Some None.

Definition buildAgent : BuildError + list Comp :=
  let ag := c_Agent cfg in
  if (length seeds =? 0)%nat then inl NoSeedsResolved
  else match seedclient_New seeds with
  | None => inl DialSeedsFailed
  | Some _ =>
      match fedRouter with
      | None => inl FederationFailed
      | Some router =>
          inr (metricsComponent ++
               (match router with Some pool => [FederationPool pool] | None => [] end) ++
               [Deregistrar seeds (Node_ID self_node);
                GrpcServer (Listener_Addr (ls_GRPC (c_Listeners cfg))) proxy_service (s_identity sec) (NewAuthorizer ModeDisabled) false
                  (ag_DrainWindow ag) None;
                ReadinessProbe seeds (ag_ReadyMinSeeds ag) (c_HeartbeatInterval cfg);
                RenewLoop (c_HeartbeatInterval cfg); RefreshLoop (ag_CacheMaxAge ag);
                IndexFlusher (c_DataDir cfg) (c_HeartbeatInterval cfg); CheckMonitor (c_EnableScriptChecks cfg)] ++
               consulComponent self_node true ++ dnsComponent ++ loaderComponent true)
      end
  end.

(** Neither role: only the metrics server. *)
Definition buildComponents : BuildError + list Comp :=
  if bool_decide (c_Role cfg = RoleSeed) then buildSeed
  else if bool_decide (c_Role cfg = RoleAgent) then buildAgent
  else inr metricsComponent.
End Wiring.

Arguments security : clear implicits.

(** ** The root command *)

Inductive StartError :=
  | ConfigFailed (r : ParseResult) | RoleInvalid (errs : list ConfigError) | LoggerFailed (e : LoggerError) | SetupFailed (e : SetupError) | BuildFailed (e : BuildError).

Definition with_Role (role : string) (c : Config) : Config :=
  mkConfig role (c_NodeName c) (c_Datacenter c) (c_DataDir c) (c_ConfigDir c) (c_EnableScriptChecks c) (c_Cluster c)
    (c_Listeners c) (c_MaxServices c) (c_ConsulRateLimit c) (c_TTL c) (c_HeartbeatInterval c) (c_ShutdownTimeout c)
    (c_TLS c) (c_ACL c) (c_Agent c) (c_DNS c) (c_Federation c) (c_Membership c) (c_Bootstrap c).

(** [RunE] up to [application.Run]: the components and the application.  The seeds are
    those of the provider, none when it fails. *)
Definition RunE {Cert CertPool} `{MapRange} (w : World Cert CertPool) (host : PluginHost)
    (dial : list string → option (Query → option LookupResult)) (ext : string) (decoded : option Config)
    (roleFlag logLevel logFormat : string) : StartError + (list Comp * App Logger) :=
  match Parse ext decoded with
  | Loaded cfg =>
      let override := bool_decide (roleFlag ≠ ""%string) in
      let cfg := if override then with_Role roleFlag cfg else cfg in
      match (if override then Validate cfg else []) with
      | (_ :: _) as errs => inl (RoleInvalid errs)
      | [] =>
          match newLogger logLevel logFormat with
          | inl e => inl (LoggerFailed e)
          | inr logger =>
              match setupSecurity w cfg with
              | (inl e, _) => inl (SetupFailed e)
              | (inr sec, fs) =>
                  let seeds := match Merged_Seeds host (buildSeedProvider cfg) with inl l => l | inr _ => [] end in
                  match buildComponents cfg sec seeds fs dial with
                  | inl e => inl (BuildFailed e)
                  | inr comps =>
                      inr (comps, App.New [WithLogger (Some logger); WithClock (Some SystemRef); WithShutdownTimeout (c_ShutdownTimeout cfg);
                        WithComponents (comp_Name <$> comps)])
                  end
              end
          end
      end
  | r => inl (ConfigFailed r)
  end.

(** ** The bootstrap commands *)

Inductive CreateTokenError := TokenConfig (r : ParseResult) | TokenDisabled | TokenKeyUnreadable | TokenNoKey | TokenMintFailed.

(** [yp bootstrap create-token]. *)
Definition create_token (ext : string) (decoded : option Config) (fs : FS) (ttl now : Z) (nonce : option string)
  : CreateTokenError + string :=
  match Parse ext decoded with
  | Loaded cfg =>
      let bs := c_Bootstrap cfg in
      if negb (bs_Enabled bs) then inl TokenDisabled
      else match ResolveSigningKey fs (bs_SigningKey bs) (bs_SigningKeyFile bs) with
           | None => inl TokenKeyUnreadable
           | Some key =>
               if (String.length (default "" key) =? 0)%nat then inl TokenNoKey
               else
                 let ttl := if ttl <=? 0 then bs_TokenTTL bs else ttl in
                 match MintToken (default "" key) ttl now nonce with
                 | None => inl TokenMintFailed
                 | Some token => inr token
                 end
           end
  | r => inl (TokenConfig r)
  end.

(** [bootstrapCreds]: plaintext, or TLS with what it verifies and presents. *)
Inductive ClientCreds (Cert CertPool : Type) :=
  | PlainText
  | TLSCreds (skipVerify : bool) (roots : option CertPool) (cert : option Cert).
Arguments PlainText {Cert CertPool}.
Arguments TLSCreds {Cert CertPool}.

Definition bootstrapCreds {Cert CertPool} (w : World Cert CertPool) (useTLS : bool) (caFile certFile keyFile : string) (insec : bool)
  : option (ClientCreds Cert CertPool) :=
  if negb useTLS && negb insec && bool_decide (caFile = ""%string) && bool_decide (certFile = ""%string) && bool_decide (keyFile = ""%string)
  then Some PlainText
  else
    roots ← (if bool_decide (caFile ≠ ""%string) then
               match w_files w !! caFile with
               | None => None
               | Some f => Some <$> w_pool w (file_data f)
               end
             else Some None);
    cert ← (if bool_decide (certFile ≠ ""%string) || bool_decide (keyFile ≠ ""%string)
            then Some <$> LoadX509KeyPair (w_keypair w) (w_files w) certFile keyFile else Some None);
    Some (TLSCreds insec roots cert).

Inductive FetchError := FetchMissing | FetchCreds | FetchRefused | FetchWrite.

(** What [yp bootstrap] leaves: on standard output, or in a file. *)
Inductive Fetched (Out : Type) := Printed (o : Out) | Written (path : string) (o : Out).
Arguments Printed {Out}.
Arguments Written {Out}.

(** [yp bootstrap]: [env] is YP_BOOTSTRAP_TOKEN, [call] the RPC over the connection with
    the metadata and the role, [write_ok] whether the file can be written. *)
Definition bootstrap_cmd {Cert CertPool Out} (w : World Cert CertPool) (env seed role token out : string)
    (useTLS : bool) (caFile certFile keyFile : string) (insec : bool) (write_ok : bool)
    (call : ClientCreds Cert CertPool → string → gmap string (list string) → string → option Out) : FetchError + Fetched Out :=
  let token := if bool_decide (token = ""%string) then env else token in
  if bool_decide (seed = ""%string) || bool_decide (token = ""%string) then inl FetchMissing
  else match bootstrapCreds w useTLS caFile certFile keyFile insec with
       | None => inl FetchCreds
       | Some creds =>
           match call creds seed {[ "bootstrap-token"%string := [token] ]} role with
           | None => inl FetchRefused
           | Some o =>
               if bool_decide (out = ""%string) || bool_decide (out = "-"%string) then inr (Printed o)
               else if write_ok then inr (Written out o) else inl FetchWrite
           end
       end.

(** ** Lemmas *)

(** What comes before the deregistrar of an agent, and after its server. *)
Definition is_front (c : Comp) : Prop := match c with MetricsServer _ | FederationPool _ => True | _ => False end.

Definition is_back (c : Comp) : Prop :=
  match c with
  | ReadinessProbe _ _ _ | RenewLoop _ | RefreshLoop _ | IndexFlusher _ _ | CheckMonitor _
  | ConsulHTTP _ _ _ | ConsulDNS _ _ _ _ _ | ServiceDefLoader _ _ => True
  | _ => False
  end.

Section Layout.
Context {Cert CertPool : Type} `{MapRange} (cfg : Config) (sec : security Cert CertPool) (seeds : list string) (fs : FS).
Context (dial : list string → option (Query → option LookupResult)).

Lemma consul_back node b : Forall is_back (consulComponent cfg sec seeds node b).
Proof. unfold consulComponent. destruct (negb _); by repeat constructor. Qed.

Lemma dns_back : Forall is_back (dnsComponent cfg).
Proof. unfold dnsComponent. destruct (negb _); by repeat constructor. Qed.

Lemma loader_back b : Forall is_back (loaderComponent cfg b).
Proof. unfold loaderComponent. case_bool_decide; by repeat constructor. Qed.

Lemma metrics_front : Forall is_front (metricsComponent cfg).
Proof. unfold metricsComponent. destruct (l_Enabled _); by repeat constructor. Qed.

(** An agent: the fronts, the deregistrar, the server, the rest. *)
Lemma agent_layout comps :
  buildAgent cfg sec seeds fs dial = inr comps →
  ∃ pre rest, comps = pre ++ Deregistrar seeds (s_nodeID sec) ::
      GrpcServer (Listener_Addr (ls_GRPC (c_Listeners cfg))) (proxy_service cfg sec seeds fs) (s_identity sec) (NewAuthorizer ModeDisabled) false
        (ag_DrainWindow (c_Agent cfg)) None :: rest ∧
    Forall is_front pre ∧ Forall is_back rest ∧
    Forall (λ c, match c with ConsulHTTP _ h _ => h_authz h = Some (s_authz sec) ∧ h_identity h = s_identity sec | _ => True end) rest.
Proof.
  unfold buildAgent. destruct (_ =? 0)%nat; [done|]. destruct (seedclient_New dial seeds); [|done].
  destruct (fedRouter cfg dial) as [router|]; [|done]. intros [= <-].
  eexists (_ ++ _), _. split; [by rewrite <-app_assoc|]. split; [|split].
  - apply Forall_app. split; [apply metrics_front|]. destruct router; by repeat constructor.
  - repeat (apply Forall_cons; split; [exact I|]).
    apply Forall_app; split; [apply consul_back|]. apply Forall_app; split; [apply dns_back|apply loader_back].
  - repeat (apply Forall_cons; split; [exact I|]). rewrite !Forall_app. split_and!.
    + unfold consulComponent. destruct (negb _); by repeat constructor.
    + unfold dnsComponent. destruct (negb _); by repeat constructor.
    + unfold loaderComponent. case_bool_decide; by repeat constructor.
Qed.

(** A seed: the metrics, the server, the collector, the syncer it may have, the rest. *)
Lemma seed_layout comps :
  buildSeed cfg sec seeds fs dial = inr comps →
  ∃ boot rest, bootstrapRegistrar cfg fs = inr boot ∧
    comps = metricsComponent cfg ++
      GrpcServer (Listener_Addr (ls_GRPC (c_Listeners cfg))) (seed_service cfg) (s_identity sec) (s_authz sec) (gateReadiness cfg) 0 boot ::
      GCLoop (c_HeartbeatInterval cfg) :: rest ∧
    Forall (λ c, match c with
      | MembershipSyncer self peers i =>
          gateReadiness cfg = true ∧ peers = mem_Peers (c_Membership cfg) ∧ self = Listener_Addr (ls_GRPC (c_Listeners cfg))
      | ConsulHTTP _ h _ => h_authz h = Some (s_authz sec) ∧ h_identity h = s_identity sec
      | ConsulDNS _ _ _ _ _ | ServiceDefLoader _ _ => True
      | _ => False end) rest ∧
    (gateReadiness cfg = true → ∃ self peers i, MembershipSyncer self peers i ∈ rest).
Proof.
  unfold buildSeed. destruct (bootstrapRegistrar cfg fs) as [|boot]; [done|].
  destruct (gateReadiness cfg && _); [done|]. intros [= <-]. eexists boot, _. split; [done|]. split; [reflexivity|]. split.
  - rewrite !Forall_app. split_and!.
    + destruct (gateReadiness cfg); by repeat constructor.
    + unfold consulComponent. destruct (negb _); by repeat constructor.
    + unfold dnsComponent. destruct (negb _); by repeat constructor.
    + unfold loaderComponent. case_bool_decide; by repeat constructor.
  - intros ->. eexists _, _, _. apply elem_of_app. left. by apply list_elem_of_singleton.
Qed.

End Layout.

(** The mode of a validated configuration parses. *)
Lemma valid_mode c : valid c → ∃ m, ParseMode (acl_Mode (c_ACL c)) = Some m.
Proof.
  intros [_ _ _ _ _ _ _ _ _ _ _ _ _ Hm _ _ _]. rewrite !elem_of_cons in Hm.
  destruct Hm as [-> |[-> |[-> |[-> |Hm]]]]; [by eexists..|by apply elem_of_nil in Hm].
Qed.

(** The steps of the security setup that fail: no node ID can be made, the certificates
    cannot be loaded, the token file is missing or not decodable. *)
Definition setup_cause {Cert CertPool} (w : World Cert CertPool) (cfg : Config) (e : SetupError) : Prop :=
  match e with
  | NodeIDFailed =>
      c_NodeName cfg = ""%string ∧ (NodeID "" (c_DataDir cfg) (w_rand w) (w_mkdir w) (w_write w) (w_fs w)).1 = None
  | TLSFailed =>
      tls_Enabled (c_TLS cfg) = true ∧
      NewTLS (w_keypair w) (w_pool w) (w_files w) (w_files w) (tls_config (c_TLS cfg)) = None
  | TokensFailed => ∃ fs nodeID, acl_TokensFile (c_ACL cfg) ≠ ""%string ∧
      NodeID (c_NodeName cfg) (c_DataDir cfg) (w_rand w) (w_mkdir w) (w_write w) (w_fs w) = (Some nodeID, fs) ∧
      ∀ data, fs !! acl_TokensFile (c_ACL cfg) = Some data → w_yaml w data = None
  | ModeFailed => ParseMode (acl_Mode (c_ACL cfg)) = None
  end.

(** The tokens of the token file, none when no file is configured. *)
Definition file_tokens {Cert CertPool} (w : World Cert CertPool) (fs : FS) (file : string) (toks : gmap string string) : Prop :=
  if decide (file = ""%string) then toks = ∅ else ∃ data, fs !! file = Some data ∧ w_yaml w data = Some toks.

Lemma LoadTokens_file {Cert CertPool} (w : World Cert CertPool) fs file :
  match LoadTokens (w_yaml w) fs file with
  | Some toks => file_tokens w fs file toks
  | None => file ≠ ""%string ∧ ∀ data, fs !! file = Some data → w_yaml w data = None
  end.
Proof.
  unfold LoadTokens, file_tokens. case_bool_decide; [by rewrite decide_True|].
  destruct (fs !! file) as [data|] eqn:E; [|by split].
  destruct (w_yaml w data) as [t|] eqn:Hy; [|split; [done|by intros d [= <-]]].
  rewrite decide_False by done. by exists data.
Qed.

Lemma setup_error {Cert CertPool} (w : World Cert CertPool) cfg e fs :
  setupSecurity w cfg = (inl e, fs) → setup_cause w cfg e.
Proof.
  unfold setupSecurity, setup_cause.
  destruct (NodeID (c_NodeName cfg) _ _ _ _ _) as [[id|] fs'] eqn:Hn.
  - destruct (if tls_Enabled (c_TLS cfg) then _ else _) as [creds|] eqn:Ht.
    + pose proof (LoadTokens_file w fs' (acl_TokensFile (c_ACL cfg))) as Hl.
      destruct (LoadTokens _ _ _) as [t|].
      * destruct (ParseMode _) eqn:Hm; [done|by intros [= <- <-]].
      * intros [= <- <-]. destruct Hl. by exists fs', id.
    + intros [= <- <-]. destruct (tls_Enabled (c_TLS cfg)); [|done]. split; [done|]. by destruct (NewTLS _ _ _ _ _).
  - intros [= <- <-]. assert (He : c_NodeName cfg = ""%string) by (apply dec_stable; intros Hc; unfold NodeID in Hn; by rewrite bool_decide_eq_true_2 in Hn).
    split; [done|]. by rewrite <-He, Hn.
Qed.

Lemma setup_ok {Cert CertPool} (w : World Cert CertPool) cfg sec fs :
  setupSecurity w cfg = (inr sec, fs) →
  ∃ m toks, ParseMode (acl_Mode (c_ACL cfg)) = Some m ∧ s_authz sec = NewAuthorizer m ∧
    (tls_Enabled (c_TLS cfg) = true → s_creds sec ≠ None) ∧
    file_tokens w fs (acl_TokensFile (c_ACL cfg)) toks ∧ tokens (s_identity sec) = toks.
Proof.
  unfold setupSecurity. destruct (NodeID _ _ _ _ _ _) as [[id|] fs']; [|done].
  destruct (if tls_Enabled (c_TLS cfg) then _ else _) as [creds|] eqn:Ht; [|done].
  pose proof (LoadTokens_file w fs' (acl_TokensFile (c_ACL cfg))) as Hl. destruct (LoadTokens _ _ _) as [t|]; [|done].
  destruct (ParseMode _) as [m|]; [|done]. intros [= <- <-]. exists m, t. split_and!; try done.
  simpl. intros E. rewrite E in Ht. destruct (NewTLS _ _ _ _ _); [|done]. by injection Ht as <-.
Qed.

Lemma Parse_loaded ext decoded cfg : Parse ext decoded = Loaded cfg → valid cfg.
Proof.
  unfold Parse. destruct (negb _); [done|]. destruct decoded as [c|]; [|done].
  destruct (Validate (applyDefaults c)) eqn:E; [|done]. intros [= <-]. by apply Validate_nil.
Qed.

(** The names of a node's components in start order: those of its role, and the optional
    ones that are enabled. *)
Definition only_if (b : bool) (name : string) : list string := if b then [name] else [].

Definition node_names (cfg : Config) : list string :=
  only_if (l_Enabled (ls_Metrics (c_Listeners cfg))) "metrics-http" ++
  (if decide (c_Role cfg = "seed"%string)
   then ["grpc-server"; "store-gc"]%string ++
        only_if (mem_Enabled (c_Membership cfg) && bool_decide (mem_Peers (c_Membership cfg) ≠ [])) "membership"
   else only_if (fed_Enabled (c_Federation cfg)) "federation" ++
        ["deregistrar"; "grpc-server"; "readiness-probe"; "renew-loop"; "cache-refresh"; "index-flusher"; "healthchecks"]%string) ++
  only_if (l_Enabled (ls_ConsulHTTP (c_Listeners cfg))) "consul-http" ++
  only_if (l_Enabled (ls_DNS (c_Listeners cfg))) "consul-dns" ++
  only_if (bool_decide (c_ConfigDir cfg ≠ ""%string)) "service-defs".

(** The settings each component is given. *)
Definition settled {Cert CertPool} (cfg : Config) (sec : security Cert CertPool) (seeds : list string) (c : Comp) : Prop :=
  match c with
  | MetricsServer addr => addr = Listener_Addr (ls_Metrics (c_Listeners cfg))
  | GrpcServer addr svc identity authz startNotReady drain boot =>
      addr = Listener_Addr (ls_GRPC (c_Listeners cfg)) ∧ identity = s_identity sec ∧
      match svc with
      | SeedService m _ =>
          c_Role cfg = RoleSeed ∧ DefaultTTL (opts m) = c_TTL cfg ∧ MaxServices (opts m) = c_MaxServices cfg ∧ nodes m = ∅ ∧
          authz = s_authz sec ∧ drain = 0 ∧ (is_Some boot ↔ bs_Enabled (c_Bootstrap cfg) = true) ∧
          (startNotReady = true ↔ mem_Enabled (c_Membership cfg) = true ∧ mem_Peers (c_Membership cfg) ≠ [])
      | ProxyService p client maxAge _ =>
          c_Role cfg = RoleAgent ∧ Node_ID (px_node p) = s_nodeID sec ∧ Node_Datacenter (px_node p) = c_Datacenter cfg ∧
          client = seeds ∧ px_quorum p = ag_WriteQuorum (c_Agent cfg) ∧ maxAge = ag_CacheMaxAge (c_Agent cfg) ∧ px_hosted p = ∅ ∧
          authz = NewAuthorizer ModeDisabled ∧ drain = ag_DrainWindow (c_Agent cfg) ∧ boot = None ∧ startNotReady = false
      end
  | GCLoop i | RenewLoop i => i = c_HeartbeatInterval cfg
  | MembershipSyncer self peers i =>
      self = Listener_Addr (ls_GRPC (c_Listeners cfg)) ∧ peers = mem_Peers (c_Membership cfg) ∧ i = mem_SyncInterval (c_Membership cfg)
  | FederationPool pool => fed_local pool = c_Datacenter cfg
  | Deregistrar client id => client = seeds ∧ id = s_nodeID sec
  | ReadinessProbe client k i => client = seeds ∧ k = ag_ReadyMinSeeds (c_Agent cfg) ∧ i = c_HeartbeatInterval cfg
  | RefreshLoop a => a = ag_CacheMaxAge (c_Agent cfg)
  | IndexFlusher dir i => dir = c_DataDir cfg ∧ i = c_HeartbeatInterval cfg
  | CheckMonitor e => e = c_EnableScriptChecks cfg
  | ConsulHTTP addr h rate =>
      addr = Listener_Addr (ls_ConsulHTTP (c_Listeners cfg)) ∧ rate = c_ConsulRateLimit cfg ∧
      h_identity h = s_identity sec ∧ h_authz h = Some (s_authz sec) ∧
      info_ID (h_info h) = s_nodeID sec ∧ info_Datacenter (h_info h) = c_Datacenter cfg ∧ info_Seeds (h_info h) = seeds
  | ConsulDNS addr d only truncate rate =>
      addr = Listener_Addr (ls_DNS (c_Listeners cfg)) ∧ only = dns_OnlyPassing (c_DNS cfg) ∧
      truncate = dns_EnableTruncate (c_DNS cfg) ∧ rate = dns_RateLimit (c_DNS cfg) ∧
      dc_Datacenter d = c_Datacenter cfg ∧ dc_ARecordLimit d = dns_ARecordLimit (c_DNS cfg) ∧
      dc_ServiceTTL d = ttlSeconds (dns_ServiceTTL (c_DNS cfg)) ∧ dc_NodeTTL d = ttlSeconds (dns_NodeTTL (c_DNS cfg)) ∧
      (let z := dns_Domain (c_DNS cfg) in dc_Domain d = z ∨ dc_Domain d = z +:+ ".") ∧
      (let z := dns_AltDomain (c_DNS cfg) in dc_AltDomain d = z ∨ dc_AltDomain d = z +:+ ".")
  | ServiceDefLoader dir checks => dir = c_ConfigDir cfg ∧ (checks = true ↔ c_Role cfg = RoleAgent)
  end.

Section Built.
Context {Cert CertPool : Type} `{MapRange} (cfg : Config) (sec : security Cert CertPool) (seeds : list string) (fs : FS).
Context (dial : list string → option (Query → option LookupResult)).

Lemma consul_built node b :
  Node_ID node = s_nodeID sec →
  comp_Name <$> consulComponent cfg sec seeds node b = only_if (l_Enabled (ls_ConsulHTTP (c_Listeners cfg))) "consul-http" ∧
  Forall (settled cfg sec seeds) (consulComponent cfg sec seeds node b).
Proof. intros Hn. unfold consulComponent. destruct (l_Enabled _); simpl; repeat constructor; done. Qed.

Lemma dns_built :
  comp_Name <$> dnsComponent cfg = only_if (l_Enabled (ls_DNS (c_Listeners cfg))) "consul-dns" ∧
  Forall (settled cfg sec seeds) (dnsComponent cfg).
Proof.
  unfold dnsComponent. destruct (l_Enabled _); simpl; [|by repeat constructor]. split; [done|].
  constructor; [|constructor]. simpl. split_and!; try done.
  - destruct (HasSuffix _ "."); [by left|by right].
  - destruct (_ && _); [by right|by left].
Qed.

Lemma loader_built b :
  (b = true ↔ c_Role cfg = RoleAgent) →
  comp_Name <$> loaderComponent cfg b = only_if (bool_decide (c_ConfigDir cfg ≠ ""%string)) "service-defs" ∧
  Forall (settled cfg sec seeds) (loaderComponent cfg b).
Proof. intros Hb. unfold loaderComponent. case_bool_decide; (split; [done|]); by constructor. Qed.

Lemma metrics_built :
  comp_Name <$> metricsComponent cfg = only_if (l_Enabled (ls_Metrics (c_Listeners cfg))) "metrics-http" ∧
  Forall (settled cfg sec seeds) (metricsComponent cfg).
Proof. unfold metricsComponent. destruct (l_Enabled _); by repeat constructor. Qed.

Lemma gate_peers : gateReadiness cfg = mem_Enabled (c_Membership cfg) && bool_decide (mem_Peers (c_Membership cfg) ≠ []).
Proof. unfold gateReadiness. f_equal. by destruct (mem_Peers (c_Membership cfg)). Qed.

Lemma registrar_enabled boot :
  bootstrapRegistrar cfg fs = inr boot → is_Some boot ↔ bs_Enabled (c_Bootstrap cfg) = true.
Proof.
  unfold bootstrapRegistrar. destruct (bs_Enabled _); simpl.
  - destruct (ResolveSigningKey _ _ _) as [key|]; [|done]. destruct (default "" key); [done|]. intros [= <-]. by split; eauto.
  - intros [= <-]. split; [by intros []|done].
Qed.

(** A built node: its components by name, and the settings each is given. *)
Lemma built_node comps :
  valid cfg → buildComponents cfg sec seeds fs dial = inr comps →
  comp_Name <$> comps = node_names cfg ∧ Forall (settled cfg sec seeds) comps.
Proof.
  intros Hv Hb. unfold buildComponents, node_names in *. destruct metrics_built as [Hm Hm'], dns_built as [Hd Hd'].
  destruct (consul_built (self_node cfg sec) false eq_refl) as [Hc Hc'], (consul_built (self_node cfg sec) true eq_refl) as [Hca Hca'].
  case_bool_decide as Hr; [|case_bool_decide as Hr'; [|by destruct (v_role _ Hv)] ].
  - destruct (loader_built false) as [Hl Hl']; [rewrite Hr; by split|].
    unfold buildSeed in Hb. destruct (bootstrapRegistrar cfg fs) as [|boot] eqn:Hboot; [done|].
    destruct (gateReadiness cfg && _); [done|]. injection Hb as <-. rewrite decide_True by done. split.
    + rewrite fmap_app, Hm. f_equal. cbn [app]. rewrite !fmap_cons, !fmap_app, Hc, Hd, Hl. cbn [app comp_Name]. do 2 f_equal. rewrite gate_peers. by destruct (mem_Enabled _ && _).
    + apply Forall_app; split; [done|]. constructor; [|constructor; [done|] ].
      * split; [done|]. split; [done|]. split; [done|]. split.
        { unfold NewMemory. cbn [DefaultTTL opts]. destruct (Z.leb_spec (c_TTL cfg) 0) as [Hle|]; [|done]. pose proof (v_lease _ Hv). lia. }
        split; [unfold NewMemory; by destruct (_ <=? 0)|]. do 3 (split; [done|]). split; [by apply registrar_enabled|].
        by rewrite gate_peers, andb_true_iff, bool_decide_eq_true.
      * rewrite !Forall_app. split_and!; try done. destruct (gateReadiness cfg); by repeat constructor.
  - destruct (loader_built true) as [Hl Hl']; [by split|].
    unfold buildAgent in Hb. destruct (_ =? 0)%nat; [done|]. destruct (seedclient_New dial seeds); [|done].
    destruct (fedRouter cfg dial) as [router|] eqn:Hf; [|done]. injection Hb as <-. rewrite decide_False by done.
    assert (Hrt : comp_Name <$> (match router with Some pool => [FederationPool pool] | None => [] end) =
        only_if (fed_Enabled (c_Federation cfg)) "federation" ∧
      Forall (settled cfg sec seeds) (match router with Some pool => [FederationPool pool] | None => [] end)).
    { unfold fedRouter in Hf. destruct (fed_Enabled _); [|injection Hf as <-; by repeat constructor].
      unfold Proxy.NewPool in Hf. destruct (dial_all _ _ _ _); [|done]. injection Hf as <-. by repeat constructor. }
    destruct Hrt as [Hrt Hrt']. split.
    + rewrite !fmap_app, Hm, Hrt. f_equal. rewrite <-app_assoc. f_equal. rewrite !fmap_cons, !fmap_app, Hca, Hd, Hl. done.
    + rewrite !Forall_app. split_and!; try done. constructor; [done|]. constructor; [|do 5 (constructor; [done|]); by rewrite !Forall_app].
      do 6 (split; [done|]). split; [|done]. change (px_quorum (NewProxy (self_node cfg sec) (ag_WriteQuorum (c_Agent cfg))) = ag_WriteQuorum (c_Agent cfg)).
      unfold NewProxy. cbn [px_quorum]. destruct (Z.ltb_spec (ag_WriteQuorum (c_Agent cfg)) 1) as [Hlt|]; [|done]. pose proof (v_agent _ Hv). lia.
Qed.
End Built.

(** ** Claims *)

(** C31: the order of an agent's shutdown.  In any run of the application over the agent's
    components, when a component's [Stop] is called the context of every [Start] has
    already ended, and the [Stop]s that have returned are exactly those of the components
    started after it, last first.  So when the gRPC server's [Stop] is called, which is
    given the configured lame-duck window, those of the HTTP and DNS surfaces, the check
    monitor and the loops have returned and the deregistrar's has not been called; and
    when the deregistrar's is, with the node's own ID, the [Stop] of every other
    component but the metrics server and the federation pool has returned.  This is the
    order of the calls: the [Stop] of the renew, readiness and refresh loops and of the
    definition loader does nothing, those ending with the context. *)
Theorem agent_drain_order {Cert CertPool} `{MapRange} (cfg : Config) (sec : security Cert CertPool) (seeds : list string)
    (fs : FS) (dial : list string → option (Query → option LookupResult)) (comps : list Comp) (s : Run) (d : nat) (c : Comp) :
  c_Role cfg = RoleAgent → buildComponents cfg sec seeds fs dial = inr comps →
  run_reachable (length comps) s → stopping s = Some d → comps !! d = Some c →
  r_cause s ≠ None ∧ r_stops s = rev (seq (S d) (length comps - S d)) ∧
  match c with
  | Deregistrar _ id => id = s_nodeID sec ∧ ∀ j c', comps !! j = Some c' → is_front c' ∨ j = d ∨ j ∈ r_stops s
  | GrpcServer _ _ _ _ _ drain _ =>
      drain = ag_DrainWindow (c_Agent cfg) ∧ (∀ j c', comps !! j = Some c' → is_back c' → j ∈ r_stops s) ∧
      ∃ k client id, comps !! k = Some (Deregistrar client id) ∧ k ∉ r_stops s
  | _ => True
  end.
Proof.
  intros Hrole Hb Hr Hd Hc. destruct (stops_before _ _ _ Hr Hd) as [Hstops Hcause]. split; [done|]. split; [done|]. clear Hstops.
  unfold buildComponents in Hb.
  rewrite Hrole, bool_decide_eq_false_2, bool_decide_eq_true_2 in Hb by done.
  apply agent_layout in Hb as (pre & rest & Hcomps & Hpre & Hback & _).
  assert (Hafter : ∀ j c', comps !! j = Some c' → (d < j)%nat → j ∈ r_stops s).
  { intros j c' Hj Hlt. apply (shutdown_order (length comps) s d); [done..|]. split; [done|]. by eapply lookup_lt_Some. }
  assert (Hat : ∀ j c', comps !! j = Some c' →
    ((j < length pre)%nat ∧ is_front c') ∨
    (j = length pre ∧ c' = Deregistrar seeds (s_nodeID sec)) ∨
    (j = S (length pre) ∧ c' = GrpcServer (Listener_Addr (ls_GRPC (c_Listeners cfg))) (proxy_service cfg sec seeds fs) (s_identity sec)
       (NewAuthorizer ModeDisabled) false (ag_DrainWindow (c_Agent cfg)) None) ∨
    ((S (length pre) < j)%nat ∧ is_back c')).
  { intros j c' Hj. rewrite Hcomps in Hj. apply lookup_app_Some in Hj as [Hj|[Hge Hj]].
    - left. split; [by eapply lookup_lt_Some|]. by eapply Forall_lookup_1 in Hj.
    - destruct (j - length pre)%nat as [|[|k]] eqn:E; simpl in Hj; simplify_eq.
      + right. left. split; [lia|done].
      + right. right. left. split; [lia|done].
      + right. right. right. split; [lia|]. by eapply Forall_lookup_1 in Hj. }
  destruct (Hat d c Hc) as [[Hlt Hf]|[[Hd' ->]|[[Hd' ->]|[Hlt Hf]]]].
  - by destruct c.
  - split; [done|]. intros j c' Hj. destruct (Hat j c' Hj) as [[? ?]|[[? _]|[[? _]|[? _]]]]; [by left|right; left; lia|..];
      right; right; apply (Hafter j c' Hj); lia.
  - split; [done|]. split.
    + intros j c' Hj Hbk. destruct (Hat j c' Hj) as [[? ?]|[[? ->]|[[? ->]|[? _]]]]; [by destruct c'|done|done|].
      apply (Hafter j c' Hj). lia.
    + exists (length pre), seeds, (s_nodeID sec). split; [by rewrite Hcomps, list_lookup_middle|].
      apply (not_stopped_yet (length comps) s d); [done..|lia].
  - by destruct c.
Qed.

Definition sampleSec : security unit unit :=
  mkSecurity "n1" None (NewIdentity ∅) (NewAuthorizer ModeEnforce).

Definition agentComps : list Comp :=
  match @buildComponents unit unit list_order (applyDefaults sampleConfig) sampleSec ["seed-a:9900"%string] ∅ (λ _, Some (λ _, None)) with
  | inr comps => comps
  | inl _ => []
  end.

Lemma agent_drain_order_witness :
  ∃ s, run_reachable (length agentComps) s ∧ stopping s = Some 0%nat ∧
    ∀ j c', agentComps !! j = Some c' → is_front c' ∨ j = 0%nat ∨ j ∈ r_stops s.
Proof.
  destruct (stopping_reachable (length agentComps) 0) as (s & Hr & Hs); [vm_compute; lia|].
  exists s. split; [exact Hr|]. split; [exact Hs|].
  destruct (@agent_drain_order unit unit list_order (applyDefaults sampleConfig) sampleSec ["seed-a:9900"%string] ∅
    (λ _, Some (λ _, None)) agentComps s 0 (Deregistrar ["seed-a:9900"%string] "n1") eq_refl eq_refl Hr Hs eq_refl) as (_ & _ & _ & Hall).
  exact Hall.
Defined.

(** C32: the configured write authorization reaches every surface that enforces it, with
    the tokens of the token file: of the components of a seed under acl.mode enforce, every
    gRPC server and every Consul HTTP handler enforces; so does the Consul HTTP handler of
    an agent; and on both roles the tokens each of them identifies a caller by are the
    decoded token file's, none if no file is configured.  The seed's server starts ready
    exactly when it has no membership peers to join, in which case no syncer gates it. *)
Theorem enforce_reaches_surfaces {Cert CertPool} `{MapRange} (w : World Cert CertPool) (cfg : Config)
    (sec : security Cert CertPool) (seeds : list string) (fs fs' : FS)
    (dial : list string → option (Query → option LookupResult)) (comps : list Comp) (c : Comp) :
  setupSecurity w cfg = (inr sec, fs') → acl_Mode (c_ACL cfg) = "enforce"%string →
  buildComponents cfg sec seeds fs dial = inr comps → c ∈ comps →
  ∃ toks,
    (acl_TokensFile (c_ACL cfg) = ""%string → toks = ∅) ∧
    (acl_TokensFile (c_ACL cfg) ≠ ""%string →
       ∃ data, fs' !! acl_TokensFile (c_ACL cfg) = Some data ∧ w_yaml w data = Some toks) ∧
    match c with
    | ConsulHTTP _ h _ => h_authz h = Some (NewAuthorizer ModeEnforce) ∧ tokens (h_identity h) = toks
    | GrpcServer _ _ identity a startNotReady _ _ =>
        tokens identity = toks ∧
        (c_Role cfg = RoleSeed →
         a = NewAuthorizer ModeEnforce ∧ (startNotReady = true ↔ ∃ self peers i, MembershipSyncer self peers i ∈ comps))
    | _ => True
    end.
Proof.
  intros (m & toks & Hm & Ha & _ & Htf & Ht)%setup_ok Hmode Hb Hin. rewrite Hmode in Hm. injection Hm as <-. unfold buildComponents in Hb.
  exists toks. unfold file_tokens in Htf. split; [intros E; by rewrite decide_True in Htf|].
  split; [intros E; by rewrite decide_False in Htf|]. clear Htf.
  assert (Hmet : ∀ x, x ∈ metricsComponent cfg → is_front x).
  { intros x Hx. pose proof (metrics_front cfg) as Hf. rewrite Forall_forall in Hf. auto. }
  case_bool_decide as Hrole.
  - apply seed_layout in Hb as (boot & rest & _ & -> & Hrest & Hsync). rewrite Forall_forall in Hrest.
    apply elem_of_app in Hin as [Hin%Hmet|[->|[->|Hin]%elem_of_cons]%elem_of_cons]; [by destruct c| |done|].
    + split; [done|]. intros _. split; [done|]. split.
      * intros (self & peers & i & Hs)%Hsync. exists self, peers, i. rewrite elem_of_app, !elem_of_cons. auto.
      * intros (self & peers & i & Hs). apply elem_of_app in Hs as [Hs%Hmet|[Hs|[Hs|Hs]%elem_of_cons]%elem_of_cons]; try done.
        apply Hrest in Hs. by destruct Hs.
    + specialize (Hrest c Hin). rewrite Ha in Hrest. destruct c; try done. by destruct Hrest as [-> ->].
  - case_bool_decide; [|injection Hb as <-; apply Hmet in Hin; by destruct c].
    apply agent_layout in Hb as (pre & rest & -> & Hpre & Hback & Hrest). rewrite Forall_forall in Hpre, Hrest, Hback.
    apply elem_of_app in Hin as [Hin%Hpre|[->|[->|Hin]%elem_of_cons]%elem_of_cons]; [by destruct c|done|done|].
    specialize (Hrest c Hin). specialize (Hback c Hin). rewrite Ha in Hrest. destruct c; try done. by destruct Hrest as [-> ->].
Qed.

(** A seed that enforces, its token file, and its decoders. *)
Definition enforcingConfig : Config :=
  let l := mkListener true "10.0.0.1" 0 in
  applyDefaults (mkConfig "seed" "s1" "" "" "" false (mkCluster "prod" ["10.0.0.1:9900"%string] None) (mkListeners l l l l)
    0 0 0 0 0 (mkTLS false "" "" "" false) (mkACL "enforce" "" "tokens") (mkAgent 0 0 0 0 0)
    (mkDNSConfig "" "" 0 0 false 0 false [] 0) (mkFederation false 0 ∅) (mkMembershipConfig true ["10.0.0.2:9900"%string] 0)
    (mkBootstrapConfig true "0123456789abcdef" "" 0 false [] 0)).

Definition sampleWorld : World unit unit :=
  mkWorld unit unit {[ "tokens"%string := "t0k: s1"%string ]} ∅ None true WriteOK
    (λ data, if bool_decide (data = "t0k: s1"%string) then Some {[ "t0k"%string := "s1"%string ]} else None)
    (λ _ _, None) (λ _, None).

Lemma enforce_reaches_surfaces_witness :
  ∃ sec fs comps h, setupSecurity sampleWorld enforcingConfig = (inr sec, fs) ∧
    buildComponents (H := list_order) enforcingConfig sec [] fs (λ _, Some (λ _, None)) = inr comps ∧
    ConsulHTTP "10.0.0.1:8500" h 0 ∈ comps ∧ h_authz h = Some (NewAuthorizer ModeEnforce) ∧
    tokens (h_identity h) = {[ "t0k"%string := "s1"%string ]}.
Proof.
  eexists _, _, _, _. split; [vm_compute; reflexivity|]. split; [vm_compute; reflexivity|].
  assert (Hin : ∀ (x : Comp) (l : list Comp) k, l !! k = Some x → x ∈ l) by (intros x l k; apply list_elem_of_lookup_2).
  split; [apply (Hin _ _ 4%nat); reflexivity|].
  destruct (@enforce_reaches_surfaces unit unit list_order sampleWorld enforcingConfig
    (mkSecurity "s1" None (NewIdentity {[ "t0k"%string := "s1"%string ]}) (NewAuthorizer ModeEnforce)) []
    (w_fs sampleWorld) (w_fs sampleWorld) (λ _, Some (λ _, None))
    (match buildComponents (H := list_order) enforcingConfig
       (mkSecurity (Cert := unit) (CertPool := unit) "s1" None (NewIdentity {[ "t0k"%string := "s1"%string ]}) (NewAuthorizer ModeEnforce)) [] (w_fs sampleWorld) (λ _, Some (λ _, None))
     with inr l => l | inl _ => [] end)
    (ConsulHTTP "10.0.0.1:8500" (Consul.NewHandler (mkNodeInfo "s1" "s1" "dc1" "10.0.0.1" [] []) (NewIdentity {[ "t0k"%string := "s1"%string ]})
       (Some (NewAuthorizer ModeEnforce)) false 0) 0)) as (toks & _ & Hf & Ha & Ht);
    [vm_compute; reflexivity|reflexivity|reflexivity|apply (Hin _ _ 4%nat); vm_compute; reflexivity|].
  split; [exact Ha|]. etransitivity; [exact Ht|]. destruct Hf as (data & Hd & Hy); [discriminate|].
  vm_compute in Hd. injection Hd as <-. vm_compute in Hy. injection Hy as <-. reflexivity.
Defined.

(** What a build fails for. *)
Definition build_cause (cfg : Config) (seeds : list string) (fs : FS)
    (dial : list string → option (Query → option LookupResult)) (e : BuildError) : Prop :=
  let bs := c_Bootstrap cfg in
  match e with
  | BootstrapKeyUnreadable =>
      c_Role cfg = RoleSeed ∧ bs_Enabled bs = true ∧ TrimSpace (bs_SigningKeyFile bs) ≠ ""%string ∧ fs !! bs_SigningKeyFile bs = None
  | BootstrapKeyEmpty =>
      c_Role cfg = RoleSeed ∧ bs_Enabled bs = true ∧
      (if decide (TrimSpace (bs_SigningKeyFile bs) = ""%string) then bs_SigningKey bs = ""%string
       else ∃ data, fs !! bs_SigningKeyFile bs = Some data ∧ TrimSpace data = ""%string)
  | DialPeersFailed =>
      c_Role cfg = RoleSeed ∧ mem_Enabled (c_Membership cfg) = true ∧ mem_Peers (c_Membership cfg) ≠ [] ∧
      dial (mem_Peers (c_Membership cfg)) = None
  | NoSeedsResolved => c_Role cfg = RoleAgent ∧ seeds = []
  | DialSeedsFailed => c_Role cfg = RoleAgent ∧ seeds ≠ [] ∧ dial seeds = None
  | FederationFailed =>
      c_Role cfg = RoleAgent ∧ fed_Enabled (c_Federation cfg) = true ∧
      ∃ dc l, fed_Datacenters (c_Federation cfg) !! dc = Some l ∧ dc ≠ c_Datacenter cfg ∧ l ≠ [] ∧ dial l = None
  end.

Lemma seedclient_New_None dial l : seedclient_New dial l = None → l = [] ∨ (l ≠ [] ∧ dial l = None).
Proof. unfold seedclient_New. destruct l; [by left|by right]. Qed.

Lemma dial_all_None dial local dcs clients :
  dial_all dial local dcs clients = None → ∃ dc l, (dc, l) ∈ dcs ∧ dc ≠ local ∧ l ≠ [] ∧ dial l = None.
Proof.
  revert clients. induction dcs as [|[dc l] dcs IH]; intros clients Hd; [done|]. simpl in Hd.
  assert (Hrest : ∀ c, dial_all dial local dcs c = None → ∃ dc0 l0, (dc0, l0) ∈ (dc, l) :: dcs ∧ dc0 ≠ local ∧ l0 ≠ [] ∧ dial l0 = None).
  { intros c (dc0 & l0 & ? & ?)%IH. exists dc0, l0. rewrite elem_of_cons. auto. }
  case_bool_decide as Hdc; simpl in Hd; [by eapply Hrest|]. destruct l as [|s l]; simpl in Hd; [by eapply Hrest|].
  destruct (dial (s :: l)) eqn:E; [by eapply Hrest|]. exists dc, (s :: l). rewrite elem_of_cons. auto.
Qed.

Lemma registrar_cause cfg fs e :
  bootstrapRegistrar cfg fs = inl e → c_Role cfg = RoleSeed → ∀ seeds dial, build_cause cfg seeds fs dial e.
Proof.
  unfold bootstrapRegistrar, ResolveSigningKey, build_cause. destruct (bs_Enabled _); simpl; [|done]. intros Hb Hr seeds dial.
  case_bool_decide as Hf.
  - destruct (fs !! _) as [data|] eqn:Hd; [|by injection Hb as <-]. simpl in Hb.
    destruct (TrimSpace data) eqn:Ht; [|done]. injection Hb as <-. split; [done|]. split; [done|].
    rewrite decide_False by done. by exists data.
  - case_bool_decide as Hi; simpl in Hb.
    + by destruct (bs_SigningKey _).
    + injection Hb as <-. split; [done|]. split; [done|]. by rewrite decide_True.
Qed.

Lemma build_error {Cert CertPool} `{MapRange} cfg (sec : security Cert CertPool) seeds fs dial e :
  buildComponents cfg sec seeds fs dial = inl e → build_cause cfg seeds fs dial e.
Proof.
  intros Hb. unfold buildComponents in Hb. case_bool_decide as Hr; [|case_bool_decide as Hr'; [|done]].
  - unfold buildSeed in Hb. destruct (bootstrapRegistrar cfg fs) as [e'|boot] eqn:Hbr.
    + injection Hb as <-. by apply registrar_cause.
    + destruct (gateReadiness cfg) eqn:Hg; [|done]. rewrite gate_peers, andb_true_iff, bool_decide_eq_true in Hg.
      destruct Hg as [Hen Hp]. destruct (seedclient_New dial _) eqn:Hs; simpl in Hb; [done|].
      apply seedclient_New_None in Hs as [|[_ Hs]]; [done|]. by injection Hb as <-.
  - unfold buildAgent in Hb. destruct (Nat.eqb_spec (length seeds) 0) as [Hz|Hz].
    { injection Hb as <-. split; [done|]. by destruct seeds. }
    destruct (seedclient_New dial seeds) eqn:Hs.
    2: { apply seedclient_New_None in Hs as [->|Hs]; [done|]. by injection Hb as <-. }
    destruct (fedRouter cfg dial) eqn:Hf; [done|]. injection Hb as <-. split; [done|].
    unfold fedRouter in Hf. destruct (fed_Enabled _); [|done]. split; [done|]. unfold Proxy.NewPool in Hf.
    destruct (dial_all _ _ _ _) eqn:Hd; [done|]. apply dial_all_None in Hd as (dc & l & Hin & Hne & Hl & Hdl).
    exists dc, l. rewrite (range_perm _), elem_of_map_to_list in Hin. split_and!; try done.
    by apply seedclient_New_None in Hdl as [|[_ ?]].
Qed.

(** The seeds a node starts with: those of the providers, none when they fail. *)
Definition start_seeds (host : PluginHost) (cfg : Config) (seeds : list string) : Prop :=
  match Merged_Seeds host (buildSeedProvider cfg) with inl l => seeds = l | inr _ => seeds = [] end.

(** The start of a loaded configuration without flags. *)
Lemma RunE_loaded {Cert CertPool} `{MapRange} (w : World Cert CertPool) host dial ext decoded c :
  Parse ext decoded = Loaded c →
  match RunE w host dial ext decoded "" "info" "json" with
  | inl (SetupFailed e) => setup_cause w c e
  | inl (BuildFailed e) => ∃ sec fs seeds, setupSecurity w c = (inr sec, fs) ∧ start_seeds host c seeds ∧
      buildComponents c sec seeds fs dial = inl e
  | inl _ => False
  | inr (comps, _) => ∃ sec fs seeds, setupSecurity w c = (inr sec, fs) ∧ start_seeds host c seeds ∧
      buildComponents c sec seeds fs dial = inr comps
  end.
Proof.
  intros HP. unfold RunE. rewrite HP. rewrite (bool_decide_eq_false_2 (""%string ≠ ""%string)) by (intros Hne; by apply Hne).
  change (newLogger "info" "json") with (@inr LoggerError (Z * LogFormat) (LevelInfo, LogJSON)). cbv beta iota.
  destruct (setupSecurity w c) as [[e|sec] fs] eqn:Hs; [by apply setup_error in Hs|].
  set (seeds := match Merged_Seeds host (buildSeedProvider c) with inl l => l | inr _ => [] end).
  assert (Hss : start_seeds host c seeds) by (unfold start_seeds, seeds; by destruct (Merged_Seeds _ _)).
  destruct (buildComponents c sec seeds fs dial) as [e|comps] eqn:Hb; by exists sec, fs, seeds.
Qed.


(** The lifetimes of DNS answers fit their field: whole seconds, truncated, a negative
    duration as 0 and the largest value past the field's width. *)
Theorem ttlSeconds_bounds (d : Z) :
  0 <= ttlSeconds d <= 4294967295 ∧
  (0 <= d < 4294967296 * second → second * ttlSeconds d <= d < second * (ttlSeconds d + 1)) ∧
  (d < 0 → ttlSeconds d = 0).
Proof.
  unfold ttlSeconds, second in *.
  assert (Hq : 0 <= d → 1000000000 * Z.quot d 1000000000 <= d < 1000000000 * (Z.quot d 1000000000 + 1) ∧ 0 <= Z.quot d 1000000000).
  { intros Hd. rewrite Z.quot_div_nonneg by lia. pose proof (Z.div_mod d 1000000000). pose proof (Z.mod_pos_bound d 1000000000).
    pose proof (Z.div_pos d 1000000000). lia. }
  assert (Hn : d < 0 → Z.quot d 1000000000 <= 0).
  { intros Hd. replace d with (- - d) by lia. rewrite Z.quot_opp_l by lia. pose proof (Z.quot_pos (- d) 1000000000). lia. }
  destruct (Z.ltb_spec (Z.quot d 1000000000) 0), (Z.ltb_spec 4294967295 (Z.quot d 1000000000)); split_and!; lia.
Qed.

(** The seed's bootstrap service has the key its own token command signs with. *)
Lemma registrar_key cfg fs b :
  bootstrapRegistrar cfg fs = inr (Some b) →
  bs_Enabled (c_Bootstrap cfg) = true ∧ bsv_signingKey b ≠ ""%string ∧ bsv_cfg b = cfg ∧
  ∃ key, ResolveSigningKey fs (bs_SigningKey (c_Bootstrap cfg)) (bs_SigningKeyFile (c_Bootstrap cfg)) = Some key ∧
    default "" key = bsv_signingKey b.
Proof.
  unfold bootstrapRegistrar. destruct (bs_Enabled _); simpl; [|done].
  destruct (ResolveSigningKey _ _ _) as [key|]; [|done]. destruct (default "" key) eqn:E; [done|].
  intros [= <-]. split_and!; try done. by exists key.
Qed.

Lemma create_token_inv ext decoded fs ttl now nonce token cfg :
  Parse ext decoded = Loaded cfg → create_token ext decoded fs ttl now nonce = inr token →
  ∃ key, ResolveSigningKey fs (bs_SigningKey (c_Bootstrap cfg)) (bs_SigningKeyFile (c_Bootstrap cfg)) = Some key ∧
    MintToken (default "" key) (if ttl <=? 0 then bs_TokenTTL (c_Bootstrap cfg) else ttl) now nonce = Some token.
Proof.
  intros HP. unfold create_token. rewrite HP. destruct (negb _); [done|].
  destruct (ResolveSigningKey _ _ _) as [key|]; [|done]. destruct (_ =? 0)%nat; [done|].
  destruct (MintToken _ _ _ _) as [t|] eqn:E; [|done]. intros [= <-]. by exists key.
Qed.

(** The lifetime [create-token] asks for, and the second the token expires at. *)
Definition token_expiry (cfg : Config) (ttl now : Z) : Z :=
  let ttl := if ttl <=? 0 then bs_TokenTTL (c_Bootstrap cfg) else ttl in
  Unix (now + if ttl <=? 0 then defaultTokenTTL else ttl).

(** The RPC over a connection to the seed whose service is [b]. *)
Definition seed_call {Cert CertPool} `{DurationText} (host : string) (now : Z) (b : BootService)
    (creds : ClientCreds Cert CertPool) (addr : string) (md : gmap string (list string)) (role : string) : option rendered :=
  match (GetConfig host (Some md) role now b).1 with inr r => Some r | inl _ => None end.

(** A join end to end: a token that [create-token] prints on a seed lets
    [yp bootstrap] fetch, from the service that seed's process built of the same
    configuration, the rendered agent configuration, until the second the token expires;
    afterwards it is refused; and it prints it, or writes it to the file named.  The
    plaintext connection is used only when no TLS flag is given. *)
Theorem bootstrap_end_to_end {Cert CertPool} `{DurationText} (w : World Cert CertPool) (cfg : Config) (b : BootService)
    (ext : string) (decoded : option Config) (fs : FS) (ttl now now' : Z) (nonce token env seed host : string)
    (useTLS insec write_ok : bool) (caFile certFile keyFile out : string) :
  Parse ext decoded = Loaded cfg → bootstrapRegistrar cfg fs = inr (Some b) →
  create_token ext decoded fs ttl now (Some nonce) = inr token →
  String.length nonce = 8%nat → is_i64 (token_expiry cfg ttl now) →
  seed ≠ ""%string → token ≠ ""%string → (Allow now' host (bsv_rrl b)).1 = true →
  let run := bootstrap_cmd w env seed "agent" token out useTLS caFile certFile keyFile insec write_ok (seed_call host now' b) in
  match bootstrapCreds w useTLS caFile certFile keyFile insec with
  | None => run = inl FetchCreds
  | Some creds =>
      (creds = PlainText ↔
         useTLS = false ∧ insec = false ∧ caFile = ""%string ∧ certFile = ""%string ∧ keyFile = ""%string) ∧
      run = if token_expiry cfg ttl now <? Unix now' then inl FetchRefused
            else if bool_decide (out = ""%string) || bool_decide (out = "-"%string) then inr (Printed (Render cfg RoleAgent (bsv_seeds b)))
            else if write_ok then inr (Written out (Render cfg RoleAgent (bsv_seeds b))) else inl FetchWrite
  end.
Proof.
  intros HP Hb Hc Hn He Hseed Htok Hal run.
  destruct (registrar_key _ _ _ Hb) as (_ & Hk & Hcfg & key & Hres & Hkey).
  destruct (create_token_inv _ _ _ _ _ _ _ _ HP Hc) as (key' & Hres' & Hmint).
  rewrite Hres in Hres'. injection Hres' as <-. rewrite Hkey in Hmint.
  destruct (MintToken_token _ _ _ _ _ Hmint Hn He) as [Htrim Hval].
  specialize (Hval (bsv_signingKey b) now' Hk). rewrite bool_decide_eq_true_2 in Hval by done. cbn [negb] in Hval.
  unfold run, bootstrap_cmd. rewrite (bool_decide_eq_false_2 (token = ""%string)), bool_decide_eq_false_2 by done. cbn [orb].
  rewrite (bool_decide_eq_false_2 (token = ""%string)) by done. cbn [orb].
  destruct (bootstrapCreds w useTLS caFile certFile keyFile insec) as [creds|] eqn:Hcr; [|done]. split.
  - unfold bootstrapCreds in Hcr.
    destruct useTLS, insec; cbn [negb andb] in Hcr;
      try (destruct (if bool_decide (caFile ≠ _) then _ else _); simpl in Hcr; [|done];
           destruct (if bool_decide (certFile ≠ _) || _ then _ else _); simpl in Hcr; [|done];
           injection Hcr as <-; split; [done|intros (?&?&_); done]).
    destruct (bool_decide (caFile = _) && bool_decide (certFile = _) && bool_decide (keyFile = _)) eqn:E.
    + rewrite !andb_true_iff, !bool_decide_eq_true in E. injection Hcr as <-. by destruct E as [[-> ->] ->].
    + destruct (if bool_decide (caFile ≠ _) then _ else _); simpl in Hcr; [|done].
      destruct (if bool_decide (certFile ≠ _) || _ then _ else _); simpl in Hcr; [|done].
      injection Hcr as <-. split; [done|]. intros (_ & _ & -> & -> & ->). by vm_compute in E.
  - unfold seed_call, GetConfig. destruct (Allow now' host (bsv_rrl b)) as [ok l]. simpl in Hal. subst ok.
    cbn [negb bsv_signingKey bsv_cfg bsv_seeds bsv_allowSeedJoin]. unfold bootTokenFromMetadata.
    rewrite lookup_singleton_eq. cbn [default from_option id]. rewrite Htrim, Hval.
    change (Unix (now + _)) with (token_expiry cfg ttl now).
    destruct (token_expiry cfg ttl now <? Unix now'); [done|].
    replace (ToLower_is "agent" "agent") with true by (vm_compute; reflexivity).
    replace (bool_decide ("agent"%string = ""%string)) with false by done. cbn [orb fst]. by rewrite Hcfg.
Qed.

Lemma bootstrap_end_to_end_witness :
  ∃ token b, create_token ".yaml" (Some enforcingConfig) ∅ 0 0 (Some "nonce123"%string) = inr token ∧
    bootstrapRegistrar enforcingConfig ∅ = inr (Some b) ∧
    bootstrap_cmd sampleWorld "" "10.0.0.1:9900" "agent" token "" false "" "" "" false true
      (@seed_call unit unit decimal_durations "10.0.0.9" (5 * second) b) =
    inr (Printed (@Render decimal_durations enforcingConfig RoleAgent (bsv_seeds b))).
Proof.
  destruct (create_token ".yaml" (Some enforcingConfig) ∅ 0 0 (Some "nonce123"%string)) as [e|token] eqn:Hc;
    [vm_compute in Hc; discriminate|].
  destruct (bootstrapRegistrar enforcingConfig ∅) as [e|[b|]] eqn:Hb; [vm_compute in Hb; discriminate| |vm_compute in Hb; discriminate].
  exists token, b. split; [reflexivity|]. split; [reflexivity|].
  refine (proj2 (@bootstrap_end_to_end unit unit decimal_durations sampleWorld enforcingConfig b ".yaml" (Some enforcingConfig)
    ∅ 0 0 (5 * second) "nonce123" token "" "10.0.0.1:9900" "10.0.0.9" false false true "" "" "" ""
    _ Hb Hc eq_refl _ _ _ _)).
  - vm_compute. reflexivity.
  - vm_compute. split; discriminate.
  - discriminate.
  - intros ->. vm_compute in Hc. discriminate.
  - vm_compute in Hb. injection Hb as <-. vm_compute. reflexivity.
Defined.

(** A remote datacenter configured without seeds is advertised and not served: the
    Consul handler lists it among the datacenters, while the federation pool has skipped
    it, so its queries are taken for local ones. *)
Theorem advertised_dc_not_remote :
  let cfg := applyDefaults (mkConfig "agent" "n1" "dc1" "" "" false (mkCluster "prod" ["s:9900"%string] None)
    (let l := mkListener true "" 0 in mkListeners l l l l) 0 0 0 0 0 (mkTLS false "" "" "" false) (mkACL "" "" "")
    (mkAgent 0 0 0 0 0) (mkDNSConfig "" "" 0 0 false 0 false [] 0)
    (mkFederation true 0 {[ "dc2"%string := [] ]}) (mkMembershipConfig false [] 0) (mkBootstrapConfig false "" "" 0 false [] 0)) in
  ∃ comps pool addr h rate, Validate cfg = [] ∧
    buildComponents (H := list_order) cfg sampleSec ["s:9900"%string] ∅ (λ _, Some (λ _, None)) = inr comps ∧
    comps !! 1%nat = Some (FederationPool pool) ∧ comps !! 9%nat = Some (ConsulHTTP addr h rate) ∧
    info_Federated (h_info h) = ["dc2"%string] ∧ IsRemote pool "dc2" = false.
Proof.
  intros cfg. eexists _, _, _, _, _. split; [vm_compute; reflexivity|]. split; [vm_compute; reflexivity|].
  split; [reflexivity|]. split; [reflexivity|]. split; vm_compute; reflexivity.
Qed.
