(* ===== verification/Observability.v ===== *)
(** The serving interceptors and the metrics ([internal/observability]: interceptors.go,
    metrics.go, propagation.go; the audit of [internal/server/authz.go]), the chain in
    which the gRPC server runs them ([NewComponent] of [internal/server/component.go]),
    and the reaper loop that feeds the registry's gauges ([internal/store/gcloop.go]).

    A handler may panic: its outcome is [Panics] or [Returns].  The Prometheus vectors
    are maps from labels to counters and to the observed latencies; the logs are lists.
    Latencies and peers are the environment's, given per call. *)

From Stdlib Require Import ZArith Lia.
From stdpp Require Import base gmap list strings.
From S2P Require Import Prelude.
From S2P Require Import GoNet.
From S2P Require Import Model.
From S2P Require Import Health.
From S2P Require Import Store.
From S2P Require Import StoreSteps.
From S2P Require Import StoreInv.
From S2P Require Import StoreSpec.
From S2P Require Import StoreGC.
From S2P Require Import Watch.
From S2P Require Import Protoconv.
From S2P Require Import Cred.
From S2P Require Import Server.

Local Open Scope Z_scope.

(** ** metrics.go *)

(** [status.Code] of a finished call. *)
Inductive RpcCode := RpcOK | RpcError (c : Code) | RpcInternal.

#[export] Instance Code_eq_dec : EqDecision Code.
Proof. solve_decision. Defined.

#[export] Instance RpcCode_eq_dec : EqDecision RpcCode.
Proof. solve_decision. Defined.

Definition Code_String (c : RpcCode) : string :=
  match c with
  | RpcOK => "OK" | RpcInternal => "Internal"
  | RpcError CodeInvalidArgument => "InvalidArgument" | RpcError CodeNotFound => "NotFound"
  | RpcError CodeResourceExhausted => "ResourceExhausted" | RpcError CodePermissionDenied => "PermissionDenied"
  | RpcError CodeUnimplemented => "Unimplemented"
  end.

Definition SideServer : string := "server".

Definition SideClient : string := "client".

Record Prometheus := mkPrometheus {
  pm_total : gmap (string * string * string) Z;
  pm_latency : gmap (string * string * string) (list Z)
}.

Definition NewPrometheus : Prometheus := mkPrometheus ∅ ∅.

Definition ObserveRPC (side method code : string) (latency : Z) (p : Prometheus) : Prometheus :=
  let k := (side, method, code) in
  mkPrometheus (<[k := default 0 (pm_total p !! k) + 1]> (pm_total p))
    (<[k := default [] (pm_latency p !! k) ++ [latency]]> (pm_latency p)).

(** ** propagation.go *)

(** The counters and gauges, by integer value; the histograms and the durations in
    nanoseconds, as they are passed. *)
Record Propagation := mkPropagation {
  pr_registerToVisible : list Z; pr_deregisterToRemoved : list Z; pr_cacheAge : Z; pr_clockSkew : Z;
  pr_registrySize : Z; pr_evictions : Z; pr_fanoutSuccess : Z; pr_fanoutFailure : Z; pr_blockingWaiters : Z;
  pr_surfaceRequests : gmap string Z; pr_divergence : Z; pr_convergenceLag : Z
}.

Definition NewPropagation : Propagation := mkPropagation [] [] 0 0 0 0 0 0 0 ∅ 0 0.

(** Every method is nil-safe: the receiver is an [option]. *)
Definition SetConvergenceLag (n : Z) (p : option Propagation) : option Propagation :=
  (λ p, mkPropagation (pr_registerToVisible p) (pr_deregisterToRemoved p) (pr_cacheAge p) (pr_clockSkew p) (pr_registrySize p)
    (pr_evictions p) (pr_fanoutSuccess p) (pr_fanoutFailure p) (pr_blockingWaiters p) (pr_surfaceRequests p) (pr_divergence p) n) <$> p.

Definition SetRegistrySize (n : Z) (p : option Propagation) : option Propagation :=
  (λ p, mkPropagation (pr_registerToVisible p) (pr_deregisterToRemoved p) (pr_cacheAge p) (pr_clockSkew p) n
    (pr_evictions p) (pr_fanoutSuccess p) (pr_fanoutFailure p) (pr_blockingWaiters p) (pr_surfaceRequests p) (pr_divergence p)
    (pr_convergenceLag p)) <$> p.

Definition AddEvictions (n : Z) (p : option Propagation) : option Propagation :=
  (λ p, if 0 <? n then
      mkPropagation (pr_registerToVisible p) (pr_deregisterToRemoved p) (pr_cacheAge p) (pr_clockSkew p) (pr_registrySize p)
        (pr_evictions p + n) (pr_fanoutSuccess p) (pr_fanoutFailure p) (pr_blockingWaiters p) (pr_surfaceRequests p) (pr_divergence p)
        (pr_convergenceLag p)
    else p) <$> p.

Definition ObserveFanout (succeeded total : Z) (p : option Propagation) : option Propagation :=
  (λ p, let f := total - succeeded in
    mkPropagation (pr_registerToVisible p) (pr_deregisterToRemoved p) (pr_cacheAge p) (pr_clockSkew p) (pr_registrySize p)
      (pr_evictions p) (pr_fanoutSuccess p + succeeded) (pr_fanoutFailure p + if 0 <? f then f else 0) (pr_blockingWaiters p)
      (pr_surfaceRequests p) (pr_divergence p) (pr_convergenceLag p)) <$> p.

Definition AddWaiters (d : Z) (p : Propagation) : Propagation :=
  mkPropagation (pr_registerToVisible p) (pr_deregisterToRemoved p) (pr_cacheAge p) (pr_clockSkew p) (pr_registrySize p)
    (pr_evictions p) (pr_fanoutSuccess p) (pr_fanoutFailure p) (pr_blockingWaiters p + d) (pr_surfaceRequests p) (pr_divergence p)
    (pr_convergenceLag p).

Definition IncWaiters (p : option Propagation) : option Propagation := AddWaiters 1 <$> p.

Definition DecWaiters (p : option Propagation) : option Propagation := AddWaiters (-1) <$> p.

Definition CountRequest (surface : string) (p : option Propagation) : option Propagation :=
  (λ p, mkPropagation (pr_registerToVisible p) (pr_deregisterToRemoved p) (pr_cacheAge p) (pr_clockSkew p) (pr_registrySize p)
    (pr_evictions p) (pr_fanoutSuccess p) (pr_fanoutFailure p) (pr_blockingWaiters p)
    (<[surface := default 0 (pr_surfaceRequests p !! surface) + 1]> (pr_surfaceRequests p)) (pr_divergence p) (pr_convergenceLag p)) <$> p.

Definition SetDivergence (spread : Z) (p : option Propagation) : option Propagation :=
  (λ p, mkPropagation (pr_registerToVisible p) (pr_deregisterToRemoved p) (pr_cacheAge p) (pr_clockSkew p) (pr_registrySize p)
    (pr_evictions p) (pr_fanoutSuccess p) (pr_fanoutFailure p) (pr_blockingWaiters p) (pr_surfaceRequests p) spread
    (pr_convergenceLag p)) <$> p.

Definition ObserveRegisterToVisible (d : Z) (p : option Propagation) : option Propagation :=
  (λ p, mkPropagation (pr_registerToVisible p ++ [d]) (pr_deregisterToRemoved p) (pr_cacheAge p) (pr_clockSkew p) (pr_registrySize p)
    (pr_evictions p) (pr_fanoutSuccess p) (pr_fanoutFailure p) (pr_blockingWaiters p) (pr_surfaceRequests p) (pr_divergence p)
    (pr_convergenceLag p)) <$> p.

Definition ObserveDeregisterToRemoved (d : Z) (p : option Propagation) : option Propagation :=
  (λ p, mkPropagation (pr_registerToVisible p) (pr_deregisterToRemoved p ++ [d]) (pr_cacheAge p) (pr_clockSkew p) (pr_registrySize p)
    (pr_evictions p) (pr_fanoutSuccess p) (pr_fanoutFailure p) (pr_blockingWaiters p) (pr_surfaceRequests p) (pr_divergence p)
    (pr_convergenceLag p)) <$> p.

Definition SetCacheAge (d : Z) (p : option Propagation) : option Propagation :=
  (λ p, mkPropagation (pr_registerToVisible p) (pr_deregisterToRemoved p) d (pr_clockSkew p) (pr_registrySize p)
    (pr_evictions p) (pr_fanoutSuccess p) (pr_fanoutFailure p) (pr_blockingWaiters p) (pr_surfaceRequests p) (pr_divergence p)
    (pr_convergenceLag p)) <$> p.

Definition SetClockSkew (d : Z) (p : option Propagation) : option Propagation :=
  (λ p, mkPropagation (pr_registerToVisible p) (pr_deregisterToRemoved p) (pr_cacheAge p) d (pr_registrySize p)
    (pr_evictions p) (pr_fanoutSuccess p) (pr_fanoutFailure p) (pr_blockingWaiters p) (pr_surfaceRequests p) (pr_divergence p)
    (pr_convergenceLag p)) <$> p.

(** ** interceptors.go *)

Record AccessRecord := mkAccess { ac_side : string; ac_method : string; ac_code : string; ac_latency : Z; ac_peer : string }.

Record AuditRecord := mkAudit {
  au_method : string; au_node : string; au_principal : string; au_peer : string; au_code : string
}.

(** The metrics ([None] for [Nop]), the access and audit logs, and the panics logged. *)
Record Obs := mkObs {
  o_metrics : option Prometheus; o_access : list AccessRecord; o_audit : list AuditRecord; o_panics : list string
}.

Definition NewObs (m : option Prometheus) : Obs := mkObs m [] [] [].

Definition observe (side method : string) (code : RpcCode) (latency : Z) (peer : string) (o : Obs) : Obs :=
  mkObs (ObserveRPC side method (Code_String code) latency <$> o_metrics o)
    (o_access o ++ [mkAccess side method (Code_String code) latency peer]) (o_audit o) (o_panics o).

Definition logPanic (method : string) (o : Obs) : Obs :=
  mkObs (o_metrics o) (o_access o) (o_audit o) (o_panics o ++ [method]).

(** What a handler comes to. *)
Inductive Outcome := Panics | Returns (r : Code + Response).

Definition outcome_code (r : Code + Response) : RpcCode := match r with inl c => RpcError c | inr _ => RpcOK end.

(** The environment of a call: its latency, peer and context. *)
Record CallEnv := mkCallEnv { ce_latency : Z; ce_peer : option string; ce_ctx : Context }.

(** [info.FullMethod], from the service description. *)
Definition FullMethod (req : Request) : string :=
  "/discovery.v1.AgentService/" +:+
  match req with
  | RegisterRequest _ => "Register" | RenewRequest _ _ => "Renew" | DeregisterRequest _ => "Deregister"
  | DeregisterServiceRequest _ _ => "DeregisterService" | LookupRequest _ => "Lookup"
  end.

Section Chain.
Context {S : Type} (handler : Request → S → Outcome * S) (id : Identity) (authz : Authorizer).

(** [UnaryAuditInterceptor]; a panic passes through it. *)
Definition audit_call (e : CallEnv) (req : Request) (s : S) (o : Obs) : Outcome * S * Obs :=
  let '(nodeID, isWrite) := writeTarget req in
  let '(out, s) := handler req s in
  match out with
  | Panics => (Panics, s, o)
  | Returns r =>
      (Returns r, s,
       if isWrite : bool then
         mkObs (o_metrics o) (o_access o)
           (o_audit o ++ [mkAudit (FullMethod req) nodeID (principalName (Identity_Principal id (ce_ctx e)))
              (PeerAddr (ce_peer e)) (Code_String (outcome_code r))])
           (o_panics o)
       else o)
  end.

(** [UnaryAuthzInterceptor] around it. *)
Definition authz_call (e : CallEnv) (req : Request) (s : S) (o : Obs) : Outcome * S * Obs :=
  let '(nodeID, isWrite) := writeTarget req in
  if isWrite && Enforcing authz then
    match Authorize authz (Identity_Principal id (ce_ctx e)) nodeID with
    | Some _ => (Returns (inl CodePermissionDenied), s, o)
    | None => audit_call e req s o
    end
  else audit_call e req s o.

(** [recoverUnary] around the rest of the chain: what a panic is turned into, and an
    answer as the client sees it, its code and the response that comes with [OK]. *)
Definition recoverUnary (e : CallEnv) (req : Request) (s : S) (o : Obs) : RpcCode * option Response * S * Obs :=
  let '(out, s, o) := authz_call e req s o in
  match out with
  | Panics => (RpcInternal, None, s, logPanic (FullMethod req) o)
  | Returns r => (outcome_code r, match r with inl _ => None | inr resp => Some resp end, s, o)
  end.

(** [UnaryServerInterceptor]: a call through the whole chain. *)
Definition server_call (e : CallEnv) (req : Request) (s : S) (o : Obs) : RpcCode * option Response * S * Obs :=
  let '(code, resp, s, o) := recoverUnary e req s o in
  (code, resp, s, observe SideServer (FullMethod req) code (ce_latency e) (PeerAddr (ce_peer e)) o).

(** Calls one after the other, with what their clients saw. *)
Fixpoint serve_calls (calls : list (CallEnv * Request)) (s : S) (o : Obs) : list (string * RpcCode) * S * Obs :=
  match calls with
  | [] => ([], s, o)
  | (e, req) :: rest =>
      let '(code, _, s, o) := server_call e req s o in
      let '(l, s, o) := serve_calls rest s o in ((FullMethod req, code) :: l, s, o)
  end.
End Chain.

(** [out] is the end of the stream's handler, [None] for a panic. *)
Definition recoverStream (method : string) (out : option (option Code)) (o : Obs) : RpcCode * Obs :=
  match out with
  | None => (RpcInternal, logPanic method o)
  | Some None => (RpcOK, o)
  | Some (Some c) => (RpcError c, o)
  end.

(** [StreamServerInterceptor]. *)
Definition stream_call (method : string) (latency : Z) (peer : option string) (out : option (option Code)) (o : Obs) : RpcCode * Obs :=
  let '(code, o) := recoverStream method out o in
  (code, observe SideServer method code latency (PeerAddr peer) o).

(** [UnaryClientInterceptor] and [StreamClientInterceptor]: the call's own code, unchanged. *)
Definition client_call (method target : string) (latency : Z) (code : RpcCode) (o : Obs) : RpcCode * Obs :=
  (code, observe SideClient method code latency target o).

(** ** gcloop.go *)

Definition defaultGCInterval : Z := 5 * second.

Definition NewGCLoop (interval : Z) : Z := if interval <=? 0 then defaultGCInterval else interval.

(** A tick: the pass, then the hook of the seed's wiring with the number reaped and the
    size. *)
Definition gc_tick `{MapRange} (clk : Clock) (m : Memory) (p : option Propagation)
  : Memory * list ChangeEvent * option Propagation :=
  let '(n, m, evs) := GC clk m in
  (m, evs, SetRegistrySize (Size m) (AddEvictions n p)).

(** ** Lemmas *)

#[export] Instance Code_String_inj : Inj (=) (=) Code_String.
Proof. intros [|[]|] [|[]|]; done. Qed.

(** The number of answers of a method with a code, by its label. *)
Definition answered (method code : string) (l : list (string * RpcCode)) : nat :=
  length (filter (λ x, (x.1, Code_String x.2) = (method, code)) l).

Lemma answered_nil method code : answered method code [] = 0%nat.
Proof. reflexivity. Qed.

Lemma answered_cons method code x l :
  answered method code (x :: l) = ((if decide ((x.1, Code_String x.2) = (method, code)) then 1 else 0) + answered method code l)%nat.
Proof. unfold answered. rewrite filter_cons. by destruct (decide _). Qed.

Lemma answered_code method c l : answered method (Code_String c) l = length (filter (λ x, x = (method, c)) l).
Proof.
  induction l as [|[m' c'] l IH]; [done|]. rewrite answered_cons, filter_cons, IH. simpl.
  destruct (decide ((m', Code_String c') = (method, Code_String c))) as [E|E], (decide ((m', c') = (method, c))) as [F|F]; try done.
  - injection E as -> ->%(inj Code_String). done.
  - by injection F as -> ->.
Qed.

Lemma ObserveRPC_total side method code t p m c :
  default 0 (pm_total (ObserveRPC side method code t p) !! (side, m, c)) =
    default 0 (pm_total p !! (side, m, c)) + if decide ((method, code) = (m, c)) then 1 else 0.
Proof.
  unfold ObserveRPC. simpl. destruct (decide ((method, code) = (m, c))) as [[= -> ->]|Hne].
  - by rewrite lookup_insert_eq.
  - rewrite lookup_insert_ne by congruence. lia.
Qed.

Lemma ObserveRPC_latency side method code t p m c :
  length (default [] (pm_latency (ObserveRPC side method code t p) !! (side, m, c))) =
    (length (default [] (pm_latency p !! (side, m, c))) + if decide ((method, code) = (m, c)) then 1 else 0)%nat.
Proof.
  unfold ObserveRPC. simpl. destruct (decide ((method, code) = (m, c))) as [[= -> ->]|Hne].
  - rewrite lookup_insert_eq. simpl. by rewrite length_app.
  - rewrite lookup_insert_ne by congruence. lia.
Qed.

Section ChainLemmas.
Context {S : Type} (handler : Request → S → Outcome * S) (id : Identity) (authz : Authorizer).

(** The chain below the recovery leaves the metrics and the access log alone. *)
Lemma authz_call_obs e req s o :
  let '(_, _, o') := authz_call handler id authz e req s o in
  o_metrics o' = o_metrics o ∧ o_access o' = o_access o ∧ o_panics o' = o_panics o.
Proof.
  unfold authz_call, audit_call. destruct (writeTarget req) as [nid [|]]; simpl.
  - destruct (Enforcing authz); [destruct (Authorize _ _ _); [done|]|]; by destruct (handler req s) as [[|r] s'].
  - by destruct (handler req s) as [[|r] s'].
Qed.

Definition panicked (code : RpcCode) : nat := if decide (code = RpcInternal) then 1 else 0.

(** What one call adds to the metrics and logs. *)
Lemma server_call_obs e req s o :
  let '(code, _, _, o') := server_call handler id authz e req s o in
  o_metrics o' = ObserveRPC SideServer (FullMethod req) (Code_String code) (ce_latency e) <$> o_metrics o ∧
  o_access o' = o_access o ++ [mkAccess SideServer (FullMethod req) (Code_String code) (ce_latency e) (PeerAddr (ce_peer e))] ∧
  length (o_panics o') = (length (o_panics o) + panicked code)%nat.
Proof.
  unfold server_call, recoverUnary. pose proof (authz_call_obs e req s o) as Ho.
  destruct (authz_call _ _ _ _ _ _ _) as [[out s'] o']. destruct Ho as (H1 & H2 & H3).
  destruct out as [|[c|r]]; simpl; rewrite H1, H2, H3; (split; [done|]); (split; [done|]); unfold panicked; simpl.
  - by rewrite length_app.
  - lia.
  - lia.
Qed.

Lemma serve_calls_obs calls s o p :
  o_metrics o = Some p →
  let '(l, _, o') := serve_calls handler id authz calls s o in
  ∃ p', o_metrics o' = Some p' ∧ l.*1 = FullMethod <$> calls.*2 ∧
    (∀ m c, default 0 (pm_total p' !! (SideServer, m, c)) =
       default 0 (pm_total p !! (SideServer, m, c)) + Z.of_nat (answered m c l)) ∧
    (∀ m c, length (default [] (pm_latency p' !! (SideServer, m, c))) =
       (length (default [] (pm_latency p !! (SideServer, m, c))) + answered m c l)%nat) ∧
    (λ a, (ac_method a, ac_code a)) <$> o_access o' =
      ((λ a, (ac_method a, ac_code a)) <$> o_access o) ++ ((λ x, (x.1, Code_String x.2)) <$> l) ∧
    length (o_panics o') = (length (o_panics o) + length (filter (λ x, x.2 = RpcInternal) l))%nat.
Proof.
  revert s o p. induction calls as [|[e req] calls IH]; intros s o p Hp; cbn [serve_calls].
  { exists p. split_and!; [done|done| | |by rewrite app_nil_r|by rewrite filter_nil, Nat.add_0_r];
      intros m c; rewrite answered_nil; lia. }
  pose proof (server_call_obs e req s o) as Ho. destruct (server_call _ _ _ _ _ _ _) as [[[code resp] s1] o1].
  destruct Ho as (H1 & H2 & H3). rewrite Hp in H1. simpl in H1.
  specialize (IH s1 o1 _ H1). destruct (serve_calls _ _ _ calls s1 o1) as [[l s2] o2].
  destruct IH as (p' & Hp' & Hl & Ht & Hla & Ha & Hpa). exists p'. split_and!.
  - done.
  - by rewrite !fmap_cons, Hl.
  - intros m c. rewrite Ht, ObserveRPC_total, answered_cons. simpl. destruct (decide _); lia.
  - intros m c. rewrite Hla, ObserveRPC_latency, answered_cons. simpl. destruct (decide _); lia.
  - rewrite Ha, H2, fmap_app, <-app_assoc. done.
  - rewrite Hpa, H3, filter_cons. unfold panicked. simpl. destruct (decide (code = RpcInternal)); simpl; lia.
Qed.

End ChainLemmas.

(** A pass reaps no fewer than none. *)
Lemma gc_services_count clk now nid mt svcs m evs k :
  k <= (gc_services clk now nid mt svcs m evs k).2.
Proof.
  revert m evs k. induction svcs as [|[id svc] svcs IH]; intros m evs k; cbn [gc_services]; [simpl; lia|].
  destruct (lease m svc now) as [st [|]].
  - destruct (remove_service nid id svc m) as [svc' m']. etrans; [|apply IH]. lia.
  - case_bool_decide; [|apply IH]. destruct (next m) as [idx m']. apply IH.
Qed.

Lemma gc_nodes_count `{MapRange} clk now ns m evs k : k <= (gc_nodes clk now ns m evs k).2.
Proof.
  revert m evs k. induction ns as [|[nid n] ns IH]; intros m evs k; cbn [gc_nodes]; [simpl; lia|].
  pose proof (gc_services_count clk now nid (meta n) (range (services n)) m evs k) as Hk.
  destruct (gc_services _ _ _ _ _ _ _ _) as [[m' evs'] k']. etrans; [exact Hk|apply IH].
Qed.

Lemma GC_nonneg `{MapRange} clk m : 0 <= (GC clk m).1.1.
Proof.
  unfold GC. pose proof (gc_nodes_count clk (clk O) (range (nodes m)) m [] 0) as Hk.
  by destruct (gc_nodes _ _ _ _ _ _) as [[m' evs] k].
Qed.

(** ** Claims *)

(** The handler of a seed: its unary methods, the watcher told of the events. *)
Definition seed_handler `{MapRange} (clk : Clock) (req : Request) (s : Seed) : Outcome * Seed :=
  let '(r, m, evs) := handle clk req (sd_store s) in
  let '(w, c) := Notify evs (sd_watcher s) (sd_chans s) in (Returns r, mkSeed m w c).


(** A handler that panics on lookups and refuses the other calls. *)
Definition panicky (req : Request) (n : nat) : Outcome * nat :=
  match req with LookupRequest _ => (Panics, S n) | _ => (Returns (inl CodeNotFound), S n) end.

Definition sampleEnv : CallEnv := mkCallEnv (2 * second) (Some "10.0.0.1:5000"%string) (mkContext None None).


(** The metrics account for every call: after any calls through the chain, whatever
    their handlers do, the counter of each method and code is the number of calls its
    clients saw answered so, with as many latencies observed; the access log has one
    line per call with what its client saw; and the panics logged are the calls
    answered Internal. *)
Theorem metrics_account {S} (handler : Request → S → Outcome * S) (id : Identity) (authz : Authorizer)
    (calls : list (CallEnv * Request)) (s : S) :
  let '(l, _, o) := serve_calls handler id authz calls s (NewObs (Some NewPrometheus)) in
  l.*1 = FullMethod <$> calls.*2 ∧
  (λ a, (ac_method a, ac_code a)) <$> o_access o = (λ x, (x.1, Code_String x.2)) <$> l ∧
  length (o_panics o) = length (filter (λ x, x.2 = RpcInternal) l) ∧
  ∃ p, o_metrics o = Some p ∧ ∀ method code,
    default 0 (pm_total p !! (SideServer, method, Code_String code)) = Z.of_nat (length (filter (λ x, x = (method, code)) l)) ∧
    length (default [] (pm_latency p !! (SideServer, method, Code_String code))) = length (filter (λ x, x = (method, code)) l).
Proof.
  pose proof (serve_calls_obs handler id authz calls s (NewObs (Some NewPrometheus)) NewPrometheus eq_refl) as Ho.
  destruct (serve_calls _ _ _ calls s _) as [[l s'] o]. destruct Ho as (p & Hp & Hl & Ht & Hla & Ha & Hpa).
  split; [done|]. split; [done|]. split; [done|]. exists p. split; [done|]. intros method code.
  rewrite <-answered_code. split; [rewrite Ht|rewrite Hla]; simpl; by rewrite lookup_empty.
Qed.

(** The reaper's metrics are those of the registry: after a tick the size gauge is the
    number of instances left, the evictions have grown by what the registry lost in the
    pass, every lease is settled, and the other series are as they were. *)
Theorem gc_tick_metrics `{MapRange} (clk : Clock) (m : Memory) (p : Propagation) :
  let '(m', evs, p') := gc_tick clk m (Some p) in
  (m', evs) = ((GC clk m).1.2, (GC clk m).2) ∧ gc_settled m' (clk O) ∧
  ∃ p1, p' = Some p1 ∧ pr_registrySize p1 = Size m' ∧
    pr_evictions p1 = pr_evictions p + (total m - total m') ∧ total m' <= total m ∧
    pr_blockingWaiters p1 = pr_blockingWaiters p ∧ pr_surfaceRequests p1 = pr_surfaceRequests p ∧
    pr_divergence p1 = pr_divergence p.
Proof.
  unfold gc_tick. destruct (GC clk m) as [[k m'] evs] eqn:E. pose proof (GC_nonneg clk m) as Hk. rewrite E in Hk.
  apply GC_spec in E as Hr. pose proof (gr_count _ _ _ _ Hr) as Hc.
  split; [done|]. split; [by eapply gc_result_settled|]. simpl in *.
  destruct (Z.ltb_spec 0 k); simpl; eexists; (split; [reflexivity|]); simpl; split_and!; try done; lia.
Qed.

(** The audit log misses what the authorization refuses: the audit runs inside the
    authorization, so a denied write leaves no record of it. *)
Theorem denied_write_not_audited :
  let '(code, _, _, o) := server_call panicky (NewIdentity ∅) (NewAuthorizer ModeEnforce) sampleEnv
    (DeregisterRequest "victim") 0%nat (NewObs None) in
  code = RpcError CodePermissionDenied ∧ o_audit o = [].
Proof. vm_compute. split; reflexivity. Qed.
