(* ===== verification/Agent.v ===== *)
(** A whole agent over its seeds: the gRPC surface of the proxy ([AgentService] of
    [internal/seedclient/proxy.go]) and its Consul registry, with the writes of
    [internal/seedclient/client.go] landing on the registries of the seeds, and the SDK
    on top ([client/sdk/sdk.go]).

    The seeds are registries under their addresses.  A call to all of them goes over the
    [Links]: for each seed the readings of its clock and the fate of the call (a seed that
    refuses a call answers an error and stays as it was, which is what [NotReached]
    gives).  An agent is its proxy with its cache and watcher. *)

From Stdlib Require Import ZArith Lia.
From stdpp Require Import base gmap list strings.
From S2P Require Import Prelude Model Health Store StoreSteps StoreInv StoreSpec StoreLookup StoreOps.
From S2P Require Import Watch Protoconv Cred Server SeedClient Cache Proxy Consul RateLimit GoNet Observability.

Local Open Scope Z_scope.

(** ** The seeds *)

Notation Cluster := (list (string * Memory)).

Definition Links : Type := nat → Clock * fate.

Definition seed_results `{MapRange} (net : Links) (req : Request) (c : Cluster)
  : list (string * Memory * option (Code + Response)) :=
  imap (λ i s, let '(m, r) := seed_answer (net i).1 req (net i).2 s.2 in (s.1, m, r)) c.

(** A write to every seed: [fanOut] with the request of the method. *)
Definition fan_write `{MapRange} (net : Links) (req : Request) (c : Cluster) : WriteResult * Cluster :=
  let rs := seed_results net req c in (fanOut ((λ x, (x.1.1, write_error x.2)) <$> rs), (λ x, x.1) <$> rs).

Definition SeedClient_Register `{MapRange} (net : Links) (reg : Registration) : Cluster → WriteResult * Cluster :=
  fan_write net (RegisterRequest (Some (RegistrationToProto reg))).

Definition SeedClient_Renew `{MapRange} (net : Links) (nodeID : string) (ids : list string) : Cluster → WriteResult * Cluster :=
  fan_write net (RenewRequest nodeID ids).

Definition SeedClient_Deregister `{MapRange} (net : Links) (nodeID : string) : Cluster → WriteResult * Cluster :=
  fan_write net (DeregisterRequest nodeID).

Definition SeedClient_DeregisterService `{MapRange} (net : Links) (nodeID serviceID : string) : Cluster → WriteResult * Cluster :=
  fan_write net (DeregisterServiceRequest nodeID serviceID).

(** What the seeds answer to a lookup. *)
Definition seed_answers `{MapRange} (net : Links) (q : Query) (c : Cluster) : list (string * option PbLookupResponse) :=
  (λ x, (x.1.1, lookup_answer x.2)) <$> seed_results net (LookupRequest (Some (QueryToProto q))) c.

Definition seed_lookup `{MapRange} (net : Links) (c : Cluster) (q : Query) : option LookupResult :=
  SeedClient_Lookup (seed_answers net q c).*2.

(** ** proxy.go *)

Record AgentNode := mkAgentNode {
  na_proxy : Proxy; na_cache : option Cache; na_watcher : option Watcher; na_federation : option Pool
}.

Definition with_proxy (p : Proxy) (a : AgentNode) : AgentNode :=
  mkAgentNode p (na_cache a) (na_watcher a) (na_federation a).

(** An agent and the seeds it talks to. *)
Definition View : Type := AgentNode * Cluster.

Inductive AgentError := ProxyFailed (e : ProxyError) | LookupFailure | LookupPanic.

Section Surface.
Context `{MapRange} (net : Links) (clk : Clock).

(** The text of an agent's error: that of a gRPC status is the library's, and the joined
    errors of a failed lookup are those of the calls to the seeds. *)
Context (errorText : AgentError → string).

Definition agent_id (a : AgentNode) : string := Node_ID (px_node (na_proxy a)).

(** The registration [RegisterServices] sends, if it comes to that. *)
Definition sent_registration (p : Proxy) (reg : Registration) : option Registration :=
  if (length (Reg_Services reg) =? 0)%nat then None else stamped p reg.

Definition agent_RegisterServices (reg : Registration) (v : View) : option AgentError * View :=
  let '(a, c) := v in
  let '(err, p) := RegisterServices (λ r, (SeedClient_Register net r c).1) reg (na_proxy a) in
  (ProxyFailed <$> err,
   (with_proxy p a, match sent_registration (na_proxy a) reg with
                    | Some r => (SeedClient_Register net r c).2
                    | None => c
                    end)).

(** [Renew] and [RenewService]. *)
Definition agent_Renew (ids : list string) (v : View) : option AgentError * View :=
  let '(a, c) := v in
  (ProxyFailed <$> Proxy_Renew (λ nid ids, (SeedClient_Renew net nid ids c).1) ids (na_proxy a),
   (a, (SeedClient_Renew net (agent_id a) ids c).2)).

Definition agent_Deregister (v : View) : option AgentError * View :=
  let '(a, c) := v in
  let '(err, p) := Proxy_Deregister (λ nid, (SeedClient_Deregister net nid c).1) (na_proxy a) in
  (ProxyFailed <$> err, (with_proxy p a, (SeedClient_Deregister net (agent_id a) c).2)).

Definition agent_RemoveService (serviceID : string) (v : View) : option AgentError * View :=
  let '(a, c) := v in
  let '(err, p) := RemoveService (λ nid sid, (SeedClient_DeregisterService net nid sid c).1) serviceID (na_proxy a) in
  (ProxyFailed <$> err,
   (with_proxy p a, if bool_decide (serviceID = ""%string) then c
                    else (SeedClient_DeregisterService net (agent_id a) serviceID c).2)).

(** Best-effort: [FailService] and [SetMaintenance] only log. *)
Definition agent_FailService (serviceID : string) (v : View) : option AgentError * View := (None, v).

Definition agent_SetMaintenance (serviceID : string) (enabled : bool) (v : View) : option AgentError * View := (None, v).

Definition agent_Dump (q : Query) (v : View) : gmap string (list ServiceEntry) := Dump (seed_answers net q v.2).

Definition agent_RegisterExternal (reg : Registration) (v : View) : option AgentError * View :=
  let '(a, c) := v in
  (ProxyFailed <$> RegisterExternal (λ r, (SeedClient_Register net r c).1) reg, (a, (SeedClient_Register net reg c).2)).

(** The outcome of the deregistration is not looked at. *)
Definition agent_RemoveNode (nodeID : string) (v : View) : option AgentError * View :=
  (None, (v.1, (SeedClient_Deregister net nodeID v.2).2)).

(** [Resolve] with the router [fed]; the cache tells the agent's watcher of each changed
    name. *)
Definition resolve_with (fed : option Pool) (q : Query) (mode : Consistency) (v : View)
  : (LookupResult * Z + AgentError) * View :=
  let '(a, c) := v in
  let '(o, cache, names) := Resolve fed (na_cache a) (seed_lookup net c) clk q mode in
  (match o with Served lr age => inl (lr, age) | LookupFailed => inr LookupFailure | Panicked => inr LookupPanic end,
   (mkAgentNode (na_proxy a) cache ((λ w, foldl (λ w name, NotifyNames [name] w) w names) <$> na_watcher a) (na_federation a), c)).

Definition agent_Resolve (q : Query) (mode : Consistency) (v : View) : (LookupResult * Z + AgentError) * View :=
  resolve_with (na_federation v.1) q mode v.

(** [lookup], of the gRPC surface: the cache, or the seeds; no federation. *)
Definition agent_lookup (q : Query) (v : View) : (LookupResult * Z + AgentError) * View :=
  resolve_with None q ConsistencyDefault v.

(** The agent behind the Consul surface. *)
Definition ProxyRegistry : Registry View AgentError := {|
  r_RegisterServices := agent_RegisterServices;
  r_RemoveService := agent_RemoveService;
  r_Resolve := agent_Resolve;
  r_Hosted v := Hosted (na_proxy v.1);
  r_RenewService id := agent_Renew [id];
  r_FailService := agent_FailService;
  r_SetMaintenance := agent_SetMaintenance;
  r_RegisterExternal := agent_RegisterExternal;
  r_RemoveNode := agent_RemoveNode;
  r_watcher v := na_watcher v.1;
  r_Error := errorText
|}.

(** The unary methods of the gRPC surface; the node a request names is not looked at. *)
Definition done_with (r : option AgentError * View) : (AgentError + Response) * View :=
  (match r.1 with Some e => inl e | None => inr EmptyResponse end, r.2).

Definition agent_handle (req : Request) (v : View) : (AgentError + Response) * View :=
  match req with
  | RegisterRequest r => done_with (agent_RegisterServices (RegistrationFromProto r) v)
  | RenewRequest _ ids => done_with (agent_Renew ids v)
  | DeregisterRequest _ => done_with (agent_Deregister v)
  | DeregisterServiceRequest _ sid => done_with (agent_RemoveService sid v)
  | LookupRequest q =>
      let '(r, v) := agent_lookup (QueryFromProto q) v in
      (match r with
       | inl (lr, _) => inr (LookupResponse (LookupResultToProto lr))
       | inr LookupFailure => inl (ProxyFailed (PxUnavailable "lookup failed on all seeds"))
       | inr e => inl e
       end, v)
  end.

(** ** sdk.go: one call each *)

Definition sdk_call (req : Request) (v : View) : option AgentError * View :=
  let '(r, v) := agent_handle req v in (match r with inl e => Some e | inr _ => None end, v).

Definition sdk_Register (reg : PbRegistration) : View → option AgentError * View := sdk_call (RegisterRequest (Some reg)).

Definition sdk_Renew (nodeID : string) (ids : list string) : View → option AgentError * View :=
  sdk_call (RenewRequest nodeID ids).

Definition sdk_Deregister (nodeID : string) : View → option AgentError * View := sdk_call (DeregisterRequest nodeID).

Definition sdk_DeregisterService (nodeID serviceID : string) : View → option AgentError * View :=
  sdk_call (DeregisterServiceRequest nodeID serviceID).

Definition sdk_Discover (q : PbQuery) (v : View) : (AgentError + list (option PbEntry)) * View :=
  let '(r, v) := agent_handle (LookupRequest (Some q)) v in
  (match r with
   | inl e => inl e
   | inr (LookupResponse p) => inr (pbl_entries p)
   | inr EmptyResponse => inr []
   end, v).

(** ** loops.go: [Deregistrar.Stop]; the result is only logged. *)
Definition Deregistrar_Stop (v : View) : View := (v.1, (SeedClient_Deregister net (agent_id v.1) v.2).2).
End Surface.

(** [measurePropagation]: the polls of the probe, each the time since its start when the
    answer was there, and whether its time is up by then. *)
Fixpoint measurePropagation (nodeID serviceID : string) (appear : bool)
    (polls : list (Z * option LookupResult * bool)) (prop : option Propagation) : option Propagation :=
  match polls with
  | [] => prop
  | (d, r, ended) :: rest =>
      if match r with
         | Some lr => Bool.eqb (contains (Lookup_Entries lr) nodeID serviceID) appear
         | None => false
         end
      then if appear then ObserveRegisterToVisible d prop else ObserveDeregisterToRemoved d prop
      else if ended : bool then prop
      else measurePropagation nodeID serviceID appear rest prop
  end.

(** [remoteIP]: the host of the client's address. *)
Definition remoteIP (remoteAddr : string) : string :=
  match SplitHostPort remoteAddr with Some (host, _) => host | None => remoteAddr end.

(** The handler of the Consul surface around its routes: the request is counted, and
    limited by its client's address. *)
Definition serve_http {A} (mux : A → HttpResponse * A) (now : Z) (remote : string) (l : Limiter)
    (prop : option Propagation) (s : A) : HttpResponse * A * Limiter * option Propagation :=
  let prop := CountRequest "consul_http" prop in
  let '(ok, l) := Allow now (remoteIP remote) l in
  if ok then let '(resp, s) := mux s in (resp, s, l, prop)
  else (http_error 429 "rate limit exceeded", s, l, prop).

(** ** Lemmas *)

#[export] Instance fate_eq_dec : EqDecision fate.
Proof. solve_decision. Defined.

Lemma length_filter_fmap {A B} (f : A → B) (P : B → Prop) `{!∀ x, Decision (P x)} l :
  length (filter P (f <$> l)) = length (filter (λ x, P (f x)) l).
Proof.
  induction l as [|x l IH]; [done|]. rewrite fmap_cons, !filter_cons.
  destruct (decide (P (f x))); simpl; by rewrite IH.
Qed.

(** What seed number [k] answers. *)
Definition seed_turn `{MapRange} (net : Links) (req : Request) (k : nat) (s : string * Memory)
  : string * Memory * option (Code + Response) :=
  let '(m, r) := seed_answer (net k).1 req (net k).2 s.2 in (s.1, m, r).

Lemma seed_results_lookup `{MapRange} net req c k :
  seed_results net req c !! k = seed_turn net req k <$> c !! k.
Proof. apply list_lookup_imap. Qed.

Lemma fan_write_lookup `{MapRange} net req c k :
  (fan_write net req c).2 !! k = (λ s, (s.1, (seed_answer (net k).1 req (net k).2 s.2).1)) <$> c !! k.
Proof.
  unfold fan_write. cbn [snd]. rewrite list_lookup_fmap, seed_results_lookup. destruct (c !! k) as [s|]; [|done].
  simpl. unfold seed_turn. by destruct (seed_answer _ _ _ _).
Qed.

(** The seeds that accepted a write, and those a call reached with its answer. *)
Definition accepts `{MapRange} (net : Links) (req : Request) (c : Cluster) (k : nat) : bool :=
  match c !! k with
  | Some s => match (seed_answer (net k).1 req (net k).2 s.2).2 with Some (inr _) => true | _ => false end
  | None => false
  end.

Definition answering (net : Links) (c : Cluster) : nat :=
  length (filter (λ k, (net k).2 = Answered) (seq 0 (length c))).

Lemma fan_write_ok `{MapRange} net req c q :
  WriteResult_OK (fan_write net req c).1 q = true →
  q <= Z.of_nat (length (filter (λ k, accepts net req c k = true) (seq 0 (length c)))).
Proof.
  unfold WriteResult_OK, fan_write, fanOut. cbn [fst]. set (outs := fmap _ _).
  destruct (fanOut_fold outs (mkWriteResult (Z.of_nat (length outs)) 0 ∅)) as (_ & -> & _). cbn [Succeeded].
  intros Hq%Z.leb_le. etrans; [exact Hq|]. apply Z.eq_le_incl. rewrite Z.add_0_l. f_equal.
  set (out k := match c !! k with
                | Some s => (s.1, write_error (seed_answer (net k).1 req (net k).2 s.2).2)
                | None => (""%string, Some Unavailable)
                end).
  assert (Ho : outs = out <$> seq 0 (length c)).
  { unfold outs, seed_results. rewrite fmap_imap, <-(imap_seq c out 0). apply imap_ext. intros k s Hk.
    unfold out, compose. simpl. rewrite Hk. by destruct (seed_answer _ _ _ _). }
  rewrite Ho, length_filter_fmap. f_equal. apply list_filter_iff. intros k. unfold out, accepts.
  destruct (c !! k) as [s|]; [|done]. simpl. by destruct (seed_answer _ _ _ _).2 as [[|]|].
Qed.

(** *** What writes touch *)

(** Every seed is still there, with every node but [nid] as it was. *)
Definition cluster_only (nid : string) (c c' : Cluster) : Prop :=
  Forall2 (λ s s', s'.1 = s.1 ∧ only_node nid s.2 s'.2) c c'.

Lemma cluster_only_refl nid c : cluster_only nid c c.
Proof. unfold cluster_only. induction c; constructor; [split; [done|by intros ??]|done]. Qed.

Lemma fan_write_only `{MapRange} net req c :
  (writeTarget req).2 = true → cluster_only (writeTarget req).1 c (fan_write net req c).2.
Proof.
  intros Hw. apply Forall2_same_length_lookup_2.
  { unfold fan_write, seed_results. cbn [snd]. by rewrite length_fmap, length_imap. }
  intros k s s' Hs. rewrite fan_write_lookup, Hs. intros [= <-]. split; [done|]. cbn [snd].
  destruct (net k).2; simpl; [done|by apply handle_only|by apply handle_only].
Qed.

Lemma stamped_node p reg r : stamped p reg = Some r → Reg_Node r = px_node p.
Proof. unfold stamped. destruct (stamp_ids _); [|done]. by intros [= <-]. Qed.

(** The proxy's operations never change who the agent is. *)
Lemma RegisterServices_node write reg p : px_node (RegisterServices write reg p).2 = px_node p.
Proof.
  unfold RegisterServices. destruct (_ =? _)%nat; [done|]. destruct (stamped p reg); [|done]. by destruct (negb _).
Qed.

Section OwnNode.
Context `{MapRange} (net : Links) (clk : Clock).

(** The agent is who it was and its seeds lost or gained nothing but its own node. *)
Definition own (v v' : View) : Prop := agent_id v'.1 = agent_id v.1 ∧ cluster_only (agent_id v.1) v.2 v'.2.

Lemma own_refl v : own v v.
Proof. split; [done|apply cluster_only_refl]. Qed.

Lemma agent_RegisterServices_own reg v : own v (agent_RegisterServices net reg v).2.
Proof.
  destruct v as [a c]. unfold agent_RegisterServices.
  pose proof (RegisterServices_node (λ r, (SeedClient_Register net r c).1) reg (na_proxy a)) as Hn.
  destruct (RegisterServices _ _ _) as [err p]. simpl in *. split; [unfold agent_id; simpl; by rewrite Hn|].
  unfold sent_registration. destruct (_ =? _)%nat; [apply cluster_only_refl|].
  destruct (stamped (na_proxy a) reg) as [r|] eqn:E; [|apply cluster_only_refl]. apply stamped_node in E.
  pose proof (fan_write_only net (RegisterRequest (Some (RegistrationToProto r))) c eq_refl) as Hf.
  simpl in Hf |- *. unfold agent_id. simpl. by rewrite <-E.
Qed.

Lemma agent_Renew_own ids v : own v (agent_Renew net ids v).2.
Proof. destruct v as [a c]. split; [done|]. by apply (fan_write_only net (RenewRequest (agent_id a) ids)). Qed.

Lemma agent_RemoveService_own sid v : own v (agent_RemoveService net sid v).2.
Proof.
  destruct v as [a c]. unfold agent_RemoveService, RemoveService.
  case_bool_decide; (split; [done|]); [apply cluster_only_refl|].
  by apply (fan_write_only net (DeregisterServiceRequest (agent_id a) sid)).
Qed.

Lemma agent_Deregister_own v : own v (agent_Deregister net v).2.
Proof. destruct v as [a c]. split; [done|]. by apply (fan_write_only net (DeregisterRequest (agent_id a))). Qed.

Lemma resolve_with_own fed q mode v : own v (resolve_with net clk fed q mode v).2.
Proof.
  destruct v as [a c]. unfold resolve_with. destruct (Resolve _ _ _ _ _ _) as [[o cache] names].
  apply (own_refl (a, c)).
Qed.

Lemma agent_handle_own req v : own v (agent_handle net clk req v).2.
Proof.
  destruct req as [r|nid ids|nid|nid sid|q]; cbn [agent_handle].
  - apply agent_RegisterServices_own.
  - apply agent_Renew_own.
  - apply agent_Deregister_own.
  - apply agent_RemoveService_own.
  - unfold agent_lookup. pose proof (resolve_with_own None (QueryFromProto q) ConsistencyDefault v) as Ho.
    by destruct (resolve_with _ _ _ _ _ _) as [[[]|[]] v'].
Qed.

(** The agent endpoints of the Consul surface. *)
Lemma agent_consul_own errorText dur h w r v :
  match w with CatalogRegister _ | CatalogDeregister _ => False | _ => True end →
  own v (serve_write (ProxyRegistry net clk errorText) dur h w r v).1.2.
Proof.
  intros Hw. destruct w as [body| | | | |]; try done; cbn [serve_write];
    unfold registerService, deregisterService, checkUpdate, serviceMaintenance;
    destruct (authorizeWrite h r); cbn [negb fst snd]; try apply own_refl.
  - destruct body as [i|]; [|apply own_refl]. destruct (bool_decide _); [apply own_refl|].
    cbn [r_RegisterServices ProxyRegistry]. set (reg := mkRegistration _ _ _).
    pose proof (agent_RegisterServices_own reg v) as Ho. by destruct (agent_RegisterServices net reg v) as [[err|] v'].
  - cbn [r_RemoveService ProxyRegistry]. pose proof (agent_RemoveService_own (path_value r "serviceID") v) as Ho.
    by destruct (agent_RemoveService _ _ _) as [[err|] v'].
  - rewrite (proj2 (finish_status _ _)). cbn [r_FailService r_RenewService ProxyRegistry].
    destruct (bool_decide _); [apply own_refl|apply agent_Renew_own].
Qed.
End OwnNode.

(** *** A registration over the wire and its answers *)

(** The registration as a seed receives it: the agent's node, the same services by ID and
    name. *)
Lemma sent_registration_wire p r reg i :
  sent_registration p reg = Some r →
  let got := RegistrationFromProto (Some (RegistrationToProto r)) in
  Reg_Node got = px_node p ∧ Reg_Generation got = Reg_Generation reg ∧
  reg_id <$> Reg_Services got = reg_id <$> Reg_Services reg ∧
  (i ∈ Reg_Services reg → ∃ j, j ∈ Reg_Services got ∧ reg_id j = reg_id i ∧ Svc_Name j = Svc_Name i ∧
     Svc_TTL j = wire_ttl (Svc_TTL i)).
Proof.
  unfold sent_registration. destruct (_ =? _)%nat; [done|]. intros (Hn & Hg & Hs & _)%stamped_ok.
  set (f s := ServiceFromProto (Some (ServiceToProto
                (if bool_decide (Svc_ID s = ""%string) then with_ID (Svc_Name s) s else s)))).
  assert (Hf : ∀ s, reg_id (f s) = reg_id s ∧ Svc_Name (f s) = Svc_Name s).
  { intros s. unfold f, reg_id. simpl. destruct (decide (Svc_ID s = ""%string)) as [He|He].
    - rewrite (bool_decide_eq_true_2 _ He). simpl. split; [|done]. by case_bool_decide.
    - rewrite (bool_decide_eq_false_2 _ He), (bool_decide_eq_false_2 _ He). done. }
  cbn [RegistrationToProto RegistrationFromProto Reg_Node Reg_Services Reg_Generation pbr_node pbr_services pbr_generation].
  rewrite NodeFromProto_ToProto, Hs, <-!list_fmap_compose. split_and!; [done|done| |].
  - apply list_fmap_ext. intros k s _. apply (Hf s).
  - intros Hi. exists (f i). split; [apply list_elem_of_fmap; by exists i|]. split_and!; [apply Hf..|].
    unfold f. rewrite <-wire_ttl_small. simpl. by case_bool_decide.
Qed.

(** The read: the merged answer of the seeds has the answer of each seed that answered. *)
Lemma seed_lookup_covers `{MapRange} net c q k s e :
  c !! k = Some s → (net k).2 = Answered →
  e ∈ Lookup_Entries (Lookup (net k).1 (QueryFromProto (Some (QueryToProto (unfiltered q)))) s.2) →
  ∃ lr x, seed_lookup net c (unfiltered q) = Some lr ∧ x ∈ Lookup_Entries lr ∧ entry_key x = entry_key e ∧
    Svc_Generation (Entry_Service e) <= Svc_Generation (Entry_Service x).
Proof.
  intros Hk Ha He.
  set (pb := Service_Lookup (net k).1 (Some (QueryToProto (unfiltered q))) s.2).
  destruct (SeedClient_Lookup_covers (seed_answers net (unfiltered q) c).*2 pb (EntryFromProto (Some (EntryToProto e))))
    as (lr & x & Hlr & Hx & Hkx & Hgx).
  - unfold seed_answers. rewrite <-list_fmap_compose. apply list_elem_of_fmap.
    eexists. split; [|eapply list_elem_of_lookup_2; rewrite seed_results_lookup, Hk; reflexivity].
    unfold compose, seed_turn. simpl. by rewrite Ha.
  - unfold pb, Service_Lookup. simpl. apply list_elem_of_fmap. exists (Some (EntryToProto e)).
    split; [done|]. apply list_elem_of_fmap. by exists e.
  - exists lr, x. rewrite Hkx, wire_key. rewrite wire_generation in Hgx. done.
Qed.

(** An agent that has nothing cached for the query asks the seeds. *)
Definition uncached (q : Query) (a : AgentNode) : Prop :=
  match na_cache a with Some c => c_entries c !! keyFor q = None | None => True end.

Lemma agent_lookup_fresh `{MapRange} net clk q a c :
  uncached q a →
  ∃ v', agent_lookup net clk q (a, c) =
    (match directLookup (seed_lookup net c) q with
     | Some lr => inl (lr, match na_cache a with Some _ => Time_Sub (clk 2%nat) (clk 1%nat) | None => 0 end)
     | None => inr LookupFailure
     end, v').
Proof.
  unfold uncached, agent_lookup, resolve_with, Resolve, directLookup. simpl.
  destruct (na_cache a) as [ch|]; intros Hc.
  - unfold LookupWithAge. rewrite Hc. unfold fetch. destruct (seed_lookup net c (unfiltered q)) as [lr|]; simpl; eexists; [|done].
    unfold serve. simpl. destruct lr as [es ix]. by destruct (Query_OnlyHealthy q).
  - destruct (seed_lookup net c (unfiltered q)) as [lr|]; simpl; eexists; [|done]. by destruct (Query_OnlyHealthy q).
Qed.

(** What a discovery at such an agent gives. *)
Lemma sdk_Discover_fresh `{MapRange} net clk pq a c :
  uncached (QueryFromProto (Some pq)) a →
  (sdk_Discover net clk pq (a, c)).1 =
    match directLookup (seed_lookup net c) (QueryFromProto (Some pq)) with
    | Some lr => inr ((λ e, Some (EntryToProto e)) <$> Lookup_Entries lr)
    | None => inl (ProxyFailed (PxUnavailable "lookup failed on all seeds"))
    end.
Proof.
  intros [v' Hl]%(agent_lookup_fresh net clk _ _ c). unfold sdk_Discover. cbn [agent_handle]. rewrite Hl.
  by destruct (directLookup _ _).
Qed.

(** What a seed that accepted a registration answers to a read within its leases. *)
Lemma accepted_answers `{MapRange} net clk' r c k s i :
  let reg := RegistrationFromProto (Some r) in
  c !! k = Some s → wf s.2 → accepts net (RegisterRequest (Some r)) c k = true →
  NoDup (reg_id <$> Reg_Services reg) → i ∈ Reg_Services reg →
  Time_Sub (clk' O) ((net k).1 O) <= granted (opts s.2) (Svc_TTL i) →
  ∃ s' e, (fan_write net (RegisterRequest (Some r)) c).2 !! k = Some s' ∧
    e ∈ Lookup_Entries (Lookup clk' (mkQuery (Svc_Name i) "" [] false) s'.2) ∧
    entry_key e = (Node_ID (Reg_Node reg), reg_id i) ∧ Svc_Generation (Entry_Service e) = Reg_Generation reg.
Proof.
  intros reg Hk Hwf Hacc Hnd Hi Hage. rewrite fan_write_lookup, Hk. unfold accepts in Hacc. rewrite Hk in Hacc.
  cbn [fmap option_fmap option_map]. destruct (net k) as [clk f]. cbn [fst snd] in *. destruct f; [done|done|].
  cbn [seed_answer fst snd handle] in *. unfold Service_Register in *. fold reg in Hacc |- *.
  destruct (Register clk reg s.2) as [[err m'] evs] eqn:HR. cbn [fst snd] in *.
  destruct err as [err|]; [done|].
  destruct (Register_entry _ clk' _ _ _ _ _ Hwf Hnd Hage HR Hi) as (e & He & Hke & _ & Hg & _).
  exists (s.1, m'), e. done.
Qed.

(** *** Deregistration *)

Lemma Deregister_nodes `{MapRange} nid m : nodes (Deregister nid m).1.2 !! nid = None.
Proof.
  unfold Deregister. destruct (nodes m !! nid) as [n|] eqn:Hn; [|done].
  destruct (deregister_loop_spec nid (meta n) (range (services n)) m []) as [H1 _ _ _ _ _].
  destruct (deregister_loop _ _ _ _ _) as [m1 evs]. simpl in *. by rewrite lookup_delete_eq.
Qed.

Lemma handle_wf `{MapRange} clk req m : wf m → wf (handle clk req m).1.2.
Proof.
  intros Hwf. pose proof (handle_op clk req m) as Ho. destruct (request_op req) as [op|].
  - apply (f_equal fst) in Ho. simpl in Ho. rewrite Ho. by apply wf_apply.
  - by injection Ho as ->.
Qed.

Lemma fan_write_wf `{MapRange} net req c : Forall (λ s, wf s.2) c → Forall (λ s, wf s.2) (fan_write net req c).2.
Proof.
  rewrite !Forall_lookup. intros Hwf k s. rewrite fan_write_lookup. destruct (c !! k) as [s0|] eqn:Hk; [|done].
  intros [= <-]. specialize (Hwf _ _ Hk). simpl. destruct (net k) as [clk []]; simpl; [done| |]; by apply handle_wf.
Qed.

(** A seed that has no node [nid] answers none of its instances. *)
Lemma no_node_no_answer `{MapRange} clk q m nid e :
  wf m → nodes m !! nid = None → e ∈ Lookup_Entries (Lookup clk q m) → Node_ID (Entry_Node e) ≠ nid.
Proof.
  intros Hwf Hn (nid' & n & id & svc & Hn' & _ & _ & ->)%elem_of_Lookup Hid; [|done].
  simpl in Hid. rewrite (proj1 (wf_node _ Hwf _ _ Hn')) in Hid. congruence.
Qed.

(** The merged answer has only what some seed answered. *)
Lemma seed_lookup_sub `{MapRange} net c q lr x :
  seed_lookup net c (unfiltered q) = Some lr → x ∈ Lookup_Entries lr →
  ∃ k s e, c !! k = Some s ∧ e ∈ Lookup_Entries (Lookup (net k).1 (QueryFromProto (Some (QueryToProto (unfiltered q)))) s.2) ∧
    x = EntryFromProto (Some (EntryToProto e)).
Proof.
  unfold seed_lookup, SeedClient_Lookup. destruct (_ =? 0); [done|]. intros [= <-]. cbn [Lookup_Entries].
  intros [Hx _ _]%elem_of_MergeLWW_winners%winners_lookup.
  apply elem_of_Lookup_acc in Hx as (p & Hp & Hx). unfold seed_answers in Hp.
  rewrite <-list_fmap_compose in Hp. apply list_elem_of_fmap in Hp as (y & Hp & (k & Hk)%list_elem_of_lookup).
  rewrite seed_results_lookup in Hk. destruct (c !! k) as [s|] eqn:Hs; [|done]. injection Hk as <-.
  unfold compose, seed_turn, seed_answer in Hp. exists k, s.
  destruct (net k) as [clk f]. simpl in Hp. destruct f; simpl in Hp; [done|done|]. injection Hp as ->.
  unfold Service_Lookup in Hx. simpl in Hx.
  apply list_elem_of_fmap in Hx as (pe & -> & (e & -> & He)%list_elem_of_fmap). by exists e.
Qed.

(** ** Claims *)

(** C4: register on one agent, discover on another: when an SDK client's registration
    with its agent succeeds, the next discovery of any of the registered services at any
    agent that has not cached it succeeds and lists the instance under the identity of the
    first agent, at the registered generation or a later one, provided the write quorum of
    the one and the seeds that answer the other are together more than the seeds, and each
    seed is asked within the TTL it grants the service (the TTL of the registration in
    whole seconds, under the bounds of the seed's options) after it was written to;
    whatever happened to the other calls. *)
Theorem sdk_register_discover `{MapRange} (netW netR : Links) (clk clk' : Clock) (a b : AgentNode) (c : Cluster)
    (reg : PbRegistration) (i : ServiceInstance) :
  let rg := RegistrationFromProto (Some reg) in
  let pq := mkPbQuery (Svc_Name i) "" [] false in
  let '(err, (_, c')) := sdk_Register netW clk reg (a, c) in
  Forall (λ s, wf s.2) c → uncached (QueryFromProto (Some pq)) b →
  NoDup (reg_id <$> Reg_Services rg) → i ∈ Reg_Services rg →
  (∀ k s, c !! k = Some s →
     Time_Sub ((netR k).1 O) ((netW k).1 O) <= granted (opts s.2) (wire_ttl (Svc_TTL i))) →
  Z.of_nat (length c) < px_quorum (na_proxy a) + Z.of_nat (answering netR c) →
  err = None →
  ∃ es pe, (sdk_Discover netR clk' pq (b, c')).1 = inr es ∧ Some pe ∈ es ∧
    let e := EntryFromProto (Some pe) in
    entry_key e = (agent_id a, reg_id i) ∧ Reg_Generation rg <= Svc_Generation (Entry_Service e).
Proof.
  intros rg pq. unfold sdk_Register, sdk_call. cbn [agent_handle]. fold rg. unfold agent_RegisterServices, RegisterServices.
  unfold sent_registration. destruct (_ =? 0)%nat eqn:Hlen; [by intros|].
  destruct (stamped (na_proxy a) rg) as [r|] eqn:Est; [|by intros].
  destruct (WriteResult_OK (SeedClient_Register netW r c).1 (px_quorum (na_proxy a))) eqn:Hok; [|by intros].
  cbn [negb fmap option_fmap option_map done_with fst snd]. intros Hwf Hb Hnd Hi Hage Hq _.
  assert (Hsent : sent_registration (na_proxy a) rg = Some r) by (unfold sent_registration; by rewrite Hlen).
  destruct (sent_registration_wire _ _ _ i Hsent) as (Hn & Hg & Hids & Hj). destruct (Hj Hi) as (j & Hjin & Hjid & Hjn & Hjt).
  apply fan_write_ok in Hok.
  destruct (counts_meet (λ k, accepts netW (RegisterRequest (Some (RegistrationToProto r))) c k = true)
    (λ k, (netR k).2 = Answered) (seq 0 (length c))) as (k & Hk%elem_of_seq & Hacc & Hans).
  { rewrite length_seq. unfold answering in Hq. lia. }
  destruct (lookup_lt_is_Some_2 c k ltac:(lia)) as [s Hs].
  rewrite Forall_lookup in Hwf. specialize (Hwf _ _ Hs).
  rewrite <-Hids in Hnd.
  destruct (accepted_answers netW (netR k).1 _ c k s j Hs Hwf Hacc Hnd Hjin ltac:(rewrite Hjt; by apply Hage))
    as (s' & e & Hs' & He & Hke & Hge). rewrite Hjn in He.
  destruct (seed_lookup_covers netR _ (QueryFromProto (Some pq)) k s' e Hs' Hans He) as (lr & x & Hlr & Hx & Hkx & Hgx).
  rewrite sdk_Discover_fresh by done. unfold directLookup, SeedClient_Register. cbn [snd]. rewrite Hlr.
  eexists _, (EntryToProto x). split; [reflexivity|].
  split; [apply list_elem_of_fmap; by exists x|]. cbv zeta. rewrite wire_key, wire_generation, Hkx, Hke, Hn, Hjid.
  split; [done|lia].
Qed.

(** Three seeds, an agent with write quorum 2 and nothing cached, and links to the seeds
    that stand still at a time. *)
Definition sampleCluster : Cluster :=
  [("s1:7000"%string, NewMemory sampleOptions); ("s2:7000"%string, NewMemory sampleOptions); ("s3:7000"%string, NewMemory sampleOptions)].

Definition sampleAgent (nid : string) : AgentNode :=
  mkAgentNode (NewProxy (sampleNode nid) 2) (Some (NewCache second)) (Some (Watch.New 0)) None.

Definition sampleLinks (t : Z) (fates : list fate) : Links := λ k, (frozen t, default NotReached (fates !! k)).

Lemma sampleCluster_wf : Forall (λ s, wf s.2) sampleCluster.
Proof. repeat apply List.Forall_cons; try apply wf_new. apply List.Forall_nil. Qed.

Lemma sampleCluster_opts k s : sampleCluster !! k = Some s → s.2 = NewMemory sampleOptions.
Proof. destruct k as [|[|[|]]]; simpl; by intros [= <-]. Qed.

Lemma sdk_register_discover_witness :
  let '(err, (_, c')) := @sdk_Register list_order (sampleLinks 5 [Answered; Answered; AnswerLost]) (frozen 6) sampleRegPb
    (sampleAgent "a1", sampleCluster) in
  ∃ es pe, (@sdk_Discover list_order (sampleLinks (5 + 29 * second) [NotReached; Answered; Answered])
      (frozen (6 + 29 * second)) (mkPbQuery "db" "" [] false) (sampleAgent "b1", c')).1 = inr es ∧ Some pe ∈ es ∧
    entry_key (EntryFromProto (Some pe)) = ("a1", "db-1")%string ∧ 1 <= Svc_Generation (Entry_Service (EntryFromProto (Some pe))).
Proof.
  pose proof (@sdk_register_discover list_order (sampleLinks 5 [Answered; Answered; AnswerLost])
    (sampleLinks (5 + 29 * second) [NotReached; Answered; Answered]) (frozen 6) (frozen (6 + 29 * second)) (sampleAgent "a1") (sampleAgent "b1") sampleCluster
    sampleRegPb (wire_service (sampleService "db-1" "db" []))) as Hc.
  assert (He : (@sdk_Register list_order (sampleLinks 5 [Answered; Answered; AnswerLost]) (frozen 6) sampleRegPb
    (sampleAgent "a1", sampleCluster)).1 = None) by (vm_compute; reflexivity).
  cbv zeta in Hc.
  destruct (sdk_Register _ _ _ _) as [err [a' c']]. simpl in He. subst err.
  apply Hc; [apply sampleCluster_wf|vm_compute; reflexivity|vm_compute; repeat constructor; set_solver|vm_compute; right; left| | |done].
  - intros k s Hs%sampleCluster_opts. rewrite Hs. vm_compute. discriminate.
  - vm_compute. reflexivity.
Defined.

(** C8: an agent writes only its own node: whatever node a request names, no call on the
    agent's gRPC surface, no call on the agent endpoints of its Consul surface, and not its
    shutdown changes any other node on any seed, or who the agent is, whatever becomes of
    the calls to the seeds. *)
Theorem agent_writes_own_node `{MapRange} (net : Links) (clk : Clock) (v : View) :
  (∀ req, own v (agent_handle net clk req v).2) ∧
  (∀ errorText dur h w r, match w with
     | CatalogRegister _ | CatalogDeregister _ => True
     | _ => own v (serve_write (ProxyRegistry net clk errorText) dur h w r v).1.2
     end) ∧
  own v (Deregistrar_Stop net v).
Proof.
  split_and!.
  - intros req. apply agent_handle_own.
  - intros errorText dur h w r. destruct w; try done; by apply agent_consul_own.
  - destruct v as [a c]. split; [done|]. by apply (fan_write_only net (DeregisterRequest (agent_id a))).
Qed.

(** C9: a stopped agent is gone: once the deregistration at an agent's shutdown (or an SDK
    client's deregistration) has reached every seed, whether or not the answers came
    back, no discovery at an agent that has not cached its query lists an instance of the
    stopped agent's node. *)
Theorem stopped_agent_undiscoverable `{MapRange} (netW netR : Links) (clk : Clock) (a b : AgentNode) (c : Cluster)
    (nodeID : string) (pq : PbQuery) :
  Forall (λ s, wf s.2) c → agent_id a ≠ ""%string → uncached (QueryFromProto (Some pq)) b →
  (∀ k, (k < length c)%nat → (netW k).2 ≠ NotReached) →
  (Deregistrar_Stop netW (a, c)).2 = (sdk_Deregister netW clk nodeID (a, c)).2.2 ∧
  match (sdk_Discover netR clk pq (b, (Deregistrar_Stop netW (a, c)).2)).1 with
  | inr es => ∀ pe, Some pe ∈ es → Node_ID (Entry_Node (EntryFromProto (Some pe))) ≠ agent_id a
  | inl e => e = ProxyFailed (PxUnavailable "lookup failed on all seeds")
  end.
Proof.
  intros Hwf Hid Hb Hnet. split; [done|]. rewrite sdk_Discover_fresh by done. unfold directLookup.
  destruct (seed_lookup netR _ (unfiltered _)) as [lr|] eqn:Hlr; [|done]. intros pe Hpe.
  apply list_elem_of_fmap in Hpe as (x & [= ->] & Hx).
  assert (Hxl : x ∈ Lookup_Entries lr).
  { destruct (Query_OnlyHealthy _); [|done]. by apply Filter_spec in Hx as [? _]. }
  destruct (seed_lookup_sub _ _ _ _ _ Hlr Hxl) as (k & s & e & Hs & He & ->).
  unfold Deregistrar_Stop, SeedClient_Deregister in Hs. cbn [snd fst] in Hs. rewrite fan_write_lookup in Hs.
  destruct (c !! k) as [s0|] eqn:Hk; [|done]. injection Hs as <-. cbn [snd] in He.
  rewrite Forall_lookup in Hwf. specialize (Hwf _ _ Hk). specialize (Hnet k (lookup_lt_Some _ _ _ Hk)).
  set (dreq := DeregisterRequest (agent_id a)) in *.
  assert (Hm : (seed_answer (netW k).1 dreq (netW k).2 s0.2).1 = (handle (netW k).1 dreq s0.2).1.2).
  { by destruct (netW k) as [clk' []]. }
  rewrite Hm in He. simpl. eapply no_node_no_answer; [by apply handle_wf, Hwf| |exact He].
  unfold dreq. cbn [handle]. unfold Service_Deregister. rewrite bool_decide_eq_false_2 by done.
  pose proof (Deregister_nodes (agent_id a) s0.2) as Hn. by destruct (Deregister _ _) as [[err m'] evs].
Qed.

(** The three seeds once the agent [a1] has registered. *)
Definition registeredCluster : Cluster :=
  (@SeedClient_Register list_order (sampleLinks 5 [Answered; Answered; Answered])
     (mkRegistration (sampleNode "a1") [sampleService "db-1" "db" []] 1) sampleCluster).2.

Lemma registeredCluster_wf : Forall (λ s, wf s.2) registeredCluster.
Proof. apply fan_write_wf, sampleCluster_wf. Qed.

Definition discover_db (c : Cluster) : AgentError + list (option PbEntry) :=
  (@sdk_Discover list_order (sampleLinks 5 [Answered; Answered; Answered]) (frozen 5) (mkPbQuery "db" "" [] false)
     (sampleAgent "b1", c)).1.

Lemma stopped_agent_undiscoverable_witness :
  (∃ pe, discover_db registeredCluster = inr [Some pe]) ∧
  match discover_db (@Deregistrar_Stop list_order (sampleLinks 5 [Answered; AnswerLost; Answered]) (sampleAgent "a1", registeredCluster)).2 with
  | inr es => ∀ pe, Some pe ∈ es → Node_ID (Entry_Node (EntryFromProto (Some pe))) ≠ "a1"%string
  | inl e => e = ProxyFailed (PxUnavailable "lookup failed on all seeds")
  end.
Proof.
  split; [eexists; vm_compute; reflexivity|].
  apply (@stopped_agent_undiscoverable list_order (sampleLinks 5 [Answered; AnswerLost; Answered])
    (sampleLinks 5 [Answered; Answered; Answered]) (frozen 5) (sampleAgent "a1") (sampleAgent "b1") registeredCluster "x" (mkPbQuery "db" "" [] false)).
  - apply registeredCluster_wf.
  - discriminate.
  - vm_compute. reflexivity.
  - intros [|[|[|k]]] Hk; try discriminate. vm_compute in Hk. lia.
Defined.
