(* ===== verification/Gossip.v ===== *)
(** Anti-entropy among any number of seeds: the pulls of [internal/membership/syncer.go]
    interleaved.

    A pull asks the peers one after the other and merges what came back when all have
    answered or failed; meanwhile other seeds pull too.  A step of the cluster is one
    answer or one merge, so an answer may be stale by the time it is merged.  The
    specification is the knowledge each seed has gathered: the set of seeds whose initial
    contents have reached it, directly or through others. *)

From Stdlib Require Import ZArith Lia.
From stdpp Require Import base gmap list strings sets.
From S2P Require Import Prelude GoStrings Model Health Store StoreSteps StoreInv StoreSpec StoreLookup.
From S2P Require Import StoreOps StoreMerge Watch Protoconv Cred Server SeedClient Membership.

#[local] Open Scope Z_scope.

(** ** The cluster *)

(** A seed with the answers its current pull has collected. *)
Record GSeed := mkGSeed { g_sync : Syncer; g_resps : list (option PbLookupResponse) }.

Definition g_store (g : GSeed) : Memory := sd_store (sy_seed (g_sync g)).

(** Seed [i] asks seed [j], which reads its clock at [clk]; or seed [i] merges. *)
Inductive GAct :=
  | GAsk (i j : nat) (clk : Clock) (f : fate)
  | GMerge (i : nat) (clk : Clock).

Definition ask_answer `{MapRange} (j : nat) (clk : Clock) (f : fate) (c : list GSeed) : option PbLookupResponse :=
  match f, c !! j with
  | Answered, Some g => Some (peer_answer clk (g_store g))
  | _, _ => None
  end.

Definition g_act `{MapRange} (c : list GSeed) (a : GAct) : list GSeed :=
  match a with
  | GAsk i j clk f => alter (λ g, mkGSeed (g_sync g) (g_resps g ++ [ask_answer j clk f c])) i c
  | GMerge i clk => alter (λ g, mkGSeed (syncOnce clk (g_resps g) (g_sync g)) []) i c
  end.

Definition gossip `{MapRange} (c : list GSeed) (acts : list GAct) : list GSeed := foldl g_act c acts.

(** Seeds between pulls. *)
Definition g_start (seeds : list Seed) : list GSeed := (λ s, mkGSeed (Syncer_New s) []) <$> seeds.

(** No lease has run out at a seed when it answers. *)
Fixpoint answers_live `{MapRange} (c : list GSeed) (acts : list GAct) : Prop :=
  match acts with
  | [] => True
  | a :: rest =>
      match a with
      | GAsk _ j clk Answered => ∀ g, c !! j = Some g → all_live (g_store g) (clk O)
      | _ => True
      end ∧ answers_live (g_act c a) rest
  end.

(** ** The specification *)

(** What a seed knows, and what the answers of its current pull tell it. *)
Record Known := mkKnown { k_seed : gset nat; k_pull : gset nat }.

Definition know_act (k : nat → Known) (a : GAct) : nat → Known :=
  match a with
  | GAsk i j _ Answered => λ x, if decide (x = i) then mkKnown (k_seed (k i)) (k_pull (k i) ∪ k_seed (k j)) else k x
  | GAsk _ _ _ _ => k
  | GMerge i _ => λ x, if decide (x = i) then mkKnown (k_seed (k i) ∪ k_pull (k i)) ∅ else k x
  end.

Definition know_start (i : nat) : Known := mkKnown {[ i ]} ∅.

Definition knowledge (acts : list GAct) : nat → Known := foldl know_act know_start acts.

(** The version held under an identity, and the order on versions; no record is below
    every version. *)
Definition version (m : Memory) (k : string * string) : option (Z * Z) :=
  lww_key ∘ def <$> lookup_service m k.1 k.2.

Definition v_le (a b : option (Z * Z)) : Prop :=
  match a, b with
  | None, _ => True
  | Some _, None => False
  | Some x, Some y => ¬ lww_lt y x
  end.

#[export] Instance v_le_po : PartialOrder v_le.
Proof.
  split; [split|].
  - intros [[]|]; simpl; [unfold lww_lt; simpl; lia|done].
  - intros [[]|] [[]|] [[]|]; simpl; try done. unfold lww_lt; simpl; lia.
  - intros [[]|] [[]|]; simpl; try done. unfold lww_lt; simpl. intros. f_equal. f_equal; lia.
Qed.

(** The version a seed held at the start. *)
Definition initial (seeds : list Seed) (j : nat) (k : string * string) : option (Z * Z) :=
  s ← seeds !! j; version (sd_store s) k.

(** [v] is the latest of the initial versions of the seeds in [K]. *)
Definition latest (seeds : list Seed) (K : gset nat) (k : string * string) (v : option (Z * Z)) : Prop :=
  (∀ j, j ∈ K → v_le (initial seeds j k) v) ∧ (v = None ∨ ∃ j, j ∈ K ∧ initial seeds j k = v).

Lemma latest_unique seeds K k v v' : latest seeds K k v → latest seeds K k v' → v = v'.
Proof.
  intros [H1 H2] [H1' H2']. apply (anti_symm v_le).
  - destruct H2 as [->|(j & Hj & <-)]; [done|]. by apply H1'.
  - destruct H2' as [->|(j & Hj & <-)]; [done|]. by apply H1.
Qed.

(** ** Lemmas: versions over the wire and through a merge *)

(** A last-seen instant that survives the wire. *)
Definition seen_ok (t : Z) : Prop := t = zeroTime ∨ (is_i64 t ∧ t ≠ 0).

(** An answer offers a version of an identity. *)
Definition offers_version (es : list ServiceEntry) (k : string * string) (v : Z * Z) : Prop :=
  ∃ e, e ∈ es ∧ entry_key e = k ∧ lww_key (Entry_Service e) = v.

Definition resp_entries (p : PbLookupResponse) : list ServiceEntry := Lookup_Entries (LookupResultFromProto (Some p)).

Lemma wire_version e : seen_ok (Svc_LastSeen (Entry_Service e)) →
  lww_key (Entry_Service (EntryFromProto (Some (EntryToProto e)))) = lww_key (Entry_Service e).
Proof.
  intros Ht. unfold lww_key. f_equal. unfold EntryFromProto, EntryToProto. simpl.
  by apply fromUnixNano_toUnixNano.
Qed.

(** A peer's answer offers exactly the versions it holds. *)
Lemma peer_answer_versions `{MapRange} clk m k v :
  wf m → all_live m (clk O) → (∀ k v, version m k = Some v → seen_ok v.2) →
  offers_version (resp_entries (peer_answer clk m)) k v ↔ version m k = Some v.
Proof.
  intros Hwf Hlive Hseen. unfold offers_version, resp_entries, peer_answer, Service_Lookup. simpl.
  assert (Hstored : ∀ e, e ∈ Lookup_Entries (Lookup clk zeroQuery m) →
    version m (entry_key e) = Some (lww_key (Entry_Service e))).
  { intros e (nid & n & id & svc & Hn & Hs & _ & ->)%elem_of_Lookup; [|done].
    assert (Hl : lookup_service m nid id = Some svc) by (by rewrite (lookup_service_node _ _ _ n)).
    unfold version, entry_key. simpl. rewrite (proj1 (wf_node _ Hwf _ _ Hn)).
    destruct (wf_svc _ Hwf _ _ _ Hl) as [-> _]. by rewrite Hl. }
  split.
  - intros (x & Hx & <- & <-). apply list_elem_of_fmap in Hx as (pe & -> & Hpe).
    apply list_elem_of_fmap in Hpe as (e & -> & He). apply Hstored in He as Hv.
    rewrite wire_key, wire_version by (by apply Hseen in Hv). done.
  - intros Hv. unfold version in Hv. destruct (lookup_service m k.1 k.2) as [svc|] eqn:Hl; [|done].
    injection Hv as <-. pose proof (lookup_service_is_Some _ _ _ _ Hl) as (n & Hn & Hs).
    set (e := entry (meta n) svc (lease m svc (clk O)).1).
    assert (He : e ∈ Lookup_Entries (Lookup clk zeroQuery m)).
    { apply elem_of_Lookup; [done|]. exists k.1, n, k.2, svc. split_and!; [done..| |done].
      split; [by left|by left|set_solver|by eapply Hlive]. }
    exists (EntryFromProto (Some (EntryToProto e))). split; [|split].
    + apply list_elem_of_fmap. exists (Some (EntryToProto e)). split; [done|].
      apply list_elem_of_fmap. by exists e.
    + rewrite wire_key. unfold e, entry_key. simpl. rewrite (proj1 (wf_node _ Hwf _ _ Hn)).
      destruct (wf_svc _ Hwf _ _ _ Hl) as [-> _]. by destruct k.
    + rewrite wire_version; [done|]. apply (Hseen k (lww_key (def svc))). unfold version. by rewrite Hl.
Qed.

(** The merged answers offer the latest version of each identity they offer. *)
Lemma merged_versions `{MapRange} resps lr k :
  SeedClient_Lookup resps = Some lr →
  (∀ p v, Some p ∈ resps → offers_version (resp_entries p) k v →
     ∃ w, offers_version (Lookup_Entries lr) k w ∧ v_le (Some v) (Some w)) ∧
  (∀ w, offers_version (Lookup_Entries lr) k w → ∃ p, Some p ∈ resps ∧ offers_version (resp_entries p) k w).
Proof.
  unfold SeedClient_Lookup. destruct (_ =? 0); [done|]. intros [= <-]. cbn [Lookup_Entries]. split.
  - intros p v Hp (x & Hx & Hk & <-).
    assert (Hall : x ∈ acc_all (Lookup_acc resps)) by (apply elem_of_Lookup_acc; eauto).
    destruct (MergeLWW_covers _ _ Hall) as (w & Hw & Hkw). exists (lww_key (Entry_Service w)).
    split; [exists w; split; [done|]; split; [congruence|done]|].
    apply elem_of_MergeLWW_winners, winners_lookup in Hw as [_ _ Hmax].
    by apply WinsLWW_false, Hmax.
  - intros w (x & Hx & Hk & <-). apply elem_of_MergeLWW_winners, winners_lookup in Hx as [Hx _ _].
    apply elem_of_Lookup_acc in Hx as (p & Hp & Hx). exists p. split; [done|]. by exists x.
Qed.

Lemma merged_none `{MapRange} resps : SeedClient_Lookup resps = None → ∀ p, Some p ∉ resps.
Proof.
  unfold SeedClient_Lookup. destruct (Z.eqb_spec (acc_okCount (Lookup_acc resps)) 0) as [E|]; [|done].
  intros _. by apply Lookup_acc_ok.
Qed.

Lemma join_in cur ds r : foldl lww_join cur ds = Some r → cur = Some r ∨ r ∈ ds.
Proof.
  revert cur. induction ds as [|d ds IH]; intros cur Hr; simpl in Hr; [by left|].
  apply IH in Hr as [Hr|Hr]; [|right; by right]. unfold lww_join in Hr. injection Hr as Hr.
  destruct cur as [c|]; [|right; subst r; constructor].
  destruct (WinsLWW d c); [right; subst r; constructor|left; by subst r].
Qed.

(** A merge takes the latest of the version held and the versions offered. *)
Lemma Merge_version `{MapRange} clk es m k :
  MaxServices (opts m) <= 0 → k.1 ≠ ""%string → k.2 ≠ ""%string →
  let v := version (Merge clk es m).1.2 k in
  v_le (version m k) v ∧ (∀ w, offers_version es k w → v_le (Some w) v) ∧
  (v = version m k ∨ ∃ w, offers_version es k w ∧ v = Some w).
Proof.
  intros Hun Hk1 Hk2. unfold Merge. destruct (merge_loop _ _ _ _ _ _) as [[n m'] evs] eqn:HM. cbv zeta. cbn [fst snd].
  apply merge_loop_join in HM as [_ Hj]; [|done]. specialize (Hj k.1 k.2).
  rewrite <-surjective_pairing in Hj. unfold version. rewrite !option_fmap_compose, Hj.
  set (ds := offers m k es) in *. set (cur := def <$> lookup_service m k.1 k.2).
  assert (Hof : ∀ w, offers_version es k w ↔ ∃ d, d ∈ ds ∧ lww_key d = w).
  { intros w. unfold offers_version, ds, offers. split.
    - intros (e & He & Hke & <-). exists (offered m e). split; [|done]. apply list_elem_of_fmap_2, list_elem_of_filter.
      split; [|done]. split; [|done]. unfold mergeable. by rewrite Hke.
    - intros (d & (e & -> & [[_ Hke] He]%list_elem_of_filter)%list_elem_of_fmap & <-). by exists e. }
  setoid_rewrite Hof. destruct (foldl lww_join cur ds) as [r|] eqn:Er.
  - apply join_ge in Er as Hge. apply join_in in Er as Hin. destruct Hge as [Hge1 Hge2]. simpl. split_and!.
    + destruct cur as [c|]; [|done]. simpl. by apply WinsLWW_false, Hge2.
    + intros w (d & Hd & <-). by apply WinsLWW_false, Hge1.
    + destruct Hin as [->|Hin]; [by left|right; eauto].
  - destruct ds as [|d ds']; [|by apply join_cons_Some in Er]. simpl in Er. rewrite Er. split_and!; [done| |by left].
    intros w (d & Hd & _). by apply elem_of_nil in Hd.
Qed.

(** ** Lemmas: the simulation *)

(** A seed before the gossip: without a cap, its last-seen instants fit the wire. *)
Record seed_ok (s : Seed) : Prop := {
  so_wf : wf (sd_store s);
  so_uncapped : MaxServices (opts (sd_store s)) <= 0;
  so_seen : ∀ k v, version (sd_store s) k = Some v → seen_ok v.2
}.

Definition act_in (n : nat) (a : GAct) : Prop :=
  match a with GAsk i j _ _ => (i < n)%nat ∧ (j < n)%nat | GMerge i _ => (i < n)%nat end.

Section Simulation.
Context `{MapRange} (seeds : list Seed) (Hok : Forall seed_ok seeds).

(** What the answers [resps] carry, against the seeds they come from. *)
Record carries (K : gset nat) (resps : list (option PbLookupResponse)) : Prop := {
  cr_all : ∀ j k v, j ∈ K → initial seeds j k = Some v →
    ∃ p v', Some p ∈ resps ∧ offers_version (resp_entries p) k v' ∧ v_le (Some v) (Some v');
  cr_only : ∀ p k v, Some p ∈ resps → offers_version (resp_entries p) k v →
    ∃ j, j ∈ K ∧ initial seeds j k = Some v
}.

Record seed_inv (kn : Known) (g : GSeed) : Prop := {
  gi_wf : wf (g_store g);
  gi_uncapped : MaxServices (opts (g_store g)) <= 0;
  gi_latest : ∀ k, latest seeds (k_seed kn) k (version (g_store g) k);
  gi_pull : carries (k_pull kn) (g_resps g)
}.

Definition gossip_inv (c : list GSeed) (kn : nat → Known) : Prop :=
  length c = length seeds ∧ ∀ i g, c !! i = Some g → seed_inv (kn i) g.

Lemma initial_ok j k v :
  initial seeds j k = Some v → k.1 ≠ ""%string ∧ k.2 ≠ ""%string ∧ seen_ok v.2.
Proof.
  unfold initial. destruct (seeds !! j) as [s|] eqn:Hs; [|done]. cbn [mbind option_bind].
  pose proof Hok as Hall. rewrite Forall_lookup in Hall. destruct (Hall _ _ Hs) as [Hwf _ Hseen]. intros Hv.
  split_and!; [| |by eapply Hseen]; unfold version in Hv;
    (destruct (lookup_service (sd_store s) k.1 k.2) as [svc|] eqn:Hl; [|done]).
  - pose proof (lookup_service_is_Some _ _ _ _ Hl) as (n & Hn & _). by destruct (wf_node _ Hwf _ _ Hn).
  - by destruct (wf_svc _ Hwf _ _ _ Hl) as (_ & ? & _).
Qed.

Lemma latest_some K k v : latest seeds K k (Some v) → ∃ j, j ∈ K ∧ initial seeds j k = Some v.
Proof. intros [_ [|?]]; [done|done]. Qed.

Lemma carries_nil : carries ∅ [].
Proof. clear Hok. split; [set_solver|]. intros p k v Hp. by apply elem_of_nil in Hp. Qed.

(** A failed call carries nothing. *)
Lemma carries_failed K resps : carries K resps → carries K (resps ++ [None]).
Proof.
  intros [H1 H2]. split.
  - intros j k v Hj Hv. destruct (H1 j k v Hj Hv) as (p & v' & Hp & Hof). exists p, v'.
    split; [apply elem_of_app; by left|done].
  - intros p k v [Hp|Hp%list_elem_of_singleton]%elem_of_app Hof; [|done]. by eapply H2.
Qed.

(** An answer carries what its seed knows. *)
Lemma carries_answer K resps kn g clk :
  carries K resps → seed_inv kn g → all_live (g_store g) (clk O) →
  carries (K ∪ k_seed kn) (resps ++ [Some (peer_answer clk (g_store g))]).
Proof.
  intros [H1 H2] [Hwf _ Hlat _] Hlive.
  assert (Hp : ∀ k v, offers_version (resp_entries (peer_answer clk (g_store g))) k v ↔ version (g_store g) k = Some v).
  { intros k v. apply peer_answer_versions; [done|done|]. intros k' v' Hv. pose proof (Hlat k') as Hl. rewrite Hv in Hl.
    apply latest_some in Hl as (j & _ & Hj). by apply initial_ok in Hj as (_ & _ & ?). }
  split.
  - intros j k v [Hj|Hj]%elem_of_union Hv.
    + destruct (H1 j k v Hj Hv) as (p & v' & Hin & Hof). exists p, v'. split; [apply elem_of_app; by left|done].
    + pose proof (proj1 (Hlat k) j Hj) as Hle. rewrite Hv in Hle.
      destruct (version (g_store g) k) as [v'|] eqn:Ev; [|done]. eexists _, v'. split; [|split; [by apply Hp|done]].
      apply elem_of_app. right. by apply list_elem_of_singleton.
  - intros p k v [Hin|Hin%list_elem_of_singleton]%elem_of_app Hof.
    + destruct (H2 p k v Hin Hof) as (j & Hj & Hv). exists j. split; [set_solver|done].
    + injection Hin as ->. apply Hp in Hof. pose proof (Hlat k) as Hl. rewrite Hof in Hl.
      apply latest_some in Hl as (j & Hj & Hv). exists j. split; [set_solver|done].
Qed.

(** A merge of answers takes the latest of both. *)
Lemma latest_union K K' k v v' w :
  latest seeds K k v → v_le v w →
  (∀ j, j ∈ K' → v_le (initial seeds j k) w) →
  (w = v ∨ ∃ u, w = Some u ∧ ∃ j, j ∈ K' ∧ initial seeds j k = Some u) → v' = w →
  latest seeds (K ∪ K') k v'.
Proof.
  intros [H1 H2] Hle Hub Hin ->. split.
  - intros j [Hj|Hj]%elem_of_union; [|by apply Hub]. etrans; [by apply H1|done].
  - destruct Hin as [->|(u & -> & j & Hj & Hv)].
    + destruct H2 as [->|(j & Hj & Hv)]; [by left|right]. exists j. split; [set_solver|done].
    + right. exists j. split; [set_solver|done].
Qed.

Lemma seed_inv_merge kn g clk :
  seed_inv kn g → seed_inv (mkKnown (k_seed kn ∪ k_pull kn) ∅) (mkGSeed (syncOnce clk (g_resps g) (g_sync g)) []).
Proof.
  intros [Hwf Hun Hlat [Hall Honly]]. unfold g_store in *.
  assert (Hst : wf (sd_store (sy_seed (syncOnce clk (g_resps g) (g_sync g)))) ∧
    MaxServices (opts (sd_store (sy_seed (syncOnce clk (g_resps g) (g_sync g))))) <= 0).
  { rewrite syncOnce_store. destruct (SeedClient_Lookup _) as [lr|]; [|done].
    split; [by apply wf_Merge|by rewrite Merge_uncapped]. }
  destruct Hst as [Hwf' Hun']. split; [exact Hwf'|exact Hun'| |exact carries_nil].
  intros k. cbn [g_store g_sync k_seed].
  destruct (decide (k.1 = ""%string ∨ k.2 = ""%string)) as [Hempty|Hne].
  { assert (Hnone : ∀ j, initial seeds j k = None).
    { intros j. destruct (initial seeds j k) as [v|] eqn:E; [|done]. apply initial_ok in E as (? & ? & _). tauto. }
    split; [intros j _; by rewrite Hnone|left]. unfold version, g_store. cbn [g_sync].
    destruct (lookup_service _ k.1 k.2) as [svc|] eqn:Hl; [|done].
    pose proof (lookup_service_is_Some _ _ _ _ Hl) as (n & Hn & _).
    destruct (wf_node _ Hwf' _ _ Hn), (wf_svc _ Hwf' _ _ _ Hl) as (_ & ? & _). tauto. }
  unfold g_store. cbn [g_sync]. rewrite syncOnce_store. destruct (SeedClient_Lookup (g_resps g)) as [lr|] eqn:Elr.
  - destruct (merged_versions _ _ k Elr) as [Hm1 Hm2].
    destruct (Merge_version clk (Lookup_Entries lr) (sd_store (sy_seed (g_sync g))) k) as (Hge & Hoff & Hin); [done|tauto|tauto|].
    eapply latest_union; [apply Hlat|exact Hge| | |reflexivity].
    + intros j Hj. destruct (initial seeds j k) as [v|] eqn:Ev; [|done].
      destruct (Hall j k v Hj Ev) as (p & v' & Hp & Hof & Hle). destruct (Hm1 p v' Hp Hof) as (w & Hw & Hle').
      etrans; [exact Hle|]. etrans; [exact Hle'|]. by apply Hoff.
    + destruct Hin as [->|(w & Hw & ->)]; [by left|right]. exists w. split; [done|].
      apply Hm2 in Hw as (p & Hp & Hof). by eapply Honly.
  - eapply latest_union; [apply Hlat|reflexivity| |by left|reflexivity].
    intros j Hj. destruct (initial seeds j k) as [v|] eqn:Ev; [|done].
    destruct (Hall j k v Hj Ev) as (p & v' & Hp & _). by apply merged_none with (p := p) in Elr.
Qed.

Lemma gossip_inv_start : gossip_inv (g_start seeds) know_start.
Proof.
  split; [apply length_fmap|]. intros i g Hg. unfold g_start in Hg. rewrite list_lookup_fmap in Hg.
  destruct (seeds !! i) as [s|] eqn:Hs; [|done]. injection Hg as <-.
  pose proof Hok as Hall. rewrite Forall_lookup in Hall. destruct (Hall _ _ Hs) as [Hwf Hun Hseen].
  split; [done|done| |exact carries_nil]. intros k. cbn [know_start k_seed]. unfold g_store. simpl. split.
  - intros j ->%elem_of_singleton. unfold initial. by rewrite Hs.
  - right. exists i. split; [set_solver|]. unfold initial. by rewrite Hs.
Qed.

Lemma gossip_inv_act c kn a rest :
  gossip_inv c kn → act_in (length seeds) a → answers_live c (a :: rest) → gossip_inv (g_act c a) (know_act kn a).
Proof.
  intros [Hlen Hinv] Hin [Hlive _]. destruct a as [i j clk f|i clk]; cbn [g_act know_act].
  - split; [by rewrite length_alter|]. intros x g Hx.
    assert (Hfail : f ≠ Answered → seed_inv (kn x) g).
    { intros Hf. assert (Ha : ask_answer j clk f c = None) by (by destruct f). rewrite Ha in Hx.
      rewrite list_lookup_alter in Hx. case_decide as Hix; [|by apply Hinv]. subst x.
      destruct (c !! i) as [g0|] eqn:Hg0; [|done]. injection Hx as <-.
      destruct (Hinv _ _ Hg0) as [H1 H2 H3 H4]. split; [done|done|done|]. by apply carries_failed. }
    destruct f; try by apply Hfail.
    destruct Hin as [_ Hj]. destruct (lookup_lt_is_Some_2 c j) as [gj Hgj]; [by rewrite Hlen|].
    rewrite list_lookup_alter in Hx. unfold ask_answer in Hx. rewrite Hgj in Hx.
    destruct (decide (i = x)) as [<-|Hne]; [|rewrite decide_False by done; by apply Hinv].
    rewrite decide_True by done. destruct (c !! i) as [g0|] eqn:Hg0; [|done]. injection Hx as <-.
    destruct (Hinv _ _ Hg0) as [H1 H2 H3 H4]. split; [done|done|done|].
    apply carries_answer; [done|by apply Hinv|by apply Hlive].
  - split; [by rewrite length_alter|]. intros x g Hx. rewrite list_lookup_alter in Hx.
    destruct (decide (i = x)) as [<-|Hne]; [|rewrite decide_False by done; by apply Hinv].
    rewrite decide_True by done. destruct (c !! i) as [g0|] eqn:Hg0; [|done]. injection Hx as <-.
    by apply seed_inv_merge, Hinv.
Qed.

Lemma gossip_inv_acts acts c kn :
  gossip_inv c kn → Forall (act_in (length seeds)) acts → answers_live c acts →
  gossip_inv (gossip c acts) (foldl know_act kn acts).
Proof.
  revert c kn. induction acts as [|a acts IH]; intros c kn Hinv Hin Hl; [done|].
  apply Forall_cons in Hin as [Ha Hin]. apply (IH (g_act c a)); [|done|apply Hl]. by eapply gossip_inv_act.
Qed.
End Simulation.

(** A check of [answers_live] by evaluation. *)
Fixpoint answers_live_b `{MapRange} (c : list GSeed) (acts : list GAct) : bool :=
  match acts with
  | [] => true
  | a :: rest =>
      match a with
      | GAsk _ j clk Answered =>
          match c !! j with
          | Some g => forallb (λ p, forallb (λ s, negb (lease (g_store g) s.2 (clk O)).2) (map_to_list (services p.2)))
                        (map_to_list (nodes (g_store g)))
          | None => true
          end
      | _ => true
      end && answers_live_b (g_act c a) rest
  end.

Lemma answers_live_check `{MapRange} acts c : answers_live_b c acts = true → answers_live c acts.
Proof.
  revert c. induction acts as [|a acts IH]; intros c; [done|]. cbn [answers_live_b answers_live].
  intros [Ha Hr]%andb_true_iff. split; [|by apply IH]. destruct a as [i j clk []|]; try done.
  intros g Hg. rewrite Hg in Ha. by apply all_live_check.
Qed.

(** ** Claims *)

(** C5: anti-entropy converges, in any number of seeds and however their pulls interleave
    and fail: as long as no lease runs out, each seed holds under every identity exactly
    the latest of the versions that the seeds it has heard of, directly or through
    others, held at the start; so two seeds that have heard of the same seeds hold the
    same identities at the same versions, and one that has heard of all lacks nothing. *)
Theorem gossip_converges `{MapRange} (seeds : list Seed) (acts : list GAct) :
  Forall seed_ok seeds → Forall (act_in (length seeds)) acts → answers_live (g_start seeds) acts →
  let c := gossip (g_start seeds) acts in
  let heard i := k_seed (knowledge acts i) in
  (∀ i g k, c !! i = Some g → latest seeds (heard i) k (version (g_store g) k)) ∧
  (∀ i j g g' k, c !! i = Some g → c !! j = Some g' → heard i = heard j →
     version (g_store g) k = version (g_store g') k).
Proof.
  intros Hok Hin Hlive c heard.
  destruct (gossip_inv_acts seeds Hok acts (g_start seeds) know_start) as [_ Hinv];
    [by apply gossip_inv_start|done|done|]. split.
  - intros i g k Hg. by apply (gi_latest _ _ _ (Hinv i g Hg)).
  - intros i j g g' k Hg Hg' Hh. eapply latest_unique; [apply (gi_latest _ _ _ (Hinv i g Hg))|].
    pose proof (gi_latest _ _ _ (Hinv j g' Hg') k) as Hl. by unfold heard, knowledge in Hh; rewrite <-Hh in Hl.
Qed.

(** Three seeds with different versions of one instance, the third with another besides,
    that pull around a ring; one call fails, and seed 2 merges an answer given before
    the pull of seed 0 ended. *)
Definition sampleSeeds : list Seed :=
  (λ es, (@seed_merge list_order (frozen (1000 * second)) es (NewSeed uncappedOptions)).2) <$>
    [[sample "n" "a" "10.0.0.1" 1 (1000 * second)]; [sample "n" "a" "10.0.0.2" 2 (1000 * second)];
     [sample "m" "b" "10.0.0.3" 1 (999 * second)]].

Definition sampleActs : list GAct :=
  let t := frozen (1001 * second) in
  [GAsk 0 1 t Answered; GAsk 2 0 t Answered; GMerge 0 t; GAsk 1 2 t NotReached; GMerge 1 t; GMerge 2 t;
   GAsk 1 2 t Answered; GAsk 1 0 t Answered; GMerge 1 t; GAsk 0 1 t Answered; GAsk 2 1 t Answered; GMerge 0 t; GMerge 2 t].

Lemma seed_merge_ok clk es :
  Forall (λ e, seen_ok (Svc_LastSeen (Entry_Service e))) es →
  seed_ok (@seed_merge list_order clk es (NewSeed uncappedOptions)).2.
Proof.
  intros Hes. split.
  - rewrite (proj1 (seed_merge_store _ _ _)). apply wf_Merge, wf_new.
  - rewrite (proj1 (seed_merge_store _ _ _)), Merge_uncapped; done.
  - intros k v. rewrite (proj1 (seed_merge_store _ _ _)).
    destruct (decide (k.1 = ""%string ∨ k.2 = ""%string)) as [Hempty|Hne].
    { unfold version. set (m := (Merge _ _ _).1.2). assert (Hwf : wf m) by apply wf_Merge, wf_new.
      destruct (lookup_service m k.1 k.2) as [svc|] eqn:Hl; [|done].
      pose proof (lookup_service_is_Some _ _ _ _ Hl) as (n & Hn & _).
      destruct (wf_node _ Hwf _ _ Hn), (wf_svc _ Hwf _ _ _ Hl) as (_ & ? & _). tauto. }
    destruct (@Merge_version list_order clk es (NewMemory uncappedOptions) k) as (_ & _ & Hin); [done|tauto|tauto|].
    intros Hv. simpl sd_store in Hv. rewrite Hv in Hin. destruct Hin as [Hn|(w & (e & He & _ & Hw) & [= ->])].
    + unfold version, lookup_service in Hn. simpl in Hn. by rewrite lookup_empty in Hn.
    + rewrite Forall_forall in Hes. specialize (Hes e He). by rewrite <-Hw.
Qed.

Lemma sampleSeeds_ok : Forall seed_ok sampleSeeds.
Proof.
  apply Forall_fmap. assert (Hs : ∀ n i a g t, is_i64 t → t ≠ 0 →
    seed_ok (@seed_merge list_order (frozen (1000 * second)) [sample n i a g t] (NewSeed uncappedOptions)).2).
  { intros n i a g t Ht Hz. apply seed_merge_ok. apply Forall_singleton. by right. }
  repeat apply List.Forall_cons; try apply List.Forall_nil; apply Hs; vm_compute; done.
Qed.

Lemma sampleActs_live : @answers_live list_order (g_start sampleSeeds) sampleActs.
Proof. apply answers_live_check. vm_compute. reflexivity. Qed.

Lemma gossip_converges_witness :
  let c := @gossip list_order (g_start sampleSeeds) sampleActs in
  k_seed (knowledge sampleActs 0) = k_seed (knowledge sampleActs 1) ∧
  k_seed (knowledge sampleActs 1) = k_seed (knowledge sampleActs 2) ∧
  ∃ g0 g2, c !! 0%nat = Some g0 ∧ c !! 2%nat = Some g2 ∧
    (∀ k, version (g_store g0) k = version (g_store g2) k) ∧
    version (g_store g2) ("n", "a")%string = Some (2, 1000 * second) ∧
    is_Some (version (g_store g0) ("m", "b")%string).
Proof.
  intros c. split; [vm_compute; reflexivity|]. split; [vm_compute; reflexivity|].
  destruct (c !! 0%nat) as [g0|] eqn:E0; [|vm_compute in E0; discriminate].
  destruct (c !! 2%nat) as [g2|] eqn:E2; [|vm_compute in E2; discriminate].
  destruct (@gossip_converges list_order sampleSeeds sampleActs sampleSeeds_ok) as [_ Hc];
    [repeat constructor; vm_compute; lia|exact sampleActs_live|].
  exists g0, g2. split; [done|]. split; [done|]. split.
  - intros k. apply (Hc 0%nat 2%nat); [exact E0|exact E2|vm_compute; reflexivity].
  - vm_compute in E0, E2. injection E0 as <-. injection E2 as <-. split; [vm_compute; reflexivity|].
    vm_compute. eexists. reflexivity.
Defined.
