(* ===== verification/Heartbeat.v ===== *)
(** The life of one instance under heartbeats: what every operation of the registry does
    to it in turn, over any run of operations on a seed.

    The agents' renew loops ([internal/seedclient/loops.go]), the reaper
    ([internal/store/gcloop.go]), the anti-entropy pulls and the writes of other clients
    reach a seed as a sequence of operations, each with its own clock readings.  A beat is
    a renewal that reaches the instance. *)

From Stdlib Require Import ZArith Lia.
From stdpp Require Import base gmap list strings.
From S2P Require Import Prelude GoStrings Model Health Store StoreSteps StoreInv StoreSpec StoreLookup.
From S2P Require Import StoreOps StoreGC StoreMerge Server Gossip.

#[local] Open Scope Z_scope.

(** A run of operations on one registry. *)
Definition run_ops `{MapRange} (ops : list (Clock * Op)) (m : Memory) : Memory :=
  foldl (λ m x, (apply x.1 x.2 m).1) m ops.

#[export] Instance valid_registration_dec reg : Decision (valid_registration reg).
Proof.
  refine (cast_if (decide (Node_ID (Reg_Node reg) ≠ ""%string ∧
    Forall (λ i, Svc_Name i ≠ ""%string) (Reg_Services reg)))); unfold valid_registration; by rewrite <-Forall_forall.
Defined.

(** ** The instance *)

Section Instance.
Context `{MapRange} (nid id : string).

(** A renewal that reaches the instance: of the whole node, or with the instance among
    the IDs before the first unknown one. *)
Definition beat (m : Memory) (op : Op) : bool :=
  match op with
  | OpRenew n ids => bool_decide (n = nid) && (bool_decide (ids = []) || bool_decide (id ∈ found_ids m nid ids))
  | _ => false
  end.

(** Operations that are not about the instance: no registration, removal or failed check
    of it, and no newer generation or other definition of it pulled from a peer. *)
Definition spares (d : ServiceInstance) (m : Memory) (op : Op) : Prop :=
  match op with
  | OpRegister reg => Node_ID (Reg_Node reg) ≠ nid ∨ id ∉ reg_id <$> Reg_Services reg
  | OpDeregister n => n ≠ nid
  | OpDeregisterService n s | OpFail n s => (n, s) ≠ (nid, id)
  | OpMerge es => ∀ e, e ∈ es → entry_key e = (nid, id) →
      Svc_Name (Entry_Service e) = Svc_Name d ∧ Svc_Generation (Entry_Service e) = Svc_Generation d ∧
      Svc_TTL (offered m e) = Svc_TTL d
  | OpRenew _ _ | OpSetMaintenance _ _ _ | OpGC => True
  end.

(** The instance is stored with the name, generation and TTL of [d], was last seen at
    [last] or later, and no check of it has failed. *)
Record held (d : ServiceInstance) (last : Z) (m : Memory) (svc : service) : Prop := {
  hd_lookup : lookup_service m nid id = Some svc;
  hd_name : Svc_Name (def svc) = Svc_Name d;
  hd_generation : Svc_Generation (def svc) = Svc_Generation d;
  hd_ttl : Svc_TTL (def svc) = Svc_TTL d;
  hd_failed : failed svc = false;
  hd_seen : last <= Svc_LastSeen (def svc)
}.

Lemma held_lease d last m svc now :
  held d last m svc → Time_Sub now last <= Svc_TTL d → lease m svc now = (HealthPassing, false).
Proof.
  intros [_ _ _ Httl Hf Hseen] Hage. unfold lease. rewrite Hf, Httl.
  assert (Hle : Time_Sub now (Svc_LastSeen (def svc)) <= Svc_TTL d).
  { etrans; [|exact Hage]. unfold Time_Sub. lia. }
  by apply Z.leb_le in Hle as ->.
Qed.

(** The record is as it was, up to its announced state and flags of no concern here. *)
Lemma held_same d last m m' svc :
  held d last m svc → lookup_service m' nid id = lookup_service m nid id → ∃ svc', held d last m' svc'.
Proof. intros [H1 H2 H3 H4 H5 H6] E. exists svc. split; [by rewrite E|done..]. Qed.

Lemma held_only_node d last n m m' svc :
  held d last m svc → only_node n m m' → n ≠ nid → ∃ svc', held d last m' svc'.
Proof.
  intros Hh Ho Hne. eapply held_same; [exact Hh|]. unfold lookup_service. by rewrite Ho by congruence.
Qed.

Lemma held_registered d last mt gen now ins m err m' svc :
  registered mt gen now ins m err m' → Node_ID mt ≠ nid ∨ id ∉ reg_id <$> ins →
  held d last m svc → ∃ svc', held d last m' svc'.
Proof.
  intros Hr Hne Hh. eapply held_same; [exact Hh|]. apply (rg_frame _ _ _ _ _ _ _ Hr).
  destruct Hne; [left; congruence|by right].
Qed.

(** A merge keeps the record or replaces it by a later version of the same definition. *)
Lemma held_merge d last clk es m size applied events svc :
  held d last m svc → spares d m (OpMerge es) →
  ∃ svc', held d last (merge_loop clk es m size applied events).1.2 svc'.
Proof.
  revert m size applied events svc. induction es as [|e es IH]; intros m size applied events svc Hh Hsp; [eauto|].
  destruct (merge_loop_cons clk e es m size applied events)
    as (m1 & size1 & applied1 & events1 & -> & [Hop _ (new & Hnew & Hl) _]).
  assert (∃ svc1, held d last m1 svc1) as (svc1 & Hh1).
  { specialize (Hl nid id). destruct (decide (entry_key e = (nid, id))) as [Hk|]; [|by eapply held_same].
    rewrite Hk in Hnew. cbn [fst snd] in Hnew. rewrite (hd_lookup _ _ _ _ Hh) in Hnew.
    assert (new = Some svc → ∃ svc1, held d last m1 svc1) as Hkeep
      by (intros ->; eapply held_same; [exact Hh|by rewrite Hl, (hd_lookup _ _ _ _ Hh)]).
    destruct (decide (mergeable e)); [|auto]. simpl in Hnew. destruct (WinsLWW _ _) eqn:Hw; [|auto].
    destruct Hnew as [idx ->]. destruct Hh as [_ H2 H3 H4 H5 H6]. destruct (Hsp e) as (E1 & E2 & E3); [constructor|done|].
    apply WinsLWW_lt in Hw. unfold lww_lt, lww_key in Hw. cbn [fst snd] in Hw.
    change (Svc_Generation (offered m e)) with (Svc_Generation (Entry_Service e)) in Hw.
    eexists. split; [exact Hl|cbn [def with_modifyIndex with_def failed]; try done..]. lia. }
  eapply IH; [exact Hh1|]. intros x Hx Hk. destruct (Hsp x) as (E1 & E2 & E3); [by constructor|done|].
  split_and!; [done..|]. by rewrite (offered_opts m1 m).
Qed.

Lemma held_replaced d last nid' id' m m' svc svc' :
  held d last m svc → replaced nid' id' svc' m m' →
  ((nid', id') = (nid, id) → def svc' = def svc ∧ failed svc' = failed svc) → ∃ svc', held d last m' svc'.
Proof.
  intros Hh (_ & _ & _ & Hl) He. specialize (Hl nid id). case_decide as Hk; [|by eapply held_same].
  destruct (He Hk) as [E1 E2], Hh as [_ H2 H3 H4 H5 H6].
  eexists. split; [exact Hl|cbn [def with_modifyIndex failed]; rewrite ?E1, ?E2; done..].
Qed.

Lemma held_gc d last now m m' k svc :
  held d last m svc → gc_result now m m' k → Time_Sub now last <= Svc_TTL d → ∃ svc', held d last m' svc'.
Proof.
  intros Hh Hr Hage. pose proof (gr_some _ _ _ _ Hr _ _ _ (hd_lookup _ _ _ _ Hh)) as Ha.
  unfold gc_after in Ha. rewrite (held_lease _ _ _ _ _ Hh Hage) in Ha. cbn [fst snd] in Ha.
  destruct Hh as [H1 H2 H3 H4 H5 H6].
  case_bool_decide; [exists svc; by split|]. destruct Ha as [idx Ha]. eexists. split; [exact Ha|done..].
Qed.

(** A renewal: the lease restarts at [now] when it is a beat, and is untouched otherwise. *)
Lemma renewed_lookup clk n ids m :
  lookup_service (Renew clk n ids m).2 nid id =
    (if beat m (OpRenew n ids) then renewed (clk O) else Datatypes.id) <$> lookup_service m nid id.
Proof.
  unfold Renew, beat. destruct (nodes m !! n) as [x|] eqn:Hn.
  - destruct ids as [|i ids].
    + cbv zeta. cbn [snd]. rewrite (renew_all_spec _ _ _ _ Hn). rewrite (bool_decide_eq_true_2 (@nil string = [])) by done.
      case_bool_decide; case_decide; simplify_eq; simpl; try done. by rewrite option_fmap_id.
    + destruct (renew_loop_spec (clk O) n (i :: ids) m) as [[-> _ _ _] _].
      rewrite (bool_decide_eq_false_2 (i :: ids = [])) by done. cbn [orb].
      repeat case_bool_decide; case_decide; simpl; try naive_solver; by rewrite option_fmap_id.
  - simpl. case_bool_decide as E; cbn [andb]; [|by rewrite option_fmap_id]. subst n.
    unfold lookup_service. by rewrite Hn.
Qed.

(** ** One operation *)

(** Every operation that is not about the instance keeps it; a beat moves its lease. *)
Lemma held_apply d last clk op m svc :
  wf m → held d last m svc → spares d m op → (op = OpGC → Time_Sub (clk O) last <= Svc_TTL d) →
  ∃ svc', held d (if beat m op then clk O else last) (apply clk op m).1 svc'.
Proof.
  intros Hwf Hh Hsp Hgc. destruct op as [reg|n ids|n|n s|n s b|n s| |es]; cbn [apply beat].
  - destruct (Register clk reg m) as [[err m'] evs] eqn:E. simpl.
    destruct (Register_correct clk reg m) as [Hbad Hgood]. destruct (decide (valid_registration reg)) as [Hv|Hv].
    + eapply held_registered; [by eapply Register_spec|done|exact Hh].
    + rewrite (Hbad Hv) in E. injection E as _ <- _. eauto.
  - fold (beat m (OpRenew n ids)). pose proof (renewed_lookup clk n ids m) as Hl.
    rewrite (hd_lookup _ _ _ _ Hh) in Hl. destruct Hh as [H1 H2 H3 H4 H5 H6].
    destruct (beat m (OpRenew n ids)); eexists; (split; [exact Hl|done..]).
  - destruct (Deregister n m) as [[err m'] evs] eqn:E. simpl. eapply held_only_node; [exact Hh| |exact Hsp].
    pose proof (Deregister_only n m) as Ho. by rewrite E in Ho.
  - unfold DeregisterService. destruct (nodes m !! n) as [x|] eqn:Hn; [|eauto].
    destruct (services x !! s) as [y|] eqn:Hs; [|eauto].
    destruct (remove_service_wf m n x s y Hwf Hn Hs) as (_ & _ & Hl).
    destruct (remove_service n s y m) as [y' m1]. simpl in *. eapply held_same; [exact Hh|].
    rewrite Hl. by rewrite decide_False.
  - pose proof (SetMaintenance_correct clk n s b m) as Hm. destruct (lookup_service m n s) as [y|] eqn:Hl; [|rewrite Hm; eauto].
    case_bool_decide; [rewrite Hm; eauto|]. destruct Hm as (m' & ev & Hr & -> & _). simpl.
    eapply held_replaced; [exact Hh|exact Hr|]. intros [= -> ->].
    rewrite (hd_lookup _ _ _ _ Hh) in Hl. by injection Hl as <-.
  - destruct (Fail_correct clk n s m) as [Hf _]. destruct (lookup_service m n s) as [y|]; [|rewrite Hf; eauto].
    destruct (failed y); [rewrite Hf; eauto|]. destruct Hf as (m' & x & _ & Hr & ->). simpl.
    eapply held_replaced; [exact Hh|exact Hr|]. intros Hk. by destruct Hsp.
  - destruct (GC clk m) as [[k m'] evs] eqn:E. simpl. apply GC_spec in E. eapply held_gc; eauto.
  - pose proof (held_merge d last clk es m (sizeLocked m) 0 [] svc Hh Hsp) as Hm. unfold Merge.
    by destruct (merge_loop _ _ _ _ _ _) as [[k m'] evs].
Qed.

(** ** Runs *)

(** The instant of the last beat of a run, [last] before it. *)
Fixpoint last_beat (ops : list (Clock * Op)) (m : Memory) (last : Z) : Z :=
  match ops with
  | [] => last
  | (clk, op) :: rest => last_beat rest (apply clk op m).1 (if beat m op then clk O else last)
  end.

(** No operation of the run is about the instance, and the reaper never passes later than
    a TTL after the last beat. *)
Fixpoint timely (d : ServiceInstance) (last : Z) (ops : list (Clock * Op)) (m : Memory) : Prop :=
  match ops with
  | [] => True
  | (clk, op) :: rest =>
      spares d m op ∧ (op = OpGC → Time_Sub (clk O) last <= Svc_TTL d) ∧
      timely d (if beat m op then clk O else last) rest (apply clk op m).1
  end.

Lemma held_run d last ops m svc :
  wf m → held d last m svc → timely d last ops m →
  ∃ svc', held d (last_beat ops m last) (run_ops ops m) svc' ∧ wf (run_ops ops m).
Proof.
  revert last m svc. induction ops as [|[clk op] ops IH]; intros last m svc Hwf Hh Ht; [by exists svc|].
  destruct Ht as (Hsp & Hgc & Ht). destruct (held_apply d last clk op m svc Hwf Hh Hsp Hgc) as [svc1 Hh1].
  by eapply IH; [apply wf_apply|..].
Qed.

(** An instance seen within its TTL is answered as passing. *)
Lemma held_passing d last m svc (clk : Clock) healthy :
  wf m → held d last m svc → Time_Sub (clk O) last <= Svc_TTL d →
  ∃ e, e ∈ Lookup_Entries (Lookup clk (mkQuery (Svc_Name d) "" [] healthy) m) ∧
    entry_key e = (nid, id) ∧ Entry_Health e = HealthPassing ∧
    Svc_Generation (Entry_Service e) = Svc_Generation d.
Proof.
  intros Hwf Hh Hage. pose proof (held_lease _ _ _ _ _ Hh Hage) as Hl. destruct Hh as [H1 H2 H3 H4 _ _].
  pose proof (lookup_service_is_Some _ _ _ _ H1) as (n & Hn & Hs).
  exists (entry (meta n) svc HealthPassing). split_and!; [|unfold entry_key; simpl|done|done].
  - apply elem_of_Lookup; [done|]. exists nid, n, id, svc. rewrite Hl. split_and!; [done..| |done].
    split; [by right|by left|simpl; set_solver|by rewrite Hl].
  - destruct (wf_svc _ Hwf _ _ _ H1) as [-> _]. by rewrite (proj1 (wf_node _ Hwf _ _ Hn)).
Qed.

(** Silence: nothing renews the instance, writes it or offers it, and no check of it fails. *)
Definition hushed (m : Memory) (op : Op) : Prop :=
  match op with
  | OpRegister reg => Node_ID (Reg_Node reg) ≠ nid ∨ id ∉ reg_id <$> Reg_Services reg
  | OpRenew _ _ => beat m op = false
  | OpFail n s => (n, s) ≠ (nid, id)
  | OpMerge es => ∀ e, e ∈ es → entry_key e ≠ (nid, id)
  | OpDeregister _ | OpDeregisterService _ _ | OpSetMaintenance _ _ _ | OpGC => True
  end.

Fixpoint silent (ops : list (Clock * Op)) (m : Memory) : Prop :=
  match ops with
  | [] => True
  | (clk, op) :: rest => hushed m op ∧ silent rest (apply clk op m).1
  end.

(** The instance is gone, or stored with the definition it had and no failed check. *)
Definition fading (d : ServiceInstance) (m : Memory) : Prop :=
  ∀ svc, lookup_service m nid id = Some svc → def svc = d ∧ failed svc = false.

Lemma fading_same d m m' :
  fading d m → lookup_service m' nid id = None ∨ lookup_service m' nid id = lookup_service m nid id → fading d m'.
Proof. intros Hf [E|E] svc Hl; rewrite E in Hl; [done|by apply Hf]. Qed.

Lemma register_frame clk reg m :
  Node_ID (Reg_Node reg) ≠ nid ∨ id ∉ reg_id <$> Reg_Services reg →
  lookup_service (apply clk (OpRegister reg) m).1 nid id = lookup_service m nid id.
Proof.
  intros Hne. cbn [apply]. destruct (Register clk reg m) as [[err m'] evs] eqn:E. cbn [fst].
  destruct (decide (valid_registration reg)) as [Hv|Hv].
  - apply Register_spec in E; [|done]. apply (rg_frame _ _ _ _ _ _ _ E). destruct Hne; [left; congruence|by right].
  - rewrite (proj1 (Register_correct clk reg m) Hv) in E. by injection E as _ <- _.
Qed.

Lemma merge_frame clk es m size applied events :
  (∀ e, e ∈ es → entry_key e ≠ (nid, id)) →
  lookup_service (merge_loop clk es m size applied events).1.2 nid id = lookup_service m nid id.
Proof.
  revert m size applied events. induction es as [|e es IH]; intros m size applied events Hne; [done|].
  destruct (merge_loop_cons clk e es m size applied events)
    as (m1 & size1 & applied1 & events1 & -> & [_ _ (new & _ & Hl) _]).
  rewrite IH by (intros; apply Hne; by constructor). rewrite Hl, decide_False; [done|]. apply Hne. constructor.
Qed.

Lemma fading_replaced d nid' id' m m' svc svc' :
  fading d m → lookup_service m nid' id' = Some svc → replaced nid' id' svc' m m' →
  ((nid', id') = (nid, id) → def svc' = def svc ∧ failed svc' = failed svc) → fading d m'.
Proof.
  intros Hf Hs (_ & _ & _ & Hl) He x. rewrite Hl. case_decide as Hk; [|apply Hf].
  injection Hk as -> ->. intros [= <-]. destruct (He eq_refl) as [E1 E2]. cbn [def with_modifyIndex failed].
  rewrite E1, E2. by apply Hf.
Qed.

Lemma fading_gc d now m m' k : fading d m → gc_result now m m' k → fading d m'.
Proof.
  intros Hf [_ _ _ Hnone Hsome _] x Hx. destruct (lookup_service m nid id) as [y|] eqn:Hy.
  - specialize (Hsome _ _ _ Hy). rewrite Hx in Hsome. unfold gc_after in Hsome. destruct (Hf _ Hy) as [E1 E2].
    destruct (lease m y now).2; [done|]. case_bool_decide; [|destruct Hsome as [idx Hsome]]; by injection Hsome as ->.
  - by rewrite (Hnone _ _ Hy) in Hx.
Qed.

Lemma Deregister_gone n m : lookup_service (Deregister n m).1.2 n id = None.
Proof.
  unfold Deregister. destruct (nodes m !! n) as [x|] eqn:Hn; [|cbn [fst snd]; unfold lookup_service; by rewrite Hn].
  destruct (deregister_loop _ _ _ _ _) as [m1 evs]. unfold lookup_service. simpl. by rewrite lookup_delete_eq.
Qed.

Lemma fading_apply d clk op m : wf m → fading d m → hushed m op → fading d (apply clk op m).1.
Proof.
  intros Hwf Hf Hh. destruct op as [reg|n ids|n|n s|n s b|n s| |es]; cbn [hushed] in Hh.
  - eapply fading_same; [exact Hf|right]. by apply register_frame.
  - eapply fading_same; [exact Hf|right]. cbn [apply fst]. rewrite renewed_lookup, Hh. apply option_fmap_id.
  - eapply fading_same; [exact Hf|]. pose proof (Deregister_only n m) as Ho. pose proof (Deregister_gone n m) as Hg.
    cbn [apply]. destruct (Deregister n m) as [[err m'] evs]. cbn [fst snd] in *.
    destruct (decide (n = nid)) as [->|]; [by left|right]. unfold lookup_service. by rewrite Ho by congruence.
  - cbn [apply]. unfold DeregisterService. destruct (nodes m !! n) as [x|] eqn:Hn; [|done].
    destruct (services x !! s) as [y|] eqn:Hs; [|done].
    destruct (remove_service_wf m n x s y Hwf Hn Hs) as (_ & _ & Hl).
    destruct (remove_service n s y m) as [y' m1]. cbn [fst snd] in *. eapply fading_same; [exact Hf|].
    rewrite Hl. case_decide; [by left|by right].
  - pose proof (SetMaintenance_correct clk n s b m) as Hm. cbn [apply].
    destruct (lookup_service m n s) as [y|] eqn:Hl; [|by rewrite Hm].
    case_bool_decide; [by rewrite Hm|]. destruct Hm as (m' & ev & Hr & -> & _). cbn [fst].
    by eapply fading_replaced.
  - destruct (Fail_correct clk n s m) as [Hm _]. cbn [apply]. destruct (lookup_service m n s) as [y|] eqn:Hl; [|by rewrite Hm].
    destruct (failed y); [by rewrite Hm|]. destruct Hm as (m' & x & _ & Hr & ->). cbn [fst].
    by eapply fading_replaced.
  - cbn [apply]. destruct (GC clk m) as [[k m'] evs] eqn:E. apply GC_spec in E. by eapply fading_gc.
  - eapply fading_same; [exact Hf|right]. cbn [apply]. rewrite <-(merge_frame clk es m (sizeLocked m) 0 [] Hh).
    unfold Merge. by destruct (merge_loop _ _ _ _ _ _) as [[k m'] evs].
Qed.

Lemma apply_opts clk op m : opts (apply clk op m).1 = opts m.
Proof. eapply prims_opts, apply_prims. Qed.

Lemma fading_run d ops m :
  wf m → fading d m → silent ops m →
  wf (run_ops ops m) ∧ fading d (run_ops ops m) ∧ opts (run_ops ops m) = opts m.
Proof.
  revert m. induction ops as [|[clk op] ops IH]; intros m Hwf Hf Hs; [done|]. destruct Hs as [Hh Hs].
  destruct (IH (apply clk op m).1) as (H1 & H2 & H3); [by apply wf_apply|by apply fading_apply|done|].
  split_and!; [done..|]. unfold run_ops in *. simpl in *. by rewrite H3, apply_opts.
Qed.
End Instance.

(** ** A concrete run (used by the witnesses) *)

Definition sampleBeats : list (Clock * Op) :=
  [(frozen (1020 * second), OpRenew "n1" []);
   (frozen (1030 * second), OpRegister (mkRegistration (sampleNode "n2") [sampleService "" "web" []] 1));
   (frozen (1031 * second), OpFail "n1" "db-1");
   (frozen (1045 * second), OpRenew "n1" ["web"; "gone"]%string);
   (frozen (1070 * second), OpGC)].

Definition sampleSilence : list (Clock * Op) :=
  [(frozen (1020 * second), OpRenew "n1" ["db-1"]%string);
   (frozen (1035 * second), OpGC);
   (frozen (1080 * second), OpRenew "n1" ["gone"; "web"]%string)].

Definition sampleHeld : ServiceInstance :=
  mkService "web" "web" "10.0.0.1" 8080 ["v1"%string] ∅ DefaultWeights (30 * second) (1000 * second) 1.

(** ** Claims *)

(** C10: an instance under heartbeats stays discoverable.  Whatever a seed is asked to do
    in between, with any clock readings and map iteration orders (registrations and
    removals of other instances, maintenance switches, failed checks of others, pulls of
    its own definition from peers, passes of the reaper), as long as no operation is about
    the instance itself and each reaper pass and the lookup come at most a TTL after the
    last renewal that reached it, it is stored, its lease is passing, and a lookup of its
    name answers it as passing. *)
Theorem heartbeat_keeps_alive `{MapRange} (nid id : string) (d : ServiceInstance) (last : Z)
    (ops : list (Clock * Op)) (m : Memory) (svc : service) (clk : Clock) (healthy : bool) :
  wf m → held nid id d last m svc → timely nid id d last ops m →
  Time_Sub (clk O) (last_beat nid id ops m last) <= Svc_TTL d →
  ∃ e, e ∈ Lookup_Entries (Lookup clk (mkQuery (Svc_Name d) "" [] healthy) (run_ops ops m)) ∧
    entry_key e = (nid, id) ∧ Entry_Health e = HealthPassing ∧
    Svc_Generation (Entry_Service e) = Svc_Generation d.
Proof.
  intros Hwf Hh Ht Hage. destruct (held_run nid id d last ops m svc Hwf Hh Ht) as (svc' & Hh' & Hwf').
  by eapply held_passing.
Qed.

Lemma heartbeat_keeps_alive_witness :
  ∃ e, e ∈ Lookup_Entries (@Lookup list_order (frozen (1074 * second)) (mkQuery "web" "" [] true)
             (@run_ops list_order sampleBeats sampleRun.1)) ∧
    entry_key e = ("n1"%string, "web"%string) ∧ Entry_Health e = HealthPassing ∧ Svc_Generation (Entry_Service e) = 1.
Proof.
  apply (@heartbeat_keeps_alive list_order "n1" "web" sampleHeld (1000 * second) sampleBeats sampleRun.1
           (mkSvc sampleHeld false false HealthPassing 101 101) (frozen (1074 * second)) true).
  - apply (wf_reachable sampleOptions _ sampleRun.2), sampleRun_reachable.
  - split; vm_compute; congruence.
  - vm_compute. split_and!; first [exact I|done|by left|discriminate|by intros _|by intros ?].
  - vm_compute. discriminate.
Defined.

(** C11: an instance that falls silent is evicted.  When over a run of operations nothing
    renews, registers or offers the instance and no check of it fails, then at any instant
    past its TTL and grace period after its last renewal no lookup answers it, whether or
    not the reaper ran, and a pass of the reaper leaves no record of it. *)
Theorem silence_evicts `{MapRange} (nid id : string) (ops : list (Clock * Op)) (m : Memory) (svc : service)
    (clk : Clock) (q : Query) :
  wf m → lookup_service m nid id = Some svc → failed svc = false → silent nid id ops m →
  Svc_TTL (def svc) < Time_Sub (clk O) (Svc_LastSeen (def svc)) →
  i64 (Svc_TTL (def svc) + GracePeriod (opts m)) < Time_Sub (clk O) (Svc_LastSeen (def svc)) →
  (nid, id) ∉ entry_key <$> Lookup_Entries (Lookup clk q (run_ops ops m)) ∧
  lookup_service (run_ops (ops ++ [(clk, OpGC)]) m) nid id = None.
Proof.
  intros Hwf Hl Hf Hs Ht Hg.
  destruct (fading_run nid id (def svc) ops m Hwf) as (Hwf' & Hfa & Hop); [|done|].
  { intros x Hx. rewrite Hl in Hx. by injection Hx as <-. }
  assert (Hex : ∀ x, lookup_service (run_ops ops m) nid id = Some x → (lease (run_ops ops m) x (clk O)).2 = true).
  { intros x [E1 E2]%Hfa. unfold lease. rewrite E2, E1, Hop. cbv zeta.
    apply Z.leb_gt in Ht as ->. by apply Z.leb_gt in Hg as ->. }
  split.
  - intros (e & Hk & He)%list_elem_of_fmap. apply elem_of_Lookup in He as (i & n & j & x & Hn & Hx & Ha & ->); [|done].
    assert (Hlx : lookup_service (run_ops ops m) i j = Some x) by (by rewrite (lookup_service_node _ _ _ n)).
    unfold entry_key in Hk; simpl in Hk. rewrite (proj1 (wf_node _ Hwf' _ _ Hn)) in Hk.
    destruct (wf_svc _ Hwf' _ _ _ Hlx) as [E _]. rewrite E in Hk. injection Hk as -> ->.
    apply ans_live in Ha. by rewrite Hex in Ha.
  - unfold run_ops in *. rewrite foldl_app. simpl.
    destruct (GC clk _) as [[k m'] evs] eqn:E. apply GC_spec in E as [_ _ _ Hnone Hsome _]. simpl.
    destruct (lookup_service (foldl _ m ops) nid id) as [x|] eqn:Hx; [|by apply Hnone].
    specialize (Hsome _ _ _ Hx). unfold gc_after in Hsome. by rewrite (Hex x eq_refl) in Hsome.
Qed.

Lemma silence_evicts_witness :
  ("n1"%string, "web"%string) ∉
    entry_key <$> Lookup_Entries (@Lookup list_order (frozen (1091 * second)) zeroQuery (@run_ops list_order sampleSilence sampleRun.1)) ∧
  lookup_service (@run_ops list_order (sampleSilence ++ [(frozen (1091 * second), OpGC)]) sampleRun.1) "n1" "web" = None.
Proof.
  apply (@silence_evicts list_order "n1" "web" sampleSilence sampleRun.1 (mkSvc sampleHeld false false HealthPassing 101 101)
           (frozen (1091 * second)) zeroQuery).
  - apply (wf_reachable sampleOptions _ sampleRun.2), sampleRun_reachable.
  - vm_compute. reflexivity.
  - reflexivity.
  - split_and!; vm_compute; done.
  - vm_compute. reflexivity.
  - vm_compute. reflexivity.
Defined.
