(* ===== verification/Loops.v ===== *)
(** The periodic components: one machine for every [Start] that waits on its context and a
    ticker.

    The renew loop and readiness probe ([internal/seedclient/loops.go]), the cache refresh
    ([internal/seedclient/cache.go]), the index flusher ([internal/watch/persist.go]), the
    reaper ([internal/store/gcloop.go]), the anti-entropy loop
    ([internal/membership/syncer.go]) and the check loops
    ([internal/healthcheck/monitor.go]) share one shape: an optional first run of the body,
    a ticker, and a [select] between the end of the context and a tick.  The ticker is that
    of [FakeClock], on a clock other components use too; what a body does is the operation
    of its own component. *)

From Stdlib Require Import ZArith Lia Sorting.Sorted.
From stdpp Require Import base gmap list strings relations sorting.
From S2P Require Import Prelude GoStrings Model Health Store StoreSteps StoreInv StoreSpec StoreLookup StoreOps.
From S2P Require Import Watch Cred Server SeedClient Proxy Consul Monitor FakeClock Config Bootstrap CredFiles Root Observability Heartbeat.

#[local] Open Scope Z_scope.

(** ** The loops *)

(** A [Start]: waiting for the end of its context only, or a ticker loop, with a run of the
    body before the ticker or not. *)
Inductive LoopSpec := IdleLoop | TickLoop (first : bool) (interval : Z).

Definition RenewLoop_Start (interval : Z) : LoopSpec := TickLoop false interval.

Definition ReadinessProbe_Start (interval : Z) : LoopSpec := TickLoop true interval.

Definition RefreshLoop_Start (interval : Z) : LoopSpec := TickLoop false interval.

Definition Flusher_Start (dataDir : string) (interval : Z) : LoopSpec :=
  if bool_decide (dataDir = ""%string) then IdleLoop
  else TickLoop false (if interval <=? 0 then 10 * second else interval).

Definition GCLoop_Start (interval : Z) : LoopSpec := TickLoop false (NewGCLoop interval).

(** The first run is the join snapshot. *)
Definition Syncer_loop (interval : Z) : LoopSpec :=
  TickLoop true (if interval <=? 0 then 30 * second else interval).

Definition Monitor_loop (defs : list CheckDefinition) : LoopSpec := TickLoop false (minInterval defs).

Definition Deregistrar_Start : LoopSpec := IdleLoop.

Definition Monitor_Start : LoopSpec := IdleLoop.

Definition Pool_Start : LoopSpec := IdleLoop.

(** The loop of a component of a built node. *)
Definition loop_of (c : Comp) : option LoopSpec :=
  match c with
  | GCLoop i => Some (GCLoop_Start i)
  | MembershipSyncer _ _ i => Some (Syncer_loop i)
  | ReadinessProbe _ _ i => Some (ReadinessProbe_Start i)
  | RenewLoop i => Some (RenewLoop_Start i)
  | RefreshLoop i => Some (RefreshLoop_Start i)
  | IndexFlusher dir i => Some (Flusher_Start dir i)
  | Deregistrar _ _ => Some Deregistrar_Start
  | CheckMonitor _ => Some Monitor_Start
  | FederationPool _ => Some Pool_Start
  | _ => None
  end.

(** ** The machine *)

(** Where a loop is; [tk] is its ticker.  [NewTicker] panics on a non-positive interval. *)
Inductive LoopPC :=
  | TEntry | TFirst | TArm | TSelect (tk : nat) | TBody (tk : nat) | TIdle | TReturned (tk : option nat) | TPanicked.

(** The clock, whether the context has ended, the instant the ticker was made, and the
    ticks received. *)
Record TLoop := mkTLoop { t_pc : LoopPC; t_clock : Fake; t_done : bool; t_armed : Z; t_ticks : list Z }.

Definition with_pc (pc : LoopPC) (s : TLoop) : TLoop := mkTLoop pc (t_clock s) (t_done s) (t_armed s) (t_ticks s).

Definition with_clock (f : Fake) (s : TLoop) : TLoop := mkTLoop (t_pc s) f (t_done s) (t_armed s) (t_ticks s).

Definition loop_start (f : Fake) (done : bool) : TLoop := mkTLoop TEntry f done 0 [].

Definition enter (spec : LoopSpec) : LoopPC :=
  match spec with IdleLoop => TIdle | TickLoop true _ => TFirst | TickLoop false _ => TArm end.

(** The ticker of the loop. *)
Definition arm (i : Z) (s : TLoop) : TLoop :=
  match NewTicker i (t_clock s) with
  | Some (tk, f) => mkTLoop (TSelect tk) f (t_done s) (f_now (t_clock s)) (t_ticks s)
  | None => with_pc TPanicked s
  end.

(** A step of the loop.  When the context has ended and a tick is ready too, the [select]
    takes either. *)
Inductive own_step (spec : LoopSpec) : TLoop → TLoop → Prop :=
  | own_enter s : t_pc s = TEntry → own_step spec s (with_pc (enter spec) s)
  | own_first s : t_pc s = TFirst → own_step spec s (with_pc TArm s)
  | own_arm s first i : t_pc s = TArm → spec = TickLoop first i → own_step spec s (arm i s)
  | own_tick s tk t f : t_pc s = TSelect tk → recv tk (t_clock s) = Some (t, f) →
      own_step spec s (mkTLoop (TBody tk) f (t_done s) (t_armed s) (t_ticks s ++ [t]))
  | own_body s tk : t_pc s = TBody tk → own_step spec s (with_pc (TSelect tk) s)
  | own_return s tk : t_pc s = TSelect tk → t_done s = true →
      own_step spec s (with_pc (TReturned (Some tk)) (with_clock (Ticker_Stop tk (t_clock s)) s))
  | own_idle s : t_pc s = TIdle → t_done s = true → own_step spec s (with_pc (TReturned None) s).

(** The ticker a loop owns. *)
Definition ticker_of (pc : LoopPC) : option nat :=
  match pc with TSelect tk | TBody tk => Some tk | TReturned tk => tk | _ => None end.

(** A step of the world around it: time passes, the context ends, and the other users of
    the clock make and use their own timers and tickers. *)
Inductive env_step (s : TLoop) : TLoop → Prop :=
  | env_advance d : 0 <= d → env_step s (with_clock (Advance d (t_clock s)) s)
  | env_cancel : env_step s (mkTLoop (t_pc s) (t_clock s) true (t_armed s) (t_ticks s))
  | env_other f : clock_step (t_clock s) f → f_now f = f_now (t_clock s) →
      (∀ tk, ticker_of (t_pc s) = Some tk →
         f_heap f !! tk = f_heap (t_clock s) !! tk ∧ (tk ∈ f_waiters (t_clock s) → tk ∈ f_waiters f)) →
      env_step s (with_clock f s).

Inductive loop_reachable (spec : LoopSpec) : TLoop → Prop :=
  | loop_init t f done : clock_reachable t f → loop_reachable spec (loop_start f done)
  | loop_own s s' : loop_reachable spec s → own_step spec s s' → loop_reachable spec s'
  | loop_env s s' : loop_reachable spec s → env_step s s' → loop_reachable spec s'.

(** Waiting for a tick that has not come. *)
Definition waiting (s : TLoop) : Prop :=
  ∃ tk w, t_pc s = TSelect tk ∧ f_heap (t_clock s) !! tk = Some w ∧ w_ch w = None.

(** ** Lemmas: the pace of a ticker *)

(** [l] are deadlines of a ticker of period [p] made at [a]: distinct multiples of the
    period, in order, none later than [now]. *)
Definition paced (p a now : Z) (l : list Z) : Prop :=
  a <= now ∧ ∃ js, l = (λ j, a + p * j) <$> js ∧ StronglySorted Z.lt js ∧ ∀ j, j ∈ js → 1 <= j ∧ a + p * j <= now.

Lemma paced_later p a now now' l : paced p a now l → now <= now' → paced p a now' l.
Proof.
  intros (Ha & js & -> & Hs & Hb) Hle. split; [lia|]. exists js. split_and!; [done..|].
  intros j Hj. specialize (Hb j Hj). lia.
Qed.

Lemma paced_prefix p a now l x : paced p a now (l ++ x) → paced p a now l.
Proof.
  intros (Ha & js & E & Hs & Hb). split; [done|]. symmetry in E; apply fmap_app_inv in E as (js1 & js2 & -> & -> & ->).
  exists js1. split_and!; [done|by apply (StronglySorted_app_1_l _ js1 js2) in Hs|]. intros j Hj. apply Hb. set_solver.
Qed.

Lemma paced_snoc p a now l k :
  0 < p → paced p a now l → now < a + p * k → 1 <= k → paced p a (a + p * k) (l ++ [a + p * k]).
Proof.
  intros Hp (Ha & js & -> & Hs & Hb) Hk H1. split; [lia|]. exists (js ++ [k]). rewrite fmap_app. split_and!; [done| |].
  - apply StronglySorted_app. split_and!; [|done|by repeat constructor].
    intros x y Hx ->%list_elem_of_singleton. specialize (Hb x Hx). nia.
  - intros j [Hj| ->%list_elem_of_singleton]%elem_of_app; [|lia]. specialize (Hb j Hj). lia.
Qed.

Lemma sorted_length lo hi js :
  StronglySorted Z.lt js → (∀ j, j ∈ js → lo < j <= hi) → lo <= hi → Z.of_nat (length js) <= hi - lo.
Proof.
  intros Hs. revert lo. induction Hs as [|j js _ IH Hall]; intros lo Hb Hle; simpl; [lia|].
  pose proof (Hb j ltac:(left)). specialize (IH j). rewrite Forall_forall in Hall.
  assert (Z.of_nat (length js) <= hi - j); [|lia]. apply IH; [|lia].
  intros x Hx. split; [by apply Hall|]. apply Hb. by right.
Qed.

(** At most one tick per period. *)
Lemma paced_length p a now l : 0 < p → paced p a now l → Z.of_nat (length l) * p <= now - a.
Proof.
  intros Hp (Ha & js & -> & Hs & Hb). rewrite length_fmap.
  assert (Hl : Z.of_nat (length js) <= (now - a) / p - 0).
  { apply sorted_length; [done| |apply Z.div_pos; lia]. intros j Hj. specialize (Hb j Hj).
    split; [lia|]. apply Z.div_le_lower_bound; lia. }
  pose proof (Z.mul_div_le (now - a) p Hp). nia.
Qed.

(** The ticker [tk] of period [p], made at [a], running on the clock [f], with the ticks
    received so far. *)
Record ticking (p a : Z) (ticks : list Z) (tk : nat) (f : Fake) (w : FakeClock.waiter) : Prop := {
  tg_waiter : f_heap f !! tk = Some w;
  tg_queued : tk ∈ f_waiters f;
  tg_period : w_period w = p;
  tg_stopped : w_stopped w = false;
  tg_until : f_now f < w_until w <= f_now f + p;
  tg_grid : ∃ k, 1 <= k ∧ w_until w = a + p * k;
  tg_paced : paced p a (f_now f) (ticks ++ option_list (w_ch w))
}.

Lemma ticking_advance p a ticks tk f w d :
  0 < p → clock_wf f → 0 <= d → ticking p a ticks tk f w →
  ∃ w', ticking p a ticks tk (Advance d f) w' ∧
    (w_until w <= f_now f + d → w_ch w' = send (w_ch w) (w_until w)) ∧
    (f_now f + d < w_until w → w' = w).
Proof.
  intros Hp Hwf Hd [H1 H2 H3 H4 H5 (k & Hk1 & Hk) H7].
  destruct (Advance_queued d f tk w Hwf H2 H1) as [Hh Hq]. destruct (Advance_spec d f Hwf) as (_ & _ & Hn & _).
  rewrite fire_spec, H4, H3 in Hh, Hq by lia. destruct (Z.ltb_spec 0 p); [|lia]. cbn [fst snd] in Hh, Hq.
  exists (ticked (f_now f + d) w). destruct (ticked_fields (f_now f + d) w) as [E1 E2].
  split; [|unfold ticked; split; intros; (destruct (Z.ltb_spec (f_now f + d) (w_until w)); (lia || done))].
  split; [done|by apply Hq|congruence|congruence|..]; rewrite ?Hn; unfold ticked;
    destruct (Z.ltb_spec (f_now f + d) (w_until w)) as [Hlt|Hge]; cbn [w_until w_ch].
  - lia.
  - rewrite H3. pose proof (Z.mul_div_le (f_now f + d - w_until w) p Hp).
    pose proof (Z.mul_succ_div_gt (f_now f + d - w_until w) p Hp). lia.
  - by exists k.
  - rewrite H3. exists (k + ((f_now f + d - w_until w) / p + 1)).
    pose proof (Z.div_pos (f_now f + d - w_until w) p). split; [lia|]. rewrite Hk. lia.
  - eapply paced_later; [exact H7|lia].
  - destruct (w_ch w) as [t|]; cbn [send option_list] in *; [eapply paced_later; [exact H7|lia]|].
    rewrite app_nil_r in H7. rewrite Hk in *. eapply paced_later; [apply (paced_snoc _ _ (f_now f)); (done || lia)|lia].
Qed.

Lemma ticking_recv p a ticks tk f w t f' :
  ticking p a ticks tk f w → recv tk f = Some (t, f') →
  ticking p a (ticks ++ [t]) tk f' (mkWaiter (w_until w) (w_period w) None (w_stopped w)).
Proof.
  intros [H1 H2 H3 H4 H5 H6 H7] Hr. unfold recv in Hr. rewrite H1 in Hr. simpl in Hr.
  destruct (w_ch w) as [x|] eqn:E; [|done]. injection Hr as -> <-. cbn [option_list] in H7.
  split; [simpl; by rewrite lookup_insert_eq|done..|]. cbn [w_ch option_list]. by rewrite app_nil_r.
Qed.

Lemma ticking_other p a ticks tk f f' w :
  ticking p a ticks tk f w → f_now f' = f_now f → f_heap f' !! tk = f_heap f !! tk →
  (tk ∈ f_waiters f → tk ∈ f_waiters f') → ticking p a ticks tk f' w.
Proof. intros [H1 H2 H3 H4 H5 H6 H7] Hn Hh Hq. split; rewrite ?Hh, ?Hn; auto. Qed.

(** ** Lemmas: the invariant *)

Definition loop_inv (spec : LoopSpec) (s : TLoop) : Prop :=
  clock_wf (t_clock s) ∧
  match t_pc s with
  | TEntry => t_ticks s = []
  | TFirst => (∃ i, spec = TickLoop true i) ∧ t_ticks s = []
  | TArm => (∃ first i, spec = TickLoop first i) ∧ t_ticks s = []
  | TSelect tk | TBody tk => ∃ first p w, spec = TickLoop first p ∧ 0 < p ∧ ticking p (t_armed s) (t_ticks s) tk (t_clock s) w
  | TReturned (Some tk) => ∃ first p w, spec = TickLoop first p ∧ 0 < p ∧
      paced p (t_armed s) (f_now (t_clock s)) (t_ticks s) ∧ f_heap (t_clock s) !! tk = Some w ∧ w_stopped w = true
  | TIdle | TReturned None => spec = IdleLoop ∧ t_ticks s = []
  | TPanicked => (∃ first i, spec = TickLoop first i ∧ i <= 0) ∧ t_ticks s = []
  end.

Lemma arm_inv spec first i s :
  clock_wf (t_clock s) → t_ticks s = [] → spec = TickLoop first i → t_pc s = TArm → loop_inv spec (arm i s).
Proof.
  intros Hwf Hnil -> Hpc. unfold arm, NewTicker. destruct (Z.leb_spec i 0) as [|Hi]; [split; [done|split; [by eexists _, _|done]]|].
  pose proof (newWaiter_queued i i (t_clock s) Hi) as Hq. pose proof (wf_newWaiter i i (t_clock s)) as Hwf'.
  destruct (newWaiter i i (t_clock s)) as [tk f]. destruct Hq as (Hq & Hh & Hn). cbn [snd] in Hwf'.
  split; cbn [t_clock t_pc t_ticks t_armed]; [apply Hwf'; [lia|done]|].
  eexists first, i, _. split; [done|]. split; [done|]. rewrite Hnil. split; [exact Hh|done|done|done|..]; cbn [w_until w_ch option_list].
  - lia.
  - exists 1. lia.
  - rewrite Hn. split; [lia|]. exists []. split_and!; [done|constructor|set_solver].
Qed.

Lemma loop_inv_own spec s s' : loop_inv spec s → own_step spec s s' → loop_inv spec s'.
Proof.
  intros [Hwf Hinv] Hst. destruct Hst as [s Hpc|s Hpc|s first i Hpc Hsp|s tk t f Hpc Hr|s tk Hpc|s tk Hpc Hd|s Hpc Hd]; rewrite Hpc in Hinv.
  - split; [done|]. destruct spec as [|[] i]; simpl; eauto.
  - split; [done|]. destruct Hinv as [[i ->] Hnil]. simpl. eauto.
  - destruct Hinv as [_ Hnil]. by eapply arm_inv.
  - destruct Hinv as (first & p & w & Hsp & Hp & Htk). split; cbn [t_clock t_pc].
    + eapply wf_clock_step; [by eapply step_recv|done].
    + eexists first, p, _. split; [done|]. split; [done|]. cbn [t_armed t_ticks]. by eapply ticking_recv.
  - by split.
  - destruct Hinv as (first & p & w & Hsp & Hp & [H1 H2 H3 H4 H5 H6 H7]). split; cbn [t_clock t_pc with_pc with_clock].
    + apply (wf_clock_step (t_clock s)); [apply step_stop|done].
    + unfold Ticker_Stop, Timer_Stop. rewrite H1. simpl. eexists first, p, _. split_and!; [done|done| |by rewrite lookup_insert_eq|done].
      by eapply paced_prefix.
  - by split.
Qed.

Lemma loop_inv_env spec s s' : loop_inv spec s → env_step s s' → loop_inv spec s'.
Proof.
  intros [Hwf Hinv] Hst. destruct Hst as [d Hd| |f Hcs Hn Hown].
  - split; [by apply wf_Advance|]. cbn [t_pc t_clock t_armed t_ticks with_clock]. destruct (t_pc s) as [| | |tk|tk| |[tk|]|]; try done.
    1-2: destruct Hinv as (first & p & w & Hsp & Hp & Htk); destruct (ticking_advance _ _ _ _ _ _ d Hp Hwf Hd Htk) as (w' & ? & _); eauto 10.
    destruct Hinv as (first & p & w & Hsp & Hp & Hpa & Hw & Hs). destruct (Advance_spec d (t_clock s) Hwf) as (_ & Hh & Hn & _).
    exists first, p, w. split_and!; [done|done| | |done].
    + rewrite Hn. eapply paced_later; [done|lia].
    + rewrite Hh. unfold fired. rewrite Hw. case_decide; [|done]. simpl. rewrite fire_spec, Hs by (by eapply cw_period). done.
  - by split.
  - split; [by eapply wf_clock_step|]. cbn [t_pc t_clock t_armed t_ticks with_clock].
    destruct (t_pc s) as [| | |tk|tk| |[tk|]|] eqn:Hpc; try done; destruct (Hown tk eq_refl) as [Hh Hq].
    1-2: destruct Hinv as (first & p & w & Hsp & Hp & Htk); exists first, p, w; split_and!; [done|done|by eapply ticking_other].
    destruct Hinv as (first & p & w & Hsp & Hp & Hpa & Hw & Hs). exists first, p, w. by rewrite Hn, Hh.
Qed.

Lemma loop_inv_reachable spec s : loop_reachable spec s → loop_inv spec s.
Proof.
  induction 1 as [t f done Hf|s s' _ IH Hst|s s' _ IH Hst]; [|by eapply loop_inv_own|by eapply loop_inv_env].
  split; [by eapply wf_clock_reachable|done].
Qed.

(** ** Lemmas: termination *)

(** A tick is ready for the loop. *)
Definition pending (s : TLoop) : nat :=
  match t_pc s with
  | TSelect tk | TBody tk => match f_heap (t_clock s) !! tk with Some w => length (option_list (w_ch w)) | None => 0 end
  | _ => 0
  end.

(** How many steps a loop can take while the clock stands still. *)
Definition own_measure (s : TLoop) : nat :=
  match t_pc s with
  | TEntry => 5 | TFirst => 4 | TArm => 3
  | TSelect _ => 2 * pending s + 1 | TBody _ => 2 * pending s + 2
  | TIdle => 1 | TReturned _ | TPanicked => 0
  end.

Lemma pending_bound s : (pending s <= 1)%nat.
Proof. unfold pending. destruct (t_pc s); try lia; destruct (f_heap _ !! _) as [w|]; try lia; destruct (w_ch w); simpl; lia. Qed.

Lemma pending_armed i s : pending (arm i s) = 0%nat ∧ t_ticks (arm i s) = t_ticks s.
Proof.
  unfold arm, NewTicker. destruct (Z.leb_spec i 0) as [|Hi]; [done|].
  pose proof (newWaiter_queued i i (t_clock s) Hi) as Hq. destruct (newWaiter i i (t_clock s)) as [tk f].
  destruct Hq as (_ & Hh & _). unfold pending. simpl. by rewrite Hh.
Qed.

Lemma own_measure_arm i s : (own_measure (arm i s) <= 1)%nat.
Proof.
  pose proof (pending_armed i s) as [Hp _]. unfold own_measure. unfold arm in *.
  destruct (NewTicker i (t_clock s)) as [[tk f]|]; simpl in *; lia.
Qed.

Lemma own_step_measure spec s s' :
  own_step spec s s' → (own_measure s' < own_measure s)%nat ∧
    (length (t_ticks s') + pending s' <= length (t_ticks s) + pending s)%nat ∧ t_done s' = t_done s.
Proof.
  intros Hst. destruct Hst as [s Hpc|s Hpc|s first i Hpc Hsp|s tk t f Hpc Hr|s tk Hpc|s tk Hpc Hd|s Hpc Hd].
  - unfold own_measure, pending. rewrite Hpc. destruct spec as [|[] i]; simpl; split_and!; lia || done.
  - unfold own_measure, pending. rewrite Hpc. simpl. split_and!; lia || done.
  - destruct (pending_armed i s) as [E1 E2]. pose proof (own_measure_arm i s). rewrite E1, E2.
    unfold own_measure at 2, pending. rewrite Hpc. split_and!; [lia|lia|]. unfold arm. by destruct (NewTicker _ _) as [[]|].
  - unfold recv in Hr. destruct (f_heap (t_clock s) !! tk) as [w|] eqn:Hw; [|done]. simpl in Hr.
    destruct (w_ch w) as [x|] eqn:Hch; [|done]. injection Hr as -> <-.
    unfold own_measure, pending. rewrite Hpc, Hw, Hch. simpl. rewrite lookup_insert_eq, length_app. simpl. split_and!; [lia|lia|done].
  - unfold own_measure, pending. rewrite Hpc. simpl. split_and!; lia || done.
  - unfold own_measure, pending. rewrite Hpc. simpl. split_and!; lia || done.
  - unfold own_measure, pending. rewrite Hpc. simpl. split_and!; lia || done.
Qed.

Lemma own_nsteps spec n s s' :
  nsteps (own_step spec) n s s' → (n + own_measure s' <= own_measure s)%nat ∧
    (length (t_ticks s') + pending s' <= length (t_ticks s) + pending s)%nat ∧ t_done s' = t_done s.
Proof.
  induction 1 as [|n s1 s2 s3 Hst _ (H1 & H2 & H3)]; [split_and!; lia || done|].
  apply own_step_measure in Hst as (H4 & H5 & H6). split_and!; [lia|lia|congruence].
Qed.

Lemma own_progress spec s :
  loop_inv spec s → t_done s = true →
  (∃ s', own_step spec s s') ∨ (∃ tk, t_pc s = TReturned tk) ∨ t_pc s = TPanicked.
Proof.
  intros [_ Hinv] Hd. destruct (t_pc s) as [| | |tk|tk| |tk|] eqn:Hpc; [left..|right; left|right; right].
  - eexists. by apply own_enter.
  - eexists. by apply own_first.
  - destruct Hinv as [(first & i & ->) _]. eexists. by eapply own_arm.
  - eexists. by eapply own_return.
  - eexists. by eapply own_body.
  - eexists. by apply own_idle.
  - by exists tk.
  - done.
Qed.

Lemma loop_rtc spec s s' : loop_reachable spec s → rtc (own_step spec) s s' → loop_reachable spec s'.
Proof. intros Hr. induction 1; [done|]. eauto using loop_own. Qed.

Lemma waiting_ticking spec s :
  loop_inv spec s → waiting s →
  ∃ tk w first p, t_pc s = TSelect tk ∧ spec = TickLoop first p ∧ 0 < p ∧ clock_wf (t_clock s) ∧
    ticking p (t_armed s) (t_ticks s) tk (t_clock s) w ∧ w_ch w = None.
Proof.
  intros [Hwf Hinv] (tk & w & Hpc & Hw & Hch). rewrite Hpc in Hinv. destruct Hinv as (first & p & w' & -> & Hp & Htk).
  assert (w' = w) as -> by (pose proof (tg_waiter _ _ _ _ _ _ Htk); congruence). eauto 10.
Qed.

(** ** Claims *)

(** A periodic component runs its body at most once per period.  In every state a loop
    reaches on a shared clock, the ticks it has served are distinct deadlines of its
    ticker, in order and none in the future, so their number is at most the number of
    periods since the ticker was made however long a body takes and however the clock
    jumps; and once the loop has returned its ticker is stopped and it does nothing more. *)
Theorem ticker_paced (first : bool) (p : Z) (s : TLoop) :
  loop_reachable (TickLoop first p) s →
  (t_ticks s ≠ [] → Z.of_nat (length (t_ticks s)) * p <= f_now (t_clock s) - t_armed s) ∧
  StronglySorted Z.lt (t_ticks s) ∧
  (∀ t, t ∈ t_ticks s → t <= f_now (t_clock s) ∧ ∃ j, 1 <= j ∧ t = t_armed s + p * j) ∧
  (∀ tk, t_pc s = TReturned tk → (∀ k, tk = Some k → live (t_clock s) k = false) ∧ ∀ s', ¬ own_step (TickLoop first p) s s').
Proof.
  intros Hr%loop_inv_reachable.
  assert (Hp : t_ticks s = [] ∨ 0 < p ∧ paced p (t_armed s) (f_now (t_clock s)) (t_ticks s)).
  { destruct Hr as [_ Hinv]. destruct (t_pc s) as [| | |tk|tk| |[tk|]|] eqn:Hpc; try tauto.
    - destruct Hinv as (? & ? & w & [= <- <-] & Hp & Htk). right. split; [done|]. eapply paced_prefix, Htk.
    - destruct Hinv as (? & ? & w & [= <- <-] & Hp & Htk). right. split; [done|]. eapply paced_prefix, Htk.
    - destruct Hinv as (? & ? & w & [= <- <-] & Hp & Hpa & _). by right. }
  split_and!.
  - intros Hne. destruct Hp as [|[Hp Hpa]]; [done|]. by apply paced_length.
  - destruct Hp as [->|[Hp (_ & js & -> & Hs & _)]]; [constructor|]. clear -Hs Hp.
    induction Hs as [|j js _ IH Hall]; cbn [fmap list_fmap]; constructor; [exact IH|]. apply Forall_fmap. eapply Forall_impl; [exact Hall|].
    intros x Hx. simpl. nia.
  - destruct Hp as [->|[Hp (_ & js & -> & _ & Hb)]]; [set_solver|]. intros t (j & -> & Hj)%list_elem_of_fmap.
    specialize (Hb j Hj). split; [lia|]. exists j. split; [lia|done].
  - intros tk Hpc. destruct Hr as [_ Hinv]. rewrite Hpc in Hinv. split; [|intros s' Hst; by destruct Hst; congruence].
    intros k ->. destruct Hinv as (? & ? & w & _ & _ & _ & Hw & Hs). unfold live. by rewrite Hw, Hs.
Qed.

(** A renew loop that has served the ticks of 10 and 20 seconds; the clock has jumped over
    that of 30 seconds, and its context has ended. *)
Definition sampleLoop : TLoop :=
  mkTLoop (TBody 0)
    (mkFake (35 * second) {[ 0%nat := mkWaiter (40 * second) (10 * second) None false ]} [0%nat] 1)
    true 0 [10 * second; 20 * second].

Lemma sampleLoop_reachable : loop_reachable (RenewLoop_Start (10 * second)) sampleLoop.
Proof.
  eassert (Hr : loop_reachable (RenewLoop_Start (10 * second)) (loop_start (NewFake 0) false)) by (apply (loop_init _ 0), clock_start).
  eapply loop_own in Hr; [|by apply own_enter].
  eapply loop_own in Hr; [|by eapply own_arm].
  eapply loop_env in Hr; [|by apply (env_advance _ (12 * second))].
  eapply loop_own in Hr; [|by eapply own_tick].
  eapply loop_own in Hr; [|by eapply own_body].
  eapply loop_env in Hr; [|by apply (env_advance _ (23 * second))].
  eapply loop_own in Hr; [|by eapply own_tick].
  eapply loop_env in Hr; [|apply env_cancel].
  exact Hr.
Qed.

Lemma ticker_paced_witness :
  Z.of_nat 2 * (10 * second) <= 35 * second ∧ StronglySorted Z.lt [10 * second; 20 * second].
Proof.
  destruct (ticker_paced false (10 * second) sampleLoop sampleLoop_reachable) as (H1 & H2 & _).
  split; [by apply H1|exact H2].
Defined.

(** A loop that waits is never more than one period from its next run: when the clock has
    moved by a period, a step of the loop enters its body. *)
Theorem ticker_prompt (spec : LoopSpec) (first : bool) (p d : Z) (s : TLoop) :
  loop_reachable spec s → spec = TickLoop first p → waiting s → p <= d →
  ∃ s' tk t, own_step spec (with_clock (Advance d (t_clock s)) s) s' ∧ t_pc s' = TBody tk ∧
    t_ticks s' = t_ticks s ++ [t] ∧ f_now (t_clock s) < t <= f_now (t_clock s) + p.
Proof.
  intros Hr%loop_inv_reachable Hsp Hwait Hd.
  destruct (waiting_ticking _ _ Hr Hwait) as (tk & w & first' & p' & Hpc & Hsp' & Hp & Hwf & Htk & Hch).
  rewrite Hsp in Hsp'. injection Hsp' as <- <-. pose proof (tg_until _ _ _ _ _ _ Htk) as Hu.
  destruct (ticking_advance _ _ _ _ _ _ d Hp Hwf ltac:(lia) Htk) as (w' & [H1 _ _ _ _ _ _] & Hs & _).
  rewrite Hch in Hs. cbn [send] in Hs. specialize (Hs ltac:(lia)).
  assert (∃ f, recv tk (Advance d (t_clock s)) = Some (w_until w, f)) as [f Hf]
    by (unfold recv; rewrite H1; simpl; rewrite Hs; by eexists).
  eexists _, tk, (w_until w). split; [by eapply own_tick|]. split; [done|]. split; [done|lia].
Qed.

(** Cancelling a periodic component stops it.  From any state a loop reaches in which
    its context has ended, while the clock stands still, it takes at most five more steps,
    it is never stuck before it has returned (or panicked on a non-positive interval), and
    it serves at most the one tick that was already waiting in its ticker. *)
Theorem ticker_stops (spec : LoopSpec) (s : TLoop) :
  loop_reachable spec s → t_done s = true →
  (∀ n s', nsteps (own_step spec) n s s' → (n <= 5)%nat ∧ (length (t_ticks s') <= length (t_ticks s) + pending s)%nat) ∧
  (∀ s', rtc (own_step spec) s s' →
     (∃ s'', own_step spec s' s'') ∨ (∃ tk, t_pc s' = TReturned tk) ∨ t_pc s' = TPanicked) ∧ (pending s <= 1)%nat.
Proof.
  intros Hr Hd. split_and!; [| |apply pending_bound].
  - intros n s' (H1 & H2 & _)%own_nsteps. split; [|lia]. pose proof (pending_bound s).
    assert (own_measure s <= 5)%nat by (unfold own_measure; destruct (t_pc s); lia). lia.
  - intros s' Hrtc. apply own_progress; [by eapply loop_inv_reachable, loop_rtc|].
    apply rtc_nsteps in Hrtc as [n (_ & _ & ->)%own_nsteps]. done.
Qed.

Lemma ticker_stops_witness :
  (∀ n s', nsteps (own_step (RenewLoop_Start (10 * second))) n sampleLoop s' → (n <= 5)%nat) ∧
  ∃ s'', own_step (RenewLoop_Start (10 * second)) sampleLoop s''.
Proof.
  destruct (ticker_stops (RenewLoop_Start (10 * second)) sampleLoop sampleLoop_reachable eq_refl) as (H1 & H2 & _).
  split; [intros n s' Hn; by apply (H1 n s')|].
  destruct (H2 sampleLoop) as [Hs|[[tk Hs]|Hs]]; [constructor|exact Hs|discriminate|discriminate].
Defined.

(** ** The loops of a built node *)

Definition runs (c : Comp) : Prop := ∀ first i, loop_of c = Some (TickLoop first i) → 0 < i.

Lemma built_runs {Cert CertPool} `{MapRange} cfg (sec : security Cert CertPool) seeds fs dial comps :
  valid cfg → buildComponents cfg sec seeds fs dial = inr comps → Forall runs comps.
Proof.
  intros Hv Hb. destruct (v_lease _ Hv) as [Hh _]. destruct (v_agent _ Hv) as (_ & _ & _ & _ & Hc).
  assert (Hsurf : ∀ n b, Forall runs (metricsComponent cfg) ∧ Forall runs (consulComponent cfg sec seeds n b) ∧
    Forall runs (dnsComponent cfg) ∧ Forall runs (loaderComponent cfg b)).
  { intros n b. unfold metricsComponent, consulComponent, dnsComponent, loaderComponent.
    split_and!; repeat case_match; by repeat constructor. }
  unfold buildComponents in Hb. case_bool_decide; [|case_bool_decide; [|injection Hb as <-; by apply (Hsurf (self_node cfg sec) true)]].
  - unfold buildSeed in Hb. destruct (bootstrapRegistrar cfg fs); [done|]. destruct (gateReadiness cfg && _); [done|].
    injection Hb as <-. destruct (Hsurf (self_node cfg sec) false) as (? & ? & ? & ?).
    repeat first [apply Forall_app; split|apply Forall_cons; split]; try done.
    + intros first i [= <- <-]. unfold NewGCLoop, defaultGCInterval.
      destruct (Z.leb_spec (c_HeartbeatInterval cfg) 0); [unfold second|]; lia.
    + destruct (gateReadiness cfg); [|constructor]. constructor; [|constructor]. intros first i [= <- <-].
      destruct (Z.leb_spec (mem_SyncInterval (c_Membership cfg)) 0); [unfold second|]; lia.
  - unfold buildAgent in Hb. destruct (_ =? 0)%nat; [done|]. destruct (seedclient_New _ _); [|done].
    destruct (fedRouter cfg dial) as [router|]; [|done]. injection Hb as <-.
    destruct (Hsurf (self_node cfg sec) true) as (? & ? & ? & ?).
    apply Forall_app; split; [done|]. apply Forall_app; split; [destruct router; by repeat constructor|].
    repeat first [apply Forall_app; split|apply Forall_cons; split]; try done; intros first i; try by intros [= <- <-].
    cbn [loop_of]. unfold Flusher_Start. case_bool_decide; [done|]. intros [= <- <-].
    destruct (Z.leb_spec (c_HeartbeatInterval cfg) 0); [unfold second|]; lia.
Qed.

(** No periodic component of a node ever panics on its interval: under a configuration
    that [Parse] accepts, every loop [buildComponents] makes (some with the configured
    interval as it is, some with their own default for a non-positive one) has a positive
    interval, so in no state it reaches has [NewTicker] panicked. *)
Theorem built_loops_never_panic {Cert CertPool} `{MapRange} (ext : string) (decoded : option Config) (cfg : Config)
    (sec : security Cert CertPool) (seeds : list string) (fs : FS)
    (dial : list string → option (Query → option LookupResult)) (comps : list Comp) (c : Comp) (spec : LoopSpec) (s : TLoop) :
  Parse ext decoded = Loaded cfg → buildComponents cfg sec seeds fs dial = inr comps →
  c ∈ comps → loop_of c = Some spec → loop_reachable spec s → t_pc s ≠ TPanicked.
Proof.
  intros Hv%Parse_loaded Hb Hc Hl [_ Hinv]%loop_inv_reachable Hpc. rewrite Hpc in Hinv.
  destruct Hinv as [(first & i & -> & Hi) _]. pose proof (built_runs _ _ _ _ _ _ Hv Hb) as Hall.
  rewrite Forall_forall in Hall. specialize (Hall _ Hc _ _ Hl). lia.
Qed.

Lemma built_loops_never_panic_witness : t_pc sampleLoop ≠ TPanicked.
Proof.
  apply (@built_loops_never_panic unit unit list_order ".yaml" (Some sampleConfig) (applyDefaults sampleConfig) sampleSec
           ["seed-a:9900"%string] ∅ (λ _, Some (λ _, None)) agentComps (RenewLoop (10 * second)) (RenewLoop_Start (10 * second)) sampleLoop).
  - vm_compute. reflexivity.
  - reflexivity.
  - apply (list_elem_of_lookup_2 _ 3). reflexivity.
  - reflexivity.
  - exact sampleLoop_reachable.
Defined.

(** ** The renew loop and a seed *)

Section Renewing.
Context `{MapRange} (px : Proxy) (p reaction latency : Z).

(** A hosted service the loop keeps alive: one the check monitor does not. *)
Definition ours (id : string) (d : ServiceInstance) : Prop :=
  px_hosted px !! id = Some d ∧ ∀ gate, px_checkGate px = Some gate → gate id = false.

(** The agent's renew loop and a seed, read on one clock.  [sy_wire] holds the renewals
    sent and not yet arrived, each with the instant it was sent, the oldest first;
    [sy_lost] counts those that never will. *)
Record System := mkSystem { sy_loop : TLoop; sy_seed : Memory; sy_wire : list (Z * (string * list string)); sy_lost : nat }.

Definition sy_now (y : System) : Z := f_now (t_clock (sy_loop y)).

(** A step.  The loop takes its own steps, and its body sends what [renewOnce] does; it may
    go on before the renewal arrives, which the code, waiting for the answers, does later.
    Time passes freely, whatever is due.  Renewals arrive in any order or are lost, and the
    seed serves other operations, none of them about the services of the loop. *)
Inductive renew_step : System → System → Prop :=
  | rs_body s tk m wire lost : t_pc s = TBody tk →
      renew_step (mkSystem s m wire lost)
        (mkSystem (with_pc (TSelect tk) s) m
           (wire ++ match renewOnce px with Some r => [(f_now (t_clock s), r)] | None => [] end) lost)
  | rs_own s s' m wire lost : (∀ tk, t_pc s ≠ TBody tk) → own_step (RenewLoop_Start p) s s' →
      renew_step (mkSystem s m wire lost) (mkSystem s' m wire lost)
  | rs_env s s' m wire lost : env_step s s' → renew_step (mkSystem s m wire lost) (mkSystem s' m wire lost)
  | rs_arrive s m w1 t n ids w2 lost :
      renew_step (mkSystem s m (w1 ++ (t, (n, ids)) :: w2) lost)
        (mkSystem s (apply (frozen (f_now (t_clock s))) (OpRenew n ids) m).1 (w1 ++ w2) lost)
  | rs_lose s m w1 r w2 lost : renew_step (mkSystem s m (w1 ++ r :: w2) lost) (mkSystem s m (w1 ++ w2) (S lost))
  | rs_op s m op wire lost : (∀ id d, ours id d → spares (Node_ID (px_node px)) id d m op) →
      renew_step (mkSystem s m wire lost) (mkSystem s (apply (frozen (f_now (t_clock s))) op m).1 wire lost).

(** What a run may assume of its environment: a tick is waiting in the ticker, or its body
    is yet to send, no longer than [reaction] after the tick; and no renewal is on the wire
    longer than [latency]. *)
Record prompt (y : System) : Prop := {
  pr_tick : ∀ tk w t, t_pc (sy_loop y) = TSelect tk → f_heap (t_clock (sy_loop y)) !! tk = Some w → w_ch w = Some t →
    sy_now y <= t + reaction;
  pr_body : ∀ tk t, t_pc (sy_loop y) = TBody tk → last (t_ticks (sy_loop y)) = Some t → sy_now y <= t + reaction;
  pr_wire : Forall (λ r, sy_now y <= r.1 + latency) (sy_wire y)
}.

Definition prompt_step (x y : System) : Prop := renew_step x y ∧ prompt y.

(** *** What a renewal of the loop reaches *)

Lemma renewOnce_ours id d :
  ours id d → ∃ ids, renewOnce px = Some (Node_ID (px_node px), ids) ∧
    (ids = [] ∨ (id ∈ ids ∧ ∀ j, j ∈ ids → ∃ d', ours j d')).
Proof.
  intros [Hh Hg]. unfold renewOnce, hostedCount.
  assert (Hne : px_hosted px ≠ ∅) by (intros E; by rewrite E, lookup_empty in Hh).
  destruct (Z.eqb_spec (Z.of_nat (size (px_hosted px))) 0) as [E|_].
  { exfalso. apply Hne. apply map_size_empty_iff. lia. }
  unfold renewAll. destruct (px_checkGate px) as [gate|] eqn:Hgate; [|exists []; auto].
  assert (Hin : ∀ j, j ∈ filter (λ id, gate id = false) (range (px_hosted px)).*1 ↔ ∃ d', ours j d').
  { intros j. rewrite list_elem_of_filter, list_elem_of_fmap. unfold ours. rewrite Hgate. split.
    - intros (Hj & [k d'] & -> & Hk). rewrite (range_perm _), elem_of_map_to_list in Hk. exists d'. split; [done|].
      by intros g [= <-].
    - intros (d' & Hk & Hj). split; [by apply Hj|]. exists (j, d'). split; [done|]. by rewrite (range_perm _), elem_of_map_to_list. }
  assert (Hid : id ∈ filter (λ id, gate id = false) (range (px_hosted px)).*1).
  { apply Hin. exists d. split; [done|]. rewrite Hgate. by intros g [= <-]; apply Hg. }
  set (ids := filter _ _) in *. exists ids. destruct (Nat.eqb_spec (length ids) 0) as [E|_].
  { apply length_zero_iff_nil in E. rewrite E in Hid. by apply elem_of_nil in Hid. }
  split; [done|]. right. split; [done|]. intros j. by apply Hin.
Qed.

Lemma found_ids_all m nid ids : (∀ j, j ∈ ids → is_Some (lookup_service m nid j)) → found_ids m nid ids = ids.
Proof.
  induction ids as [|j ids IH]; intros Hall; [done|]. cbn [found_ids].
  destruct (Hall j) as [x ->]; [by left|]. f_equal. apply IH. intros k Hk. apply Hall. by right.
Qed.

(** Every service of the loop was seen at [seen] or later. *)
Definition all_held (seen : Z) (m : Memory) : Prop :=
  ∀ id d, ours id d → ∃ svc, held (Node_ID (px_node px)) id d seen m svc.

Lemma renewOnce_beats seen m n ids id d :
  renewOnce px = Some (n, ids) → all_held seen m → ours id d → beat (Node_ID (px_node px)) id m (OpRenew n ids) = true.
Proof.
  intros Hr Hall Hid. destruct (renewOnce_ours id d Hid) as (ids' & Hr' & Hids). rewrite Hr in Hr'. injection Hr' as -> ->.
  unfold beat. rewrite bool_decide_eq_true_2 by done. cbn [andb]. destruct Hids as [->|[Hin Hours]]; [done|].
  apply orb_true_iff. right. apply bool_decide_eq_true. rewrite found_ids_all; [done|].
  intros j (d' & Hj)%Hours. destruct (Hall _ _ Hj) as [svc [Hl _ _ _ _ _]]. by exists svc.
Qed.

Lemma held_weaken nid id d seen seen' m svc : held nid id d seen m svc → seen' <= seen → held nid id d seen' m svc.
Proof. intros [H1 H2 H3 H4 H5 H6] Hle. split; try done. lia. Qed.

Lemma all_held_arrive seen now m n ids :
  wf m → renewOnce px = Some (n, ids) → all_held seen m → all_held now (apply (frozen now) (OpRenew n ids) m).1.
Proof.
  intros Hwf Hr Hall id d Hid. destruct (Hall id d Hid) as [svc Hh].
  destruct (held_apply _ id d seen (frozen now) (OpRenew n ids) m svc Hwf Hh I ltac:(done)) as [svc' Hh'].
  rewrite (renewOnce_beats _ _ _ _ _ _ Hr Hall Hid) in Hh'. by exists svc'.
Qed.

Lemma Time_Sub_at_most now seen t : 0 <= t → now - seen <= t → Time_Sub now seen <= t.
Proof. unfold Time_Sub, minInt64. lia. Qed.

Lemma all_held_op seen now m op :
  wf m → all_held seen m → seen <= now → (∀ id d, ours id d → spares (Node_ID (px_node px)) id d m op) →
  (∀ id d, ours id d → now - seen <= Svc_TTL d) → all_held seen (apply (frozen now) op m).1.
Proof.
  intros Hwf Hall Hle Hsp Hage id d Hid. destruct (Hall id d Hid) as [svc Hh].
  destruct (held_apply _ id d seen (frozen now) op m svc Hwf Hh (Hsp _ _ Hid)) as [svc' Hh'].
  { intros _. specialize (Hage _ _ Hid). apply Time_Sub_at_most; unfold frozen; lia. }
  exists svc'. eapply held_weaken; [exact Hh'|]. unfold frozen. destruct (beat _ _ _ _); lia.
Qed.

(** *** The invariant *)

(** What the next renewal is due to: a deadline, a tick or a renewal on the wire, none more
    than a period (and a reaction) after [seen]. *)
Definition on_time (seen : Z) (y : System) : Prop :=
  match sy_wire y with
  | r :: _ => r.1 - reaction - p <= seen
  | [] =>
      (∀ tk w, t_pc (sy_loop y) = TSelect tk → f_heap (t_clock (sy_loop y)) !! tk = Some w →
         default (w_until w) (w_ch w) - p <= seen) ∧
      (∀ tk t, t_pc (sy_loop y) = TBody tk → last (t_ticks (sy_loop y)) = Some t → t - p <= seen)
  end.

Definition in_service (s : TLoop) : Prop :=
  ∃ tk, t_pc s = TSelect tk ∨ (t_pc s = TBody tk ∧ ∃ t, last (t_ticks s) = Some t ∧ t <= f_now (t_clock s)).

Record renewing (y : System) : Prop := {
  rw_loop : loop_reachable (RenewLoop_Start p) (sy_loop y);
  rw_wf : wf (sy_seed y);
  rw_pc : in_service (sy_loop y);
  rw_sent : Forall (λ r, r.1 <= sy_now y ∧ renewOnce px = Some r.2) (sy_wire y);
  rw_prompt : prompt y;
  rw_held : ∃ seen, seen <= sy_now y ∧ all_held seen (sy_seed y) ∧ on_time seen y
}.

Context (Hp : 0 < p) (Hreaction : 0 <= reaction) (Hlatency : 0 <= latency).

(** The tick a loop takes is not in the future, and its deadline at most a period off. *)
Lemma select_waiter s tk w :
  loop_reachable (RenewLoop_Start p) s → t_pc s = TSelect tk → f_heap (t_clock s) !! tk = Some w →
  ticking p (t_armed s) (t_ticks s) tk (t_clock s) w.
Proof.
  intros [_ Hinv]%loop_inv_reachable Hpc Hw. rewrite Hpc in Hinv.
  destruct Hinv as (? & ? & w' & [= <- <-] & _ & Htk). assert (w' = w) as -> by (pose proof (tg_waiter _ _ _ _ _ _ Htk); congruence). done.
Qed.

Lemma select_due s tk w :
  loop_reachable (RenewLoop_Start p) s → t_pc s = TSelect tk → f_heap (t_clock s) !! tk = Some w →
  default (w_until w) (w_ch w) <= f_now (t_clock s) + p ∧ (∀ t, w_ch w = Some t → t <= f_now (t_clock s)).
Proof.
  intros Hr Hpc Hw. pose proof (select_waiter _ _ _ Hr Hpc Hw) as [_ _ _ _ Hu _ Hpa].
  assert (Ht : ∀ t, w_ch w = Some t → t <= f_now (t_clock s)).
  { intros t Ht. rewrite Ht in Hpa. destruct Hpa as (_ & js & E & _ & Hb).
    assert (Hin : t ∈ (λ j, t_armed s + p * j) <$> js) by (rewrite <-E; apply elem_of_app; right; by left).
    apply list_elem_of_fmap in Hin as (j & -> & Hj). by apply Hb. }
  split; [|done]. destruct (w_ch w) as [t|]; simpl; [specialize (Ht t eq_refl)|]; lia.
Qed.

(** After a renewal has arrived, everything is on time. *)
Lemma on_time_now y :
  loop_reachable (RenewLoop_Start p) (sy_loop y) → in_service (sy_loop y) → Forall (λ r, r.1 <= sy_now y) (sy_wire y) →
  on_time (sy_now y) y.
Proof.
  intros Hr [tk Hpc] Hw. unfold on_time. destruct (sy_wire y) as [|r wire].
  - split.
    + intros tk' w E Hh. destruct (select_due _ _ _ Hr E Hh) as [Hd _]. unfold sy_now. lia.
    + intros tk' t E Hl. destruct Hpc as [|[_ (t' & Hl' & Ht)] ]; [congruence|]. unfold sy_now.
      assert (t = t') as -> by congruence. lia.
  - apply Forall_inv in Hw. lia.
Qed.

(** How long ago the services were last renewed. *)
Lemma renewing_age y seen : loop_reachable (RenewLoop_Start p) (sy_loop y) → in_service (sy_loop y) → prompt y → on_time seen y →
  sy_now y - seen <= p + reaction + latency.
Proof.
  intros Hr [tk Hpc] [H1 H2 H3] Ht. unfold on_time in Ht. destruct (sy_wire y) as [|r wire].
  - destruct Ht as [Ha Hb]. destruct Hpc as [Hpc|[Hpc (t & Hl & _)] ].
    + pose proof (loop_inv_reachable _ _ Hr) as [_ Hinv]. rewrite Hpc in Hinv.
      destruct Hinv as (? & ? & w & [= <- <-] & _ & [Hw _ _ _ Hu _ _]).
      specialize (Ha tk w Hpc Hw). destruct (w_ch w) as [t|] eqn:Ec; cbn in Ha.
      * specialize (H1 tk w t Hpc Hw Ec). lia.
      * unfold sy_now in *. lia.
    + specialize (Hb tk t Hpc Hl). specialize (H2 tk t Hpc Hl). lia.
  - apply Forall_inv in H3. lia.
Qed.

(** *** The steps *)

Definition in_force (y : System) : Prop := sy_lost y = 0%nat ∧ ∀ k, t_pc (sy_loop y) ≠ TReturned k.

(** A loss and a return stay. *)
Lemma in_force_back x y : renew_step x y → in_force y → in_force x.
Proof.
  intros Hst [Hl Hr]. destruct Hst as [s tk m wire lost Hb|s s' m wire lost Hnb Hst|s s' m wire lost Hst|s m w1 t n ids w2 lost|
    s m w1 r w2 lost|s m op wire lost Hop]; split; cbn [sy_lost sy_loop] in *; try done.
  - intros k E. congruence.
  - intros k E. destruct Hst; congruence.
  - intros k E. destruct Hst; by apply (Hr k).
Qed.

Lemma own_in_service s s' :
  loop_reachable (RenewLoop_Start p) s → in_service s → own_step (RenewLoop_Start p) s s' → (∀ tk, t_pc s ≠ TBody tk) →
  (∃ k, t_pc s' = TReturned k) ∨ ∃ tk w t, t_pc s = TSelect tk ∧ f_heap (t_clock s) !! tk = Some w ∧ w_ch w = Some t ∧
    t_pc s' = TBody tk ∧ last (t_ticks s') = Some t ∧ f_now (t_clock s') = f_now (t_clock s) ∧ t <= f_now (t_clock s).
Proof.
  intros Hr [tk0 Hpc] Hst Hnb.
  destruct Hst as [s E|s E|s f i E Hsp|s tk t f E Hrc|s tk E|s tk E Hd|s E Hd]; rewrite E in Hpc; try by destruct Hpc as [|[] ].
  - right. unfold recv in Hrc. destruct (f_heap (t_clock s) !! tk) as [w|] eqn:Hw; [|done]. simpl in Hrc.
    destruct (w_ch w) as [x|] eqn:Hc; [|done]. injection Hrc as -> <-. exists tk, w, t.
    split_and!; try done; [cbn [t_ticks]; by rewrite last_snoc|]. by apply (select_due s tk w).
  - by destruct (Hnb tk).
  - left. by eexists.
Qed.

Lemma env_in_service seen s s' m wire lost :
  loop_reachable (RenewLoop_Start p) s → in_service s → env_step s s' → seen <= f_now (t_clock s) →
  on_time seen (mkSystem s m wire lost) →
  in_service s' ∧ f_now (t_clock s) <= f_now (t_clock s') ∧ on_time seen (mkSystem s' m wire lost).
Proof.
  intros Hr [tk Hpc] Hst Hle Hot. pose proof (loop_inv_reachable _ _ Hr) as [Hwf _].
  assert (Htk : ticker_of (t_pc s) = Some tk) by (by destruct Hpc as [->|[-> _] ]).
  assert (Hs' : t_pc s' = t_pc s ∧ t_ticks s' = t_ticks s ∧ f_now (t_clock s) <= f_now (t_clock s') ∧
    ∀ w', f_heap (t_clock s') !! tk = Some w' → t_pc s = TSelect tk → ∃ w, f_heap (t_clock s) !! tk = Some w ∧
      default (w_until w') (w_ch w') <= default (w_until w) (w_ch w)).
  { destruct Hst as [d Hd| |f Hcs Hn Hown]; cbn [t_pc t_ticks t_clock with_clock].
    - destruct (Advance_spec d (t_clock s) Hwf) as (_ & _ & Hn & _). rewrite Hn. split_and!; [done|done|lia|].
      intros w' Hw' E. pose proof (loop_inv_reachable _ _ Hr) as [_ Hinv]. rewrite E in Hinv.
      destruct Hinv as (? & ? & w & [= <- <-] & _ & Htk'). exists w. split; [apply Htk'|].
      destruct (ticking_advance _ _ _ _ _ _ d Hp Hwf Hd Htk') as (w'' & Htk'' & Hf & Hs).
      assert (w'' = w') as -> by (pose proof (tg_waiter _ _ _ _ _ _ Htk''); congruence).
      destruct (Z.le_gt_cases (w_until w) (f_now (t_clock s) + d)) as [Hx|Hx].
      + rewrite (Hf Hx). destruct (w_ch w); simpl; lia.
      + by rewrite (Hs ltac:(lia)).
    - split_and!; [done|done|lia|]. intros w' Hw' _. by exists w'.
    - destruct (Hown _ Htk) as [Hh _]. rewrite Hh. split_and!; [done|done|lia|]. intros w' Hw' _. by exists w'. }
  destruct Hs' as (E1 & E2 & E3 & E4). split_and!; [|done|].
  - exists tk. rewrite E1, E2. destruct Hpc as [|[? (t & ? & ?)] ]; [by left|right]. split; [done|]. exists t. split; [done|lia].
  - unfold on_time in *. cbn [sy_wire sy_loop] in *. destruct wire as [|r wire]; [|done]. destruct Hot as [Ha Hb]. split.
    + intros tk' w' E Hw'. rewrite E1 in E. assert (tk' = tk) as -> by (destruct Hpc as [|[? _] ]; congruence).
      destruct (E4 w' Hw' E) as (w & Hw & Hd). specialize (Ha tk w E Hw). lia.
    + intros tk' t. rewrite E1, E2. apply Hb.
Qed.

Context (Hours : ∃ id d, ours id d) (Httl : ∀ id d, ours id d → p + reaction + latency <= Svc_TTL d).

Lemma sent_later now now' (wire : list (Z * (string * list string))) :
  now <= now' → Forall (λ r, r.1 <= now ∧ renewOnce px = Some r.2) wire → Forall (λ r, r.1 <= now' ∧ renewOnce px = Some r.2) wire.
Proof. intros Hle Hall. eapply Forall_impl; [exact Hall|]. intros r [? ?]. split; [lia|done]. Qed.

Lemma renewing_step x y : renewing x → prompt_step x y → in_force y → renewing y.
Proof.
  intros [Hr Hwf Hsv Hsent Hpr (seen & Hle & Hall & Hot)] [Hst Hpr'] Hf.
  pose proof (renewing_age x seen Hr Hsv Hpr Hot) as Hage.
  destruct Hst as [s tk m wire lost Hb|s s' m wire lost Hnb Hst|s s' m wire lost Hst|s m w1 t n ids w2 lost|
    s m w1 r w2 lost|s m op wire lost Hop]; unfold sy_now in *; cbn [sy_loop sy_seed sy_wire] in *.
  - destruct Hours as (id & d & Hid). destruct (renewOnce_ours id d Hid) as (ids & Hreq & _). rewrite Hreq in Hpr' |- *.
    split; unfold sy_now; cbn [sy_loop sy_seed sy_wire]; try done.
    + eapply loop_own; [exact Hr|by apply own_body].
    + exists tk. by left.
    + apply Forall_app. split; [done|]. apply Forall_singleton. split; [simpl; lia|done].
    + exists seen. split; [done|]. split; [done|]. unfold on_time in *. cbn [sy_wire sy_loop] in *. destruct wire as [|r wire]; [|done].
      cbn [app fst]. destruct Hot as [_ Hb']. destruct Hsv as (tk' & [E|[E (t & Hl & Ht)] ]); [congruence|].
      specialize (Hb' tk' t E Hl). pose proof (pr_body _ Hpr tk' t E Hl) as Hn. unfold sy_now in Hn. cbn [sy_loop] in Hn. lia.
  - destruct (own_in_service s s' Hr Hsv Hst Hnb) as [[k Hk]|(tk & w & t & E & Hw & Hc & E' & Hl & Hn & Ht)].
    { destruct Hf as [_ Hf]. by destruct (Hf k). }
    split; unfold sy_now; cbn [sy_loop sy_seed sy_wire]; rewrite ?Hn; try done; [by eapply loop_own|..].
    + exists tk. right. split; [done|]. exists t. by rewrite Hn.
    + exists seen. split; [done|]. split; [done|]. unfold on_time in *. cbn [sy_wire sy_loop] in *. destruct wire as [|r wire]; [|done].
      destruct Hot as [Ha _]. split; [intros ? ? ?; congruence|]. intros tk' t' _ Hl'. specialize (Ha tk w E Hw).
      rewrite Hc in Ha. cbn in Ha. assert (t' = t) as -> by congruence. lia.
  - destruct (env_in_service seen s s' m wire lost Hr Hsv Hst Hle Hot) as (Hsv' & Hn & Hot').
    split; unfold sy_now; cbn [sy_loop sy_seed sy_wire]; try done; [by eapply loop_env|by eapply sent_later|].
    exists seen. split_and!; [lia|done|done].
  - apply Forall_app in Hsent as [Hs1 Hs2]. apply Forall_cons in Hs2 as [[Ht Hreq] Hs2]. cbn [fst snd] in *.
    assert (Hs : Forall (λ r, r.1 <= f_now (t_clock s) ∧ renewOnce px = Some r.2) (w1 ++ w2)) by (by apply Forall_app).
    split; unfold sy_now; cbn [sy_loop sy_seed sy_wire]; try done; [by apply wf_apply|].
    exists (f_now (t_clock s)). split; [lia|]. split; [by eapply all_held_arrive|].
    apply (on_time_now (mkSystem s _ (w1 ++ w2) lost)); [done|done|]. eapply Forall_impl; [exact Hs|]. by intros r [? _].
  - by destruct Hf.
  - split; unfold sy_now; cbn [sy_loop sy_seed sy_wire]; try done; [by apply wf_apply|].
    exists seen. split; [done|]. split; [|done]. apply all_held_op; try done. intros id d Hid. specialize (Httl id d Hid). lia.
Qed.

Lemma renewing_steps x y : renewing x → rtc prompt_step x y → in_force y → renewing y.
Proof.
  intros Hx. revert y. apply (rtc_ind_r (λ y, in_force y → renewing y) x); [done|].
  intros y z _ Hst IH Hf. eapply renewing_step; [apply IH|exact Hst|exact Hf]. destruct Hst. by eapply in_force_back.
Qed.
End Renewing.

(** C12: an agent's renew loop keeps the services it hosts alive.  Take a loop of interval
    [p] and a seed on which every hosted service that is not under active checks is
    registered, and any run of the two: the loop serves its ticks, each body sending the
    renewal [renewOnce] builds from the hosted services, the clock moves freely, renewals
    arrive in any order, and the seed runs its reaper and whatever other operations are not
    about those services.  Suppose of the environment that a tick is served within
    [reaction], that a renewal arrives within [latency] and none is lost, and that
    [p + reaction + latency] is at most each service's TTL.  Then in every state of the run,
    until the loop has returned, a lookup answers each of those services as passing. *)
Theorem renew_loop_keeps_lease `{MapRange} (px : Proxy) (p reaction latency : Z) (y y' : System)
    (id : string) (d : ServiceInstance) (healthy : bool) :
  let nid := Node_ID (px_node px) in
  loop_reachable (RenewLoop_Start p) (sy_loop y) → waiting (sy_loop y) → wf (sy_seed y) → sy_wire y = [] →
  (∀ id d, ours px id d → ∃ svc, held nid id d (sy_now y) (sy_seed y) svc) →
  0 <= reaction → 0 <= latency → (∀ id d, ours px id d → p + reaction + latency <= Svc_TTL d) →
  rtc (prompt_step px p reaction latency) y y' → sy_lost y' = 0%nat → (∀ k, t_pc (sy_loop y') ≠ TReturned k) →
  ours px id d →
  ∃ e, e ∈ Lookup_Entries (Lookup (frozen (sy_now y')) (mkQuery (Svc_Name d) "" [] healthy) (sy_seed y')) ∧
    entry_key e = (nid, id) ∧ Entry_Health e = HealthPassing.
Proof.
  intros nid Hr Hw Hwf Hwire Hheld Hre Hla Httl Hrtc Hlost Hret Hid.
  destruct (waiting_ticking _ _ (loop_inv_reachable _ _ Hr) Hw) as (tk & w & f & q & Hpc & [= <- <-] & Hp & _ & Htk & Hch).
  assert (Hsv : in_service (sy_loop y)) by (exists tk; by left).
  assert (Hren : renewing px p reaction latency y).
  { split; try done; [by rewrite Hwire| |].
    - split; [|intros ? ? E; congruence|by rewrite Hwire]. intros tk' w' t E Hw' Hc. assert (tk' = tk) as -> by congruence.
      pose proof (tg_waiter _ _ _ _ _ _ Htk). congruence.
    - exists (sy_now y). split; [done|]. split; [done|]. apply (on_time_now p); try done. by rewrite Hwire. }
  destruct (renewing_steps px p reaction latency Hp Hre Hla (ex_intro _ id (ex_intro _ d Hid)) Httl y y' Hren Hrtc (conj Hlost Hret))
    as [Hr' Hwf' Hsv' _ Hpr' (seen & _ & Hall & Hot)].
  destruct (Hall id d Hid) as [svc Hh]. specialize (Httl id d Hid).
  pose proof (renewing_age p reaction latency Hre Hla y' seen Hr' Hsv' Hpr' Hot) as Hage.
  destruct (held_passing _ id d seen (sy_seed y') svc (frozen (sy_now y')) healthy Hwf' Hh) as (e & He & Hk & Hhe & _);
    [apply Time_Sub_at_most; unfold frozen; lia|]. by exists e.
Qed.

(** The loop of a freshly started agent at 1000 s, hosting a service of its own and one
    under active checks, and a run in which the first tick is served two seconds late and
    its renewal takes five. *)
Definition freshLoop : TLoop :=
  mkTLoop (TSelect 0)
    (mkFake (1000 * second) {[ 0%nat := mkWaiter (1010 * second) (10 * second) None false ]} [0%nat] 1)
    false (1000 * second) [].

Lemma freshLoop_reachable : loop_reachable (RenewLoop_Start (10 * second)) freshLoop.
Proof.
  eassert (Hr : loop_reachable (RenewLoop_Start (10 * second)) (loop_start (NewFake (1000 * second)) false))
    by (apply (loop_init _ (1000 * second)), clock_start).
  eapply loop_own in Hr; [|by apply own_enter]. eapply loop_own in Hr; [|by eapply own_arm]. exact Hr.
Qed.

Definition hostingProxy : Proxy :=
  SetCheckGate (λ id, bool_decide (id = "db"%string))
    (with_hosted {[ "web"%string := sampleHeld; "db"%string := sampleService "db" "db" [] ]} (NewProxy (sampleNode "n1") 1)).

Definition renewedLoop : TLoop :=
  mkTLoop (TSelect 0)
    (mkFake (1021 * second) {[ 0%nat := mkWaiter (1030 * second) (10 * second) (Some (1020 * second)) false ]} [0%nat] 1)
    false (1000 * second) [1010 * second].

Definition renewedSeed : Memory :=
  (@apply list_order (frozen (1017 * second)) (OpRenew "n1" ["web"%string])
    (@apply list_order (frozen (1017 * second)) OpGC sampleRun.1).1).1.

Ltac prove_prompt :=
  split;
    [intros tk w t E Hw Hc; vm_compute in E; try discriminate E; injection E as <-; vm_compute in Hw; injection Hw as <-;
     vm_compute in Hc; try discriminate Hc; injection Hc as <-; vm_compute; discriminate
    |intros tk t E Hl; vm_compute in E; try discriminate E; vm_compute in Hl; injection Hl as <-; vm_compute; discriminate
    |repeat constructor; vm_compute; discriminate].

Lemma renewed_run :
  rtc (@prompt_step list_order hostingProxy (10 * second) (2 * second) (15 * second))
    (mkSystem freshLoop sampleRun.1 [] 0) (mkSystem renewedLoop renewedSeed [] 0).
Proof.
  eapply rtc_l; [split; [apply rs_env, (env_advance _ (12 * second)); done|prove_prompt]|].
  eapply rtc_l; [split; [apply rs_own; [done|by eapply own_tick]|prove_prompt]|].
  eapply rtc_l; [split; [by eapply rs_body|prove_prompt]|].
  eapply rtc_l; [split; [apply rs_env, (env_advance _ (5 * second)); done|prove_prompt]|].
  eapply rtc_l; [split; [apply (rs_op _ _ _ _ OpGC); done|prove_prompt]|].
  eapply rtc_l; [split; [apply (rs_arrive _ _ _ _ [] (1012 * second) "n1" ["web"%string] [])|prove_prompt]|].
  eapply rtc_l; [split; [apply rs_env, (env_advance _ (4 * second)); done|prove_prompt]|].
  exact (rtc_refl _ _).
Qed.

Lemma renew_loop_keeps_lease_witness :
  ∃ e, e ∈ Lookup_Entries (@Lookup list_order (frozen (1021 * second)) (mkQuery "web" "" [] true) renewedSeed) ∧
    entry_key e = ("n1"%string, "web"%string) ∧ Entry_Health e = HealthPassing.
Proof.
  assert (Hours : ∀ id d, ours hostingProxy id d → id = "web"%string ∧ d = sampleHeld).
  { intros id d [Hh Hg]. specialize (Hg _ eq_refl). apply bool_decide_eq_false in Hg. simpl in Hh.
    apply lookup_insert_Some in Hh as [[<- <-]|[_ Hh] ]; [done|]. by apply lookup_singleton_Some in Hh as [<- _]. }
  apply (@renew_loop_keeps_lease list_order hostingProxy (10 * second) (2 * second) (15 * second)
           (mkSystem freshLoop sampleRun.1 [] 0) (mkSystem renewedLoop renewedSeed [] 0) "web" sampleHeld true).
  - exact freshLoop_reachable.
  - by eexists 0%nat, _.
  - apply (wf_reachable sampleOptions _ sampleRun.2), sampleRun_reachable.
  - reflexivity.
  - intros id d [-> ->]%Hours. exists (mkSvc sampleHeld false false HealthPassing 101 101). split; vm_compute; congruence.
  - done.
  - done.
  - intros id d [-> ->]%Hours. vm_compute. discriminate.
  - exact renewed_run.
  - reflexivity.
  - discriminate.
  - split; [reflexivity|]. intros gate [= <-]. reflexivity.
Defined.
