(* ===== verification/Blocking.v ===== *)
(** Concurrent reads of the Consul surface: the [read] of [internal/consul/handler.go] as a
    process, with its slot among the blocking queries, its wait on the watcher and its
    deadline, interleaved with other reads and with changes of the registry.

    [Consul.read_start] and [Consul.read_end] are its sequential ends; here the state may
    change between any two of its steps, and the slots are the buffered channel
    [h.waiters]. *)

From Stdlib Require Import ZArith Lia.
From stdpp Require Import base gmap list strings relations.
From S2P Require Import Prelude GoStrings GoText Model Health Store StoreSteps StoreInv StoreSpec.
From S2P Require Import StoreLookup StoreOps Watch Cred Server ConsulFilter Consul.

#[local] Open Scope Z_scope.

(** ** The processes *)

(** Where a read is: not started; in [WaitForChange] until [deadline]; about to resolve;
    about to read the index of its answer; answered. *)
Inductive ReadPC :=
  | RdStart (k : ReadKind) (r : HttpRequest)
  | RdWait (k : ReadKind) (r : HttpRequest) (q : Query) (m : Consistency) (f : option filterExpr)
      (minIndex deadline : Z) (w : Watch.waiter)
  | RdResolve (k : ReadKind) (r : HttpRequest) (q : Query) (m : Consistency) (f : option filterExpr)
  | RdIndex (k : ReadKind) (r : HttpRequest) (q : Query) (m : Consistency) (age : Z) (entries : list ServiceEntry)
  | RdDone (resp : HttpResponse).

(** The registry, the clock, the slots taken, the reads, and those of them whose client
    has gone (the end of the request's context). *)
Record Reads (R : Type) := mkReads { rd_state : R; rd_now : Z; rd_waiters : Z; rd_pcs : list ReadPC; rd_left : list nat }.
Arguments mkReads {R}. Arguments rd_state {R}. Arguments rd_now {R}. Arguments rd_waiters {R}. Arguments rd_pcs {R}.
Arguments rd_left {R}.

Definition with_state {R} (s : R) (x : Reads R) : Reads R := mkReads s (rd_now x) (rd_waiters x) (rd_pcs x) (rd_left x).

Definition blocked (pc : ReadPC) : bool := match pc with RdWait _ _ _ _ _ _ _ _ => true | _ => false end.

(** Answered. *)
Definition is_done (pc : ReadPC) : bool := match pc with RdDone _ => true | _ => false end.

Section Reading.
Context {R E : Type} (reg : Registry R E) (h : Handler) (dur : string → option Z).

(** Changes of the registry by others. *)
Context (env : R → R → Prop).

(** [releaseWaiter]: the receive needs a value in the channel. *)
Definition releaseWaiter (waiters : Z) : option Z := if 0 <? waiters then Some (waiters - 1) else None.

(** A step of one read, in the state [s] at [now] with [w] slots taken; [gone]: its client
    has gone.  A timer that has fired stays ready: nothing bounds how late the read is
    scheduled after its deadline. *)
Inductive read_step (gone : Prop) (s : R) (now w : Z) : ReadPC → R → Z → ReadPC → Prop :=
  | rd_refused k r resp : read_start reg h r w s = ReadRefused resp → read_step gone s now w (RdStart k r) s w (RdDone resp)
  | rd_direct k r q m f : read_start reg h r w s = ReadGo q m f None → read_step gone s now w (RdStart k r) s w (RdResolve k r q m f)
  | rd_block k r q m f mi : read_start reg h r w s = ReadGo q m f (Some mi) →
      read_step gone s now w (RdStart k r) s (w + 1) (RdWait k r q m f mi (now + blockWait dur r) Checking)
  | rd_check k r q m f mi dl wt : r_watcher reg s = Some wt →
      read_step gone s now w (RdWait k r q m f mi dl Checking) s w (RdWait k r q m f mi dl (wait_check wt q mi))
  | rd_woken k r q m f mi dl wt cur ch : r_watcher reg s = Some wt → (ch < bump wt)%nat →
      read_step gone s now w (RdWait k r q m f mi dl (Waiting cur ch)) s w (RdWait k r q m f mi dl Checking)
  | rd_timer k r q m f mi dl cur ch : dl <= now →
      read_step gone s now w (RdWait k r q m f mi dl (Waiting cur ch)) s w (RdWait k r q m f mi dl (Done cur))
  | rd_gone k r q m f mi dl cur ch : gone →
      read_step gone s now w (RdWait k r q m f mi dl (Waiting cur ch)) s w (RdWait k r q m f mi dl (Done cur))
  | rd_release k r q m f mi dl ret w' : releaseWaiter w = Some w' →
      read_step gone s now w (RdWait k r q m f mi dl (Done ret)) s w' (RdResolve k r q m f)
  | rd_failed k r q m f e s' : r_Resolve reg q m s = (inr e, s') →
      read_step gone s now w (RdResolve k r q m f) s' w (RdDone (http_error 500 (r_Error reg e)))
  | rd_resolved k r q m f res age s' : r_Resolve reg q m s = (inl (res, age), s') →
      read_step gone s now w (RdResolve k r q m f) s' w
        (RdIndex k r q m age (match f with Some f => applyFilter (Lookup_Entries res) f | None => Lookup_Entries res end))
  | rd_answer k r q m age entries :
      read_step gone s now w (RdIndex k r q m age entries) s w (RdDone (writeJSON (indexFor reg q s) m age (render k r entries))).

Inductive reads_step : Reads R → Reads R → Prop :=
  | rs_read x i pc s' w' pc' : rd_pcs x !! i = Some pc →
      read_step (i ∈ rd_left x) (rd_state x) (rd_now x) (rd_waiters x) pc s' w' pc' →
      reads_step x (mkReads s' (rd_now x) w' (<[i := pc']> (rd_pcs x)) (rd_left x))
  | rs_arrives x k r : reads_step x (mkReads (rd_state x) (rd_now x) (rd_waiters x) (rd_pcs x ++ [RdStart k r]) (rd_left x))
  | rs_leaves x i : reads_step x (mkReads (rd_state x) (rd_now x) (rd_waiters x) (rd_pcs x) (i :: rd_left x))
  | rs_time x d : 0 <= d → reads_step x (mkReads (rd_state x) (rd_now x + d) (rd_waiters x) (rd_pcs x) (rd_left x))
  | rs_env x s' : env (rd_state x) s' → reads_step x (with_state s' x).

Inductive reads_reachable (s0 : R) (t0 : Z) : Reads R → Prop :=
  | reads_init : reads_reachable s0 t0 (mkReads s0 t0 0 [] [])
  | reads_next x y : reads_reachable s0 t0 x → reads_step x y → reads_reachable s0 t0 y.

(** ** Lemmas *)

Definition blocked_reads (pcs : list ReadPC) : list ReadPC := filter (λ pc, blocked pc = true) pcs.

Lemma blocked_insert pcs i pc pc' :
  pcs !! i = Some pc →
  Z.of_nat (length (blocked_reads (<[i := pc']> pcs))) =
    Z.of_nat (length (blocked_reads pcs)) - (if blocked pc then 1 else 0) + (if blocked pc' then 1 else 0).
Proof.
  unfold blocked_reads. revert i. induction pcs as [|x pcs IH]; intros [|i] Hi; simplify_eq/=.
  - rewrite !filter_cons. destruct (decide (blocked pc = true)) as [->|N1], (decide (blocked pc' = true)) as [->|N2];
      rewrite ?(not_true_is_false _ N1), ?(not_true_is_false _ N2); cbn [length]; lia.
  - rewrite !filter_cons. specialize (IH i Hi). destruct (decide (blocked x = true)); cbn [length]; lia.
Qed.

(** A read that waits has a watcher, and a deadline at most ten minutes ahead; one whose
    wait is over saw another index than its own, or the deadline, or its client go. *)
Definition wait_ok (gone : Prop) (s : R) (now : Z) (pc : ReadPC) : Prop :=
  match pc with
  | RdWait _ _ _ _ _ mi dl wt => is_Some (r_watcher reg s) ∧ dl <= now + 600 * second ∧ 0 < mi ∧
      match wt with
      | Checking => True
      | Waiting cur _ => cur = mi
      | Done ret => ret ≠ mi ∨ dl <= now ∨ gone
      end
  | _ => True
  end.

Record reads_inv (x : Reads R) : Prop := {
  ri_count : rd_waiters x = Z.of_nat (length (blocked_reads (rd_pcs x)));
  ri_bound : rd_waiters x <= h_maxWaiters h;
  ri_wait : ∀ i pc, rd_pcs x !! i = Some pc → wait_ok (i ∈ rd_left x) (rd_state x) (rd_now x) pc
}.

(** The watcher is there for good. *)
Context (Henv : ∀ s s', env s s' → is_Some (r_watcher reg s) → is_Some (r_watcher reg s')).
Context (Hresolve : ∀ q m s, is_Some (r_watcher reg s) → is_Some (r_watcher reg (r_Resolve reg q m s).2)).

Lemma read_start_block r w s q m f mi :
  read_start reg h r w s = ReadGo q m f (Some mi) → is_Some (r_watcher reg s) ∧ 0 < mi ∧ w < h_maxWaiters h.
Proof.
  unfold read_start. destruct (compileFilter _); [|done]. destruct (r_watcher reg s); [|done].
  destruct (Z.ltb_spec 0 (blockIndex r)); [|done]. destruct (acquireWaiter h w) eqn:Ha; [|done].
  intros [= _ _ _ <-]. split; [done|]. split; [done|]. by apply Z.ltb_lt.
Qed.

Lemma blockWait_bound r : blockWait dur r <= 600 * second.
Proof. unfold blockWait. cbv zeta. match goal with |- context [600 * second <? ?w] => destruct (Z.ltb_spec (600 * second) w) end; lia. Qed.

Lemma read_step_watcher gone s now w pc s' w' pc' :
  read_step gone s now w pc s' w' pc' → is_Some (r_watcher reg s) → is_Some (r_watcher reg s').
Proof.
  intros Hst Hw. destruct Hst as [| | | | | | | |k r q m f e s' Hr|k r q m f res age s' Hr|]; try done;
    pose proof (Hresolve q m s Hw) as Hs; by rewrite Hr in Hs.
Qed.

Lemma read_step_wait gone s now w pc s' w' pc' :
  read_step gone s now w pc s' w' pc' → wait_ok gone s now pc → wait_ok gone s' now pc'.
Proof.
  intros Hst. destruct Hst as [| |k r q m f mi Hr|k r q m f mi dl wt Hwt| |k r q m f mi dl cur ch Hdl|k r q m f mi dl cur ch Hg| | | |];
    simpl; try tauto.
  - intros _. apply read_start_block in Hr as (Hw & Hmi & _). pose proof (blockWait_bound r). split_and!; [done|lia|done|done].
  - intros (H1 & H2 & H3 & _). split_and!; [done..|]. unfold wait_check. destruct (Z.eqb_spec mi 0); [lia|]. simpl.
    destruct (Z.eqb_spec (currentIndexLocked wt q) mi); simpl; [done|by left].
Qed.

(** The slots a step takes or gives back are those of the read. *)
Lemma read_step_slots gone s now w pc s' w' pc' :
  read_step gone s now w pc s' w' pc' → w <= h_maxWaiters h →
  w' = w - (if blocked pc then 1 else 0) + (if blocked pc' then 1 else 0) ∧ w' <= h_maxWaiters h.
Proof.
  intros Hst Hw. destruct Hst as [| |k r q m f mi Hr| | | | |k r q m f mi dl ret w' Hr| | |]; simpl; try lia.
  - apply read_start_block in Hr as (_ & _ & Hlt). lia.
  - unfold releaseWaiter in Hr. destruct (0 <? w); [|done]. injection Hr as <-. lia.
Qed.

(** Time, departures and changes of the registry keep what a waiting read knows. *)
Lemma wait_ok_later (gone gone' : Prop) s s' now now' pc :
  wait_ok gone s now pc → (is_Some (r_watcher reg s) → is_Some (r_watcher reg s')) → now <= now' → (gone → gone') →
  wait_ok gone' s' now' pc.
Proof.
  destruct pc as [| | | |]; try done. intros (H1 & H2 & H3 & H4) Hs Hn Hg. split_and!; [auto|lia|done|].
  destruct w as [| |ret]; try done. destruct H4 as [|[|] ]; [by left|right; left; lia|right; right; auto].
Qed.

Lemma reads_inv_step x y : reads_inv x → reads_step x y → reads_inv y.
Proof.
  intros [Hc Hb Hw] Hst. destruct Hst as [x i pc s' w' pc' Hi Hst|x k r|x i|x d Hd|x s' Hs].
  - destruct (read_step_slots _ _ _ _ _ _ _ _ Hst Hb) as [-> Hb']. split; cbn [rd_waiters rd_pcs rd_state rd_now rd_left]; [|done|].
    + rewrite (blocked_insert _ _ _ _ Hi). lia.
    + intros j pcj [(-> & <- & _)|[Hne Hj]]%list_lookup_insert_Some; [by eapply read_step_wait, Hw|].
      eapply wait_ok_later; [by eapply Hw|by eapply read_step_watcher|done|done].
  - split; cbn [rd_waiters rd_pcs rd_state rd_now]; [|done|].
    + unfold blocked_reads in *. rewrite filter_app, length_app, Hc. simpl. lia.
    + intros i pc [Hi|[_ Hi]]%lookup_app_Some; [by eapply Hw|]. destruct (i - _)%nat; [by injection Hi as <-|done].
  - split; cbn [rd_waiters rd_pcs rd_state rd_now rd_left]; [done|done|]. intros j pc Hj.
    eapply wait_ok_later; [by eapply Hw|done|done|set_solver].
  - split; cbn [rd_waiters rd_pcs rd_state rd_now]; [done|done|]. intros i pc Hi.
    eapply wait_ok_later; [by eapply Hw|done|lia|done].
  - split; [done|done|]. intros i pc Hi. eapply wait_ok_later; [by eapply Hw|by eapply Henv|done|done].
Qed.

Lemma reads_inv_reachable s0 t0 x : 0 <= h_maxWaiters h → reads_reachable s0 t0 x → reads_inv x.
Proof. intros Hm. induction 1 as [|x y _ IH Hst]; [by split|by eapply reads_inv_step]. Qed.

Lemma blocked_in pcs i pc : pcs !! i = Some pc → blocked pc = true → (0 < length (blocked_reads pcs))%nat.
Proof.
  intros Hi Hb. destruct (blocked_reads pcs) as [|y l] eqn:Hnone; [|simpl; lia]. exfalso.
  assert (pc ∈ blocked_reads pcs) as Hin by (apply list_elem_of_filter; split; [done|by eapply list_elem_of_lookup_2]).
  rewrite Hnone in Hin. by apply elem_of_nil in Hin.
Qed.

(** *** A read left to itself *)

(** A step of the read [i]. *)
Definition own_read (i : nat) (x y : Reads R) : Prop :=
  ∃ pc s' w' pc', rd_pcs x !! i = Some pc ∧ read_step (i ∈ rd_left x) (rd_state x) (rd_now x) (rd_waiters x) pc s' w' pc' ∧
    y = mkReads s' (rd_now x) w' (<[i := pc']> (rd_pcs x)) (rd_left x).

Definition answered (i : nat) (x : Reads R) : Prop := ∃ resp, rd_pcs x !! i = Some (RdDone resp).

(** Past its start, and past its deadline if it waits. *)
Definition over (now : Z) (pc : ReadPC) : Prop :=
  match pc with RdStart _ _ => False | RdWait _ _ _ _ _ _ dl _ => dl <= now | _ => True end.

(** Its steps left, at most. *)
Definition read_rank (s : R) (pc : ReadPC) : nat :=
  match pc with
  | RdStart _ _ => 7
  | RdWait _ _ _ _ _ _ _ (Waiting _ ch) =>
      match r_watcher reg s with Some wt => if (ch <? bump wt)%nat then 6 else 4 | None => 4 end
  | RdWait _ _ _ _ _ _ _ Checking => 5
  | RdWait _ _ _ _ _ _ _ (Done _) => 3
  | RdResolve _ _ _ _ _ => 2
  | RdIndex _ _ _ _ _ _ => 1
  | RdDone _ => 0
  end.

Lemma read_step_rank gone s now w pc s' w' pc' :
  read_step gone s now w pc s' w' pc' → over now pc →
  (read_rank s' pc' < read_rank s pc)%nat ∧ over now pc'.
Proof.
  intros Hst Ho. destruct Hst as [| | |k r q m f mi dl wt Hwt|k r q m f mi dl wt cur ch Hwt Hch|k r q m f mi dl cur ch Hdl|
    k r q m f mi dl cur ch Hg| | | |]; simpl in *; try done; try (split; [lia|done]).
  - split; [|done]. rewrite Hwt. unfold wait_check. destruct (_ || _); [lia|]. rewrite (proj2 (Nat.ltb_ge _ _)) by lia. lia.
  - split; [|done]. rewrite Hwt, (proj2 (Nat.ltb_lt _ _)) by done. lia.
  - split; [|done]. destruct (r_watcher reg s); [destruct (_ <? _)%nat|]; lia.
  - split; [|done]. destruct (r_watcher reg s); [destruct (_ <? _)%nat|]; lia.
Qed.

(** It always has a step, until it is answered. *)
Lemma read_enabled x i pc :
  reads_inv x → rd_pcs x !! i = Some pc → over (rd_now x) pc → is_done pc = false → ∃ y, own_read i x y.
Proof.
  intros [Hc Hb Hw] Hi Ho Hd. specialize (Hw i pc Hi).
  assert (Hgo : (∃ s' w' pc', read_step (i ∈ rd_left x) (rd_state x) (rd_now x) (rd_waiters x) pc s' w' pc') → ∃ y, own_read i x y).
  { intros (s' & w' & pc' & Hst). eexists. by exists pc, s', w', pc'. }
  apply Hgo. clear Hgo.
  destruct pc as [k r|k r q m f mi dl [|cur ch|ret]|k r q m f|k r q m age entries|]; [done|..|done].
  - destruct Hw as ([wt Hwt] & _). eexists _, _, _. by apply rd_check.
  - eexists _, _, _. by apply rd_timer.
  - eexists _, _, _. apply rd_release. unfold releaseWaiter. pose proof (blocked_in _ _ _ Hi eq_refl).
    destruct (Z.ltb_spec 0 (rd_waiters x)); [done|lia].
  - destruct (r_Resolve reg q m (rd_state x)) as [[[res age]|e] s'] eqn:Er; eexists _, _, _; [by eapply rd_resolved|by eapply rd_failed].
  - eexists _, _, _. apply rd_answer.
Qed.

Lemma start_enabled x i k r : rd_pcs x !! i = Some (RdStart k r) → ∃ y, own_read i x y.
Proof.
  intros Hi. destruct (read_start reg h r (rd_waiters x) (rd_state x)) as [resp|q m f [mi|] ] eqn:Est;
    (eexists; eexists _, _, _, _; split; [exact Hi|split; [|reflexivity] ]); [by apply rd_refused|by apply rd_block|by apply rd_direct].
Qed.

Lemma own_read_spec x y i pc :
  own_read i x y → rd_pcs x !! i = Some pc → over (rd_now x) pc →
  reads_step x y ∧ rd_now y = rd_now x ∧ ∃ pc', rd_pcs y !! i = Some pc' ∧ over (rd_now y) pc' ∧
    (read_rank (rd_state y) pc' < read_rank (rd_state x) pc)%nat.
Proof.
  intros (pc0 & s' & w' & pc' & Hi' & Hst & ->) Hi Ho. rewrite Hi in Hi'. injection Hi' as <-.
  destruct (read_step_rank _ _ _ _ _ _ _ _ Hst Ho) as [Hr Ho']. split; [by eapply rs_read|]. split; [done|].
  exists pc'. cbn [rd_pcs rd_now rd_state]. split; [|done]. apply list_lookup_insert_eq. by eapply lookup_lt_Some.
Qed.

Lemma own_reads x i pc n y :
  reads_inv x → rd_pcs x !! i = Some pc → over (rd_now x) pc → nsteps (own_read i) n x y →
  (n <= read_rank (rd_state x) pc)%nat ∧ (answered i y ∨ ∃ z, own_read i y z).
Proof.
  intros Hinv Hi Ho Hn. revert pc Hinv Hi Ho. induction Hn as [x|n x z y Hst Hn IH]; intros pc Hinv Hi Ho.
  - split; [lia|]. destruct (is_done pc) eqn:Hd; [|right; by eapply read_enabled].
    left. destruct pc; try done. by eexists.
  - destruct (own_read_spec _ _ _ _ Hst Hi Ho) as (Hs & _ & pc' & Hi' & Ho' & Hr).
    destruct (IH pc') as [Hle Hp]; [by eapply reads_inv_step|done|done|]. split; [lia|done].
Qed.

Lemma read_rank_over s now pc : over now pc → (read_rank s pc <= 6)%nat.
Proof.
  destruct pc as [|? ? ? ? ? ? ? [|? ch|]| | |]; simpl; try done; try lia. destruct (r_watcher reg s); [destruct (_ <? _)%nat|]; lia.
Qed.
End Reading.

(** ** Claims *)

(** C15: blocking queries are bounded and never stuck.  In every state of any number of
    concurrent Consul reads, while the registry changes under them, clients leave and time
    passes, the slots taken are exactly the reads inside [WaitForChange] and at most the
    handler's maximum, so a slot is released on every path; a read is turned away with 429
    only when the maximum is blocked; the deadline of a read that waits is at most ten
    minutes away, and its wait is over only because the index of its query is another one
    than it asked about, its deadline has passed or its client has gone; a read that has
    not started can; and a read past its start, and past its deadline if it waits, needs
    nothing else to be answered, no change and no departure: whatever steps of its own it
    takes, it takes at most six and always has one until it is answered. *)
Theorem blocking_reads_bounded {R E} (reg : Registry R E) (h : Handler) (dur : string → option Z) (env : R → R → Prop)
    (s0 : R) (t0 : Z) (x : Reads R) :
  0 <= h_maxWaiters h →
  (∀ s s', env s s' → is_Some (r_watcher reg s) → is_Some (r_watcher reg s')) →
  (∀ q m s, is_Some (r_watcher reg s) → is_Some (r_watcher reg (r_Resolve reg q m s).2)) →
  reads_reachable reg h dur env s0 t0 x →
  rd_waiters x = Z.of_nat (length (blocked_reads (rd_pcs x))) ∧ rd_waiters x <= h_maxWaiters h ∧
  (∀ r, read_start reg h r (rd_waiters x) (rd_state x) = ReadRefused (http_error 429 "too many blocking queries") →
     rd_waiters x = h_maxWaiters h) ∧
  ∀ i pc, rd_pcs x !! i = Some pc →
    match pc with
    | RdStart _ _ => ∃ y, own_read reg h dur i x y
    | RdWait _ _ _ _ _ minIndex deadline wt =>
        deadline <= rd_now x + 600 * second ∧
        ∀ ret, wt = Done ret → ret ≠ minIndex ∨ deadline <= rd_now x ∨ i ∈ rd_left x
    | _ => True
    end ∧
    (match pc with RdStart _ _ => False | RdWait _ _ _ _ _ _ deadline _ => deadline <= rd_now x | _ => True end →
     ∀ n y, nsteps (own_read reg h dur i) n x y → (n <= 6)%nat ∧ (answered i y ∨ ∃ z, own_read reg h dur i y z)).
Proof.
  intros Hm Henv Hres Hr. pose proof (reads_inv_reachable reg h dur env Henv Hres s0 t0 x Hm Hr) as Hinv.
  split_and!; [apply Hinv|apply Hinv|..].
  - intros r. unfold read_start. destruct (compileFilter _); [|done]. destruct (r_watcher reg _); [|done].
    destruct (0 <? blockIndex r); [|done]. destruct (acquireWaiter h (rd_waiters x)) eqn:Ha; [done|]. intros _.
    apply Z.ltb_ge in Ha. pose proof (ri_bound _ _ _ Hinv). lia.
  - intros i pc Hi. split.
    + pose proof (ri_wait _ _ _ Hinv i pc Hi) as Hw. destruct pc; try done; [by eapply start_enabled|].
      destruct Hw as (_ & H2 & _ & H4). split; [done|]. by intros ret ->.
    + intros Ho n y Hn. destruct (own_reads reg h dur env Henv Hres x i pc n y Hinv Hi Ho Hn) as [Hle Hp].
      split; [|done]. pose proof (read_rank_over reg (rd_state x) (rd_now x) pc Ho). lia.
Qed.

(** A seed with one slot, a read that blocks on index 1 and another one turned away. *)
Definition sampleHandler : Handler := NewHandler (mkNodeInfo "n1" "n1" "dc1" "10.0.0.1" [] []) (NewIdentity ∅) None false 1.

Definition blockingRequest : HttpRequest :=
  mkHttpRequest (λ k, if bool_decide (k = "service"%string) then "web"%string else ""%string) "/v1/health/service/web"
    [("index"%string, "1"%string)] (λ _, ""%string).

Definition seedRegistry : Registry Seed StoreError := @StoreRegistry list_order (frozen 5) (sampleNode "n1").

Definition seedEnv (s s' : Seed) : Prop := ∃ op, s' = @seed_op list_order (frozen 5) op s.

Definition sampleReads : Reads Seed :=
  mkReads (NewSeed sampleOptions) 0 1
    [RdWait HealthService blockingRequest (mkQuery "web" "" [] false) ConsistencyDefault None 1 (300 * second) (Waiting 1 0);
     RdDone (http_error 429 "too many blocking queries")] [].

(** Five minutes later: the deadline has passed. *)
Definition lateReads : Reads Seed :=
  mkReads (NewSeed sampleOptions) (300 * second) 1 (rd_pcs sampleReads) [].

Lemma sampleReads_reachable :
  reads_reachable seedRegistry sampleHandler (λ _, None) seedEnv (NewSeed sampleOptions) 0 sampleReads.
Proof.
  pose proof (reads_init seedRegistry sampleHandler (λ _, None) seedEnv (NewSeed sampleOptions) 0) as Hr.
  eapply reads_next in Hr; [|apply (rs_arrives _ _ _ _ _ HealthService blockingRequest)].
  eapply reads_next in Hr; [|apply (rs_arrives _ _ _ _ _ HealthService blockingRequest)].
  eapply reads_next in Hr; [|eapply (rs_read _ _ _ _ _ 0%nat); [reflexivity|apply rd_block; vm_compute; reflexivity]]; cbn in Hr.
  eapply reads_next in Hr; [|eapply (rs_read _ _ _ _ _ 1%nat); [reflexivity|apply rd_refused; vm_compute; reflexivity]]; cbn in Hr.
  eapply reads_next in Hr; [|eapply (rs_read _ _ _ _ _ 0%nat); [reflexivity|by apply rd_check]]; cbn in Hr.
  exact Hr.
Qed.

Lemma seedEnv_watcher s s' : seedEnv s s' → is_Some (r_watcher seedRegistry s) → is_Some (r_watcher seedRegistry s').
Proof. intros [op ->] _. by eexists. Qed.

Lemma lateReads_reachable :
  reads_reachable seedRegistry sampleHandler (λ _, None) seedEnv (NewSeed sampleOptions) 0 lateReads.
Proof. eapply reads_next; [exact sampleReads_reachable|]. by apply (rs_time _ _ _ _ sampleReads (300 * second)). Qed.

Lemma blocking_reads_bounded_witness :
  rd_waiters lateReads = 1 ∧ rd_waiters lateReads <= h_maxWaiters sampleHandler ∧
  (∀ n y, nsteps (own_read seedRegistry sampleHandler (λ _, None) 0) n lateReads y →
     (n <= 6)%nat ∧ (answered 0 y ∨ ∃ z, own_read seedRegistry sampleHandler (λ _, None) 0 y z)).
Proof.
  destruct (blocking_reads_bounded seedRegistry sampleHandler (λ _, None) seedEnv (NewSeed sampleOptions) 0 lateReads)
    as (H1 & H2 & _ & H4); [done|exact seedEnv_watcher|by intros|exact lateReads_reachable|].
  split; [exact H1|]. split; [exact H2|]. apply (H4 0%nat _ eq_refl). vm_compute. discriminate.
Defined.

(** One read with nothing in between. *)
Inductive alone_step {R E} (reg : Registry R E) (h : Handler) (dur : string → option Z) (now : Z) :
    R * Z * ReadPC → R * Z * ReadPC → Prop :=
  | alone_read s w pc s' w' pc' :
      read_step reg h dur False s now w pc s' w' pc' → alone_step reg h dur now (s, w, pc) (s', w', pc').

Lemma alone_done {R E} (reg : Registry R E) h dur now s w resp y :
  rtc (alone_step reg h dur now) (s, w, RdDone resp) y → y = (s, w, RdDone resp).
Proof. intros Hr. inversion Hr as [|? ? ? Hst]; subst; [done|]. inversion Hst as [? ? ? ? ? ? Hrd]; subst. inversion Hrd. Qed.

(** A read past its wait, with nothing in between, answers what the sequential handler
    answers, and leaves the slots as they are. *)
Theorem read_alone_is_serve_read {R E} (reg : Registry R E) (h : Handler) (dur : string → option Z) (now : Z)
    (s s' : R) (w w' : Z) (k : ReadKind) (r : HttpRequest) (q : Query) (m : Consistency) (f : option filterExpr) (resp : HttpResponse) :
  rtc (alone_step reg h dur now) (s, w, RdResolve k r q m f) (s', w', RdDone resp) ↔
  w' = w ∧ (resp, s') = serve_read reg (render k r) q m f (λ s, s) s.
Proof.
  unfold serve_read, read_end. split.
  - intros Hr. inversion Hr as [|? ? ? Hst Hr']; subst. inversion Hst as [? ? ? ? ? ? Hrd]; subst.
    inversion Hrd as [| | | | | | | |? ? ? ? ? e s1 Er|? ? ? ? ? res age s1 Er|]; subst; rewrite Er.
    + apply alone_done in Hr'. by simplify_eq.
    + inversion Hr' as [|? ? ? Hst' Hr2]; subst. inversion Hst' as [? ? ? ? ? ? Hrd']; subst.
      inversion Hrd'; subst. apply alone_done in Hr2. by simplify_eq.
  - intros [-> Hs]. destruct (r_Resolve reg q m s) as [[[res age]|e] s1] eqn:Er; injection Hs as -> ->.
    + eapply rtc_l; [by apply alone_read; eapply rd_resolved|]. apply rtc_once, alone_read, rd_answer.
    + apply rtc_once, alone_read. by eapply rd_failed.
Qed.
