(* ===== verification/Conns.v ===== *)
(** Who owns the connections: the seed client ([New], [Close] and [Seeds] of
    [internal/seedclient/client.go]), the federation pool ([NewPool], [Close], [Stop] of
    [internal/federation/pool.go]) and the deregistrar's drain ([Deregistrar] of
    [internal/seedclient/loops.go]).

    A connection is a number in the set of open ones.  [Transport.Dial] is the gRPC
    library's: whether it accepts an address is the parameter [dial_error], and the error
    a [Close] reports is [close_error]; a closed connection is no longer open either way. *)

From Stdlib Require Import ZArith Lia.
From stdpp Require Import base gmap sets list strings.
From S2P Require Import Prelude GoStrings Model SeedClient.

#[local] Open Scope Z_scope.

(** ** The open connections *)

Record Conns := mkConns { cs_open : gset nat; cs_next : nat }.

Record seedConn := mkSeedConn { sc_addr : string; sc_conn : nat }.

Record SeedConns := mkSeedConns { sl_conns : list seedConn; sl_timeout : Z }.

Inductive NewError := NoSeeds | DialFailed (addr err : string).

Section Dialling.
Context (dial_error : string → option string) (close_error : nat → option string).

Definition Dial (addr : string) (n : Conns) : (string + nat) * Conns :=
  match dial_error addr with
  | Some e => (inl e, n)
  | None => (inr (cs_next n), mkConns ({[ cs_next n ]} ∪ cs_open n) (S (cs_next n)))
  end.

Definition conn_Close (c : nat) (n : Conns) : option string * Conns :=
  (close_error c, mkConns (cs_open n ∖ {[ c ]}) (cs_next n)).

(** ** The seed client *)

(** The connections closed one after the other; the errors are joined. *)
Fixpoint close_loop (conns : list seedConn) (errs : list string) (n : Conns) : list string * Conns :=
  match conns with
  | [] => (errs, n)
  | c :: rest =>
      let '(err, n) := conn_Close (sc_conn c) n in
      close_loop rest (match err with Some e => errs ++ [e] | None => errs end) n
  end.

Definition SeedClient_Close (c : SeedConns) (n : Conns) : list string * Conns := close_loop (sl_conns c) [] n.

(** On a failure the connections made so far are closed. *)
Fixpoint dial_loop (seeds : list string) (conns : list seedConn) (n : Conns) : (NewError + list seedConn) * Conns :=
  match seeds with
  | [] => (inr conns, n)
  | addr :: rest =>
      match Dial addr n with
      | (inl e, n) => (inl (DialFailed addr e), (close_loop conns [] n).2)
      | (inr c, n) => dial_loop rest (conns ++ [mkSeedConn addr c]) n
      end
  end.

Definition defaultSeedTimeout : Z := 3 * second.

Definition SeedClient_New (seeds : list string) (timeout : Z) (n : Conns) : (NewError + SeedConns) * Conns :=
  if (length seeds =? 0)%nat then (inl NoSeeds, n)
  else
    let timeout := if timeout <=? 0 then defaultSeedTimeout else timeout in
    match dial_loop seeds [] n with
    | (inl e, n) => (inl e, n)
    | (inr conns, n) => (inr (mkSeedConns conns timeout), n)
    end.

Definition SeedClient_Seeds (c : SeedConns) : list string := sc_addr <$> sl_conns c.

(** ** The federation pool *)

Record PoolConns := mkPoolConns { pl_local : string; pl_maxHops : Z; pl_clients : gmap string SeedConns }.

(** The loop over the datacenters, in an arbitrary order. *)
Fixpoint pool_loop (local : string) (timeout : Z) (dcs : list (string * list string)) (clients : gmap string SeedConns) (n : Conns)
  : (string * NewError + gmap string SeedConns) * Conns :=
  match dcs with
  | [] => (inr clients, n)
  | (dc, seeds) :: rest =>
      if bool_decide (dc = local) || (length seeds =? 0)%nat then pool_loop local timeout rest clients n
      else match SeedClient_New seeds timeout n with
           | (inl e, n) => (inl (dc, e), n)
           | (inr c, n) => pool_loop local timeout rest (<[dc := c]> clients) n
           end
  end.

Definition Pool_New `{MapRange} (local : string) (maxHops : Z) (datacenters : gmap string (list string)) (timeout : Z) (n : Conns)
  : (string * NewError + PoolConns) * Conns :=
  let maxHops := if maxHops <=? 0 then 1 else maxHops in
  match pool_loop local timeout (range datacenters) ∅ n with
  | (inl e, n) => (inl e, n)
  | (inr clients, n) => (inr (mkPoolConns local maxHops clients), n)
  end.

(** The clients' errors are dropped. *)
Definition Pool_Close `{MapRange} (p : PoolConns) (n : Conns) : Conns :=
  foldl (λ n c, (SeedClient_Close c.2 n).2) n (range (pl_clients p)).

(** The component's [Stop]: its connections, with no error. *)
Definition Pool_Stop `{MapRange} (p : PoolConns) (n : Conns) : option string * Conns := (None, Pool_Close p n).

(** ** The deregistrar *)

(** [Stop]: the node is deregistered from every seed, with the outcomes of the calls, and
    the connections are closed whatever they were. *)
Definition Deregistrar_drain (outcomes : list (string * option CallError)) (c : SeedConns) (n : Conns)
  : WriteResult * list string * Conns :=
  let res := fanOut outcomes in
  let '(errs, n) := SeedClient_Close c n in (res, errs, n).

(** ** Lemmas *)

Definition conn_ids (conns : list seedConn) : gset nat := list_to_set (sc_conn <$> conns).

(** Connections are numbered in order, and none is open twice. *)
Definition conns_ok (n : Conns) : Prop := ∀ c, c ∈ cs_open n → (c < cs_next n)%nat.

Lemma close_loop_spec conns errs n :
  close_loop conns errs n = (errs ++ omap (λ c, close_error (sc_conn c)) conns,
                             mkConns (cs_open n ∖ conn_ids conns) (cs_next n)).
Proof.
  revert errs n. induction conns as [|c conns IH]; intros errs [op nx].
  - cbn. rewrite app_nil_r. do 2 f_equal. unfold conn_ids. cbn. set_solver.
  - cbn [close_loop conn_Close]. rewrite IH. cbn [cs_open cs_next omap list_omap].
    assert (E : op ∖ {[sc_conn c]} ∖ conn_ids conns = op ∖ conn_ids (c :: conns)).
    { unfold conn_ids. cbn. apply set_eq. intros x. set_solver. }
    rewrite E. destruct (close_error (sc_conn c)); [by rewrite <-app_assoc|done].
Qed.

Record dialled (seeds : list string) (n n' : Conns) (new : list seedConn) : Prop := {
  dd_addr : sc_addr <$> new = seeds;
  dd_open : cs_open n' = cs_open n ∪ conn_ids new;
  dd_fresh : ∀ c, c ∈ sc_conn <$> new → (cs_next n <= c < cs_next n')%nat;
  dd_nodup : NoDup (sc_conn <$> new);
  dd_next : cs_next n' = (cs_next n + length seeds)%nat
}.

Lemma dialled_nil n : dialled [] n n [].
Proof.
  split; cbn [fmap list_fmap length]; [done| |by intros c ?%elem_of_nil|constructor|lia].
  unfold conn_ids. cbn. apply set_eq. set_solver.
Qed.

Lemma dial_loop_spec seeds conns n :
  match dial_loop seeds conns n with
  | (inr all, n') => ∃ new, all = conns ++ new ∧ dialled seeds n n' new
  | (inl _, n') => ∃ pre new x, dialled pre n x new ∧ cs_next n' = cs_next x ∧ cs_open n' = cs_open x ∖ conn_ids (conns ++ new)
  end.
Proof.
  revert conns n. induction seeds as [|addr seeds IH]; intros conns n; cbn [dial_loop].
  { exists []. split; [by rewrite app_nil_r|apply dialled_nil]. }
  unfold Dial. destruct (dial_error addr) as [e|] eqn:He.
  - exists [], [], n. rewrite close_loop_spec. cbn [snd cs_next cs_open]. rewrite app_nil_r. split_and!; [apply dialled_nil|done|done].
  - specialize (IH (conns ++ [mkSeedConn addr (cs_next n)]) (mkConns ({[cs_next n]} ∪ cs_open n) (S (cs_next n)))).
    assert (Hcons : ∀ pre new x, dialled pre (mkConns ({[cs_next n]} ∪ cs_open n) (S (cs_next n))) x new →
      dialled (addr :: pre) n x (mkSeedConn addr (cs_next n) :: new)).
    { intros pre new x [H1 H2 H3 H4 H5]. cbn [cs_open cs_next] in *. split; cbn [fmap list_fmap sc_addr sc_conn length].
      - by f_equal.
      - rewrite H2. unfold conn_ids. cbn. apply set_eq. intros y. set_solver.
      - intros c [->|Hc]%elem_of_cons; [lia|]. specialize (H3 c Hc). lia.
      - constructor; [|done]. intros Hc. specialize (H3 _ Hc). lia.
      - lia. }
    destruct (dial_loop seeds _ _) as [[err|all] n'].
    + destruct IH as (pre & new & x & Hd & Hn & Ho). eexists (addr :: pre), _, x. split; [by apply Hcons|].
      split; [done|]. by rewrite Ho, <-app_assoc.
    + destruct IH as (new & -> & Hd). exists (mkSeedConn addr (cs_next n) :: new). split; [by rewrite <-app_assoc|by apply Hcons].
Qed.

Lemma dialled_close seeds n n' new : conns_ok n → dialled seeds n n' new → cs_open n' ∖ conn_ids new = cs_open n.
Proof.
  intros Hok [_ Ho Hf _ _]. rewrite Ho. apply set_eq. intros x. split; [set_solver|]. intros Hx.
  apply elem_of_difference. split; [set_solver|]. unfold conn_ids. rewrite elem_of_list_to_set. intros Hn.
  specialize (Hf x Hn). specialize (Hok x Hx). lia.
Qed.

Lemma dialled_ok seeds n n' new : conns_ok n → dialled seeds n n' new → conns_ok n'.
Proof.
  intros Hok [_ Ho Hf _ Hnx] c. rewrite Ho, elem_of_union. unfold conn_ids. rewrite elem_of_list_to_set.
  intros [Hc|Hc]; [specialize (Hok c Hc)|specialize (Hf c Hc)]; lia.
Qed.

Lemma SeedClient_New_spec seeds timeout n :
  conns_ok n →
  match SeedClient_New seeds timeout n with
  | (inl _, n') => cs_open n' = cs_open n ∧ (cs_next n <= cs_next n')%nat
  | (inr c, n') => dialled seeds n n' (sl_conns c) ∧ seeds ≠ [] ∧ 0 < sl_timeout c
  end.
Proof.
  intros Hok. unfold SeedClient_New. destruct seeds as [|addr seeds]; [done|].
  cbn [length Nat.eqb]. cbv zeta. pose proof (dial_loop_spec (addr :: seeds) [] n) as Hd.
  destruct (dial_loop (addr :: seeds) [] n) as [[e|conns] n'].
  - destruct Hd as (pre & new & x & Hd & Hn & Ho). rewrite Ho. cbn [app]. split; [by eapply dialled_close|].
    rewrite Hn, (dd_next _ _ _ _ Hd). lia.
  - destruct Hd as (new & -> & Hd). cbn [app sl_conns sl_timeout]. split_and!; [done|done|].
    unfold defaultSeedTimeout. destruct (Z.leb_spec timeout 0); [unfold second|]; lia.
Qed.

(** The connections of the clients of a pool. *)
Definition pool_has (clients : gmap string SeedConns) (x : nat) : Prop :=
  ∃ dc c, clients !! dc = Some c ∧ x ∈ conn_ids (sl_conns c).

(** The clients made so far own exactly what has been opened since [n0]. *)
Record pool_owns (n0 : Conns) (clients : gmap string SeedConns) (n : Conns) : Prop := {
  po_ok : conns_ok n;
  po_open : ∀ x, x ∈ cs_open n ↔ x ∈ cs_open n0 ∨ pool_has clients x;
  po_fresh : ∀ x, pool_has clients x → (cs_next n0 <= x)%nat;
  po_next : (cs_next n0 <= cs_next n)%nat
}.

Lemma pool_has_insert clients dc c x :
  clients !! dc = None → pool_has (<[dc := c]> clients) x ↔ x ∈ conn_ids (sl_conns c) ∨ pool_has clients x.
Proof.
  intros Hdc. unfold pool_has. split.
  - intros (dc' & c' & [[<- <-]|[Hne Hc]]%lookup_insert_Some & Hx); [by left|right; eauto].
  - intros [Hx|(dc' & c' & Hc & Hx)]; [exists dc, c; by rewrite lookup_insert_eq|].
    exists dc', c'. rewrite lookup_insert_ne by congruence. done.
Qed.

Lemma pool_loop_spec n0 local timeout dcs clients n :
  NoDup dcs.*1 → (∀ dc, dc ∈ dcs.*1 → clients !! dc = None) → pool_owns n0 clients n →
  match pool_loop local timeout dcs clients n with
  | (inl _, _) => True
  | (inr clients', n') => pool_owns n0 clients' n'
  end.
Proof.
  revert clients n. induction dcs as [|[dc seeds] dcs IH]; intros clients n; cbn [pool_loop]; [done|].
  intros [Hdc Hnd]%NoDup_cons Hfresh Hp. cbn [fmap list_fmap fst] in *.
  destruct (bool_decide (dc = local) || _); [apply IH; [done|intros; apply Hfresh; by right|done]|].
  pose proof (SeedClient_New_spec seeds timeout n (po_ok _ _ _ Hp)) as Hn.
  destruct (SeedClient_New seeds timeout n) as [[e|c] n']; [done|]. destruct Hn as (Hd & _ & _).
  assert (Hno : clients !! dc = None) by (apply Hfresh; by left).
  apply IH; [done| |].
  - intros x Hx. rewrite lookup_insert_ne; [apply Hfresh; by right|]. by intros ->.
  - destruct Hp as [H1 H2 H3 H4]. split.
    + by eapply dialled_ok.
    + intros x. rewrite (dd_open _ _ _ _ Hd), elem_of_union, H2, pool_has_insert by done. tauto.
    + intros x. rewrite pool_has_insert by done. unfold conn_ids. rewrite elem_of_list_to_set.
      intros [Hx|Hx]; [|by apply H3]. apply (dd_fresh _ _ _ _ Hd) in Hx. lia.
    + rewrite (dd_next _ _ _ _ Hd). lia.
Qed.

Lemma close_clients_spec (cs : list (string * SeedConns)) n x :
  x ∈ cs_open (foldl (λ n c, (SeedClient_Close c.2 n).2) n cs) ↔
  x ∈ cs_open n ∧ ∀ c, c ∈ cs → x ∉ conn_ids (sl_conns c.2).
Proof.
  revert n. induction cs as [|c cs IH]; intros n; cbn [foldl]; [split; [intros Hx; split; [done|by intros c ?%elem_of_nil]|tauto]|].
  rewrite IH. unfold SeedClient_Close. rewrite close_loop_spec. cbn [snd cs_open]. rewrite elem_of_difference. split.
  - intros [[H1 H2] H3]. split; [done|]. intros c' [->|Hc]%elem_of_cons; [done|by apply H3].
  - intros [H1 H2]. split; [split; [done|apply H2; by left]|]. intros c' Hc. apply H2. by right.
Qed.
End Dialling.

(** ** Claims *)

(** Connections are neither leaked nor closed twice by a seed client: when [New] fails,
    for whichever seed, every connection it had made is closed again; when it succeeds it
    owns one new connection per seed, in order, under a positive timeout, and [Close], like
    the deregistrar's [Stop] whatever its calls answered, closes exactly those and reports
    every error. *)
Theorem seed_client_lifecycle (dial_error : string → option string) (close_error : nat → option string)
    (seeds : list string) (timeout : Z) (n : Conns) (outcomes : list (string * option CallError)) :
  conns_ok n →
  match SeedClient_New dial_error close_error seeds timeout n with
  | (inl _, n') => cs_open n' = cs_open n
  | (inr c, n') =>
      SeedClient_Seeds c = seeds ∧ 0 < sl_timeout c ∧ NoDup (sc_conn <$> sl_conns c) ∧
      (∀ x, x ∈ sc_conn <$> sl_conns c → x ∈ cs_open n' ∧ x ∉ cs_open n) ∧
      cs_open (SeedClient_Close close_error c n').2 = cs_open n ∧
      (SeedClient_Close close_error c n').1 = omap (λ x, close_error (sc_conn x)) (sl_conns c) ∧
      Deregistrar_drain close_error outcomes c n' =
        (fanOut outcomes, (SeedClient_Close close_error c n').1, (SeedClient_Close close_error c n').2)
  end.
Proof.
  intros Hok. pose proof (SeedClient_New_spec dial_error close_error seeds timeout n Hok) as Hn.
  destruct (SeedClient_New _ _ _ _ _) as [[e|c] n']; [by destruct Hn|]. destruct Hn as (Hd & _ & Ht).
  unfold SeedClient_Close, Deregistrar_drain, SeedClient_Close. rewrite close_loop_spec. cbn [fst snd cs_open app].
  split_and!; [apply Hd|done|apply Hd| |by eapply dialled_close|done|done].
  intros x Hx. split.
  - rewrite (dd_open _ _ _ _ Hd), elem_of_union. right. unfold conn_ids. by rewrite elem_of_list_to_set.
  - intros Ho. apply Hok in Ho. apply (dd_fresh _ _ _ _ Hd) in Hx. lia.
Qed.

Lemma seed_client_lifecycle_witness :
  let new seeds := SeedClient_New (λ a, if bool_decide (a = "%zz"%string) then Some "bad target"%string else None)
                     (λ _, None) seeds 0 (mkConns {[ 3%nat ]} 4) in
  cs_open (new ["a:9900"; "%zz"]%string).2 = {[ 3%nat ]} ∧
  ∃ c, (new ["a:9900"; "b:9900"]%string).1 = inr c ∧ SeedClient_Seeds c = ["a:9900"; "b:9900"]%string.
Proof.
  assert (Hok : conns_ok (mkConns {[ 3%nat ]} 4)) by (intros c Hc; cbn in *; apply elem_of_singleton in Hc as ->; lia).
  cbv zeta. split.
  - exact (seed_client_lifecycle (λ a, if bool_decide (a = "%zz"%string) then Some "bad target"%string else None)
      (λ _, None) ["a:9900"; "%zz"]%string 0 (mkConns {[ 3%nat ]} 4) [] Hok).
  - pose proof (seed_client_lifecycle (λ a, if bool_decide (a = "%zz"%string) then Some "bad target"%string else None)
      (λ _, None) ["a:9900"; "b:9900"]%string 0 (mkConns {[ 3%nat ]} 4) [] Hok) as [Hs _].
    eexists. split; [reflexivity|exact Hs].
Defined.

(** A pool that was built gives back on [Close], its [Stop], exactly the connections it
    opened, in whatever order the datacenters are visited. *)
Theorem pool_lifecycle `{MapRange} (dial_error : string → option string) (close_error : nat → option string)
    (local : string) (maxHops timeout : Z) (dcs : gmap string (list string)) (n n' : Conns) (p : PoolConns) :
  conns_ok n → Pool_New dial_error close_error local maxHops dcs timeout n = (inr p, n') →
  cs_open n ⊆ cs_open n' ∧ cs_open (Pool_Close close_error p n') = cs_open n ∧ 1 <= pl_maxHops p.
Proof.
  intros Hok. unfold Pool_New.
  pose proof (pool_loop_spec dial_error close_error n local timeout (range dcs) ∅ n) as Hl.
  destruct (pool_loop _ _ _ _ _ _ _) as [[e|clients] n1]; [done|]. intros [= <- <-].
  destruct Hl as [H1 H2 H3 H4]; [apply NoDup_range_fst|intros; apply lookup_empty| |].
  { split; [done| |by intros x (dc & c & Hc & _)|done]. intros x. split; [by left|]. by intros [|(dc & c & Hc & _)]. }
  split_and!; [|apply set_eq; intros x; unfold Pool_Close; rewrite close_clients_spec; cbn [pl_clients pl_maxHops]|].
  - intros x Hx. apply H2. by left.
  - rewrite H2. split.
    + intros [[Hx|(dc & c & Hc & Hx)] Hno]; [done|]. exfalso. apply (Hno (dc, c)); [by apply elem_of_range|done].
    + intros Hx. split; [by left|]. intros [dc c] Hc%elem_of_range Hin. apply Hok in Hx.
      assert (Hph : pool_has clients x) by (by exists dc, c). apply H3 in Hph. lia.
  - simpl. destruct (Z.leb_spec maxHops 0); lia.
Qed.

(** A pool that cannot be built leaks: the clients already made for other datacenters are
    dropped with their connections open. *)
Theorem pool_failure_leaks :
  let r := Pool_New (H := list_order) (λ a, if bool_decide (a = "%zz"%string) then Some "bad target"%string else None) (λ _, None)
    "dc1" 1 (<["dc3" := ["a:9900"%string]]> {["dc2" := ["%zz"%string]]})%string 0 (mkConns ∅ 0) in
  r.1 = inl ("dc2"%string, DialFailed "%zz" "bad target") ∧ cs_open r.2 = {[ 0%nat ]}.
Proof. vm_compute. split; reflexivity. Qed.
