(* ===== verification/Listen.v ===== *)
(** The listening components and the transport below them: the HTTP server component
    ([internal/httpcomp/httpcomp.go]), the Consul DNS listeners
    ([internal/consuldns/component.go]), the assembly of the gRPC server
    ([NewComponent] of [internal/server/component.go]) and the transport that applies the
    credentials ([internal/transport/transport.go]).

    A component is its [Start], the goroutines it makes and its [Stop], interleaved.  Of
    [net/http] the model has what its documentation says: [Serve] closes its listener when
    it returns, and returns [ErrServerClosed] once [Shutdown] was called, before or after.
    The DNS server is the library's: the class [DnsServer]. *)

From Stdlib Require Import ZArith Lia.
From stdpp Require Import base list strings relations.
From S2P Require Import Prelude Cred.

#[local] Open Scope Z_scope.

(** ** The HTTP component *)

Record HttpComp := mkHttpComp { hc_name : string; hc_addr : string; hc_readHeaderTimeout : Z }.

Definition httpcomp_New (name addr : string) : HttpComp := mkHttpComp name addr (5 * second).

(** [consul.NewComponent]. *)
Definition consul_NewComponent (addr : string) : HttpComp := httpcomp_New "consul-http" addr.

(** [Start]: not bound; in its select; returned. *)
Inductive BindPC := LNew | LServing | LReturned (err : option string).

(** The goroutine that calls [Serve]. *)
Inductive ServePC := SvNone | SvServing | SvReturned.

(** [Stop]: not called; in [Shutdown]; returned. *)
Inductive HStopPC := HNot | HShutdown | HStopped (err : option string).

(** [hs_lis]: the listener accepts; [hs_down]: [Shutdown] was called; [hs_errCh]: what the
    goroutine left in its channel; [hs_done]: the context has ended. *)
Record HState := mkHState {
  hs_pc : BindPC; hs_serve : ServePC; hs_lis : bool; hs_down : bool;
  hs_errCh : option (option string); hs_done : bool; hs_stop : HStopPC
}.

Definition http_init : HState := mkHState LNew SvNone false false None false HNot.

Inductive http_step : HState → HState → Prop :=
  | ht_cancel pc sv l d e st : http_step (mkHState pc sv l d e false st) (mkHState pc sv l d e true st)
  (** [Start]. *)
  | ht_bind_fails sv l d e x st err :
      http_step (mkHState LNew sv l d e x st) (mkHState (LReturned (Some err)) sv l d e x st)
  | ht_bind sv l d e x st : http_step (mkHState LNew sv l d e x st) (mkHState LServing SvServing true d e x st)
  | ht_done sv l d e st : http_step (mkHState LServing sv l d e true st) (mkHState (LReturned None) sv l d e true st)
  | ht_err sv l d err x st :
      http_step (mkHState LServing sv l d (Some err) x st) (mkHState (LReturned err) sv l d None x st)
  (** The goroutine: [Serve] fails, or returns [ErrServerClosed]. *)
  | ht_serve_fails pc l x st err :
      http_step (mkHState pc SvServing l false None x st) (mkHState pc SvReturned false false (Some (Some err)) x st)
  | ht_serve_closed pc l x st :
      http_step (mkHState pc SvServing l true None x st) (mkHState pc SvReturned false true (Some None) x st)
  (** [Stop]; [Shutdown] closes the listeners [Serve] has registered by then. *)
  | ht_stop pc sv l d e x seen :
      http_step (mkHState pc sv l d e x HNot) (mkHState pc sv (l && negb seen) true e x HShutdown)
  | ht_stopped pc sv l d e x err :
      http_step (mkHState pc sv l d e x HShutdown) (mkHState pc sv l d e x (HStopped err)).

Definition http_reachable : HState → Prop := rtc http_step http_init.

(** ** The DNS component *)

(** What the component uses of [dns.Server]: a new server does not serve, and shutting down
    one that serves ends that. *)
Class DnsServer (S : Type) := {
  dns_new : S;
  dns_up : S → bool;
  ActivateAndServe : S → S;
  ShutdownContext : S → S;
  dns_new_down : dns_up dns_new = false;
  dns_activated : dns_up (ActivateAndServe dns_new) = true;
  dns_shut : ∀ s, dns_up s = true → dns_up (ShutdownContext s) = false
}.

(** One such server; shutting down one that was not started does nothing. *)
#[export] Instance flag_server : DnsServer bool.
Proof.
  refine {| dns_new := false; dns_up b := b; ActivateAndServe _ := true; ShutdownContext _ := false |}; done.
Defined.

Section Dns.
Context {S : Type} `{DnsServer S}.

(** [Start]: not bound; the packet socket bound; in its select; returned. *)
Inductive DnsPC := DNew | DUdp | DServing | DReturned (err : option string).

(** A goroutine: not made; made; in [ActivateAndServe]; returned. *)
Inductive GoPC := GoNone | GoPending | GoServing | GoReturned.

(** [ds_udp] and [ds_tcp] are the component's fields; [ds_ready]: the channel [Addr] waits
    on is closed; [ds_addr] what it returns; [ds_errCh]: what the goroutines have sent. *)
Record DState := mkDState {
  ds_pc : DnsPC; ds_udp : option S; ds_tcp : option S; ds_udpGo : GoPC; ds_tcpGo : GoPC;
  ds_ready : bool; ds_addr : option string; ds_errCh : list (option string); ds_done : bool; ds_stopped : bool
}.

Definition dns_init : DState := mkDState DNew None None GoNone GoNone false None [] false false.

(** A goroutine in [ActivateAndServe]: it starts serving, or returns, with an error or
    because the server was shut down. *)
Inductive go_step : S * GoPC * list (option string) → S * GoPC * list (option string) → Prop :=
  | go_activate s e : go_step (s, GoPending, e) (ActivateAndServe s, GoServing, e)
  | go_closed s e : dns_up s = false → go_step (s, GoServing, e) (s, GoReturned, e ++ [None])
  | go_fails s s' e err : dns_up s' = false → go_step (s, GoServing, e) (s', GoReturned, e ++ [Some err]).

Inductive dns_step (addr : string) : DState → DState → Prop :=
  | dt_cancel pc u t gu gt r a e st : dns_step addr (mkDState pc u t gu gt r a e false st) (mkDState pc u t gu gt r a e true st)
  (** [Start]. *)
  | dt_udp_fails u t gu gt r a e x st err :
      dns_step addr (mkDState DNew u t gu gt r a e x st) (mkDState (DReturned (Some err)) u t gu gt true a e x st)
  | dt_udp u t gu gt r a e x st : dns_step addr (mkDState DNew u t gu gt r a e x st) (mkDState DUdp u t gu gt r a e x st)
  | dt_tcp_fails u t gu gt r a e x st err :
      dns_step addr (mkDState DUdp u t gu gt r a e x st) (mkDState (DReturned (Some err)) u t gu gt true a e x st)
  | dt_tcp u t gu gt r a e x st :
      dns_step addr (mkDState DUdp u t gu gt r a e x st)
        (mkDState DServing (Some dns_new) (Some dns_new) GoPending GoPending true (Some addr) e x st)
  | dt_done u t gu gt r a e st : dns_step addr (mkDState DServing u t gu gt r a e true st) (mkDState (DReturned None) u t gu gt r a e true st)
  | dt_err u t gu gt r a err e x st :
      dns_step addr (mkDState DServing u t gu gt r a (err :: e) x st) (mkDState (DReturned err) u t gu gt r a e x st)
  (** The goroutines. *)
  | dt_go_udp pc s s' t g g' gt r a e e' x st : go_step (s, g, e) (s', g', e') →
      dns_step addr (mkDState pc (Some s) t g gt r a e x st) (mkDState pc (Some s') t g' gt r a e' x st)
  | dt_go_tcp pc u s s' gu g g' r a e e' x st : go_step (s, g, e) (s', g', e') →
      dns_step addr (mkDState pc u (Some s) gu g r a e x st) (mkDState pc u (Some s') gu g' r a e' x st)
  (** [Stop], on the servers it finds. *)
  | dt_stop pc u t gu gt r a e x :
      dns_step addr (mkDState pc u t gu gt r a e x false) (mkDState pc (ShutdownContext <$> u) (ShutdownContext <$> t) gu gt r a e x true).

Definition dns_reachable (addr : string) : DState → Prop := rtc (dns_step addr) dns_init.

(** A server of the component that serves. *)
Definition up (s : option S) : bool := match s with Some s => dns_up s | None => false end.
End Dns.
Arguments DState : clear implicits.

(** ** The gRPC server *)

(** The options of a [grpc.Server] in the order they are given. *)
Inductive Interceptor := IObserve | IAuthz (authz : Authorizer) | IAudit.

Inductive ServerOption (C : Type) := OptCreds (c : C) | OptUnary (chain : list Interceptor) | OptStream (chain : list Interceptor).
Arguments OptCreds {C}. Arguments OptUnary {C}. Arguments OptStream {C}.

(** [cred.Credentials]: [None] is the insecure one, which adds no server option. *)
Definition creds_ServerOptions {C} (creds : option C) : list (ServerOption C) :=
  match creds with Some c => [OptCreds c] | None => [] end.

(** [secured.NewServer]: the credentials, then what the caller passes. *)
Definition transport_NewServer {C} (creds : option C) (opts : list (ServerOption C)) : list (ServerOption C) :=
  creds_ServerOptions creds ++ opts.

Definition transport_New {C} (creds : option C) : option C := creds.

Definition transport_Insecure {C} : option C := transport_New None.

(** [server.Options], as far as the assembly reads them; [None]: a nil field.
    [go_extra]: the services [RegisterExtra] registers. *)
Record GrpcOptions (C : Type) := mkGrpcOptions {
  go_addr : string; go_transport : option (option C); go_authz : option Authorizer;
  go_drain : Z; go_startNotReady : bool; go_extra : list string
}.
Arguments go_addr {C}. Arguments go_transport {C}. Arguments go_authz {C}.
Arguments go_drain {C}. Arguments go_startNotReady {C}. Arguments go_extra {C}.

(** What is registered on the server, in order. *)
Inductive Registered := RAgentService | RExtra (service : string) | RHealth | RReflection.

Record GrpcServerConf (C : Type) := mkGrpcServerConf {
  gc_addr : string; gc_options : list (ServerOption C); gc_services : list Registered; gc_drain : Z; gc_startNotReady : bool
}.
Arguments mkGrpcServerConf {C}. Arguments gc_addr {C}. Arguments gc_options {C}.
Arguments gc_services {C}. Arguments gc_drain {C}. Arguments gc_startNotReady {C}.

Definition grpc_NewComponent {C} (o : GrpcOptions C) : GrpcServerConf C :=
  let authz := default (NewAuthorizer ModeDisabled) (go_authz o) in
  let t := default transport_Insecure (go_transport o) in
  mkGrpcServerConf (go_addr o)
    (transport_NewServer t [OptUnary [IObserve; IAuthz authz; IAudit]; OptStream [IObserve]])
    ([RAgentService] ++ (RExtra <$> go_extra o) ++ [RHealth; RReflection])
    (go_drain o) (go_startNotReady o).

(** ** Lemmas *)

Definition http_measure (s : HState) : nat :=
  (match hs_pc s with LNew => 3 | LServing => 1 | LReturned _ => 0 end) +
  (match hs_serve s with SvServing => 1 | _ => 0 end) +
  (match hs_stop s with HNot => 2 | HShutdown => 1 | HStopped _ => 0 end) + (if hs_done s then 0 else 1).

(** The listener accepts only while its goroutine serves, which sends once; a stopped
    server is down, and before a return [Start] has not looked at the channel. *)
Record http_inv (s : HState) : Prop := {
  hi_lis : hs_lis s = true → hs_serve s = SvServing;
  hi_new : hs_pc s = LNew → hs_serve s = SvNone;
  hi_bound : hs_pc s = LServing → hs_serve s ≠ SvNone;
  hi_sent : hs_serve s ≠ SvReturned → hs_errCh s = None;
  hi_down : hs_stop s ≠ HNot → hs_down s = true
}.

Lemma http_inv_step s s' : http_inv s → http_step s s' → http_inv s'.
Proof.
  intros [H1 H2 H3 H4 H5] Hst. destruct Hst; simpl in *; split; simpl; intros; try done; auto.
  - apply H4. by rewrite H2.
  - discriminate (H2 ltac:(assumption)).
  - discriminate (H2 ltac:(assumption)).
  - apply H1. by destruct l.
Qed.

Lemma http_inv_reachable s : http_reachable s → http_inv s.
Proof.
  intros Hr. apply (rtc_ind_r (R := http_step) http_inv http_init); [by split| |exact Hr].
  intros x y _ Hst Hi. by eapply http_inv_step.
Qed.

Lemma http_measure_step s s' : http_inv s → http_step s s' → (http_measure s' < http_measure s)%nat.
Proof.
  intros [_ Hnew _ _ _] Hst. destruct Hst; unfold http_measure; simpl in *; try lia.
Qed.

Lemma http_nsteps n s s' : http_inv s → nsteps http_step n s s' → (n + http_measure s' <= http_measure s)%nat ∧ http_inv s'.
Proof.
  intros Hi Hn. induction Hn as [s|n s1 s2 s3 Hst _ IH]; [split; [lia|done]|].
  pose proof (http_measure_step _ _ Hi Hst). destruct IH as [H1 H2]; [by eapply http_inv_step|]. split; [lia|done].
Qed.

(** The next thing to happen to a component that is being stopped. *)
Lemma http_progress s :
  http_inv s → hs_stop s ≠ HNot → hs_done s = true →
  (∃ s', http_step s s') ∨
  (hs_lis s = false ∧ hs_serve s ≠ SvServing ∧ (∃ e, hs_pc s = LReturned e) ∧ ∃ e, hs_stop s = HStopped e).
Proof.
  intros [H1 H2 H3 H4 H5] Hst Hd. destruct s as [pc sv l d e x st]; simpl in *. subst x. rewrite (H5 Hst) in *.
  destruct pc as [| |err]; [left; eexists; apply ht_bind|left; eexists; apply ht_done|].
  destruct st as [| |err']; [done|left; eexists; by apply (ht_stopped _ _ _ _ _ _ None)|].
  destruct sv; [right|left|right].
  - split_and!; [by destruct l; [specialize (H1 eq_refl)|]|done|by eexists|by eexists].
  - rewrite H4 by done. eexists. apply ht_serve_closed.
  - split_and!; [by destruct l; [specialize (H1 eq_refl)|]|done|by eexists|by eexists].
Qed.

Lemma http_stopping_kept s s' :
  hs_stop s ≠ HNot → hs_done s = true → http_step s s' → hs_stop s' ≠ HNot ∧ hs_done s' = true.
Proof. intros H1 H2 Hst. by destruct Hst. Qed.

Lemma http_stopping_rtc s s' :
  http_inv s → hs_stop s ≠ HNot → hs_done s = true → rtc http_step s s' → http_inv s' ∧ hs_stop s' ≠ HNot ∧ hs_done s' = true.
Proof.
  intros Hi H1 H2 Hr. induction Hr as [|x y z Hst _ IH]; [done|].
  destruct (http_stopping_kept _ _ H1 H2 Hst). apply IH; [by eapply http_inv_step|done..].
Qed.

Section DnsLemmas.
Context {S : Type} `{DnsServer S} (addr : string).

(** Both servers were shut down while they served: they stay down. *)
Definition dns_down (s : DState S) : Prop :=
  ds_stopped s = true ∧ ds_pc s ≠ DNew ∧ ds_pc s ≠ DUdp ∧
  up (ds_udp s) = false ∧ up (ds_tcp s) = false ∧
  (ds_udpGo s = GoServing ∨ ds_udpGo s = GoReturned) ∧ (ds_tcpGo s = GoServing ∨ ds_tcpGo s = GoReturned).

Lemma dns_down_step s s' : dns_down s → dns_step addr s s' → dns_down s'.
Proof.
  intros (H1 & H2 & H3 & H4 & H5 & H6 & H7) Hst. unfold dns_down.
  destruct Hst as [| | | | | | |? ? ? ? ? ? ? ? ? ? ? ? ? Hg|? ? ? ? ? ? ? ? ? ? ? ? ? Hg|]; simpl in *; try done;
    inversion Hg; subst; simpl in *; split_and!; try done; try (by right); naive_solver.
Qed.

(** What has been bound and announced. *)
Definition dns_inv (s : DState S) : Prop :=
  let none := ds_addr s = None ∧ ds_udp s = None ∧ ds_tcp s = None in
  let both := ds_addr s = Some addr ∧ is_Some (ds_udp s) ∧ is_Some (ds_tcp s) in
  match ds_pc s with
  | DNew | DUdp => ds_ready s = false ∧ none
  | DServing => ds_ready s = true ∧ both
  | DReturned _ => ds_ready s = true ∧ (none ∨ both)
  end.

Lemma dns_inv_reachable s : dns_reachable addr s → dns_inv s.
Proof.
  intros Hr. apply (rtc_ind_r (R := dns_step addr) dns_inv dns_init); [done|clear s Hr|exact Hr].
  intros s s' _ Hst Hi. unfold dns_inv in *.
  destruct Hst as [pc|u|u|u|u|u|u|pc s s' t g g' gt r a e e' x st Hg|pc u s s' gu g g' r a e e' x st Hg|pc]; simpl in *.
  1, 10: destruct pc; rewrite ?fmap_None, ?fmap_is_Some; done.
  1-6: intuition eauto.
  all: destruct pc; try by destruct Hi as (_ & _ & ? & ?).
  all: destruct Hi as [-> Hi]; (split; [done|]); try (right; destruct Hi as [(_ & ? & ?)|Hi]; [done|]); destruct Hi as (-> & Hi1 & Hi2); split_and!; try done; by eexists.
Qed.
End DnsLemmas.

(** ** Claims *)

(** Stopping an HTTP component closes it, wherever its [Start] is.  From any state in
    which [Stop] has been called and the context has ended, even before [Start] has bound
    its listener, at most five steps are left, and when none is, [Start] and [Stop] have
    returned, the goroutine does not serve and the listener accepts no more. *)
Theorem http_component_stops (s : HState) :
  http_reachable s → hs_stop s ≠ HNot → hs_done s = true →
  (∀ n s', nsteps http_step n s s' → (n <= 5)%nat) ∧
  (∀ s', rtc http_step s s' → (∃ s'', http_step s' s'') ∨
     (hs_lis s' = false ∧ hs_serve s' ≠ SvServing ∧ (∃ e, hs_pc s' = LReturned e) ∧ ∃ e, hs_stop s' = HStopped e)).
Proof.
  intros Hr%http_inv_reachable Hst Hd. split.
  - intros n s' Hn. apply (http_nsteps _ _ _ Hr) in Hn as [Hn _]. unfold http_measure in Hn. rewrite Hd in Hn.
    destruct (hs_pc s), (hs_serve s), (hs_stop s); done || lia.
  - intros s' Hs'. destruct (http_stopping_rtc s s' Hr Hst Hd Hs') as (H1 & H2 & H3). by apply http_progress.
Qed.

(** A component stopped before its [Start] has run. *)
Lemma http_component_stops_witness :
  let s := mkHState LNew SvNone false true None true HShutdown in
  (∀ n s', nsteps http_step n s s' → (n <= 5)%nat) ∧ ∃ s', http_step s s'.
Proof.
  assert (Hr : http_reachable (mkHState LNew SvNone false true None true HShutdown)).
  { eapply rtc_l; [apply ht_cancel|]. eapply rtc_l; [apply (ht_stop _ _ _ _ _ _ false)|]. apply rtc_refl. }
  intros s. destruct (http_component_stops s Hr) as [H1 H2]; [done|done|]. split; [exact H1|].
  destruct (H2 s) as [Hs|(_ & _ & [e He] & _)]; [apply rtc_refl|exact Hs|discriminate].
Defined.

(** [Addr] answers as soon as [Start] knows: once the channel it waits on is closed it
    returns the bound address when both sockets were bound, and nothing when either could
    not be; [Start] never returns with the channel open. *)
Theorem dns_addr_answers {S} `{DnsServer S} (addr : string) (s : DState S) :
  dns_reachable addr s →
  (∀ err, ds_pc s = DReturned err → ds_ready s = true) ∧
  (ds_ready s = true → if ds_addr s then ds_addr s = Some addr ∧ is_Some (ds_udp s) ∧ is_Some (ds_tcp s)
                       else ds_udp s = None ∧ ds_tcp s = None).
Proof.
  intros Hi%dns_inv_reachable. unfold dns_inv in Hi. split.
  - intros err E. rewrite E in Hi. by destruct Hi.
  - intros Hr. rewrite Hr in Hi. destruct (ds_pc s); destruct Hi as [E Hi]; try done.
    + destruct Hi as (-> & ? & ?). done.
    + destruct Hi as [(-> & ? & ?)|(-> & ? & ?)]; done.
Qed.

(** Stopping the DNS component while both its servers serve takes both down for good. *)
Theorem dns_stop_closes {S} `{DnsServer S} (addr : string) (s s' s'' : DState S) :
  dns_reachable addr s → up (ds_udp s) = true → up (ds_tcp s) = true → ds_udpGo s = GoServing → ds_tcpGo s = GoServing →
  dns_step addr s s' → ds_stopped s = false → ds_stopped s' = true → rtc (dns_step addr) s' s'' →
  up (ds_udp s'') = false ∧ up (ds_tcp s'') = false.
Proof.
  intros Hr Hu Ht Hgu Hgt Hst Hs Hs' Hrtc.
  assert (Hd : dns_down s').
  { apply dns_inv_reachable in Hr. destruct Hst; simpl in *; try congruence. unfold dns_down; simpl.
    unfold dns_inv in Hr; simpl in Hr. subst gu gt. destruct u as [u|], t as [t|]; try done. simpl in *.
    rewrite !dns_shut by done. split_and!; try done; try (by left); intros ->; by destruct Hr as (_ & _ & ? & _). }
  clear Hst. assert (dns_down s'') as (_ & _ & _ & H1 & H2 & _); [|done].
  apply (rtc_ind_r (R := dns_step addr) dns_down s'); [done| |done]. intros x y _ Hxy Hx. by eapply dns_down_step.
Qed.

(** A [Stop] that comes before [Start] has bound does nothing, and [Start] goes on: it
    returns without an error, its context having ended, and leaves both servers serving
    with nobody to stop them. *)
Theorem dns_stop_before_bind {S} `{DnsServer S} (addr : string) :
  ∃ s, dns_reachable addr s ∧ ds_stopped s = true ∧ ds_pc s = DReturned None ∧
    up (ds_udp s) = true ∧ up (ds_tcp s) = true.
Proof.
  eexists. split.
  - eapply rtc_l; [apply dt_cancel|]. eapply rtc_l; [apply dt_stop|]. eapply rtc_l; [apply dt_udp|].
    eapply rtc_l; [apply dt_tcp|]. eapply rtc_l; [apply dt_done|].
    eapply rtc_l; [apply dt_go_udp, go_activate|]. eapply rtc_l; [apply dt_go_tcp, go_activate|]. apply rtc_refl.
  - simpl. rewrite dns_activated. done.
Qed.
