(* ===== verification/Widths.v ===== *)
(** Machine widths: the integers of the registry stay inside the Go types that hold them.

    The model's integers are unbounded; the code's are [uint16] ports, [uint32] weights,
    [uint64] generations and indexes and [int64] durations.  Here a value is typed when
    each of its integers is in the range of its Go type, and the operations of the
    registry ([internal/store/store.go]), the wire conversions
    ([internal/protoconv/protoconv.go]) and the handlers ([internal/server/service.go])
    take typed values to typed values, so no store into a narrower field ever truncates. *)

From Stdlib Require Import ZArith Lia.
From stdpp Require Import base gmap list strings.
From S2P Require Import Prelude GoStrings Model Health Store StoreSteps StoreInv StoreSpec StoreLookup.
From S2P Require Import StoreOps StoreGC StoreMerge Watch Protoconv Cred Server.

#[local] Open Scope Z_scope.

(** ** Typed values *)

Definition is_u16 (z : Z) : Prop := 0 <= z < 2 ^ 16.

Definition is_u32 (z : Z) : Prop := 0 <= z < 2 ^ 32.

Record typed_service (d : ServiceInstance) : Prop := {
  ty_port : is_u16 (Svc_Port d);
  ty_passing : is_u32 (Passing (Svc_Weights d));
  ty_warning : is_u32 (Warning (Svc_Weights d));
  ty_ttl : is_i64 (Svc_TTL d);
  ty_generation : is_u64 (Svc_Generation d)
}.

Record typed_entry (e : ServiceEntry) : Prop := {
  ty_service : typed_service (Entry_Service e);
  ty_create : is_u64 (Entry_CreateIndex e);
  ty_modify : is_u64 (Entry_ModifyIndex e)
}.

Record typed_options (o : Options) : Prop := {
  ty_default : is_i64 (DefaultTTL o);
  ty_min : is_i64 (MinTTL o);
  ty_max : is_i64 (MaxTTL o);
  ty_start : is_u64 (StartIndex o)
}.

Record typed_record (svc : service) : Prop := {
  ty_def : typed_service (def svc);
  ty_createIndex : is_u64 (createIndex svc);
  ty_modifyIndex : is_u64 (modifyIndex svc)
}.

Record typed_memory (m : Memory) : Prop := {
  ty_opts : typed_options (opts m);
  ty_index : is_u64 (index m);
  ty_stored : ∀ nid id svc, lookup_service m nid id = Some svc → typed_record svc
}.

Definition typed_op (op : Op) : Prop :=
  match op with
  | OpRegister reg => is_u64 (Reg_Generation reg) ∧ Forall typed_service (Reg_Services reg)
  | OpMerge es => Forall (typed_service ∘ Entry_Service) es
  | _ => True
  end.

Definition typed_event (e : ChangeEvent) : Prop := typed_entry (Event_Entry e) ∧ is_u64 (Event_Index e).

(** *** Messages *)

Definition typed_weights (w : option PbWeights) : Prop :=
  match w with Some w => is_u32 (pbw_passing w) ∧ is_u32 (pbw_warning w) | None => True end.

Definition typed_pb_service (p : option PbService) : Prop :=
  match p with
  | Some p => is_u32 (pbs_port p) ∧ is_u32 (pbs_ttl_seconds p) ∧ typed_weights (pbs_weights p)
  | None => True
  end.

Definition typed_pb_registration (p : option PbRegistration) : Prop :=
  match p with Some p => is_u64 (pbr_generation p) ∧ Forall typed_pb_service (pbr_services p) | None => True end.

Definition typed_pb_entry (p : option PbEntry) : Prop :=
  match p with
  | Some p => typed_pb_service (pbe_service p) ∧ is_u64 (pbe_generation p) ∧ is_i64 (pbe_last_seen_unix_nano p)
  | None => True
  end.

Definition typed_pb_lookup (p : PbLookupResponse) : Prop := is_u64 (pbl_index p) ∧ Forall typed_pb_entry (pbl_entries p).

Definition typed_request (r : Request) : Prop :=
  match r with RegisterRequest r => typed_pb_registration r | _ => True end.

Definition typed_response (r : Code + Response) : Prop :=
  match r with inr (LookupResponse p) => typed_pb_lookup p | _ => True end.

(** ** The registry *)

Create HintDb typed discriminated.

Lemma clampTTL_typed m d : typed_options (opts m) → is_i64 d → is_i64 (clampTTL m d).
Proof.
  intros [H1 H2 H3 _] Hd. unfold clampTTL. cbv zeta. by repeat case_match.
Qed.

Lemma entry_typed mt svc st : typed_record svc → typed_entry (entry mt svc st).
Proof. by intros []. Qed.

Lemma putEvent_typed m mt svc now : typed_record svc → typed_event (putEvent m mt svc now).
Proof. intros H. split; [by apply entry_typed|by apply H]. Qed.

Lemma deleteEvent_typed mt svc : typed_record svc → typed_event (deleteEvent mt svc).
Proof. intros H. split; [by apply entry_typed|by apply H]. Qed.

(** Assignments to fields of a record or a definition. *)
Lemma typed_with_modifyIndex i svc : is_u64 i → typed_record svc → typed_record (with_modifyIndex i svc).
Proof. by intros Hi []. Qed.

Lemma typed_with_def d svc : typed_service d → typed_record svc → typed_record (with_def d svc).
Proof. by intros Hd []. Qed.

Lemma typed_with_LastSeen t d : typed_service d → typed_service (with_LastSeen t d).
Proof. by intros []. Qed.

Lemma typed_with_failed b svc : typed_record svc → typed_record (with_failed b svc).
Proof. by intros []. Qed.

Lemma typed_with_lastState h svc : typed_record svc → typed_record (with_lastState h svc).
Proof. by intros []. Qed.

Lemma typed_with_maintenance b svc : typed_record svc → typed_record (with_maintenance b svc).
Proof. by intros []. Qed.

Lemma renewed_typed now svc : typed_record svc → typed_record (renewed now svc).
Proof. intros H. apply typed_with_failed, typed_with_def; [apply typed_with_LastSeen, H|done]. Qed.

#[local] Hint Resolve putEvent_typed deleteEvent_typed typed_with_modifyIndex typed_with_def typed_with_LastSeen
  typed_with_failed typed_with_lastState typed_with_maintenance renewed_typed ty_def u64_range : typed.

(** A state whose options and records are those of a typed one, or typed. *)
Lemma typed_sub m m' :
  typed_memory m → opts m' = opts m → is_u64 (index m') →
  (∀ nid id svc, lookup_service m' nid id = Some svc → lookup_service m nid id = Some svc ∨ typed_record svc) →
  typed_memory m'.
Proof.
  intros [H1 H2 H3] E Hi Hs. split; [by rewrite E|done|]. intros nid id svc [Hl|]%Hs; [by eapply H3|done].
Qed.

Lemma typed_same_nodes m m' :
  typed_memory m → opts m' = opts m → is_u64 (index m') → nodes m' = nodes m → typed_memory m'.
Proof. intros Hm E Hi En. eapply typed_sub; [done..|]. intros nid id svc. unfold lookup_service. rewrite En. auto. Qed.

Lemma ensure_node_typed mt m : typed_memory m → typed_memory (ensure_node mt m).
Proof.
  intros Hm. eapply typed_sub; [done|by autorewrite with store|autorewrite with store; apply Hm|].
  intros nid id svc. rewrite lookup_ensure_node. auto.
Qed.

Lemma put_service_typed nid id svc m : typed_memory m → typed_record svc → typed_memory (put_service nid id svc m).
Proof.
  intros Hm Hs. eapply typed_sub; [done|done|apply Hm|]. intros nid' id' svc'. unfold lookup_service.
  rewrite put_service_nodes. destruct (nodes m !! nid') as [n|]; [|done]. simpl. case_decide; [|auto]. simpl.
  rewrite lookup_insert. case_decide; [intros [= <-]|]; auto.
Qed.

Lemma next_typed m idx m' : typed_memory m → next m = (idx, m') → is_u64 idx ∧ typed_memory m'.
Proof.
  intros Hm [= <- <-]. split; [apply u64_range|]. eapply typed_same_nodes; [done|done|apply u64_range|done].
Qed.

Lemma indexName_typed nid d m : typed_memory m → typed_memory (indexName nid d m).
Proof. intros Hm. eapply typed_same_nodes; [done|done|apply Hm|done]. Qed.

Lemma unindexName_typed nid nm id m : typed_memory m → typed_memory (unindexName nid nm id m).
Proof.
  intros Hm. eapply typed_same_nodes; [done|by autorewrite with store|autorewrite with store; apply Hm|].
  by autorewrite with store.
Qed.

Lemma drop_empty_typed nid m : typed_memory m → typed_memory (drop_empty nid m).
Proof.
  intros Hm. eapply typed_sub; [done|by autorewrite with store|autorewrite with store; apply Hm|].
  intros nid' id svc. rewrite lookup_drop_empty. auto.
Qed.

Lemma del_service_typed nid id m : typed_memory m → typed_memory (del_service nid id m).
Proof.
  intros Hm. eapply typed_sub; [done|done|apply Hm|]. intros nid' id' svc'. unfold lookup_service.
  rewrite del_service_nodes. destruct (nodes m !! nid') as [n|]; [|done]. simpl. case_decide; [|auto]. simpl.
  rewrite lookup_delete. case_decide; [done|auto].
Qed.

#[local] Hint Resolve ensure_node_typed put_service_typed indexName_typed unindexName_typed drop_empty_typed
  del_service_typed : typed.

Lemma create_service_typed nid d m svc m' :
  typed_memory m → typed_service d → create_service nid d m = (svc, m') → typed_record svc ∧ typed_memory m'.
Proof.
  intros Hm Hd. unfold create_service. destruct (next m) as [idx m1] eqn:E. intros [= <- <-].
  apply next_typed in E as [Hi Hm1]; [|done].
  assert (typed_record (mkSvc d false false HealthPassing idx idx)) by done.
  auto with typed.
Qed.

Lemma overwrite_service_typed nid nm svc m svc' m' :
  typed_memory m → typed_record svc → overwrite_service nid nm svc m = (svc', m') → typed_record svc' ∧ typed_memory m'.
Proof.
  intros Hm Hs. unfold overwrite_service. destruct (next m) as [idx m1] eqn:E. intros [= <- <-].
  apply next_typed in E as [Hi Hm1]; [|done].
  split; [auto with typed|]. case_bool_decide; auto 6 with typed.
Qed.

Lemma remove_service_typed nid id svc m svc' m' :
  typed_memory m → typed_record svc → remove_service nid id svc m = (svc', m') → typed_record svc' ∧ typed_memory m'.
Proof.
  intros Hm Hs. unfold remove_service. destruct (next m) as [idx m1] eqn:E. intros [= <- <-].
  apply next_typed in E as [Hi Hm1]; [|done]. auto with typed.
Qed.

(** What an operation answers with. *)
Definition typed_out (out : Memory * list ChangeEvent) : Prop := typed_memory out.1 ∧ Forall typed_event out.2.

Lemma typed_snoc evs ev : Forall typed_event evs → typed_event ev → Forall typed_event (evs ++ [ev]).
Proof. intros. apply Forall_app_2; [done|by constructor]. Qed.

#[local] Hint Resolve typed_snoc : typed.

(** The records of one node, as the loops over them see them. *)
Lemma typed_services m nid n id svc :
  typed_memory m → nodes m !! nid = Some n → services n !! id = Some svc → typed_record svc.
Proof. intros Hm Hn Hs. eapply (ty_stored m Hm nid id). by rewrite (lookup_service_node _ _ _ n). Qed.

Lemma typed_range `{MapRange} m nid n :
  typed_memory m → nodes m !! nid = Some n → Forall (typed_record ∘ snd) (range (services n)).
Proof. intros Hm Hn. apply Forall_forall. intros [id svc] Hx%elem_of_range. by eapply typed_services. Qed.

Lemma incoming_typed m gen now i :
  typed_options (opts m) → is_u64 gen → typed_service i → typed_service (incoming m gen now i).
Proof.
  intros Ho Hg [H1 H2 H3 H4 _]. unfold incoming. by case_bool_decide; split; try done; apply clampTTL_typed.
Qed.

Lemma register_loop_typed clk mt gen now ins m size evs :
  typed_memory m → is_u64 gen → Forall typed_service ins → Forall typed_event evs →
  let out := register_loop clk mt gen now ins m size evs in typed_out (out.1.2, out.2).
Proof.
  intros Hm Hg Hi He. revert m size evs Hm He. induction Hi as [|i ins Hi _ IH]; intros m size evs Hm He; [done|].
  cbn [register_loop]. assert (Hd : typed_service (incoming m gen now i)) by (apply incoming_typed; [apply Hm|done..]).
  destruct (lookup_service _ _ _) as [svc|] eqn:Hl.
  - pose proof (ty_stored m Hm _ _ _ Hl) as Hs. destruct (changed _ _).
    + destruct (overwrite_service _ _ _ _) as [svc' m'] eqn:Ho.
      apply overwrite_service_typed in Ho as [H1 H2]; [|auto with typed..]. apply IH; auto with typed.
    + apply IH; auto with typed.
  - destruct (at_capacity _ _); [done|]. destruct (create_service _ _ _) as [svc m'] eqn:Hc.
    apply create_service_typed in Hc as [H1 H2]; [|done..]. apply IH; auto with typed.
Qed.

Lemma merge_loop_typed clk es m size applied evs :
  typed_memory m → Forall (typed_service ∘ Entry_Service) es → Forall typed_event evs →
  let out := merge_loop clk es m size applied evs in typed_out (out.1.2, out.2).
Proof.
  intros Hm Hs He. revert m size applied evs Hm He. induction Hs as [|e es Hs _ IH]; intros m size applied evs Hm He; [done|].
  cbn [merge_loop]. destruct (_ || _); [by apply IH|]. cbv zeta. apply (ensure_node_typed (Entry_Node e)) in Hm.
  set (m0 := ensure_node (Entry_Node e) m) in *.
  assert (Hd : typed_service (with_TTL (clampTTL m0 (Svc_TTL (Entry_Service e))) (Entry_Service e))).
  { destruct Hs. split; try done. apply clampTTL_typed; [apply Hm|done]. }
  destruct (lookup_service m0 _ _) as [svc|] eqn:Hl.
  - destruct (WinsLWW _ _); [|by apply IH]. destruct (overwrite_service _ _ _ _) as [svc' m'] eqn:Ho.
    pose proof (ty_stored m0 Hm _ _ _ Hl).
    apply overwrite_service_typed in Ho as [H1 H2]; [|auto with typed..]. apply IH; auto with typed.
  - destruct (at_capacity _ _); [by apply IH|]. destruct (create_service _ _ _) as [svc m'] eqn:Hc.
    apply create_service_typed in Hc as [H1 H2]; [|done..]. apply IH; auto with typed.
Qed.

Lemma renew_loop_typed now nid ids m : typed_memory m → typed_memory (renew_loop now nid ids m).2.
Proof.
  revert m. induction ids as [|id ids IH]; intros m Hm; [done|]. cbn [renew_loop].
  destruct (lookup_service m nid id) as [svc|] eqn:Hl; [|done]. apply IH.
  pose proof (ty_stored m Hm _ _ _ Hl). auto with typed.
Qed.

Lemma deregister_loop_typed nid mt svcs m evs :
  typed_memory m → Forall (typed_record ∘ snd) svcs → Forall typed_event evs → typed_out (deregister_loop nid mt svcs m evs).
Proof.
  intros Hm Hs He. revert m evs Hm He. induction Hs as [|[id svc] svcs Hs _ IH]; intros m evs Hm He; [done|].
  cbn [deregister_loop]. destruct (next m) as [idx m1] eqn:E.
  apply next_typed in E as [Hi Hm1]; [|done]. apply IH; auto 6 with typed.
Qed.

Lemma gc_services_typed clk now nid mt svcs m evs removed :
  typed_memory m → Forall (typed_record ∘ snd) svcs → Forall typed_event evs →
  typed_out (gc_services clk now nid mt svcs m evs removed).1.
Proof.
  intros Hm Hs He. revert m evs removed Hm He.
  induction Hs as [|[id svc] svcs Hs _ IH]; intros m evs removed Hm He; [done|]. cbn [gc_services].
  destruct (lease m svc now) as [st ex]. destruct ex.
  - destruct (remove_service _ _ _ _) as [svc' m'] eqn:Hr. apply remove_service_typed in Hr as [H1 H2]; [|done..].
    apply IH; auto with typed.
  - case_bool_decide; [|by apply IH]. destruct (next m) as [idx m1] eqn:E.
    apply next_typed in E as [Hi Hm1]; [|done]. apply IH; auto 6 with typed.
Qed.

Lemma gc_nodes_typed `{MapRange} clk now ns m evs removed :
  typed_memory m → Forall (λ p, Forall (typed_record ∘ snd) (range (services p.2))) ns → Forall typed_event evs →
  typed_out (gc_nodes clk now ns m evs removed).1.
Proof.
  intros Hm Hs He. revert m evs removed Hm He. induction Hs as [|[nid n] ns Hs _ IH]; intros m evs removed Hm He; [done|].
  cbn [gc_nodes]. pose proof (gc_services_typed clk now nid (meta n) _ m evs removed Hm Hs He) as [H1 H2].
  destruct (gc_services _ _ _ _ _ _ _ _) as [[m1 evs1] r1]. apply IH; auto with typed.
Qed.

(** Every operation of the registry. *)
Lemma apply_typed `{MapRange} clk op m : typed_memory m → typed_op op → typed_out (apply clk op m).
Proof.
  intros Hm Ho. destruct op as [reg|n ids|n|n s|n s b|n s| |es]; cbn [apply].
  - unfold Register. case_bool_decide; [done|]. destruct (existsb _ _); [done|]. destruct Ho as [Hg Hs]. cbv zeta.
    pose proof (register_loop_typed clk (Reg_Node reg) _ (clk O) _ (ensure_node (Reg_Node reg) m) (sizeLocked m) []
      (ensure_node_typed _ _ Hm) Hg Hs (Forall_nil_2 _)) as Hr.
    by destruct (register_loop _ _ _ _ _ _ _ _) as [[err m'] evs].
  - unfold Renew. destruct (nodes m !! n) as [x|] eqn:Hn; [|done]. destruct ids as [|id ids].
    + split; [|done]. eapply typed_sub; [done|done|apply Hm|]. intros nid id svc. unfold lookup_service. simpl.
      rewrite lookup_insert. case_decide; [subst; simpl|auto]. rewrite lookup_fmap.
      destruct (services x !! id) as [y|] eqn:Hy; [|done]. intros [= <-]. right. eapply renewed_typed, typed_services; eauto.
    + split; [|done]. by apply renew_loop_typed.
  - unfold Deregister. destruct (nodes m !! n) as [x|] eqn:Hn; [|done].
    destruct (deregister_loop_typed n (meta x) (range (services x)) m [] Hm) as [H1 H2]; [by eapply typed_range|done|].
    destruct (deregister_loop _ _ _ _ _) as [m' evs]. split; [|done]. eapply typed_sub; [exact H1|done|apply H1|].
    intros nid id svc. unfold lookup_service. simpl. rewrite lookup_delete. case_decide; [done|auto].
  - unfold DeregisterService. destruct (nodes m !! n) as [x|] eqn:Hn; [|done].
    destruct (services x !! s) as [y|] eqn:Hs; [|done]. destruct (remove_service _ _ _ _) as [y' m'] eqn:Hr.
    apply remove_service_typed in Hr as [H1 H2]; [|done|by eapply typed_services].
    split; [by apply drop_empty_typed|]. by constructor; [apply deleteEvent_typed|].
  - unfold SetMaintenance. destruct (nodes m !! n) as [x|] eqn:Hn; [|done].
    destruct (services x !! s) as [y|] eqn:Hs; [|done]. pose proof (typed_services _ _ _ _ _ Hm Hn Hs).
    case_bool_decide; [done|]. destruct (next m) as [idx m1] eqn:E.
    apply next_typed in E as [Hi Hm1]; [|done].
    split; cbn [fst snd]; [|apply Forall_singleton]; auto 6 with typed.
  - unfold Fail. destruct (nodes m !! n) as [x|] eqn:Hn; [|done].
    destruct (services x !! s) as [y|] eqn:Hs; [|done]. pose proof (typed_services _ _ _ _ _ Hm Hn Hs).
    destruct (failed y); [done|]. destruct (next m) as [idx m1] eqn:E.
    apply next_typed in E as [Hi Hm1]; [|done].
    split; cbn [fst snd]; [|apply Forall_singleton]; auto 6 with typed.
  - unfold GC. pose proof (gc_nodes_typed clk (clk O) (range (nodes m)) m [] 0 Hm) as Hg.
    destruct (gc_nodes _ _ _ _ _ _) as [[m' evs] k]. apply Hg; [|by constructor].
    apply Forall_forall. intros [nid n] Hn%elem_of_range. by eapply typed_range.
  - unfold Merge. pose proof (merge_loop_typed clk es m (sizeLocked m) 0 [] Hm Ho (Forall_nil_2 _)) as Hr.
    by destruct (merge_loop _ _ _ _ _ _) as [[k m'] evs].
Qed.

Lemma NewMemory_typed o : typed_options o → typed_memory (NewMemory o).
Proof.
  intros [H1 H2 H3 H4]. split; [|exact H4|].
  - unfold NewMemory. by destruct (Z.leb_spec (DefaultTTL o) 0).
  - intros nid id svc. unfold lookup_service, NewMemory. simpl. by rewrite lookup_empty.
Qed.

(** ** The wire *)

Lemma portFromProto_typed p : is_u32 p → is_u16 (portFromProto p).
Proof.
  unfold is_u32, is_u16, portFromProto, maxUint16. intros. destruct (Z.ltb_spec (2 ^ 16 - 1) p); lia.
Qed.

Lemma ttlToSeconds_typed d : is_u32 (ttlToSeconds d).
Proof. pose proof (ttlToSeconds_range d). unfold is_u32, maxUint32 in *. lia. Qed.

Lemma toUnixNano_typed t : is_i64 (toUnixNano t).
Proof. unfold toUnixNano. destruct (t =? zeroTime); [done|apply i64_range]. Qed.

Lemma ServiceFromProto_typed p : typed_pb_service p → typed_service (ServiceFromProto p).
Proof.
  destruct p as [p|]; [|done]. intros (H1 & H2 & H3). split; simpl; [by apply portFromProto_typed| | |apply i64_range|done].
  all: destruct (pbs_weights p); [apply H3|done].
Qed.

Lemma RegistrationFromProto_typed p : typed_pb_registration p → typed_op (OpRegister (RegistrationFromProto p)).
Proof.
  destruct p as [p|]; [|done]. intros [Hg Hs]. split; [done|]. simpl.
  apply Forall_fmap. eapply Forall_impl; [exact Hs|]. apply ServiceFromProto_typed.
Qed.

Lemma EntryFromProto_typed p : typed_pb_entry p → typed_entry (EntryFromProto p).
Proof.
  destruct p as [p|]; [|done]. intros (Hs & Hg & _). apply ServiceFromProto_typed in Hs as [].
  by split; [split|..].
Qed.

Lemma LookupResultFromProto_typed p :
  typed_pb_lookup p → typed_op (OpMerge (Lookup_Entries (LookupResultFromProto (Some p)))).
Proof.
  intros [_ H]. simpl. apply Forall_fmap. eapply Forall_impl; [exact H|]. intros x Hx. by apply EntryFromProto_typed in Hx as [].
Qed.

Lemma EntryToProto_typed e : typed_entry e → typed_pb_entry (Some (EntryToProto e)).
Proof.
  intros [[H1 H2 H3 H4 H5] _ _]. split; [|split; [done|apply toUnixNano_typed]].
  split; [unfold is_u16, is_u32 in *; simpl; lia|]. split; [apply ttlToSeconds_typed|done].
Qed.

Lemma Lookup_typed `{MapRange} clk q m : typed_memory m → Forall typed_entry (Lookup_Entries (Lookup clk q m)).
Proof.
  intros Hm. apply Forall_forall. intros e. unfold Lookup. cbv zeta. cbn [Lookup_Entries]. unfold sort_entries. rewrite elem_of_sort_slice.
  destruct (bool_decide _); [unfold visit_all|unfold visit_named]; intros Hx.
  - apply list_elem_of_bind in Hx as ([nid n] & Hx & Hn%elem_of_range).
    apply list_elem_of_bind in Hx as ([id svc] & Hx & Hs%elem_of_range).
    apply elem_of_visit in Hx as [_ ->]. apply entry_typed. by eapply typed_services.
  - apply list_elem_of_bind in Hx as ([nid id] & Hx & _). cbn [fst snd] in Hx.
    destruct (nodes m !! nid) as [n|] eqn:Hn; [|by apply elem_of_nil in Hx].
    destruct (services n !! id) as [svc|] eqn:Hs; [|by apply elem_of_nil in Hx].
    apply elem_of_visit in Hx as [_ ->]. apply entry_typed. by eapply typed_services.
Qed.

Lemma Service_Lookup_typed `{MapRange} clk q m : typed_memory m → typed_pb_lookup (Service_Lookup clk q m).
Proof.
  intros Hm. pose proof (Lookup_typed clk (QueryFromProto q) m Hm) as He. unfold Service_Lookup. cbv zeta.
  assert (Hi : is_u64 (Lookup_Index (Lookup clk (QueryFromProto q) m))) by apply Hm.
  assert (Hp : ∀ es, Forall typed_entry es → Forall typed_pb_entry ((λ e, Some (EntryToProto e)) <$> es)).
  { intros es Hes. apply Forall_fmap. eapply Forall_impl; [exact Hes|]. apply EntryToProto_typed. }
  destruct (Query_OnlyHealthy _); (split; [done|]); apply Hp; [|done].
  apply Forall_forall. intros e [Hx _]%Filter_spec. by eapply Forall_forall in He.
Qed.

(** ** A seed's inputs *)

(** What reaches the registry: a client's request, a peer's answer to an anti-entropy
    pull, and an operation of the seed's own components (the reaper, failed checks, the
    Consul surface). *)
Inductive SeedInput :=
  | InRequest (req : Request)
  | InPull (answer : PbLookupResponse)
  | InLocal (op : Op).

Definition seed_input `{MapRange} (clk : Clock) (i : SeedInput) (m : Memory)
  : option (Code + Response) * Memory * list ChangeEvent :=
  match i with
  | InRequest req => let '(r, m, evs) := handle clk req m in (Some r, m, evs)
  | InPull answer =>
      let '(m, evs) := apply clk (OpMerge (Lookup_Entries (LookupResultFromProto (Some answer)))) m in (None, m, evs)
  | InLocal op => let '(m, evs) := apply clk op m in (None, m, evs)
  end.

Definition run_inputs `{MapRange} (ins : list (Clock * SeedInput)) (m : Memory) : Memory :=
  foldl (λ m x, (seed_input x.1 x.2 m).1.2) m ins.

Definition typed_input (i : SeedInput) : Prop :=
  match i with
  | InRequest req => typed_request req
  | InPull answer => typed_pb_lookup answer
  | InLocal op => typed_op op
  end.

(** What goes out on a watch stream for a change. *)
Definition typed_watch (ev : ChangeEvent) : Prop :=
  typed_pb_entry (pbc_entry (ChangeEventToProto ev)) ∧ is_u64 (Event_Index ev).

Lemma handle_typed `{MapRange} clk req m :
  typed_memory m → typed_request req → typed_out ((handle clk req m).1.2, (handle clk req m).2) ∧ typed_response (handle clk req m).1.1.
Proof.
  intros Hm Hr. split.
  - rewrite handle_op. destruct (request_op req) as [op|] eqn:E; [|done]. apply apply_typed; [done|].
    destruct req; simpl in E; repeat case_match; simplify_eq; try done. by apply RegistrationFromProto_typed.
  - destruct req as [r|n ids|n|n s|q]; cbn [handle]; [..|by apply Service_Lookup_typed].
    + unfold Service_Register. destruct (Register _ _ _) as [[[[]|] ?] ?]; done.
    + unfold Service_Renew. case_bool_decide; [done|]. destruct (Renew _ _ _ _) as [[[]|] ?]; done.
    + unfold Service_Deregister. case_bool_decide; [done|]. destruct (Deregister _ _) as [[[[]|] ?] ?]; done.
    + unfold Service_DeregisterService. destruct (_ || _); [done|]. destruct (DeregisterService _ _ _) as [[[[]|] ?] ?]; done.
Qed.

Lemma seed_input_typed `{MapRange} clk i m :
  typed_memory m → typed_input i →
  let out := seed_input clk i m in
  typed_out (out.1.2, out.2) ∧ (∀ r, out.1.1 = Some r → typed_response r).
Proof.
  intros Hm Hi. destruct i as [req|ans|op]; cbn [seed_input].
  - destruct (handle_typed clk req m Hm Hi) as [H1 H2]. destruct (handle clk req m) as [[r m'] evs].
    split; [done|]. by intros _ [= <-].
  - pose proof (apply_typed clk _ m Hm (LookupResultFromProto_typed _ Hi)) as Ha. by destruct (apply _ _ _).
  - pose proof (apply_typed clk _ m Hm Hi) as Ha. by destruct (apply _ _ _).
Qed.

Lemma run_inputs_typed `{MapRange} ins m :
  typed_memory m → Forall (typed_input ∘ snd) ins → typed_memory (run_inputs ins m).
Proof.
  intros Hm Hi. revert m Hm. induction Hi as [|[clk i] ins Hi _ IH]; intros m Hm; [done|].
  apply IH. by destruct (seed_input_typed clk i m Hm Hi) as [[] _].
Qed.

(** ** Claims *)

(** What a received service message becomes: a port above the [uint16] range is
    the largest port, and every other number is kept, the TTL in nanoseconds. *)
Definition exact_in (p : PbService) : Prop :=
  Svc_Port (ServiceFromProto (Some p)) = Z.min (pbs_port p) 65535 ∧
  Svc_TTL (ServiceFromProto (Some p)) = pbs_ttl_seconds p * 1000000000 ∧
  Svc_Weights (ServiceFromProto (Some p)) =
    (if pbs_weights p is Some w then mkWeights (pbw_passing w) (pbw_warning w) else mkWeights 0 0).

(** What a stored entry is sent as: its TTL is the whole seconds of it that fit a
    [uint32] (none, when it is negative), and every other number is kept. *)
Definition exact_out (e : ServiceEntry) : Prop :=
  let d := Entry_Service e in
  ∃ p, pbe_service (EntryToProto e) = Some p ∧ pbs_port p = Svc_Port d ∧
    pbs_weights p = Some (mkPbWeights (Passing (Svc_Weights d)) (Warning (Svc_Weights d))) ∧
    pbs_ttl_seconds p = Z.max 0 (Z.min (Svc_TTL d ÷ 1000000000) 4294967295) ∧
    pbe_generation (EntryToProto e) = Svc_Generation d ∧
    (is_i64 (Svc_LastSeen d) → Svc_LastSeen d ≠ zeroTime →
     pbe_last_seen_unix_nano (EntryToProto e) = Svc_LastSeen d).

Lemma typed_exact_in p : typed_pb_service (Some p) → exact_in p.
Proof.
  intros (Hp & Ht & _). unfold exact_in, ServiceFromProto. cbn [Svc_Port Svc_TTL Svc_Weights]. split_and!.
  - unfold portFromProto, maxUint16. destruct (Z.ltb_spec (2 ^ 16 - 1) (pbs_port p)); lia.
  - unfold second. apply i64_small. unfold is_u32, is_i64, minInt64, maxInt64 in *. lia.
  - by destruct (pbs_weights p).
Qed.

Lemma entry_exact_out e : exact_out e.
Proof.
  unfold exact_out, EntryToProto, ServiceToProto. cbn [pbe_service pbe_generation pbe_last_seen_unix_nano].
  eexists. split; [done|]. cbn [pbs_port pbs_weights pbs_ttl_seconds]. split_and!; [done|done| |done|].
  - pose proof (wire_ttl_eq (Svc_TTL (Entry_Service e))) as E. unfold wire_ttl, second in E. lia.
  - intros Hi Hz. unfold toUnixNano. by rewrite (proj2 (Z.eqb_neq _ _) Hz), i64_small.
Qed.


(** A registration with the largest port, TTL and generation the wire carries. *)
Definition sampleWide : Request :=
  RegisterRequest (Some (mkPbRegistration (Some (NodeToProto (sampleNode "n1")))
    [Some (mkPbService "" "web" "" (2 ^ 32 - 1) [] ∅ (Some (mkPbWeights 1 0)) (2 ^ 32 - 1))] (2 ^ 64 - 1))).

Lemma sampleWide_typed : typed_input (InRequest sampleWide).
Proof.
  split; [by split|]. apply Forall_singleton. split; [by split|]. split; [by split|]. by split; split.
Qed.

