(* ===== verification/Cli.v ===== *)
(** The binary: the command tree with its flags ([newRootCmd] of [cmd/yp/root.go],
    [newBootstrapCmd] and [newCreateTokenCmd] of [cmd/yp/bootstrap.go], [newImportCmd] of
    [cmd/yp/import.go]), what each command does with the values of its flags, and the exit
    of [main] ([cmd/yp/main.go]).

    Parsing the arguments is cobra's: the class [Cobra] says what the commands rely on.
    The files a node keeps are documents, a configuration someone wrote or one a seed has
    rendered, and [yp bootstrap] adds to them. *)

From Stdlib Require Import ZArith Lia Ascii.
From stdpp Require Import base gmap list strings.
From S2P Require Import Prelude GoStrings GoText GoNet Model Watch Cred Store Proxy Consul DNS RateLimit Config Bootstrap App Resolver CredFiles Migrate ServiceDefs Root.

#[local] Open Scope Z_scope.

(** ** Commands and flags *)

Inductive FlagValue := StringFlag (s : string) | BoolFlag (b : bool) | DurationFlag (d : Z).

Definition same_kind (a b : FlagValue) : bool :=
  match a, b with
  | StringFlag _, StringFlag _ | BoolFlag _, BoolFlag _ | DurationFlag _, DurationFlag _ => true
  | _, _ => false
  end.

Record Flag := mkFlag { fl_name : string; fl_short : string; fl_default : FlagValue; fl_required : bool }.

(** The variables bound to the flags, by the name of the flag. *)
Notation Vars := (gmap string FlagValue).

Definition str_var (vals : Vars) (n : string) : string := match vals !! n with Some (StringFlag s) => s | _ => "" end.

Definition bool_var (vals : Vars) (n : string) : bool := match vals !! n with Some (BoolFlag b) => b | _ => false end.

Definition duration_var (vals : Vars) (n : string) : Z := match vals !! n with Some (DurationFlag d) => d | _ => 0 end.

(** A [cobra.Command] without arguments, with its [RunE]. *)
Inductive Command (A : Type) := mkCommand (use : string) (flags : list Flag) (runE : Vars → A) (subs : list (Command A)).
Arguments mkCommand {A}.

Definition cm_use {A} (c : Command A) : string := let 'mkCommand u _ _ _ := c in u.
Definition cm_flags {A} (c : Command A) : list Flag := let 'mkCommand _ f _ _ := c in f.
Definition cm_runE {A} (c : Command A) : Vars → A := let 'mkCommand _ _ r _ := c in r.
Definition cm_subs {A} (c : Command A) : list (Command A) := let 'mkCommand _ _ _ s := c in s.

Fixpoint find_command {A} (path : list string) (c : Command A) : option (Command A) :=
  match path with
  | [] => Some c
  | u :: rest => sub ← List.find (λ s, bool_decide (cm_use s = u)) (cm_subs c); find_command rest sub
  end.

Definition defaults (flags : list Flag) : Vars := list_to_map ((λ f, (fl_name f, fl_default f)) <$> flags).

(** What cobra makes of the arguments: an error, help or the version printed, or the
    command at a path with the flags given. *)
Inductive Parsed := ParseError (msg : string) | Printed_ | Invoke (path : list string) (given : Vars).

(** The flags given to a command are its own, of their kinds, the required ones among them. *)
Record given_ok (flags : list Flag) (given : Vars) : Prop := {
  gv_own : ∀ n v, given !! n = Some v → ∃ f, f ∈ flags ∧ fl_name f = n ∧ same_kind (fl_default f) v = true;
  gv_required : ∀ f, f ∈ flags → fl_required f = true → is_Some (given !! fl_name f)
}.

Class Cobra := {
  cobra_parse : ∀ {A}, Command A → list string → Parsed;
  cobra_ok : ∀ {A} (c : Command A) args path given, cobra_parse c args = Invoke path given →
    ∃ sub, find_command path c = Some sub ∧ given_ok (cm_flags sub) given
}.

(** ** The commands *)

(** A file: a configuration, [None] when it does not decode, or what a seed has served. *)
Inductive Document := Authored (c : option Config) | Served (r : rendered).

Definition decoded_doc `{DurationText} (d : Document) : option Config :=
  match d with Authored c => c | Served r => denoted r end.

(** [filepath.Ext]: of the last element of the path. *)
Definition path_Ext (path : string) : string :=
  Ext (match LastIndexByte path "/"%char with Some i => str_drop (S i) path | None => path end).

Inductive CliError :=
  | UsageFailed (msg : string)
  | ConfigUnread (path : string)
  | StartFailed (e : StartError)
  | NodeFailed (e : RunError)
  | ImportFailed (e : MigrateError)
  | FetchFailed (e : FetchError)
  | TokenFailed (e : CreateTokenError).

Inductive Outcome :=
  | Failed (e : CliError)
  | UsagePrinted
  | NodeRuns (comps : list Comp) (app : App Logger)
  | Imported (n : Z)
  | ConfigPrinted (r : rendered)
  | ConfigWritten (path : string)
  | TokenPrinted (token : string).

Section Binary.
Context {Cert CertPool W : Type} `{MapRange} `{DurationText}.

(** What a process finds on its host: the world of the security setup, the plugins, how
    seeds are dialled, YP_BOOTSTRAP_TOKEN, the instant, the random bytes, the RPC to a
    seed, which files can be written, and the HTTP client with a timeout. *)
Record Host := mkHost {
  ho_world : World Cert CertPool;
  ho_plugins : PluginHost;
  ho_dial : list string → option (Query → option LookupResult);
  ho_env : string;
  ho_now : Z;
  ho_nonce : option string;
  ho_call : Z → ClientCreds Cert CertPool → string → gmap string (list string) → string → option rendered;
  ho_writable : string → bool;
  ho_client : Z → HttpClient W
}.

(** What the commands change: the files, and what HTTP requests change elsewhere. *)
Record State := mkState { st_files : gmap string Document; st_http : W }.

Context (h : Host).

Definition CommandRun : Type := State → Outcome * State.

Definition root_run (vals : Vars) : CommandRun := λ st,
  match st_files st !! str_var vals "config" with
  | None => (Failed (ConfigUnread (str_var vals "config")), st)
  | Some doc =>
      match RunE (ho_world h) (ho_plugins h) (ho_dial h) (path_Ext (str_var vals "config")) (decoded_doc doc)
              (str_var vals "role") (str_var vals "log-level") (str_var vals "log-format") with
      | inl e => (Failed (StartFailed e), st)
      | inr (comps, app) => (NodeRuns comps app, st)
      end
  end.

Definition import_run (vals : Vars) : CommandRun := λ st,
  match Import (ho_client h (duration_var vals "timeout")) (str_var vals "from") (str_var vals "to") (st_http st) with
  | (_, Some e, w) => (Failed (ImportFailed e), mkState (st_files st) w)
  | (n, None, w) => (Imported n, mkState (st_files st) w)
  end.

Definition bootstrap_run (vals : Vars) : CommandRun := λ st,
  let out := str_var vals "out" in
  match bootstrap_cmd (ho_world h) (ho_env h) (str_var vals "seed") (str_var vals "role") (str_var vals "token") out
          (bool_var vals "tls") (str_var vals "ca") (str_var vals "cert") (str_var vals "key") (bool_var vals "insecure")
          (ho_writable h out) (ho_call h (duration_var vals "timeout")) with
  | inl e => (Failed (FetchFailed e), st)
  | inr (Printed r) => (ConfigPrinted r, st)
  | inr (Written path r) => (ConfigWritten path, mkState (<[path := Served r]> (st_files st)) (st_http st))
  end.

Definition create_token_run (vals : Vars) : CommandRun := λ st,
  match st_files st !! str_var vals "config" with
  | None => (Failed (ConfigUnread (str_var vals "config")), st)
  | Some doc =>
      match create_token (path_Ext (str_var vals "config")) (decoded_doc doc) (w_fs (ho_world h))
              (duration_var vals "ttl") (ho_now h) (ho_nonce h) with
      | inl e => (Failed (TokenFailed e), st)
      | inr token => (TokenPrinted token, st)
      end
  end.

Definition newImportCmd : Command CommandRun :=
  mkCommand "import"
    [mkFlag "from" "" (StringFlag "http://127.0.0.1:8500") false;
     mkFlag "to" "" (StringFlag "http://127.0.0.1:8500") false;
     mkFlag "timeout" "" (DurationFlag (30 * second)) false] import_run [].

Definition newCreateTokenCmd : Command CommandRun :=
  mkCommand "create-token"
    [mkFlag "config" "c" (StringFlag "") true;
     mkFlag "ttl" "" (DurationFlag 0) false] create_token_run [].

Definition newBootstrapCmd : Command CommandRun :=
  mkCommand "bootstrap"
    [mkFlag "seed" "" (StringFlag "") false;
     mkFlag "role" "" (StringFlag "agent") false;
     mkFlag "token" "" (StringFlag "") false;
     mkFlag "out" "o" (StringFlag "") false;
     mkFlag "tls" "" (BoolFlag false) false;
     mkFlag "ca" "" (StringFlag "") false;
     mkFlag "cert" "" (StringFlag "") false;
     mkFlag "key" "" (StringFlag "") false;
     mkFlag "insecure" "" (BoolFlag false) false;
     mkFlag "timeout" "" (DurationFlag (10 * second)) false] bootstrap_run [newCreateTokenCmd].

Definition newRootCmd : Command CommandRun :=
  mkCommand "yp"
    [mkFlag "config" "c" (StringFlag "") true;
     mkFlag "role" "" (StringFlag "") false;
     mkFlag "log-level" "" (StringFlag "info") false;
     mkFlag "log-format" "" (StringFlag "json") false] root_run [newImportCmd; newBootstrapCmd].

(** [Execute]: the values of a command's variables are those given over the defaults.
    The law of [Cobra] excludes the last case. *)
Definition Execute `{Cobra} (args : list string) : CommandRun := λ st,
  match cobra_parse newRootCmd args with
  | ParseError msg => (Failed (UsageFailed msg), st)
  | Printed_ => (UsagePrinted, st)
  | Invoke path given =>
      match find_command path newRootCmd with
      | Some c => cm_runE c (given ∪ defaults (cm_flags c)) st
      | None => (UsagePrinted, st)
      end
  end.

(** [main]: the exit status and the error on the standard error, or the node runs. *)
Inductive Exit := Exits (status : Z) (stderr : option CliError) | Serves (comps : list Comp) (app : App Logger).

Definition main `{Cobra} (args : list string) (st : State) : Exit * State :=
  let '(o, st) := Execute args st in
  (match o with
   | Failed e => Exits 1 (Some e)
   | NodeRuns comps app => Serves comps app
   | _ => Exits 0 None
   end, st).

(** The exit of a node whose application has returned. *)
Definition node_exit (r : option RunError) : Exit :=
  match r with Some e => Exits 1 (Some (NodeFailed e)) | None => Exits 0 None end.
End Binary.
Arguments Host : clear implicits.
Arguments State : clear implicits.

(** ** Lemmas *)

(** A variable holds what was given, or the default of its flag. *)
Lemma vars_lookup flags (given : Vars) f :
  given_ok flags given → NoDup (fl_name <$> flags) → f ∈ flags →
  ∃ v, (given ∪ defaults flags) !! fl_name f = Some v ∧ same_kind (fl_default f) v = true ∧
    (v = fl_default f ∨ given !! fl_name f = Some v).
Proof.
  intros [Hown _] Hnd Hf. destruct (given !! fl_name f) as [v|] eqn:Hg.
  - exists v. split; [by apply lookup_union_Some_l|]. split; [|by right].
    destruct (Hown _ _ Hg) as (f' & Hf' & Hn & Hk).
    assert (f' = f) as ->; [|done]. clear -Hnd Hf Hf' Hn. induction flags as [|x flags IH]; [by apply elem_of_nil in Hf|].
    cbn [fmap list_fmap] in Hnd. apply NoDup_cons in Hnd as [Hx Hnd].
    apply elem_of_cons in Hf as [->|Hf], Hf' as [->|Hf']; [done|..|by apply IH].
    + destruct Hx. rewrite <-Hn. by apply list_elem_of_fmap_2.
    + destruct Hx. rewrite Hn. by apply list_elem_of_fmap_2.
  - exists (fl_default f). split; [|split; [by destruct (fl_default f)|by left]].
    rewrite lookup_union_r by done. unfold defaults. apply elem_of_list_to_map_1.
    + by rewrite <-list_fmap_compose.
    + by apply (list_elem_of_fmap_2 (λ f, (fl_name f, fl_default f))).
Qed.

Lemma str_var_given (given : Vars) flags n s : given !! n = Some (StringFlag s) → str_var (given ∪ defaults flags) n = s.
Proof. intros Hg. unfold str_var. by rewrite (lookup_union_Some_l _ _ _ _ Hg). Qed.

(** The commands there are. *)
Inductive known {Cert CertPool W} `{MapRange} `{DurationText} (h : Host Cert CertPool W) : list string → Command (CommandRun (W := W)) → Prop :=
  | known_root : known h [] (newRootCmd h)
  | known_import : known h ["import"%string] (newImportCmd h)
  | known_bootstrap : known h ["bootstrap"%string] (newBootstrapCmd h)
  | known_create_token : known h ["bootstrap"%string; "create-token"%string] (newCreateTokenCmd h).

Section Tree.
Context {Cert CertPool W : Type} `{MapRange} `{DurationText} (h : Host Cert CertPool W).

Lemma find_known path c : find_command path (newRootCmd h) = Some c → known h path c.
Proof.
  destruct path as [|u path]; [intros [= <-]; constructor|]. simpl. case_bool_decide as E1.
  { subst u. destruct path; [intros [= <-]; constructor|done]. }
  case_bool_decide as E2; [|done]. subst u. simpl. destruct path as [|u path]; [intros [= <-]; constructor|].
  simpl. case_bool_decide as E3; [|done]. subst u. destruct path; [intros [= <-]; constructor|done].
Qed.

Lemma known_flags path c : known h path c → NoDup (fl_name <$> cm_flags c).
Proof.
  intros Hk. destruct Hk; apply (bool_decide_unpack _); vm_compute; exact I.
Qed.

(** A command keeps the state but for what it is for. *)
Lemma known_effect path c vals st :
  known h path c →
  let '(o, st') := cm_runE c vals st in
  match o with
  | Failed e => st_files st' = st_files st ∧ (path = ["import"%string] ∨ st_http st' = st_http st)
  | NodeRuns _ _ => path = [] ∧ st' = st
  | Imported _ => path = ["import"%string] ∧ st_files st' = st_files st
  | ConfigPrinted _ => path = ["bootstrap"%string] ∧ st' = st
  | ConfigWritten out => path = ["bootstrap"%string] ∧ out = str_var vals "out" ∧ st_http st' = st_http st ∧
      ∃ r, st_files st' = <[out := Served r]> (st_files st)
  | TokenPrinted _ => path = ["bootstrap"; "create-token"]%string ∧ st' = st
  | UsagePrinted => False
  end.
Proof.
  intros []; cbn [cm_runE newRootCmd newImportCmd newBootstrapCmd newCreateTokenCmd].
  - unfold root_run. destruct (st_files st !! _) as [doc|]; [|by split; [|right]].
    destruct (RunE _ _ _ _ _ _ _ _) as [e|[comps app]]; [by split; [|right]|done].
  - unfold import_run. destruct (Import _ _ _ _) as [[n [e|]] w]; [by split; [|left]|done].
  - unfold bootstrap_run. destruct (bootstrap_cmd _ _ _ _ _ _ _ _ _ _ _ _ _) as [e|[r|out r]] eqn:E; [by split; [|right]|done|].
    split; [done|]. split; [|split; [done|by exists r]].
    unfold bootstrap_cmd in E. repeat (case_match; try discriminate); by simplify_eq.
  - unfold create_token_run. destruct (st_files st !! _) as [doc|]; [|by split; [|right]].
    destruct (create_token _ _ _ _ _ _) as [e|token]; [by split; [|right]|done].
Qed.
End Tree.

(** ** A simple parser (used by the witnesses)

    The names of subcommands, then [--name value] or [-n value] for each flag, without a
    value for a boolean one. *)

Section Plain.
Context `{DurationText}.

Definition plain_value (f : Flag) (v : string) : option FlagValue :=
  match fl_default f with
  | StringFlag _ => Some (StringFlag v)
  | DurationFlag _ => DurationFlag <$> dur_Parse v
  | BoolFlag _ => None
  end.

Definition plain_is (w : string) (f : Flag) : bool :=
  bool_decide (w = "--" +:+ fl_name f) || (negb (bool_decide (fl_short f = ""%string)) && bool_decide (w = "-" +:+ fl_short f)).

Fixpoint plain_flags (flags : list Flag) (args : list string) (given : Vars) : option Vars :=
  match args with
  | [] => Some given
  | w :: rest =>
      f ← List.find (plain_is w) flags;
      match fl_default f, rest with
      | BoolFlag _, _ => plain_flags flags rest (<[fl_name f := BoolFlag true]> given)
      | _, v :: rest => x ← plain_value f v; plain_flags flags rest (<[fl_name f := x]> given)
      | _, [] => None
      end
  end.

Fixpoint plain_path {A} (c : Command A) (args : list string) : list string * list string :=
  match args with
  | [] => ([], [])
  | w :: rest =>
      match List.find (λ s, bool_decide (cm_use s = w)) (cm_subs c) with
      | Some s => let '(path, rest) := plain_path s rest in (w :: path, rest)
      | None => ([], args)
      end
  end.

Definition plain_parse {A} (c : Command A) (args : list string) : Parsed :=
  let '(path, rest) := plain_path c args in
  match find_command path c with
  | None => ParseError "unknown command"
  | Some sub =>
      match plain_flags (cm_flags sub) rest ∅ with
      | None => ParseError "bad flag"
      | Some given =>
          if forallb (λ f, negb (fl_required f) || bool_decide (is_Some (given !! fl_name f))) (cm_flags sub)
          then Invoke path given else ParseError "required flag not set"
      end
  end.

Lemma plain_flags_own flags args given given' :
  plain_flags flags args given = Some given' →
  (∀ n v, given !! n = Some v → ∃ f, f ∈ flags ∧ fl_name f = n ∧ same_kind (fl_default f) v = true) →
  ∀ n v, given' !! n = Some v → ∃ f, f ∈ flags ∧ fl_name f = n ∧ same_kind (fl_default f) v = true.
Proof.
  revert given. assert (Hins : ∀ given f x, f ∈ flags → same_kind (fl_default f) x = true →
    (∀ n v, given !! n = Some v → ∃ f, f ∈ flags ∧ fl_name f = n ∧ same_kind (fl_default f) v = true) →
    ∀ n v, (<[fl_name f := x]> given : Vars) !! n = Some v → ∃ f, f ∈ flags ∧ fl_name f = n ∧ same_kind (fl_default f) v = true).
  { intros given f x Hf Hk Hg n v [[<- <-]|[_ Hv]]%lookup_insert_Some; [by exists f|by apply Hg]. }
  induction args as [args IH] using (induction_ltof1 _ length). unfold ltof in IH. intros given Hp Hg.
  destruct args as [|w rest]; [by injection Hp as <-|]. cbn [plain_flags] in Hp.
  destruct (List.find (plain_is w) flags) as [f|] eqn:Hf; [|done]. apply List.find_some in Hf as [Hf _].
  apply list_elem_of_In in Hf. cbn [mbind option_bind] in Hp.
  destruct (fl_default f) as [s|b|d] eqn:Hd.
  2: { eapply IH; [|exact Hp|apply Hins; [done|by rewrite Hd|done]]. simpl. lia. }
  all: destruct rest as [|v rest]; [done|]; destruct (plain_value f v) as [x|] eqn:Hx; [|done]; cbn [mbind option_bind] in Hp.
  all: eapply IH; [|exact Hp|apply Hins; [done|rewrite Hd|done]]; [simpl; lia|].
  all: unfold plain_value in Hx; rewrite Hd in Hx.
  - by injection Hx as <-.
  - by destruct (dur_Parse v); simplify_eq/=.
Qed.

Definition plain_cobra : Cobra.
Proof.
  refine {| cobra_parse := @plain_parse |}. intros A c args path given. unfold plain_parse.
  destruct (plain_path c args) as [path' rest]. destruct (find_command path' c) as [sub|] eqn:Hs; [|done].
  destruct (plain_flags _ _ _) as [given'|] eqn:Hp; [|done].
  destruct (forallb _ _) eqn:Hr; [|done]. intros [= -> ->]. exists sub. split; [done|]. split.
  - eapply plain_flags_own; [exact Hp|]. intros n v. by rewrite lookup_empty.
  - intros f Hf Hq. rewrite forallb_forall in Hr. specialize (Hr f (proj1 (list_elem_of_In _ _) Hf)).
    rewrite Hq in Hr. by apply bool_decide_eq_true in Hr.
Defined.
End Plain.

Lemma Execute_run {Cert CertPool W} `{MapRange} `{DurationText} `{Cobra} (h : Host Cert CertPool W) args path given c st :
  cobra_parse (newRootCmd h) args = Invoke path given → find_command path (newRootCmd h) = Some c →
  Execute h args st = cm_runE c (given ∪ defaults (cm_flags c)) st.
Proof. intros Hp Hc. unfold Execute. by rewrite Hp, Hc. Qed.

(** ** Claims *)

(** What [main] does is exact.  Cobra's own errors exit with 1 and help or the version
    with 0, and neither touches anything.  Otherwise one of the four commands runs, each
    variable it reads holding the value given or, for a flag that is not required, its
    default, of the flag's kind; the exit status is 0 exactly without an error on the
    standard error; only the root command runs a node; only [bootstrap] with a file to
    write changes files, that one; and only [import] changes anything over HTTP. *)
Theorem main_correct {Cert CertPool W} `{MapRange} `{DurationText} `{Cobra} (h : Host Cert CertPool W) (args : list string) (st : State W) :
  let '(x, st') := main h args st in
  match cobra_parse (newRootCmd h) args with
  | ParseError msg => x = Exits 1 (Some (UsageFailed msg)) ∧ st' = st
  | Printed_ => x = Exits 0 None ∧ st' = st
  | Invoke path given => ∃ c, known h path c ∧
      let vals := given ∪ defaults (cm_flags c) in
      (∀ f, f ∈ cm_flags c → ∃ v, vals !! fl_name f = Some v ∧ same_kind (fl_default f) v = true ∧
         (given !! fl_name f = Some v ∨ (v = fl_default f ∧ fl_required f = false))) ∧
      match x with
      | Serves _ _ => path = []
      | Exits s err => (s = 0 ↔ err = None) ∧ (s = 0 ∨ s = 1) ∧ (path = [] → s = 1)
      end ∧
      (st_files st' ≠ st_files st → x = Exits 0 None ∧ path = ["bootstrap"%string] ∧
         ∃ r, st_files st' = <[str_var vals "out" := Served r]> (st_files st)) ∧
      (st_http st' ≠ st_http st → path = ["import"%string])
  end.
Proof.
  unfold main, Execute. destruct (cobra_parse (newRootCmd h) args) as [msg| |path given] eqn:Hp; [done|done|].
  destruct (cobra_ok _ _ _ _ Hp) as (c & Hc & Hok). rewrite Hc. apply find_known in Hc.
  pose proof (known_effect h path c (given ∪ defaults (cm_flags c)) st Hc) as He.
  destruct (cm_runE c _ st) as [o st']. exists c. split; [done|]. cbv zeta. split.
  - intros f Hf. destruct (vars_lookup _ _ _ Hok (known_flags h _ _ Hc) Hf) as (v & Hv & Hk & Hd).
    exists v. split; [done|]. split; [done|]. destruct (fl_required f) eqn:Hq; [left|].
    + destruct (gv_required _ _ Hok f Hf Hq) as [v' Hv']. rewrite (lookup_union_Some_l _ _ _ _ Hv') in Hv. by injection Hv as <-.
    + destruct Hd; [by right|by left].
  - destruct o; try done.
    + destruct He as [-> [-> | ->]]; (split; [by split_and!; [split|right|]|]); (split; [done|]); try done.
    + by destruct He as [-> ->].
    + destruct He as [-> ->]. split; [by split_and!; [|left|]|]. by split; [|intros _].
    + destruct He as [-> ->]. by split; [split_and!; [|left|]|].
    + destruct He as (-> & -> & -> & r & E). split; [by split_and!; [|left|]|]. split; [|done].
      intros _. split; [done|]. split; [done|]. by exists r.
    + destruct He as [-> ->]. by split; [split_and!; [|left|]|].
Qed.

(** *** Joining from the command line *)

Lemma Parse_as_yaml ext decoded cfg : Parse ext decoded = Loaded cfg → ∃ c, Parse ".yaml" (Some c) = Loaded cfg.
Proof.
  unfold Parse. destruct (negb _); [done|]. destruct decoded as [c|]; [|done]. intros HL. by exists c.
Qed.

(** What a served agent configuration says once loaded: the seed's settings, on loopback,
    and nothing else. *)
Record serves_agent (cfg : Config) (seeds : list string) (c : Config) : Prop := {
  sa_role : c_Role c = RoleAgent;
  sa_name : c_NodeName c = ""%string;
  sa_dc : c_Datacenter c = c_Datacenter cfg;
  sa_dirs : c_DataDir c = ""%string ∧ c_ConfigDir c = ""%string;
  sa_cluster : c_Cluster c = mkCluster (cl_Name (c_Cluster cfg)) seeds None;
  sa_times : c_TTL c = c_TTL cfg ∧ c_HeartbeatInterval c = c_HeartbeatInterval cfg ∧ c_ShutdownTimeout c = c_ShutdownTimeout cfg;
  sa_grpc : ls_GRPC (c_Listeners c) = mkListener true "127.0.0.1" (l_Port (ls_GRPC (c_Listeners cfg)));
  sa_http : ls_ConsulHTTP (c_Listeners c) = mkListener true "127.0.0.1" (l_Port (ls_ConsulHTTP (c_Listeners cfg)));
  sa_dns : ls_DNS (c_Listeners c) = mkListener true "127.0.0.1" (l_Port (ls_DNS (c_Listeners cfg)));
  sa_metrics : l_Enabled (ls_Metrics (c_Listeners c)) = false;
  sa_zones : dns_Domain (c_DNS c) = dns_Domain (c_DNS cfg) ∧ dns_AltDomain (c_DNS c) = dns_AltDomain (c_DNS cfg);
  sa_agent : c_Agent c = c_Agent cfg;
  sa_plain : tls_Enabled (c_TLS c) = false ∧ acl_TokensFile (c_ACL c) = ""%string ∧ fed_Enabled (c_Federation c) = false ∧
    c_EnableScriptChecks c = false
}.

Lemma served_serves cfg seeds :
  valid cfg → has_defaults cfg → tls_Enabled (c_TLS cfg) = false →
  serves_agent cfg seeds (applyDefaults (servedConfig cfg RoleAgent seeds)).
Proof.
  intros Hv Hd Ht. destruct (hd_ports _ Hd) as (P1 & P2 & P3 & P4). pose proof (v_lease _ Hv). pose proof (v_shutdown _ Hv).
  assert (Hl : ∀ p q, p ≠ 0 → defaultListener (mkListener true "127.0.0.1" p) q = mkListener true "127.0.0.1" p).
  { intros p q Hp. unfold defaultListener. simpl. by rewrite or_int_id. }
  split; try (by apply Hl); try done.
  - cbn -[or_str]. apply or_str_id, Hd.
  - cbn -[or_int]. rewrite !or_int_id by lia. done.
  - cbn. split; apply Hd.
  - by rewrite served_agent, bool_decide_eq_true_2.
  - cbn. by rewrite Ht.
Qed.

(** The seeds an agent starts with: the trimmed ones of the list that are not blank. *)
Definition usable_seeds (listed seeds : list string) : Prop :=
  NoDup seeds ∧ ∀ s, s ∈ seeds ↔ s ≠ ""%string ∧ s ∈ TrimSpace <$> listed.

Lemma start_seeds_static host cfg listed seeds :
  c_Cluster cfg = mkCluster (cl_Name (c_Cluster cfg)) listed None → start_seeds host cfg seeds → usable_seeds listed seeds.
Proof.
  intros Hc. unfold start_seeds, buildSeedProvider. rewrite Hc. cbn [cl_Seeds cl_Discovery].
  assert (Hgoal : match Merged_Seeds host ((if (0 <? length listed)%nat then [Static listed] else []) ++ []) with
      inl l => usable_seeds listed l | inr _ => usable_seeds listed [] end).
  2: { destruct (Merged_Seeds _ _); by intros ->. }
  unfold Merged_Seeds, merged_result. rewrite app_nil_r, merge_providers_spec by set_solver.
  assert (Ho : ∀ s, s ∈ offered ((λ p, (Provider_Name p, Provider_Seeds host p)) <$>
      (if (0 <? length listed)%nat then [Static listed] else [])) ↔ s ≠ ""%string ∧ s ∈ TrimSpace <$> listed).
  { intros s. destruct listed as [|x l]; [simpl; set_solver|]. change (s ∈ filter (λ s, s ≠ ""%string) (TrimSpace <$> x :: l) ++ [] ↔ s ≠ ""%string ∧ s ∈ TrimSpace <$> x :: l).
    by rewrite app_nil_r, list_elem_of_filter. }
  set (out := first_seen (offered _) []).
  assert (Hu : usable_seeds listed out).
  { split; [apply first_seen_NoDup; constructor|]. intros s. unfold out. rewrite first_seen_elem, Ho. set_solver. }
  destruct (Nat.eqb_spec (length out) 0) as [Hz|]; [|done]. apply length_zero_iff_nil in Hz. by rewrite Hz in Hu.
Qed.

(** The agent a served configuration describes: its components in order, with the seed's
    datacenter, seeds, interval, quorum, cache bound, drain window and zones. *)
Definition described_agent (cfg : Config) (listed : list string) (comps : list Comp) : Prop :=
  ∃ seeds nid px wt identity authz h rate d only truncate drate,
    usable_seeds listed seeds ∧
    let local l := JoinHostPort "127.0.0.1" (FormatUint (l_Port (l (c_Listeners cfg)))) in
    let beat := c_HeartbeatInterval cfg in
    let ag := c_Agent cfg in
    comps =
      [Deregistrar seeds nid;
       GrpcServer (local ls_GRPC) (ProxyService px seeds (ag_CacheMaxAge ag) wt) identity authz false (ag_DrainWindow ag) None;
       ReadinessProbe seeds (ag_ReadyMinSeeds ag) beat; RenewLoop beat; RefreshLoop (ag_CacheMaxAge ag);
       IndexFlusher "" beat; CheckMonitor false;
       ConsulHTTP (local ls_ConsulHTTP) h rate; ConsulDNS (local ls_DNS) d only truncate drate] ∧
    Node_ID (px_node px) = nid ∧ Node_Datacenter (px_node px) = c_Datacenter cfg ∧
    px_quorum px = ag_WriteQuorum ag ∧ px_hosted px = ∅ ∧
    info_ID (h_info h) = nid ∧ info_Datacenter (h_info h) = c_Datacenter cfg ∧ info_Seeds (h_info h) = seeds ∧
    dc_Datacenter d = c_Datacenter cfg ∧
    (dc_Domain d = dns_Domain (c_DNS cfg) ∨ dc_Domain d = dns_Domain (c_DNS cfg) +:+ ".") ∧
    (dc_AltDomain d = dns_AltDomain (c_DNS cfg) ∨ dc_AltDomain d = dns_AltDomain (c_DNS cfg) +:+ ".").

(** The start of an agent on such a configuration: it can fail only for its node ID or
    its seeds. *)
Lemma agent_start {Cert CertPool} `{MapRange} (w : World Cert CertPool) (host : PluginHost)
    (dial : list string → option (Query → option LookupResult)) (cfg : Config) (seeds : list string) (d c : Config) :
  valid cfg → Parse ".yaml" (Some d) = Loaded c → valid c → serves_agent cfg seeds c →
  match RunE w host dial ".yaml" (Some d) "" "info" "json" with
  | inl (SetupFailed e) => e = NodeIDFailed
  | inl (BuildFailed e) => ∃ l, usable_seeds seeds l ∧
      ((e = NoSeedsResolved ∧ l = []) ∨ (e = DialSeedsFailed ∧ l ≠ [] ∧ dial l = None))
  | inl _ => False
  | inr (comps, _) => described_agent cfg seeds comps
  end.
Proof.
  intros Hvc HP Hv [Hrole Hname Hdc [Hdd Hcd] Hcl (_ & Hhb & _) Hg Hh Hdn Hm [Hz Hz'] Hag (Htls & Htok & Hfed & Hsc)].
  pose proof (RunE_loaded w host dial ".yaml" (Some d) c HP) as Hrun.
  destruct (RunE _ _ _ _ _ _ _ _) as [e|[comps app]].
  - destruct e as [| | |e|e]; try done.
    + destruct e; try done.
      * destruct Hrun; congruence.
      * destruct Hrun as (? & ? & ? & _). congruence.
      * destruct (valid_mode _ Hv) as [m Hmm]. unfold setup_cause in Hrun. congruence.
    + destruct Hrun as (sec & fs & l & _ & Hss%(start_seeds_static _ _ seeds) & Hb%build_error);
        [|by rewrite Hcl]. exists l. split; [done|].
      unfold build_cause in Hb. destruct e; try (destruct Hb as [Hr _]; by rewrite Hrole in Hr).
      * left. by destruct Hb.
      * right. by destruct Hb.
      * destruct Hb as (_ & Hf & _). congruence.
  - destruct Hrun as (sec & fs & l & _ & Hss%(start_seeds_static _ _ seeds) & Hb); [|by rewrite Hcl].
    unfold buildComponents in Hb. rewrite Hrole in Hb. cbn in Hb. unfold buildAgent in Hb.
    destruct (length l =? 0)%nat; [done|]. destruct (seedclient_New dial l); [|done].
    unfold fedRouter in Hb. rewrite Hfed in Hb. injection Hb as <-.
    unfold metricsComponent, consulComponent, dnsComponent, loaderComponent.
    rewrite Hm, Hh, Hdn, Hcd. cbn [l_Enabled negb Datatypes.app]. rewrite bool_decide_eq_false_2 by (intros Hne; by apply Hne).
    rewrite Hag, Hhb, Hg, Hdd, Hsc. unfold described_agent.
    exists l, (Node_ID (self_node c sec)), (NewProxy (self_node c sec) (ag_WriteQuorum (c_Agent cfg))).
    do 9 eexists. split; [exact Hss|]. cbv zeta. split; [unfold proxy_service; rewrite Hag; reflexivity|].
    split; [done|]. split; [exact Hdc|]. split.
    { unfold NewProxy. cbn [px_quorum]. pose proof (v_agent _ Hvc).
      destruct (Z.ltb_spec (ag_WriteQuorum (c_Agent cfg)) 1); [lia|done]. }
    split; [done|]. split; [done|]. split; [exact Hdc|]. split; [done|]. split; [exact Hdc|].
    rewrite <-Hz, <-Hz'. cbn [dc_Domain dc_AltDomain NewDnsHandler]. split.
    + destruct (HasSuffix _ "."); [by left|by right].
    + destruct (_ && _); [by right|by left].
Qed.

(** C38: a node joins with three commands.  On a seed, [yp bootstrap create-token] prints a
    token; on the new node, before the token expires, [yp bootstrap] with the seed, the
    token and a file writes a document to that file and nothing else, which loads to an
    agent configuration with the seed's datacenter, cluster name, lease, intervals, ports,
    zones and agent settings (its quorums among them) and all the seeds it advertises
    ([serves_agent]); and [yp --config] on that file runs exactly the agent it describes
    ([described_agent]): its nine components in order, dialling those seeds, renewing at
    the seed's interval, writing with the seed's quorum, and serving its proxy, the HTTP
    API and the DNS zones on loopback under the seed's datacenter.  The start fails only
    when no node ID can be made, when every advertised seed is blank, or when they cannot
    be dialled: the configuration is never at fault, provided the seed needs no local
    credentials (neither TLS nor enforcement) and advertises some seed. *)
Theorem cli_join {Cert CertPool Ws Wn} `{MapRange} `{DurationText} `{Cobra}
    (hs : Host Cert CertPool Ws) (hn hn' : Host Cert CertPool Wn) (ss : State Ws) (sn : State Wn)
    (mint fetch start : list string) (given : Vars) (doc : Document) (cfg : Config) (b : BootService)
    (file seed token out nonce ip : string) (now : Z) :
  cobra_parse (newRootCmd hs) mint = Invoke ["bootstrap"; "create-token"]%string given →
  given !! "config"%string = Some (StringFlag file) → st_files ss !! file = Some doc →
  Parse (path_Ext file) (decoded_doc doc) = Loaded cfg → i64_durations cfg →
  bootstrapRegistrar cfg (w_fs (ho_world hs)) = inr (Some b) → bsv_seeds b ≠ [] →
  tls_Enabled (c_TLS cfg) = false → acl_Mode (c_ACL cfg) ≠ "enforce"%string →
  ho_nonce hs = Some nonce → String.length nonce = 8%nat →
  let ttl := duration_var (given ∪ defaults (cm_flags (newCreateTokenCmd hs))) "ttl" in
  is_i64 (token_expiry cfg ttl (ho_now hs)) →
  (Execute hs mint ss).1 = TokenPrinted token →
  cobra_parse (newRootCmd hn) fetch = Invoke ["bootstrap"%string]
    {[ "seed"%string := StringFlag seed; "token"%string := StringFlag token; "out"%string := StringFlag out ]} →
  seed ≠ ""%string → token ≠ ""%string → out ≠ ""%string → out ≠ "-"%string → path_Ext out = ".yaml"%string →
  ho_writable hn out = true → (∀ timeout, ho_call hn timeout = seed_call ip now b) →
  (Allow now ip (bsv_rrl b)).1 = true → Unix now <= token_expiry cfg ttl (ho_now hs) →
  cobra_parse (newRootCmd hn') start = Invoke [] {[ "config"%string := StringFlag out ]} →
  let '(o, sn') := Execute hn fetch sn in
  o = ConfigWritten out ∧
  (∃ written c, sn' = mkState (<[out := written]> (st_files sn)) (st_http sn) ∧
     Parse ".yaml" (decoded_doc written) = Loaded c ∧ serves_agent cfg (bsv_seeds b) c) ∧
  match (Execute hn' start sn').1 with
  | NodeRuns comps _ => described_agent cfg (bsv_seeds b) comps
  | Failed (StartFailed (SetupFailed e)) => e = NodeIDFailed
  | Failed (StartFailed (BuildFailed e)) => ∃ l, usable_seeds (bsv_seeds b) l ∧
      ((e = NoSeedsResolved ∧ l = []) ∨ (e = DialSeedsFailed ∧ l ≠ [] ∧ ho_dial hn' l = None))
  | _ => False
  end.
Proof.
  intros Hmint Hgc Hdoc HP Hi Hb Hseeds Htls Hmode Hnonce Hlen ttl He Htoken Hfetch Hseed Htok Hout Hdash Hext Hwr Hcall Hal Hlife Hstart.
  rewrite (Execute_run hs mint _ given (newCreateTokenCmd hs) ss Hmint eq_refl) in Htoken.
  change (cm_runE _ ?v ss) with (create_token_run hs v ss) in Htoken.
  unfold create_token_run in Htoken. fold ttl in Htoken. rewrite (str_var_given _ _ _ _ Hgc), Hdoc, Hnonce in Htoken.
  destruct (create_token _ _ _ _ _ _) as [e|t] eqn:Hc; [done|]. injection Htoken as ->.
  pose proof (bootstrap_end_to_end (ho_world hn) cfg b _ _ _ ttl (ho_now hs) now nonce token (ho_env hn) seed ip false false
    (ho_writable hn out) "" "" "" out HP Hb Hc Hlen He Hseed Htok Hal) as [_ Hrun].
  rewrite (proj2 (Z.ltb_ge _ _) Hlife), !bool_decide_eq_false_2, Hwr in Hrun by done. cbn [orb] in Hrun.
  rewrite (Execute_run hn fetch _ _ (newBootstrapCmd hn) sn Hfetch eq_refl).
  change (cm_runE _ ?v sn) with (bootstrap_run hn v sn). unfold bootstrap_run. cbv zeta.
  set (vals := _ ∪ defaults (cm_flags (newBootstrapCmd hn))).
  change (str_var vals "seed") with seed. change (str_var vals "role") with "agent"%string.
  change (str_var vals "token") with token. change (str_var vals "out") with out.
  change (str_var vals "ca") with ""%string. change (str_var vals "cert") with ""%string.
  change (str_var vals "key") with ""%string. change (bool_var vals "tls") with false.
  change (bool_var vals "insecure") with false. rewrite Hwr, Hcall, Hrun. split; [done|].
  destruct (Parse_as_yaml _ _ _ HP) as (c0 & HP0). destruct (Parse_yaml_Loaded _ _ HP0) as [Hv Hd%applyDefaults_has_defaults].
  pose proof (served_valid cfg RoleAgent (bsv_seeds b) Hv Hd (or_introl eq_refl) Hseeds Htls Hmode) as HV.
  assert (HPs : Parse ".yaml" (Some (servedConfig cfg RoleAgent (bsv_seeds b))) =
    Loaded (applyDefaults (servedConfig cfg RoleAgent (bsv_seeds b)))) by (by rewrite Parse_yaml, (proj2 (Validate_nil _) HV)).
  pose proof (served_serves cfg (bsv_seeds b) Hv Hd Htls) as Hsa. split.
  { eexists _, _. split; [reflexivity|]. cbn [decoded_doc]. rewrite denoted_Render by done. by split; [exact HPs|]. }
  rewrite (Execute_run hn' start _ _ (newRootCmd hn') _ Hstart eq_refl).
  change (cm_runE _ ?v ?st) with (root_run hn' v st). unfold root_run. clear vals.
  set (vals := _ ∪ defaults (cm_flags (newRootCmd hn'))).
  change (str_var vals "config") with out. change (str_var vals "role") with ""%string.
  change (str_var vals "log-level") with "info"%string. change (str_var vals "log-format") with "json"%string.
  cbn [st_files]. rewrite lookup_insert_eq, Hext. cbn [decoded_doc]. rewrite denoted_Render by done.
  pose proof (agent_start (ho_world hn') (ho_plugins hn') (ho_dial hn') cfg (bsv_seeds b) _ _ Hv HPs HV Hsa) as Hstarts.
  destruct (RunE _ _ _ _ _ _ _ _) as [e|[comps app]]; cbn [fst]; [destruct e|]; apply Hstarts.
Qed.

(** ** A join (used by the witness) *)

(** A host with an empty data directory, where every seed can be dialled; what it finds
    when it asks a seed is [call]. *)
Definition joinHost (now : Z)
    (call : ClientCreds unit unit → string → gmap string (list string) → string → option rendered) : Host unit unit unit :=
  mkHost (mkWorld unit unit ∅ ∅ (Some "0123456789abcdef"%string) true WriteOK (λ _, None) (λ _ _, None) (λ _, None))
    (mkPluginHost (λ _, None) (λ _ _, PluginFailed)) (λ _, Some (λ _, None)) "" now (Some "nonce--8"%string) (λ _, call) (λ _, true)
    (λ _, mkHttpClient unit (λ _, false) (λ _ w, (None, w)) (λ _ _ w, (None, w))).

Definition joinConfig : Config := applyDefaults (sampleSeed "" "s1").

Definition joinSeed : State unit := mkState {[ "/etc/yp/seed.yml"%string := Authored (Some (sampleSeed "" "s1")) ]} tt.

Definition joinBoot : BootService :=
  NewService joinConfig sampleKey false ["seed-a:9900"%string] (bs_RateLimit (c_Bootstrap joinConfig)).

#[local] Existing Instance decimal_durations.

Definition joinSeedHost : Host unit unit unit := joinHost (100 * second) (λ _ _ _ _, None).

Definition joinNodeHost (now : Z) : Host unit unit unit := joinHost now (seed_call "10.0.0.9" now joinBoot).

Definition mintArgs : list string := ["bootstrap"; "create-token"; "-c"; "/etc/yp/seed.yml"]%string.

Definition joinToken : string :=
  match (@Execute unit unit unit list_order _ joinSeedHost plain_cobra mintArgs joinSeed).1 with TokenPrinted t => t | _ => ""%string end.

Definition fetchArgs : list string :=
  ["bootstrap"; "--seed"; "seed-a:9900"; "--token"; joinToken; "-o"; "/etc/yp/agent.yaml"]%string.

Definition startArgs : list string := ["--config"; "/etc/yp/agent.yaml"]%string.

Lemma cli_join_witness :
  let sn' := (@Execute unit unit unit list_order _ (joinNodeHost (120 * second)) plain_cobra fetchArgs (mkState ∅ tt)).2 in
  ∃ comps app,
    (@Execute unit unit unit list_order _ (joinNodeHost (121 * second)) plain_cobra startArgs sn').1 = NodeRuns comps app ∧
    described_agent joinConfig ["seed-a:9900"%string] comps ∧ c_Datacenter joinConfig = "dc1"%string.
Proof.
  assert (Htok : (@Execute unit unit unit list_order _ joinSeedHost plain_cobra mintArgs joinSeed).1 = TokenPrinted joinToken)
    by (unfold joinToken; vm_compute; reflexivity).
  assert (Hne : joinToken ≠ ""%string) by (apply (bool_decide_eq_false_1 (joinToken = ""%string)); vm_compute; reflexivity).
  assert (Hruns : match (@Execute unit unit unit list_order _ (joinNodeHost (121 * second)) plain_cobra startArgs
      (@Execute unit unit unit list_order _ (joinNodeHost (120 * second)) plain_cobra fetchArgs (mkState ∅ tt)).2).1
    with Failed _ => False | _ => True end) by (vm_compute; exact I).
  pose proof (@cli_join unit unit unit unit list_order decimal_durations plain_cobra joinSeedHost
    (joinNodeHost (120 * second)) (joinNodeHost (121 * second)) joinSeed (mkState ∅ tt) mintArgs fetchArgs startArgs
    {[ "config"%string := StringFlag "/etc/yp/seed.yml" ]} (Authored (Some (sampleSeed "" "s1"))) joinConfig joinBoot
    "/etc/yp/seed.yml" "seed-a:9900" joinToken "/etc/yp/agent.yaml" "nonce--8" "10.0.0.9" (120 * second)) as Hj.
  cbv zeta in Hj. intros sn'. destruct (@Execute unit unit unit list_order decimal_durations (joinNodeHost (120 * second))
    plain_cobra fetchArgs (mkState ∅ tt)) as [o st] eqn:Ef.
  destruct Hj as (_ & _ & Hj).
  1-4: vm_compute; reflexivity.
  { repeat constructor; vm_compute; discriminate. }
  { vm_compute; reflexivity. }
  { discriminate. }
  { reflexivity. }
  { vm_compute; discriminate. }
  1-2: reflexivity.
  { vm_compute; split; discriminate. }
  { exact Htok. }
  { vm_compute; reflexivity. }
  { discriminate. }
  { exact Hne. }
  1-2: discriminate.
  1-2: reflexivity.
  { intros t. reflexivity. }
  { vm_compute; reflexivity. }
  { vm_compute; discriminate. }
  { vm_compute; reflexivity. }
  subst sn'. cbn [snd] in *. destruct (Execute (joinNodeHost (121 * second)) startArgs st) as [o' st'] eqn:Es. cbn [fst] in *.
  destruct o' as [e| |comps app| | | |].
  - destruct Hruns.
  - destruct Hj.
  - exists comps, app. split; [reflexivity|]. split; [exact Hj|]. vm_compute. reflexivity.
  - destruct Hj.
  - destruct Hj.
  - destruct Hj.
  - destruct Hj.
Defined.
