(* ===== verification/ClientConns.v ===== *)
(** The client side's connections: [Dial], [Wrap] and [Close] of [client/sdk/sdk.go], and
    the life of a [yp://] resolver ([Register], [Build], [run] and [Close] of
    [client/grpcresolver/resolver.go]): who closes the connection to the agent, and how
    long the addresses of a channel follow the watch.

    Connections are those of [Conns]; whether [grpc.NewClient] accepts a target with its
    options, and whether the watch opens, are parameters. *)

From Stdlib Require Import ZArith Lia.
From stdpp Require Import base gmap sets list strings relations.
From S2P Require Import Prelude GoStrings Model Protoconv SeedClient Proxy GrpcResolver Conns.

#[local] Open Scope Z_scope.

(** ** The SDK's client *)

(** A dial option: the insecure credentials, or one of the caller's. *)
Inductive DialOption := InsecureCredentials | UserOption (n : nat).

(** [sdk.Client]: its connection and whether it dialled it. *)
Record SdkClient := mkSdkClient { sk_conn : option nat; sk_owned : bool }.

Section Clients.
Context (new_error : string → list DialOption → option string) (close_error : nat → option string).

Definition sdk_Dial (target : string) (opts : list DialOption) (n : Conns) : (string + SdkClient) * Conns :=
  let target := if bool_decide (target = ""%string) then DefaultAgentAddress else target in
  let opts := if (length opts =? 0)%nat then [InsecureCredentials] else opts in
  match Conns.Dial (λ a, new_error a opts) target n with
  | (inl e, n) => (inl e, n)
  | (inr c, n) => (inr (mkSdkClient (Some c) true), n)
  end.

Definition sdk_Wrap (conn : option nat) : SdkClient := mkSdkClient conn false.

Definition sdk_Close (c : SdkClient) (n : Conns) : option string * Conns :=
  match sk_owned c, sk_conn c with
  | true, Some x => conn_Close close_error x n
  | _, _ => (None, n)
  end.

(** ** The resolver *)

Definition Scheme : string := "yp".

Inductive ResolverError := NoServiceName | DialAgentFailed (addr err : string) | WatchFailed (service err : string).

(** What a channel is told: the addresses, and round robin when the channel can parse it. *)
Record ChannelState := mkChannelState { ch_Addresses : list Address; ch_roundRobin : bool }.

(** A resolver: its client, whether it was closed, whether its goroutine runs, and the
    last state the channel was told. *)
Record ypResolver := mkResolver {
  yr_client : SdkClient; yr_closed : bool; yr_running : bool; yr_told : option ChannelState
}.

(** [builder.Build], with the options given to [Register]; [watch_error]: the watch of a
    service over a connection. *)
Definition builder_Build (dialOpts : list DialOption) (watch_error : nat → Query → option string) (host path : string) (n : Conns)
  : (ResolverError + ypResolver) * Conns :=
  match Build host path with
  | None => (inl NoServiceName, n)
  | Some (agentAddr, q) =>
      match sdk_Dial agentAddr dialOpts n with
      | (inl e, n) => (inl (DialAgentFailed agentAddr e), n)
      | (inr client, n) =>
          match (c ← sk_conn client; watch_error c q) with
          | Some e => (inl (WatchFailed (Query_Name q) e), (sdk_Close client n).2)
          | None => (inr (mkResolver client false true None), n)
          end
      end
  end.

(** [Close]: the watch is cancelled and the connection closed. *)
Definition resolver_Close (r : ypResolver) (n : Conns) : ypResolver * Conns :=
  (mkResolver (yr_client r) true (yr_running r) (yr_told r), (sdk_Close (yr_client r) n).2).

(** [run] while the resolver is there: a delivered set is told to the channel; the stream
    ends, because the resolver was closed or because the agent is gone, and with it the
    goroutine; the channel asks to resolve again. *)
Inductive resolver_step (parses : bool) : ypResolver → ypResolver → Prop :=
  | rv_update r entries : yr_running r = true →
      resolver_step parses r (mkResolver (yr_client r) (yr_closed r) true (Some (mkChannelState (toAddresses entries) parses)))
  | rv_stream_ends r : resolver_step parses r (mkResolver (yr_client r) (yr_closed r) false (yr_told r))
  | rv_ResolveNow r : resolver_step parses r r
  | rv_close r : resolver_step parses r (mkResolver (yr_client r) true (yr_running r) (yr_told r)).

(** ** Lemmas *)

Lemma sdk_Dial_spec target opts n :
  match sdk_Dial target opts n with
  | (inl _, n') => n' = n
  | (inr c, n') => c = mkSdkClient (Some (cs_next n)) true ∧ cs_open n' = {[ cs_next n ]} ∪ cs_open n ∧ cs_next n' = S (cs_next n)
  end.
Proof. unfold sdk_Dial, Conns.Dial. by destruct (new_error _ _). Qed.

Lemma fresh_closed n : conns_ok n → ({[ cs_next n ]} ∪ cs_open n) ∖ {[ cs_next n ]} = cs_open n.
Proof.
  intros Hok. apply set_eq. intros x. rewrite elem_of_difference, elem_of_union, elem_of_singleton. split; [tauto|].
  intros Hx. specialize (Hok x Hx). split; [by right|lia].
Qed.

(** ** Claims *)

(** A client closes what it dialled and nothing else: [Close] of a dialled client gives
    back the one connection [Dial] opened, with its error; of a wrapped one nothing.  A
    dial that fails opens nothing. *)
Theorem sdk_client_ownership (target : string) (opts : list DialOption) (n : Conns) :
  conns_ok n →
  (∀ conn, sdk_Close (sdk_Wrap conn) n = (None, n)) ∧
  match sdk_Dial target opts n with
  | (inl _, n') => n' = n
  | (inr c, n') => ∃ x, sk_conn c = Some x ∧ x ∉ cs_open n ∧ cs_open n' = {[ x ]} ∪ cs_open n ∧
      (sdk_Close c n').1 = close_error x ∧ cs_open (sdk_Close c n').2 = cs_open n
  end.
Proof.
  intros Hok. split; [done|]. pose proof (sdk_Dial_spec target opts n) as Hd.
  destruct (sdk_Dial target opts n) as [[e|c] n']; [done|]. destruct Hd as (-> & Ho & _).
  exists (cs_next n). split_and!; [done| |done|done|].
  - intros Hx. apply Hok in Hx. lia.
  - cbn. rewrite Ho. by apply fresh_closed.
Qed.

(** A resolver owns one connection: [Build] that fails, for whatever reason, leaves the
    connections as they were; one that succeeds has opened a single one, to the agent of
    the target or the default one, and [Close] closes it. *)
Theorem resolver_lifecycle (dialOpts : list DialOption) (watch_error : nat → Query → option string) (host path : string) (n : Conns) :
  conns_ok n →
  match builder_Build dialOpts watch_error host path n with
  | (inl e, n') => cs_open n' = cs_open n ∧ (TrimPrefix path "/" = ""%string ↔ e = NoServiceName)
  | (inr r, n') => TrimPrefix path "/" ≠ ""%string ∧ yr_running r = true ∧
      (∃ x, x ∉ cs_open n ∧ cs_open n' = {[ x ]} ∪ cs_open n) ∧ cs_open (resolver_Close r n').2 = cs_open n
  end.
Proof.
  intros Hok. unfold builder_Build, Build. case_bool_decide as Hp; [done|]. cbv zeta.
  pose proof (sdk_Dial_spec (if bool_decide (host = ""%string) then DefaultAgentAddress else host) dialOpts n) as Hd.
  destruct (sdk_Dial _ dialOpts n) as [[e|c] n']; [by subst n'|]. destruct Hd as (-> & Ho & _). cbn [sk_conn mbind option_bind].
  destruct (watch_error _ _) as [e|]; cbn.
  - rewrite Ho, fresh_closed by done. done.
  - rewrite Ho, fresh_closed by done. split_and!; [done|done| |done].
    exists (cs_next n). split; [|done]. intros Hx. apply Hok in Hx. lia.
Qed.

(** A resolver whose stream has ended is deaf for good: the goroutine does not watch again,
    and asking to resolve now is ignored, so the channel keeps the addresses it was told
    last however the instances change, although nobody has closed the resolver. *)
Theorem resolver_deaf_after_stream_end (parses : bool) (r r' : ypResolver) :
  yr_running r = false → rtc (resolver_step parses) r r' → yr_running r' = false ∧ yr_told r' = yr_told r.
Proof.
  intros Hr Hs. induction Hs as [|x y z Hst _ IH]; [done|].
  destruct Hst; cbn [yr_running yr_told] in *; [congruence|apply IH..]; done.
Qed.
End Clients.

(** Such a state is reached with the resolver open: the agent restarts. *)
Theorem resolver_deaf_reached (parses : bool) (c : SdkClient) (entries : list PbEntry) :
  ∃ r, rtc (resolver_step parses) (mkResolver c false true None) r ∧ yr_closed r = false ∧ yr_running r = false ∧
    yr_told r = Some (mkChannelState (toAddresses entries) parses).
Proof.
  eexists. split; [|split_and!]. { eapply rtc_l; [by apply (rv_update _ _ entries)|]. eapply rtc_once, rv_stream_ends. }
  all: reflexivity.
Qed.
