(* ===== verification/DnsServe.v ===== *)
(** A DNS exchange as a whole, [ServeDNS] of [internal/consuldns/handler.go] with its
    client ([clientIP]), its rate limit and the size of the answer ([udpSize]).

    Cutting a message to a size is the DNS library's: the class [DnsTruncation] has what
    it documents. *)

From Stdlib Require Import ZArith Lia.
From stdpp Require Import base gmap list strings.
From S2P Require Import Prelude GoStrings GoNet Model DNS RateLimit.

#[local] Open Scope Z_scope.

(** ** The exchange *)

(** [w.RemoteAddr()]: its text, and whether it is a [*net.TCPAddr]. *)
Record RemoteAddr := mkRemoteAddr { ra_tcp : bool; ra_text : string }.

(** A request: where it is from, its questions, and the size its EDNS record advertises. *)
Record DnsRequest := mkDnsRequest { dr_remote : RemoteAddr; dr_questions : list Question; dr_edns : option Z }.

Definition clientIP (w : RemoteAddr) : string :=
  match SplitHostPort (ra_text w) with Some (host, _) => host | None => ra_text w end.

(** [dns.MaxMsgSize] and [dns.MinMsgSize]. *)
Definition MaxMsgSize : Z := 65535.
Definition MinMsgSize : Z := 512.

Definition udpSize (r : DnsRequest) : Z :=
  if ra_tcp (dr_remote r) then MaxMsgSize
  else match dr_edns r with Some size => size | None => MinMsgSize end.

(** [Msg.Truncate] removes records from the end of each section until the message fits
    the size, which is taken to be at least [MinMsgSize]. *)
Class DnsTruncation := {
  msg_len : Msg → Z;
  Truncate : Z → Msg → Msg;
  Truncate_fits : ∀ size m, msg_len (Truncate size m) <= Z.max size MinMsgSize;
  Truncate_whole : ∀ size m, msg_len m <= Z.max size MinMsgSize → Truncate size m = m;
  Truncate_rcode : ∀ size m, msg_rcode (Truncate size m) = msg_rcode m;
  Truncate_prefix : ∀ size m, msg_answer (Truncate size m) `prefix_of` msg_answer m
}.

Section Serve.
Context `{DnsTruncation} `{MapRange} (parseIP : string → option IP) (shuffle : list ServiceEntry → list ServiceEntry) (c : DnsConfig).

(** [truncate]: the handler's [Truncate] setting. *)
Definition dns_serve (truncate : bool) (resolve : Query → option LookupResult) (now : Z) (r : DnsRequest) (l : Limiter) : Msg * Limiter :=
  let '(ok, l) := Allow now (clientIP (dr_remote r)) l in
  if negb ok then (ServeDNS parseIP shuffle c resolve false (dr_questions r), l)
  else
    let resp := ServeDNS parseIP shuffle c resolve true (dr_questions r) in
    (if truncate then Truncate (udpSize r) resp else resp, l).

(** A refused client gets REFUSED and nothing else.  For the others the answer to the
    question keeps its code and the front of its records; with truncation on it fits the
    transport, 65535 bytes over TCP and the size the client advertised (never below 512)
    over UDP, and is cut only when it would not. *)
Theorem dns_serve_correct (truncate : bool) (resolve : Query → option LookupResult) (now : Z) (r : DnsRequest) (l : Limiter) :
  let '(resp, l') := dns_serve truncate resolve now r l in
  let whole := ServeDNS parseIP shuffle c resolve true (dr_questions r) in
  let size := if ra_tcp (dr_remote r) then 65535 else Z.max (default 512 (dr_edns r)) 512 in
  l' = (Allow now (clientIP (dr_remote r)) l).2 ∧
  if (Allow now (clientIP (dr_remote r)) l).1
  then msg_rcode resp = msg_rcode whole ∧ msg_answer resp `prefix_of` msg_answer whole ∧
    (truncate = true → msg_len resp <= size) ∧ (truncate = false ∨ msg_len whole <= size → resp = whole)
  else resp = mkMsg RcodeRefused [] [] [].
Proof.
  unfold dns_serve. destruct (Allow _ _ _) as [[] l']; cbn [negb fst snd]; [|done].
  set (whole := ServeDNS _ _ _ _ _ _). set (size := if ra_tcp _ then 65535 else _). split; [done|].
  assert (Hs : Z.max (udpSize r) MinMsgSize = size).
  { unfold size, udpSize, MaxMsgSize, MinMsgSize. destruct (ra_tcp _); [done|]. by destruct (dr_edns r). }
  destruct truncate.
  - split_and!; [apply Truncate_rcode|apply Truncate_prefix|intros _; rewrite <-Hs; apply Truncate_fits|].
    intros [|Hle]; [done|]. apply Truncate_whole. by rewrite Hs.
  - by split_and!.
Qed.
End Serve.

(** The client of a request is its host whatever the port and the transport, so changing
    the source port does not get round the rate limit. *)
Theorem clientIP_ignores_port (tcp : bool) (host : string) (port : Z) :
  plain_host host → clientIP (mkRemoteAddr tcp (JoinHostPort host (FormatUint port))) = host.
Proof. intros Hh. unfold clientIP. cbn [ra_text]. by rewrite SplitHostPort_JoinHostPort by (done || apply FormatUint_plain). Qed.
