(* ===== verification/ConsulJson.v ===== *)
(** The JSON of the Consul surface, [src/internal/consul]: what the types of [types.go] and
    [catalog.go] are read from and written as, the bodies of the answers as text
    ([writeJSON], [http.Error]), and the service-definition files of [servicedef.go]. *)

From Stdlib Require Import ZArith Lia Ascii.
From stdpp Require Import base gmap sorting list strings.
From S2P Require Import Prelude GoStrings GoText GoJson JsonType Model Health Store Server ConsulFilter Consul ServiceDefs.

#[local] Open Scope Z_scope.

(** ** Requests *)

Definition d_strings : Decoder (list string) := d_slice "" d_string.

Definition d_string_map : Decoder (gmap string string) := d_map "" d_string.

(** [weights]. *)
Definition weights_fields : Fields Weights :=
  [field "Passing" Passing (λ v a, mkWeights v (Warning a)) (d_uint 32);
   field "Warning" Warning (λ v a, mkWeights (Passing a) v) (d_uint 32)].

Definition zero_weights : Weights := mkWeights 0 0.

Definition d_weights : Decoder Weights := d_struct weights_fields.

(** [checkInput]. *)
Definition checkInput_fields : Fields checkInput :=
  [field "TTL" ci_TTL (λ v a, mkCheckInput v (ci_HTTP a) (ci_Method a) (ci_Header a) (ci_TCP a) (ci_UDP a) (ci_Args a) (ci_Interval a) (ci_Timeout a) (ci_TLSSkipVerify a)) d_string;
   field "HTTP" ci_HTTP (λ v a, mkCheckInput (ci_TTL a) v (ci_Method a) (ci_Header a) (ci_TCP a) (ci_UDP a) (ci_Args a) (ci_Interval a) (ci_Timeout a) (ci_TLSSkipVerify a)) d_string;
   field "Method" ci_Method (λ v a, mkCheckInput (ci_TTL a) (ci_HTTP a) v (ci_Header a) (ci_TCP a) (ci_UDP a) (ci_Args a) (ci_Interval a) (ci_Timeout a) (ci_TLSSkipVerify a)) d_string;
   field "Header" ci_Header (λ v a, mkCheckInput (ci_TTL a) (ci_HTTP a) (ci_Method a) v (ci_TCP a) (ci_UDP a) (ci_Args a) (ci_Interval a) (ci_Timeout a) (ci_TLSSkipVerify a)) (d_map [] d_strings);
   field "TCP" ci_TCP (λ v a, mkCheckInput (ci_TTL a) (ci_HTTP a) (ci_Method a) (ci_Header a) v (ci_UDP a) (ci_Args a) (ci_Interval a) (ci_Timeout a) (ci_TLSSkipVerify a)) d_string;
   field "UDP" ci_UDP (λ v a, mkCheckInput (ci_TTL a) (ci_HTTP a) (ci_Method a) (ci_Header a) (ci_TCP a) v (ci_Args a) (ci_Interval a) (ci_Timeout a) (ci_TLSSkipVerify a)) d_string;
   field "Args" ci_Args (λ v a, mkCheckInput (ci_TTL a) (ci_HTTP a) (ci_Method a) (ci_Header a) (ci_TCP a) (ci_UDP a) v (ci_Interval a) (ci_Timeout a) (ci_TLSSkipVerify a)) d_strings;
   field "Interval" ci_Interval (λ v a, mkCheckInput (ci_TTL a) (ci_HTTP a) (ci_Method a) (ci_Header a) (ci_TCP a) (ci_UDP a) (ci_Args a) v (ci_Timeout a) (ci_TLSSkipVerify a)) d_string;
   field "Timeout" ci_Timeout (λ v a, mkCheckInput (ci_TTL a) (ci_HTTP a) (ci_Method a) (ci_Header a) (ci_TCP a) (ci_UDP a) (ci_Args a) (ci_Interval a) v (ci_TLSSkipVerify a)) d_string;
   field "TLSSkipVerify" ci_TLSSkipVerify (λ v a, mkCheckInput (ci_TTL a) (ci_HTTP a) (ci_Method a) (ci_Header a) (ci_TCP a) (ci_UDP a) (ci_Args a) (ci_Interval a) (ci_Timeout a) v) d_bool].

Definition zero_checkInput : checkInput := mkCheckInput "" "" "" ∅ "" "" [] "" "" false.

Definition d_checkInput : Decoder checkInput := d_struct checkInput_fields.

(** [registerInput], the body of agent/service/register and of a definition. *)
Definition registerInput_fields : Fields registerInput :=
  [field "ID" ri_ID (λ v a, mkRegisterInput v (ri_Name a) (ri_Tags a) (ri_Address a) (ri_Port a) (ri_Meta a) (ri_Weights a) (ri_Check a) (ri_Checks a)) d_string;
   field "Name" ri_Name (λ v a, mkRegisterInput (ri_ID a) v (ri_Tags a) (ri_Address a) (ri_Port a) (ri_Meta a) (ri_Weights a) (ri_Check a) (ri_Checks a)) d_string;
   field "Tags" ri_Tags (λ v a, mkRegisterInput (ri_ID a) (ri_Name a) v (ri_Address a) (ri_Port a) (ri_Meta a) (ri_Weights a) (ri_Check a) (ri_Checks a)) d_strings;
   field "Address" ri_Address (λ v a, mkRegisterInput (ri_ID a) (ri_Name a) (ri_Tags a) v (ri_Port a) (ri_Meta a) (ri_Weights a) (ri_Check a) (ri_Checks a)) d_string;
   field "Port" ri_Port (λ v a, mkRegisterInput (ri_ID a) (ri_Name a) (ri_Tags a) (ri_Address a) v (ri_Meta a) (ri_Weights a) (ri_Check a) (ri_Checks a)) d_int;
   field "Meta" ri_Meta (λ v a, mkRegisterInput (ri_ID a) (ri_Name a) (ri_Tags a) (ri_Address a) (ri_Port a) v (ri_Weights a) (ri_Check a) (ri_Checks a)) d_string_map;
   field "Weights" ri_Weights (λ v a, mkRegisterInput (ri_ID a) (ri_Name a) (ri_Tags a) (ri_Address a) (ri_Port a) (ri_Meta a) v (ri_Check a) (ri_Checks a)) (d_ptr zero_weights d_weights);
   field "Check" ri_Check (λ v a, mkRegisterInput (ri_ID a) (ri_Name a) (ri_Tags a) (ri_Address a) (ri_Port a) (ri_Meta a) (ri_Weights a) v (ri_Checks a)) (d_ptr zero_checkInput d_checkInput);
   field "Checks" ri_Checks (λ v a, mkRegisterInput (ri_ID a) (ri_Name a) (ri_Tags a) (ri_Address a) (ri_Port a) (ri_Meta a) (ri_Weights a) (ri_Check a) v) (d_slice zero_checkInput d_checkInput)].

Definition zero_registerInput : registerInput := mkRegisterInput "" "" [] "" 0 ∅ None None [].

Definition d_registerInput : Decoder registerInput := d_struct registerInput_fields.

(** [catalogServiceInput] and [catalogRegisterInput], the body of catalog/register. *)
Definition catalogServiceInput_fields : Fields catalogServiceInput :=
  [field "ID" csi_ID (λ v a, mkCatalogServiceInput v (csi_Service a) (csi_Address a) (csi_Port a) (csi_Tags a) (csi_Meta a)) d_string;
   field "Service" csi_Service (λ v a, mkCatalogServiceInput (csi_ID a) v (csi_Address a) (csi_Port a) (csi_Tags a) (csi_Meta a)) d_string;
   field "Address" csi_Address (λ v a, mkCatalogServiceInput (csi_ID a) (csi_Service a) v (csi_Port a) (csi_Tags a) (csi_Meta a)) d_string;
   field "Port" csi_Port (λ v a, mkCatalogServiceInput (csi_ID a) (csi_Service a) (csi_Address a) v (csi_Tags a) (csi_Meta a)) d_int;
   field "Tags" csi_Tags (λ v a, mkCatalogServiceInput (csi_ID a) (csi_Service a) (csi_Address a) (csi_Port a) v (csi_Meta a)) d_strings;
   field "Meta" csi_Meta (λ v a, mkCatalogServiceInput (csi_ID a) (csi_Service a) (csi_Address a) (csi_Port a) (csi_Tags a) v) d_string_map].

Definition zero_catalogServiceInput : catalogServiceInput := mkCatalogServiceInput "" "" "" 0 [] ∅.

Definition d_catalogServiceInput : Decoder catalogServiceInput := d_struct catalogServiceInput_fields.

(** [catalogRegisterInput]. *)
Definition catalogRegisterInput_fields : Fields catalogRegisterInput :=
  [field "Node" cri_Node (λ v a, mkCatalogRegisterInput v (cri_Address a) (cri_Datacenter a) (cri_NodeMeta a) (cri_Service a)) d_string;
   field "Address" cri_Address (λ v a, mkCatalogRegisterInput (cri_Node a) v (cri_Datacenter a) (cri_NodeMeta a) (cri_Service a)) d_string;
   field "Datacenter" cri_Datacenter (λ v a, mkCatalogRegisterInput (cri_Node a) (cri_Address a) v (cri_NodeMeta a) (cri_Service a)) d_string;
   field "NodeMeta" cri_NodeMeta (λ v a, mkCatalogRegisterInput (cri_Node a) (cri_Address a) (cri_Datacenter a) v (cri_Service a)) d_string_map;
   field "Service" cri_Service (λ v a, mkCatalogRegisterInput (cri_Node a) (cri_Address a) (cri_Datacenter a) (cri_NodeMeta a) v) (d_ptr zero_catalogServiceInput d_catalogServiceInput)].

Definition zero_catalogRegisterInput : catalogRegisterInput := mkCatalogRegisterInput "" "" "" ∅ None.

Definition d_catalogRegisterInput : Decoder catalogRegisterInput := d_struct catalogRegisterInput_fields.

(** [catalogDeregisterInput], the body of catalog/deregister. *)
Definition catalogDeregisterInput_fields : Fields catalogDeregisterInput :=
  [field "Node" cdi_Node (λ v a, mkCatalogDeregisterInput v (cdi_ServiceID a)) d_string;
   field "ServiceID" cdi_ServiceID (λ v a, mkCatalogDeregisterInput (cdi_Node a) v) d_string].

Definition zero_catalogDeregisterInput : catalogDeregisterInput := mkCatalogDeregisterInput "" "".

Definition d_catalogDeregisterInput : Decoder catalogDeregisterInput := d_struct catalogDeregisterInput_fields.

(** [serviceDefFile], a file of definitions. *)
Definition serviceDefFile_fields : Fields serviceDefFile :=
  [field "service" sf_Service (λ v a, mkServiceDefFile v (sf_Services a)) (d_ptr zero_registerInput d_registerInput);
   field "services" sf_Services (λ v a, mkServiceDefFile (sf_Service a) v) (d_slice zero_registerInput d_registerInput)].

Definition zero_serviceDefFile : serviceDefFile := mkServiceDefFile None [].

Definition d_serviceDefFile : Decoder serviceDefFile := d_struct serviceDefFile_fields.

(** ** Answers *)

Definition weights_json (w : Weights) : json :=
  e_struct [always "Passing" (e_int (Passing w)); always "Warning" (e_int (Warning w))].

Definition map_member (name : string) (m : gmap string string) : list (string * json) :=
  omitempty (is_empty_map m) name (e_map JString m).

Definition id_member (id : string) : list (string * json) :=
  omitempty (bool_decide (id = ""%string)) "ID" (JString id).

Definition strings_json (l : list string) : json := e_slice JString l.

Definition catalogService_json (c : catalogService) : json :=
  e_struct
    [id_member (cs_ID c); always "Node" (JString (cs_Node c)); always "Address" (JString (cs_Address c));
     always "Datacenter" (JString (cs_Datacenter c)); map_member "NodeMeta" (cs_NodeMeta c);
     map_member "TaggedAddresses" (cs_TaggedAddresses c); always "ServiceID" (JString (cs_ServiceID c));
     always "ServiceName" (JString (cs_ServiceName c)); always "ServiceAddress" (JString (cs_ServiceAddress c));
     always "ServicePort" (e_int (cs_ServicePort c)); always "ServiceTags" (strings_json (cs_ServiceTags c));
     map_member "ServiceMeta" (cs_ServiceMeta c); always "ServiceWeights" (weights_json (cs_ServiceWeights c));
     always "CreateIndex" (e_int (cs_CreateIndex c)); always "ModifyIndex" (e_int (cs_ModifyIndex c))].

Definition cnode_json (n : cnode) : json :=
  e_struct
    [id_member (cn_ID n); always "Node" (JString (cn_Node n)); always "Address" (JString (cn_Address n));
     always "Datacenter" (JString (cn_Datacenter n)); map_member "Meta" (cn_Meta n);
     map_member "TaggedAddresses" (cn_TaggedAddresses n)].

Definition healthService_json (s : healthService_) : json :=
  e_struct
    [always "ID" (JString (hs_ID s)); always "Service" (JString (hs_Service s)); always "Tags" (strings_json (hs_Tags s));
     always "Address" (JString (hs_Address s)); map_member "Meta" (hs_Meta s); always "Port" (e_int (hs_Port s));
     always "Weights" (weights_json (hs_Weights s))].

Definition healthCheck_json (c : healthCheck) : json :=
  e_struct
    [always "Node" (JString (hc_Node c)); always "CheckID" (JString (hc_CheckID c)); always "Name" (JString (hc_Name c));
     always "Status" (JString (hc_Status c)); always "ServiceID" (JString (hc_ServiceID c));
     always "ServiceName" (JString (hc_ServiceName c))].

Definition healthServiceEntry_json (e : healthServiceEntry) : json :=
  e_struct
    [always "Node" (cnode_json (he_Node e)); always "Service" (healthService_json (he_Service e));
     always "Checks" (e_slice healthCheck_json (he_Checks e))].

Definition agentService_json (s : agentService) : json :=
  e_struct
    [always "ID" (JString (as_ID s)); always "Service" (JString (as_Service s)); always "Tags" (strings_json (as_Tags s));
     map_member "Meta" (as_Meta s); always "Port" (e_int (as_Port s)); always "Address" (JString (as_Address s));
     always "Weights" (weights_json (as_Weights s))].

Definition agentSelf_json (s : agentSelfInfo) : json :=
  e_struct
    [always "Config" (e_struct [always "Datacenter" (JString (sf_Datacenter s)); always "NodeName" (JString (sf_NodeName s));
                                always "Version" (JString (sf_Version s))]);
     always "Member" (e_struct [always "Name" (JString (sf_Name s)); always "Addr" (JString (sf_Addr s));
                                always "Port" (e_int (sf_Port s))])].

Definition member_json (m : clusterMember) : json :=
  e_struct [always "Name" (JString (cm_Name m)); always "Addr" (JString (cm_Addr m)); always "Status" (JString (cm_Status m))].

Definition state_number (s : HealthState) : Z :=
  match s with HealthUnspecified => 0 | HealthPassing => 1 | HealthWarning => 2 | HealthCritical => 3 end.

(** *** The dump, of the types of [internal/model], which have no tags

    [nil] says of a field whether its empty value is nil, and [time_text] is the text of an
    instant ([time.Time.MarshalJSON], RFC 3339). *)
Section Dump.
Context (nil : string → bool) (time_text : Z → string).

Definition plain_map (name : string) (m : gmap string string) : list (string * json) :=
  always name (or_nil (nil name) (is_empty_map m) (e_map JString m)).

Definition model_node_json (n : Node) : json :=
  e_struct
    [always "ID" (JString (Node_ID n)); always "Name" (JString (Node_Name n)); always "Address" (JString (Node_Address n));
     always "Datacenter" (JString (Node_Datacenter n)); plain_map "Meta" (Node_Meta n);
     plain_map "TaggedAddresses" (Node_TaggedAddresses n)].

Definition model_service_json (s : ServiceInstance) : json :=
  e_struct
    [always "ID" (JString (Svc_ID s)); always "Name" (JString (Svc_Name s)); always "Address" (JString (Svc_Address s));
     always "Port" (e_int (Svc_Port s)); always "Tags" (or_nil (nil "Tags") (is_empty (Svc_Tags s)) (strings_json (Svc_Tags s)));
     plain_map "Meta" (Svc_Meta s); always "Weights" (weights_json (Svc_Weights s)); always "TTL" (e_int (Svc_TTL s));
     always "LastSeen" (JString (time_text (Svc_LastSeen s))); always "Generation" (e_int (Svc_Generation s))].

Definition model_entry_json (e : ServiceEntry) : json :=
  e_struct
    [always "Node" (model_node_json (Entry_Node e)); always "Service" (model_service_json (Entry_Service e));
     always "Health" (e_int (state_number (Entry_Health e))); always "Maintenance" (JBool (Entry_Maintenance e));
     always "CreateIndex" (e_int (Entry_CreateIndex e)); always "ModifyIndex" (e_int (Entry_ModifyIndex e))].

(** The document of a body; [None] for the bodies that are plain text. *)
Definition body_json (b : Body) : option json :=
  match b with
  | NoBody | ErrorText _ | TextBody _ => None
  | CatalogBody l => Some (e_slice catalogService_json l)
  | HealthBody l => Some (e_slice healthServiceEntry_json l)
  | ServicesBody m => Some (e_map strings_json m)
  | NodesBody l => Some (e_slice cnode_json l)
  | ChecksBody l => Some (e_slice healthCheck_json l)
  | CheckMapBody m => Some (e_map healthCheck_json m)
  | AgentServicesBody m => Some (e_map agentService_json m)
  | StringsBody l => Some (strings_json l)
  | StatusBody s => Some (e_map JString {[ "AggregatedStatus"%string := s ]})
  | StringBody s => Some (JString s)
  | SelfBody s => Some (agentSelf_json s)
  | MembersBody l => Some (e_slice member_json l)
  | DumpBody m => Some (e_map (λ l, or_nil (nil "Entries") (is_empty l) (e_slice model_entry_json l)) m)
  end.

(** What is written: [http.Error] ends its message with a newline. *)
Definition body_text (b : Body) : string :=
  match b with
  | NoBody => ""
  | ErrorText s => s +:+ newline
  | TextBody s => s
  | _ => match body_json b with Some j => Encode j | None => "" end
  end.
End Dump.

(** ** Lemmas *)

(** A string that protobuf and JSON can carry, and the values made of them. *)
Definition utf8 (s : string) : Prop := utf8_valid s = true.

Definition utf8_map (m : gmap string string) : Prop := map_Forall (λ k v, utf8 k ∧ utf8 v) m.

Record utf8_node (n : Node) : Prop := {
  un_ID : utf8 (Node_ID n); un_Name : utf8 (Node_Name n); un_Address : utf8 (Node_Address n);
  un_Datacenter : utf8 (Node_Datacenter n); un_Meta : utf8_map (Node_Meta n);
  un_TaggedAddresses : utf8_map (Node_TaggedAddresses n)
}.

(** The integers within their types. *)
Record json_service (s : ServiceInstance) : Prop := {
  js_ID : utf8 (Svc_ID s); js_Name : utf8 (Svc_Name s); js_Address : utf8 (Svc_Address s);
  js_Tags : Forall utf8 (Svc_Tags s); js_Meta : utf8_map (Svc_Meta s);
  js_Port : 0 <= Svc_Port s < 2 ^ 16;
  js_Passing : 0 <= Passing (Svc_Weights s) < 2 ^ 32; js_Warning : 0 <= Warning (Svc_Weights s) < 2 ^ 32
}.

#[export] Instance utf8_dec s : Decision (utf8 s).
Proof. unfold utf8. apply _. Defined.

#[export] Instance utf8_map_dec m : Decision (utf8_map m).
Proof. unfold utf8_map. apply _. Defined.

#[export] Instance utf8_node_dec n : Decision (utf8_node n).
Proof.
  refine (cast_if (decide (utf8 (Node_ID n) ∧ utf8 (Node_Name n) ∧ utf8 (Node_Address n) ∧ utf8 (Node_Datacenter n) ∧
    utf8_map (Node_Meta n) ∧ utf8_map (Node_TaggedAddresses n)))); [by split; tauto|by intros []; tauto].
Defined.

#[export] Instance json_service_dec s : Decision (json_service s).
Proof.
  refine (cast_if (decide ((utf8 (Svc_ID s) ∧ utf8 (Svc_Name s) ∧ utf8 (Svc_Address s) ∧ Forall utf8 (Svc_Tags s) ∧
    utf8_map (Svc_Meta s)) ∧ (0 <= Svc_Port s < 2 ^ 16) ∧ (0 <= Passing (Svc_Weights s) < 2 ^ 32) ∧
    (0 <= Warning (Svc_Weights s) < 2 ^ 32)))); [by split; tauto|by intros []; tauto].
Defined.

Record json_entry (e : ServiceEntry) : Prop := {
  je_node : utf8_node (Entry_Node e); je_service : json_service (Entry_Service e)
}.

Lemma clean_string s : utf8 s → clean (JString s).
Proof. by constructor. Qed.

Lemma clean_strings l : Forall utf8 l → clean (strings_json l).
Proof. intros Hl. apply clean_slice. eapply Forall_impl; [exact Hl|]. apply clean_string. Qed.

Lemma clean_string_map m : utf8_map m → clean (e_map JString m).
Proof. intros Hm. apply clean_map. intros k v Hk. destruct (Hm k v Hk). split; [done|by apply clean_string]. Qed.

Lemma clean_always name j : utf8 name → clean j → Forall (λ m, utf8_valid m.1 = true ∧ clean m.2) (always name j).
Proof. intros. repeat constructor; done. Qed.

Lemma clean_omitempty b name j : utf8 name → clean j → Forall (λ m, utf8_valid m.1 = true ∧ clean m.2) (omitempty b name j).
Proof. intros. destruct b; [constructor|by apply clean_always]. Qed.

Create HintDb json.

#[export] Hint Resolve clean_string clean_strings clean_string_map : json.

Lemma clean_small z : 0 <= z < 2 ^ 32 → clean (e_int z).
Proof. intros. apply clean_int. lia. Qed.

(** The members of a struct, one by one. *)
Ltac clean_members :=
  apply clean_struct;
  repeat (apply Forall_cons; split;
    [first [apply clean_always | apply clean_omitempty]; [reflexivity|auto with json]|]);
  try apply Forall_nil_2.

Lemma OrDefault_small w : 0 <= Passing w < 2 ^ 32 → 0 <= Warning w < 2 ^ 32 →
  0 <= Passing (OrDefault w) < 2 ^ 32 ∧ 0 <= Warning (OrDefault w) < 2 ^ 32.
Proof. intros. unfold OrDefault. destruct (IsZero w); [simpl; lia|done]. Qed.

Lemma clean_weights w : 0 <= Passing w < 2 ^ 32 → 0 <= Warning w < 2 ^ 32 → clean (weights_json (OrDefault w)).
Proof.
  intros Hp Hw. destruct (OrDefault_small w Hp Hw). unfold weights_json. clean_members; by apply clean_small.
Qed.

Lemma utf8_DisplayName n : utf8_node n → utf8 (DisplayName n).
Proof. intros []. unfold DisplayName. by case_bool_decide. Qed.

Lemma utf8_Reachable e : json_entry e → utf8 (ReachableAddress e).
Proof. intros [[] []]. unfold ReachableAddress. by case_bool_decide. Qed.

Lemma clean_node n : utf8_node n → clean (cnode_json (toNode n)).
Proof.
  intros Hn. pose proof (utf8_DisplayName n Hn). destruct Hn. unfold cnode_json, id_member, map_member. by clean_members.
Qed.

Lemma clean_check c : utf8 (hc_Node c) → utf8 (hc_CheckID c) → utf8 (hc_Name c) → utf8 (hc_Status c) →
  utf8 (hc_ServiceID c) → utf8 (hc_ServiceName c) → clean (healthCheck_json c).
Proof. intros. unfold healthCheck_json. by clean_members. Qed.

Lemma clean_checks e : json_entry e → clean (e_slice healthCheck_json (synthChecks e)).
Proof.
  intros [Hn Hs]. pose proof (utf8_DisplayName _ Hn). destruct Hs. apply clean_slice. unfold synthChecks.
  assert (Hsvc : utf8 ("service:" +:+ Svc_ID (Entry_Service e))) by (by apply utf8_valid_app).
  assert (Hnm : utf8 ("Service '" +:+ Svc_Name (Entry_Service e) +:+ "' check")).
  { apply utf8_valid_app; [done|]. by apply utf8_valid_app. }
  assert (Hst : ∀ h, utf8 (healthStatus h)) by (by intros []).
  apply Forall_app. split.
  - rewrite !Forall_cons. split_and!; [| |done]; apply clean_check; try done; try apply Hst; by destruct (Entry_Health e).
  - destruct (Entry_Maintenance e); [|done]. rewrite Forall_cons. split; [|done].
    apply clean_check; try done; by apply utf8_valid_app.
Qed.

(** The answer of the health endpoint is read as it was written. *)
Lemma clean_health e : json_entry e → clean (healthServiceEntry_json (toHealth e)).
Proof.
  intros He. pose proof (utf8_Reachable e He). pose proof (clean_checks e He). pose proof He as [Hn Hs].
  pose proof (clean_node _ Hn). destruct Hs. unfold healthServiceEntry_json. clean_members.
  unfold healthService_json, map_member. clean_members; [apply clean_small; simpl; lia|by apply clean_weights].
Qed.

(** *** How deep the answers nest *)

Lemma foldr_max_le k l : 0 <= k → Forall (λ x, x <= k) l → foldr Z.max 0 l <= k.
Proof. induction 2; simpl in *; lia. Qed.

Lemma nesting_slice {A} k (enc : A → json) l : 0 <= k → (∀ x, nesting (enc x) <= k) → nesting (e_slice enc l) <= 1 + k.
Proof.
  intros Hk Hx. unfold e_slice. cbn [nesting]. apply Z.add_le_mono_l, foldr_max_le; [done|]. rewrite !List.Forall_map. by apply Forall_true.
Qed.

Lemma nesting_map {A} k (enc : A → json) m : 0 <= k → (∀ x, nesting (enc x) <= k) → nesting (e_map enc m) <= 1 + k.
Proof.
  intros Hk Hx. unfold e_map. cbn [nesting]. rewrite List.map_map.
  apply Z.add_le_mono_l, foldr_max_le; [done|]. rewrite List.Forall_map. apply Forall_true. intros p. apply Hx.
Qed.

Lemma nesting_struct k ms : 0 <= k → Forall (Forall (λ m, nesting m.2 <= k)) ms → nesting (e_struct ms) <= 1 + k.
Proof.
  intros Hk Hm. unfold e_struct. cbn [nesting]. apply Z.add_le_mono_l, foldr_max_le; [done|]. rewrite List.Forall_map. by apply Forall_concat.
Qed.

Lemma nesting_always k name j : nesting j <= k → Forall (λ m : string * json, nesting m.2 <= k) (always name j).
Proof. by repeat constructor. Qed.

Lemma nesting_omitempty k b name j : nesting j <= k → Forall (λ m : string * json, nesting m.2 <= k) (omitempty b name j).
Proof. intros. destruct b; [constructor|by apply nesting_always]. Qed.

Lemma nesting_or_nil k nil e j : 0 <= k → nesting j <= k → nesting (or_nil nil e j) <= k.
Proof. intros. unfold or_nil. by destruct (_ && _). Qed.

Lemma nesting_strings l : nesting (strings_json l) <= 1.
Proof. by apply (nesting_slice 0). Qed.

Lemma nesting_string_map m : nesting (e_map JString m) <= 1.
Proof. by apply (nesting_map 0). Qed.

Ltac nest_members k :=
  apply (nesting_struct k); [lia|];
  repeat (apply Forall_cons; split; [first [apply nesting_always | apply nesting_omitempty]|]);
  try apply Forall_nil_2; try (simpl; lia);
  try (etrans; [apply nesting_strings || apply nesting_string_map|lia]).

Lemma nesting_weights w : nesting (weights_json w) <= 1.
Proof. unfold weights_json. by nest_members 0. Qed.

Lemma nesting_node n : nesting (cnode_json n) <= 2.
Proof. unfold cnode_json, id_member, map_member. nest_members 1. Qed.

Lemma nesting_service s : nesting (healthService_json s) <= 2.
Proof. unfold healthService_json, map_member. nest_members 1. Qed.

Lemma nesting_check c : nesting (healthCheck_json c) <= 1.
Proof. unfold healthCheck_json. nest_members 0. Qed.

Lemma nesting_health e : nesting (healthServiceEntry_json e) <= 3.
Proof.
  unfold healthServiceEntry_json. nest_members 2; [apply nesting_node|apply nesting_service|].
  etrans; [apply (nesting_slice 1); [lia|apply nesting_check]|lia].
Qed.

(** ** Service-definition files *)

(** [json.Unmarshal] of a file: the [decode] of [ServiceDefs.LoadServiceDefs]. *)
Definition decode_def_file : string → option serviceDefFile := Unmarshal zero_serviceDefFile d_serviceDefFile.

(** A file that holds one definition under [service] declares what a PUT of that definition
    registers: whatever one decoder makes of the object the other does. *)
Theorem def_file_is_register_body (l : list (string * json)) :
  clean (JObject l) → nesting (JObject l) < maxNestingDepth →
  decode_def_file (print (JObject [("service"%string, JObject l)])) =
    (λ i, mkServiceDefFile (Some i) []) <$> Decode zero_registerInput d_registerInput (print (JObject l)).
Proof.
  intros Hc Hn. change (print (JObject l)) with (Marshal (JObject l)). rewrite Decode_Marshal by (done || lia).
  assert (Hcf : clean (JObject [("service"%string, JObject l)])) by (constructor; repeat constructor; inversion Hc; done).
  apply clean_ok in Hcf as [Hok Hv]. unfold decode_def_file, Unmarshal.
  pose proof (scan_document_print (JObject [("service"%string, JObject l)]) "" Hok) as Hs. rewrite str_app_nil_r in Hs.
  rewrite Hs; [|change (1 + Z.max (nesting (JObject l)) 0 <= maxNestingDepth); unfold maxNestingDepth in *; lia|done|done].
  rewrite Hv. cbn [mbind option_bind]. change (d_serviceDefFile (JObject [("service"%string, JObject l)]) zero_serviceDefFile)
    with (a ← (x ← Some <$> d_registerInput (JObject l) zero_registerInput; Some (mkServiceDefFile x []));
          d_fields serviceDefFile_fields [] a).
  by destruct (d_registerInput (JObject l) zero_registerInput).
Qed.
