(* ===== verification/ConsulHttp.v ===== *)
(** The Consul surface as HTTP: the routes of [NewHandler] in [internal/consul/handler.go],
    matched as [http.ServeMux] matches them, and the handlers between the text of a request
    and the text of its answer.

    The query of the URL and the headers are values; a request that would wait is answered
    in the state it finds ([Blocking] has the waiting). *)

From Stdlib Require Import ZArith Lia Ascii.
From stdpp Require Import base gmap sorting list strings.
From S2P Require Import Prelude GoStrings GoText GoJson GoMux JsonType Model Health Store StoreSteps StoreInv StoreSpec.
From S2P Require Import StoreLookup StoreOps Watch Cred Server ConsulFilter Consul ConsulJson.

#[local] Open Scope Z_scope.

(** ** Routes *)

Inductive Endpoint :=
  | ERegister | EDeregister | ECheckAccept | ECheckUpdate | EMaintenance | ECatalogRegister | ECatalogDeregister
  | ERead (k : ReadKind) | EHealthState | EAgentServices | EAgentSelf | EDatacenters | ELeader | EPeers
  | EAgentChecks | EAgentHealth | EMembers | EDump.

Definition agent_path (l : list Segment) : list Segment := Lit "v1" :: Lit "agent" :: l.
Definition catalog_path (l : list Segment) : list Segment := Lit "v1" :: Lit "catalog" :: l.
Definition health_path (l : list Segment) : list Segment := Lit "v1" :: Lit "health" :: l.

Definition routes : list (string * list Segment * Endpoint) :=
  [("PUT", agent_path [Lit "service"; Lit "register"], ERegister);
   ("PUT", agent_path [Lit "service"; Lit "deregister"; Wild "serviceID"], EDeregister);
   ("GET", agent_path [Lit "services"], EAgentServices);
   ("GET", agent_path [Lit "self"], EAgentSelf);
   ("GET", catalog_path [Lit "services"], ERead CatalogServices);
   ("GET", catalog_path [Lit "service"; Wild "service"], ERead CatalogService);
   ("GET", catalog_path [Lit "nodes"], ERead CatalogNodes);
   ("GET", catalog_path [Lit "datacenters"], EDatacenters);
   ("GET", health_path [Lit "service"; Wild "service"], ERead HealthService);
   ("GET", health_path [Lit "checks"; Wild "service"], ERead HealthChecks);
   ("GET", health_path [Lit "state"; Wild "state"], EHealthState);
   ("GET", [Lit "v1"; Lit "status"; Lit "leader"], ELeader);
   ("GET", [Lit "v1"; Lit "status"; Lit "peers"], EPeers);
   ("PUT", agent_path [Lit "check"; Lit "register"], ECheckAccept);
   ("PUT", agent_path [Lit "check"; Lit "deregister"; Wild "checkID"], ECheckAccept);
   ("PUT", agent_path [Lit "check"; Lit "pass"; Wild "checkID"], ECheckUpdate);
   ("PUT", agent_path [Lit "check"; Lit "warn"; Wild "checkID"], ECheckUpdate);
   ("PUT", agent_path [Lit "check"; Lit "fail"; Wild "checkID"], ECheckUpdate);
   ("PUT", agent_path [Lit "check"; Lit "update"; Wild "checkID"], ECheckUpdate);
   ("GET", agent_path [Lit "checks"], EAgentChecks);
   ("PUT", agent_path [Lit "service"; Lit "maintenance"; Wild "serviceID"], EMaintenance);
   ("GET", agent_path [Lit "health"; Lit "service"; Lit "name"; Wild "name"], EAgentHealth);
   ("GET", agent_path [Lit "members"], EMembers);
   ("PUT", catalog_path [Lit "register"], ECatalogRegister);
   ("PUT", catalog_path [Lit "deregister"], ECatalogDeregister);
   ("GET", [Lit "v1"; Lit "internal"; Lit "registry-dump"], EDump)]%string.

Definition route : string → string → Routed Endpoint := mux_route routes.

(** ** Requests *)

Record RawRequest := mkRaw {
  raw_method : string; raw_path : string; raw_query : list (string * string); raw_header : string → string; raw_body : string
}.

Definition value_of (vals : list (string * string)) (k : string) : string :=
  match List.find (λ p, bool_decide (p.1 = k)) vals with Some p => p.2 | None => ""%string end.

Definition http_request (r : RawRequest) (path : string) (vals : list (string * string)) : HttpRequest :=
  mkHttpRequest (value_of vals) path (raw_query r) (raw_header r).

(** What the handler is built of beside its registry ([Options]). *)
Record Surface (R : Type) := mkSurface {
  sf_handler : Handler;
  sf_version : string;
  sf_members : option (list clusterMember);
  sf_dumper : option (Query → R → gmap string (list ServiceEntry))
}.
Arguments sf_handler {R}.
Arguments sf_version {R}.
Arguments sf_members {R}.
Arguments sf_dumper {R}.

Section Serve.
Context {R E : Type} (reg : Registry R E) (dur : string → option Z) (sf : Surface R).

Definition read_alone (k : ReadKind) (r : HttpRequest) (s : R) : HttpResponse * R :=
  match read_start reg (sf_handler sf) r 0 s with
  | ReadRefused resp => (resp, s)
  | ReadGo q m f _ => serve_read reg (render k r) q m f (λ s, s) s
  end.

Definition no_checks (p : HttpResponse * R) : HttpResponse * R * list ChecksCall := (p, []).

(** [checkAccept]: registering or deregistering a check is accepted, and does nothing. *)
Definition checkAccept (s : R) : HttpResponse * R := (http_ok, s).

(** The handler of an endpoint on the text of the body. *)
Definition serve_endpoint (e : Endpoint) (r : HttpRequest) (body : string) (s : R) : HttpResponse * R * list ChecksCall :=
  let h := sf_handler sf in
  match e with
  | ERegister => serve_write reg dur h (AgentRegister (Decode zero_registerInput d_registerInput body)) r s
  | EDeregister => serve_write reg dur h AgentDeregister r s
  | ECheckAccept => no_checks (checkAccept s)
  | ECheckUpdate => serve_write reg dur h CheckUpdate r s
  | EMaintenance => serve_write reg dur h Maintenance r s
  | ECatalogRegister => serve_write reg dur h (CatalogRegister (Decode zero_catalogRegisterInput d_catalogRegisterInput body)) r s
  | ECatalogDeregister =>
      serve_write reg dur h (CatalogDeregister (Decode zero_catalogDeregisterInput d_catalogDeregisterInput body)) r s
  | ERead k => no_checks (read_alone k r s)
  | EHealthState => no_checks (healthState reg r s)
  | EAgentServices => no_checks (agentServices reg s, s)
  | EAgentSelf => no_checks (agentSelf reg h (sf_version sf) s, s)
  | EDatacenters => no_checks (catalogDatacenters reg h s, s)
  | ELeader => no_checks (statusLeader reg h s, s)
  | EPeers => no_checks (statusPeers reg h s, s)
  | EAgentChecks => no_checks (agentChecks reg h s)
  | EAgentHealth => no_checks (agentHealthByName reg h r s)
  | EMembers => no_checks (agentMembers reg h (sf_members sf) s, s)
  | EDump => no_checks (registryDump reg (sf_dumper sf) r s)
  end.

(** A request whose path is not well escaped does not reach the mux; the body of a
    redirect is left out. *)
Definition serve_mux (r : RawRequest) (s : R) : HttpResponse * R * list ChecksCall :=
  match PathUnescape (raw_path r) with
  | None => no_checks (http_error 400 "400 Bad Request", s)
  | Some path =>
      match route (raw_method r) (raw_path r) with
      | Found e vals => serve_endpoint e (http_request r path vals) (raw_body r) s
      | Redirected => no_checks (mkHttp 301 None None NoBody, s)
      | NotAllowed => no_checks (http_error 405 "Method Not Allowed", s)
      | NotFound => no_checks (http_error 404 "404 page not found", s)
      end
  end.
End Serve.

(** [StoreRegistry.Dump], the dumper of a seed. *)
Definition StoreRegistry_Dump `{MapRange} (clk : Clock) (q : Query) (s : Seed) : gmap string (list ServiceEntry) :=
  {[ "local"%string := Lookup_Entries (Lookup clk q (sd_store s)) ]}.

(** ** Lemmas *)

(** *** Paths *)

(** The bytes [url.PathEscape] leaves alone. *)
Definition unreserved (c : ascii) : bool :=
  byte_in 97 122 c || byte_in 65 90 c || byte_in 48 57 c || bool_decide (c ∈ ["-"; "_"; "."; "~"]%char).

(** A segment that needs no escape and is not taken for a dot. *)
Record url_name (s : string) : Prop := {
  url_bytes : all_bytes unreserved s = true;
  url_nonempty : s ≠ ""%string;
  url_dot : s ≠ "."%string;
  url_dots : s ≠ ".."%string
}.

Lemma unreserved_no_byte c s : all_bytes unreserved s = true → unreserved c = false → no_byte c s = true.
Proof.
  intros Hs Hc. induction s as [|a s IH]; [done|]. cbn [all_bytes no_byte] in *. apply andb_true_iff in Hs as [Ha Hs].
  rewrite IH by done. rewrite bool_decide_eq_false_2; [done|]. intros ->. congruence.
Qed.

(** The routes the migration uses. *)
Lemma route_services : route "GET" "/v1/catalog/services" = Found (ERead CatalogServices) [].
Proof. reflexivity. Qed.

Lemma route_register : route "PUT" "/v1/catalog/register" = Found ECatalogRegister [].
Proof. reflexivity. Qed.

Lemma route_health name : url_name name →
  route "GET" ("/v1/health/service/" +:+ name) = Found (ERead HealthService) [("service"%string, name)].
Proof.
  intros [Hb Hne Hd Hdd]. unfold route, mux_route.
  change ("/v1/health/service/" +:+ name) with (String "/" (Join ["v1"; "health"; "service"; name]%string "/")).
  rewrite segments_Join; [|done|].
  2: { repeat (constructor; [done|]). constructor; [|done]. by apply unreserved_no_byte. }
  assert (Hc : clean_segments ["v1"; "health"; "service"; name]%string = true).
  { cbn [clean_segments]. rewrite !(bool_decide_eq_false_2 (name = _)) by done. done. }
  rewrite Hc. cbn [negb]. assert (Hm : match_segments (health_path [Lit "service"; Wild "service"])
    ["v1"; "health"; "service"; name]%string = Some [("service"%string, name)]).
  { unfold health_path. cbn [match_segments]. rewrite !bool_decide_eq_true_2 by reflexivity.
    rewrite PathUnescape_plain by (by apply unreserved_no_byte). change (default name (Some name)) with name.
    rewrite (bool_decide_eq_false_2 (name = ""%string)) by done.
    rewrite bool_decide_eq_false_2; [done|]. intros ->. discriminate Hb. }
  assert (Hr : match_routes "GET" ["v1"; "health"; "service"; name]%string routes =
    match match_segments (health_path [Lit "service"; Wild "service"]) ["v1"; "health"; "service"; name]%string with
    | Some vals => Some (ERead HealthService, vals)
    | None => match_routes "GET" ["v1"; "health"; "service"; name]%string (drop 9 routes)
    end) by reflexivity.
  by rewrite Hr, Hm.
Qed.

(** *** Who writes *)

Definition writes (e : Endpoint) : bool :=
  match e with
  | ERegister | EDeregister | ECheckUpdate | EMaintenance | ECatalogRegister | ECatalogDeregister => true
  | _ => false
  end.

(** The writing endpoints, and no others that read, are reached by PUT. *)
Lemma route_method method path e vals : route method path = Found e vals →
  (writes e = true → method = "PUT"%string) ∧ method ∈ ["PUT"; "GET"; "HEAD"]%string.
Proof.
  intros (m & pat & Hin & Hm)%mux_route_in.
  assert (Hall : Forall (λ r : string * list Segment * Endpoint,
    r.1.1 = "PUT"%string ∨ r.1.1 = "GET"%string ∧ writes r.2 = false) routes)
    by (repeat (constructor; [vm_compute; tauto|]); constructor).
  rewrite Forall_forall in Hall. specialize (Hall _ Hin). cbn [fst snd] in Hall.
  unfold method_matches in Hm. rewrite orb_true_iff, andb_true_iff, !bool_decide_eq_true in Hm.
  destruct Hall as [->|[-> Hw]], Hm as [<-|[? ->]]; try done; rewrite ?Hw; (split; [done|set_solver]).
Qed.

Lemma read_alone_pure `{MapRange} clk n sf k r s : (read_alone (StoreRegistry clk n) sf k r s).2 = s.
Proof.
  unfold read_alone, read_start. destruct (compileFilter _) as [f|]; [|done]. cbn [r_watcher StoreRegistry].
  destruct (0 <? blockIndex r); [|done]. by destruct (acquireWaiter _ _).
Qed.

(** What an endpoint that does not write makes of a seed. *)
Lemma endpoint_pure `{MapRange} clk n dur sf e r body s :
  writes e = false → let '(resp, s', calls) := serve_endpoint (StoreRegistry clk n) dur sf e r body s in s' = s ∧ calls = [].
Proof.
  destruct e as [| | | | | | |k| | | | | | | | | |]; intros Hw; try discriminate Hw; cbn [serve_endpoint]; unfold no_checks; try done.
  - pose proof (read_alone_pure clk n sf k r s). by destruct (read_alone _ _ _ _ _).
  - unfold agentHealthByName, localEntries. cbn [r_Resolve StoreRegistry].
    destruct (_ =? 0)%nat; [done|]. by destruct (bool_decide _).
  - unfold registryDump. cbn [r_Resolve StoreRegistry]. by destruct (sf_dumper sf).
Qed.

(** A writing endpoint is one of the write handlers on a request with the same headers
    and parameters. *)
Lemma endpoint_write {R E} (reg : Registry R E) dur sf e r body s : writes e = true →
  ∃ w, serve_endpoint reg dur sf e r body s = serve_write reg dur (sf_handler sf) w r s ∧
    match w with CatalogRegister _ => e = ECatalogRegister | CatalogDeregister _ => e = ECatalogDeregister | _ => True end.
Proof. destruct e; try discriminate; intros _; eexists; (split; [reflexivity|done]). Qed.

(** ** Claims *)

(** C24: the HTTP surface of a seed is guarded as a whole.  Whatever the method, the path,
    the parameters, the headers and the body of a request: nothing changes unless the
    method is PUT; under the enforce mode nothing changes, no active check either, unless
    the request carries a token bound to this node; apart from catalog/register and
    catalog/deregister no request touches another node than the seed's own; and a request
    that no route takes is answered 301, 400, 404 or 405. *)
Theorem http_surface_guarded `{MapRange} (clk : Clock) (n : Node) (dur : string → option Z) (sf : Surface Seed)
    (r : RawRequest) (s : Seed) :
  let '(resp, s', calls) := serve_mux (StoreRegistry clk n) dur sf r s in
  let routed := route (raw_method r) (raw_path r) in
  (raw_method r ≠ "PUT"%string → s' = s ∧ calls = []) ∧
  (∀ a, h_authz (sf_handler sf) = Some a → mode a = ModeEnforce → s' ≠ s ∨ calls ≠ [] →
     info_ID (h_info (sf_handler sf)) ≠ ""%string ∧
     tokens (h_identity (sf_handler sf)) !! tokenFromHTTP (http_request r "" []) = Some (info_ID (h_info (sf_handler sf)))) ∧
  ((∀ e vals, routed = Found e vals → e ≠ ECatalogRegister ∧ e ≠ ECatalogDeregister) →
     only_node (Node_ID n) (sd_store s) (sd_store s')) ∧
  ((∀ e vals, routed ≠ Found e vals) → http_status resp ∈ [301; 400; 404; 405] ∧ s' = s ∧ calls = []).
Proof.
  assert (Hsame : ∀ m, only_node (Node_ID n) m m) by (intros m; done).
  unfold serve_mux. destruct (PathUnescape (raw_path r)) as [path|].
  2: { unfold no_checks. split_and!; [done|by intros ? _ _ []|done|]. intros _. split; [set_solver|done]. }
  destruct (route (raw_method r) (raw_path r)) as [e vals| | |] eqn:Hr.
  2-4: unfold no_checks; (split_and!; [done|by intros ? _ _ []|done|]); intros _; (split; [set_solver|done]).
  destruct (route_method _ _ _ _ Hr) as [Hput _]. set (hr := http_request r path vals).
  destruct (writes e) eqn:Hw.
  - destruct (endpoint_write (StoreRegistry clk n) dur sf e hr (raw_body r) s Hw) as (w & -> & Hcat).
    destruct (serve_write_guard (StoreRegistry clk n) dur (sf_handler sf) w hr s) as [H1 H2].
    pose proof (agent_write_only clk n dur (sf_handler sf) w hr s) as Hown.
    destruct (serve_write _ _ _ _ _ _) as [[resp s'] calls]. cbn [fst snd] in *. split_and!.
    + intros Hm. by destruct Hm; apply Hput.
    + intros a Ha Hmode Hch. destruct (decide (http_status resp = 403)) as [E|E].
      * destruct (H1 E) as (_ & -> & ->). by destruct Hch.
      * destruct (authorizeWrite_enforce _ _ a Ha Hmode (H2 E)) as [Hi Ht]. split; [done|exact Ht].
    + intros Hn. destruct (Hn _ _ eq_refl). apply Hown. by destruct w.
    + intros Hn. by destruct (Hn e vals).
  - pose proof (endpoint_pure clk n dur sf e hr (raw_body r) s Hw) as Hp.
    destruct (serve_endpoint _ _ _ _ _ _ _) as [[resp s'] calls]. destruct Hp as [-> ->].
    split_and!; [done|by intros ? _ _ []|done|]. intros Hn. by destruct (Hn e vals).
Qed.
