(* ===== verification/Migration.v ===== *)
(** The import over HTTP and JSON: the bodies [internal/migrate/import.go] reads and writes,
    as text, and the import from one yellow-pages seed into another, each behind its HTTP
    surface ([ConsulHttp]).  The client here does not follow redirects: a 301 is a status
    like another. *)

From Stdlib Require Import ZArith Lia Ascii.
From stdpp Require Import base gmap sorting list strings.
From S2P Require Import Prelude GoStrings GoText GoNet GoJson GoMux JsonType Model Health Store StoreSteps StoreInv StoreSpec.
From S2P Require Import StoreLookup StoreOps Watch Cred Server ConsulFilter Consul ConsulJson ConsulHttp Migrate.

#[local] Open Scope Z_scope.

(** ** What is read *)

(** [consulNode]. *)
Definition consulNode_fields : Fields consulNode :=
  [field "Node" mn_Node (λ v a, mkConsulNode v (mn_Address a) (mn_Datacenter a) (mn_Meta a)) d_string;
   field "Address" mn_Address (λ v a, mkConsulNode (mn_Node a) v (mn_Datacenter a) (mn_Meta a)) d_string;
   field "Datacenter" mn_Datacenter (λ v a, mkConsulNode (mn_Node a) (mn_Address a) v (mn_Meta a)) d_string;
   field "Meta" mn_Meta (λ v a, mkConsulNode (mn_Node a) (mn_Address a) (mn_Datacenter a) v) d_string_map].

Definition zero_consulNode : consulNode := mkConsulNode "" "" "" ∅.

Definition d_consulNode : Decoder consulNode := d_struct consulNode_fields.

(** [consulService]. *)
Definition consulService_fields : Fields consulService :=
  [field "ID" ms_ID (λ v a, mkConsulService v (ms_Service a) (ms_Address a) (ms_Port a) (ms_Tags a) (ms_Meta a)) d_string;
   field "Service" ms_Service (λ v a, mkConsulService (ms_ID a) v (ms_Address a) (ms_Port a) (ms_Tags a) (ms_Meta a)) d_string;
   field "Address" ms_Address (λ v a, mkConsulService (ms_ID a) (ms_Service a) v (ms_Port a) (ms_Tags a) (ms_Meta a)) d_string;
   field "Port" ms_Port (λ v a, mkConsulService (ms_ID a) (ms_Service a) (ms_Address a) v (ms_Tags a) (ms_Meta a)) d_int;
   field "Tags" ms_Tags (λ v a, mkConsulService (ms_ID a) (ms_Service a) (ms_Address a) (ms_Port a) v (ms_Meta a)) d_strings;
   field "Meta" ms_Meta (λ v a, mkConsulService (ms_ID a) (ms_Service a) (ms_Address a) (ms_Port a) (ms_Tags a) v) d_string_map].

Definition zero_consulService : consulService := mkConsulService "" "" "" 0 [] ∅.

Definition d_consulService : Decoder consulService := d_struct consulService_fields.

(** [healthEntry]. *)
Definition healthEntry_fields : Fields healthEntry :=
  [field "Node" me_Node (λ v a, mkHealthEntry v (me_Service a)) d_consulNode;
   field "Service" me_Service (λ v a, mkHealthEntry (me_Node a) v) d_consulService].

Definition zero_healthEntry : healthEntry := mkHealthEntry zero_consulNode zero_consulService.

Definition d_healthEntry : Decoder healthEntry := d_struct healthEntry_fields.

Definition decode_services_text : string → option (gmap string (list string)) := Decode ∅ (d_map [] d_strings).

Definition decode_entries_text : string → option (list healthEntry) := Decode [] (d_slice zero_healthEntry d_healthEntry).

(** What the two calls of [getJSON] make of a text: only null is read by both. *)
Definition payload_of_text (text : string) : Payload :=
  match decode_services_text text, decode_entries_text text with
  | Some _, Some _ => NullJSON
  | Some m, None => ServicesJSON m
  | None, Some l => EntriesJSON l
  | None, None => OtherJSON
  end.

(** ** What is written *)

(** [registerBody] and [serviceBody]; [nil] says of a field whether its empty value is nil. *)
Definition serviceBody_json (nil : string → bool) (b : serviceBody) : json :=
  e_struct
    [always "ID" (JString (sb_ID b)); always "Service" (JString (sb_Name b)); always "Address" (JString (sb_Address b));
     always "Port" (e_int (sb_Port b));
     always "Tags" (or_nil (nil "Tags"%string) (is_empty (sb_Tags b)) (strings_json (sb_Tags b)));
     always "Meta" (or_nil (nil "Meta"%string) (is_empty_map (sb_Meta b)) (e_map JString (sb_Meta b)))].

Definition registerBody_json (nil : string → bool) (b : registerBody) : json :=
  e_struct
    [always "Node" (JString (rb_Node b)); always "Address" (JString (rb_Address b));
     always "Datacenter" (JString (rb_Datacenter b));
     always "NodeMeta" (or_nil (nil "NodeMeta"%string) (is_empty_map (rb_NodeMeta b)) (e_map JString (rb_NodeMeta b)));
     always "Service" (serviceBody_json nil (rb_Service b))].

(** ** The client between two surfaces *)

Section Client.
Context `{MapRange} (dur : string → option Z) (parse_query : string → list (string * string)).

(** Where a request to [base] goes: the path and the query of the URL. *)
Definition raw_request (method base url : string) (hdr : string → string) (body : string) : RawRequest :=
  let '(path, query, _) := Cut (TrimPrefix url base) "?" in
  mkRaw method path (if bool_decide (query = ""%string) then [] else parse_query query) hdr body.

(** A client of a seed at [from], read at the instants [clkA] of the URLs, and of a seed at
    [to], written at those of [clkB] in order; [hdr]: the headers of a request.  The state
    is the number of writes with the target. *)
Definition http_client (clkA : string → Clock) (nA : Node) (sfA : Surface Seed) (sA : Seed) (clkB : nat → Clock) (nB : Node)
    (sfB : Surface Seed) (hdr : string → string) (nil : string → bool) (from to : string) : HttpClient (nat * Seed) := {|
  cl_NewRequest url := bool_decide (is_Some (PathUnescape (Cut url "?").1.1));
  cl_Get url w :=
    if HasPrefix url from then
      let resp := (serve_mux (StoreRegistry (clkA url) nA) dur sfA (raw_request "GET" from url hdr "") sA).1.1 in
      (Some (http_status resp, payload_of_text (body_text nil (λ _, ""%string) (http_body resp))), w)
    else (None, w);
  cl_Put url body w :=
    if HasPrefix url to then
      let '(resp, s', _) := serve_mux (StoreRegistry (clkB w.1) nB) dur sfB
        (raw_request "PUT" to url hdr (Marshal (registerBody_json nil body))) w.2 in
      (Some (http_status resp), (S w.1, s'))
    else (None, w)
|}.
End Client.

(** ** Lemmas of the texts *)

Lemma payload_services text : decode_services (payload_of_text text) = decode_services_text text.
Proof.
  unfold payload_of_text. destruct (decode_services_text text) as [m|] eqn:Em, (decode_entries_text text) as [l|] eqn:El; try done.
  unfold decode_services_text, decode_entries_text, Decode in *. destruct (scan_value text) as [j|]; [|done].
  cbn [mbind option_bind] in *. by destruct j.
Qed.

Lemma payload_entries text : decode_entries (payload_of_text text) = decode_entries_text text.
Proof.
  unfold payload_of_text. destruct (decode_services_text text) as [m|] eqn:Em, (decode_entries_text text) as [l|] eqn:El; try done.
  unfold decode_services_text, decode_entries_text, Decode in *. destruct (scan_value text) as [j|]; [|done].
  cbn [mbind option_bind] in *. by destruct j.
Qed.

(** The entry the importer reads of an entry of the health endpoint. *)
Definition imported_entry (e : ServiceEntry) : healthEntry :=
  let n := Entry_Node e in
  let s := Entry_Service e in
  mkHealthEntry (mkConsulNode (DisplayName n) (Node_Address n) (Node_Datacenter n) (Node_Meta n))
    (mkConsulService (Svc_ID s) (Svc_Name s) (ReachableAddress e) (Svc_Port s) (Svc_Tags s) (Svc_Meta s)).

Lemma or_nil_false empty j : or_nil false empty j = j.
Proof. unfold or_nil. by rewrite andb_false_r. Qed.

Lemma d_strings_e nil l : d_strings (or_nil nil (is_empty l) (strings_json l)) [] = Some l.
Proof. apply (d_slice_e "" d_string JString). by apply Forall_true. Qed.

Lemma d_strings_json l : d_strings (strings_json l) [] = Some l.
Proof. by rewrite <-(or_nil_false (is_empty l) (strings_json l)), d_strings_e. Qed.

Lemma d_string_map_e nil m : d_string_map (or_nil nil (is_empty_map m) (e_map JString m)) ∅ = Some m.
Proof. by apply (d_map_e "" d_string JString). Qed.

Lemma d_string_map_json m : d_string_map (e_map JString m) ∅ = Some m.
Proof. by rewrite <-(or_nil_false (is_empty_map m) (e_map JString m)), d_string_map_e. Qed.

(** A map that is left out when it is empty. *)
Lemma read_omitted {A} (fields : Fields A) name m l a a' :
  d_fields fields ((name, e_map JString m) :: l) a = d_fields fields l a' → (m = ∅ → a' = a) →
  d_fields fields (omitempty (is_empty_map m) name (e_map JString m) ++ l) a = d_fields fields l a'.
Proof.
  intros Hd He. unfold is_empty_map, omitempty. case_bool_decide as E; [by rewrite (He E)|exact Hd].
Qed.

(** Reading the members of a struct one after the other. *)
Ltac read_step := cbn [mbind option_bind app field snd d_string
  zero_consulNode zero_consulService zero_healthEntry zero_catalogServiceInput zero_catalogRegisterInput
  mn_Node mn_Address mn_Datacenter mn_Meta ms_ID ms_Service ms_Address ms_Port ms_Tags ms_Meta me_Node me_Service
  csi_ID csi_Service csi_Address csi_Port csi_Tags csi_Meta cri_Node cri_Address cri_Datacenter cri_NodeMeta cri_Service].

Ltac read_members := repeat
  (read_step;
   first [ rewrite d_fields_miss by reflexivity
         | erewrite d_fields_hit by reflexivity
         | rewrite d_strings_e | rewrite d_strings_json | rewrite d_string_map_e | rewrite d_string_map_json ]); read_step.

(** A map that may be left out, of a field or of none. *)
Ltac read_map :=
  erewrite read_omitted;
  [| first [ rewrite d_fields_miss by reflexivity | erewrite d_fields_hit by reflexivity; read_step; rewrite d_string_map_json; read_step ];
     reflexivity
   | first [done | by intros ->] ]; read_members.

Lemma read_node n : d_consulNode (cnode_json (toNode n)) zero_consulNode =
  Some (mkConsulNode (DisplayName n) (Node_Address n) (Node_Datacenter n) (Node_Meta n)).
Proof.
  unfold d_consulNode, cnode_json, e_struct, d_struct. cbn [concat]. unfold always, id_member, map_member.
  destruct (bool_decide _); unfold omitempty at 1; read_members; do 2 read_map; reflexivity.
Qed.

Lemma d_int_small z old : 0 <= z < 2 ^ 16 → d_int (e_int z) old = Some z.
Proof. intros. apply d_int_e_int. unfold is_i64, minInt64, maxInt64. lia. Qed.

Lemma read_service e : 0 <= Svc_Port (Entry_Service e) < 2 ^ 16 →
  d_consulService (healthService_json (he_Service (toHealth e))) zero_consulService = Some (me_Service (imported_entry e)).
Proof.
  intros Hp. unfold d_consulService, healthService_json, e_struct, d_struct. cbn [concat]. unfold always, map_member. read_members.
  read_map.
  rewrite d_int_small by exact Hp. read_members. reflexivity.
Qed.

Lemma read_entry e : json_entry e →
  d_healthEntry (healthServiceEntry_json (toHealth e)) zero_healthEntry = Some (imported_entry e).
Proof.
  intros [_ []]. unfold d_healthEntry, healthServiceEntry_json, e_struct, d_struct. cbn [concat]. unfold always. read_members.
  rewrite (read_node (Entry_Node e) : d_consulNode (cnode_json (he_Node (toHealth e))) zero_consulNode = _). read_members.
  rewrite read_service by done. by read_members.
Qed.

Lemma read_body nil b : - 2 ^ 63 <= sb_Port (rb_Service b) < 2 ^ 63 →
  d_catalogRegisterInput (registerBody_json nil b) zero_catalogRegisterInput = Some (body_input b).
Proof.
  intros Hp. assert (Hs : d_catalogServiceInput (serviceBody_json nil (rb_Service b)) zero_catalogServiceInput =
    cri_Service (body_input b)).
  { unfold d_catalogServiceInput, serviceBody_json, e_struct, d_struct. cbn [concat]. unfold always. read_members.
    rewrite d_int_e_int by (unfold is_i64, minInt64, maxInt64; lia). by read_members. }
  unfold d_catalogRegisterInput, registerBody_json, e_struct, d_struct. cbn [concat]. unfold always. read_members.
  change (d_ptr _ _ _ None) with (Some <$> d_catalogServiceInput (serviceBody_json nil (rb_Service b)) zero_catalogServiceInput).
  by rewrite Hs.
Qed.

(** *** Whole texts *)

Lemma decode_health l : Forall json_entry l →
  decode_entries_text (Encode (e_slice healthServiceEntry_json (toHealth <$> l))) = Some (imported_entry <$> l).
Proof.
  intros Hl. unfold decode_entries_text. rewrite Decode_Encode.
  - unfold e_slice. change (list_fmap ?A ?B ?f l) with (f <$> l). induction Hl as [|e l He Hl IH]; [done|].
    change (d_slice _ _ (JArray (List.map ?f ?x)) []) with (d_elements zero_healthEntry d_healthEntry (List.map f x) []) in *.
    cbn [fmap list_fmap List.map d_elements head tail default]. change (default zero_healthEntry None) with zero_healthEntry.
    rewrite read_entry by done. cbn [mbind option_bind]. fold (list_fmap _ _ toHealth l). by rewrite IH.
  - apply clean_slice. apply Forall_fmap. eapply Forall_impl; [exact Hl|]. apply clean_health.
  - etrans; [apply (nesting_slice 3); [lia|apply nesting_health]|]. unfold maxNestingDepth. lia.
Qed.

Lemma decode_services_e m : map_Forall (λ k tags, utf8 k ∧ Forall utf8 tags) m →
  decode_services_text (Encode (e_map strings_json m)) = Some m.
Proof.
  intros Hm. unfold decode_services_text. rewrite Decode_Encode.
  - rewrite <-(or_nil_false (is_empty_map m) (e_map strings_json m)). apply d_map_e. intros k tags _. apply d_strings_json.
  - apply clean_map. intros k tags Hk. destruct (Hm k tags Hk). split; [done|by apply clean_strings].
  - etrans; [apply (nesting_map 1); [lia|apply nesting_strings]|]. unfold maxNestingDepth. lia.
Qed.

Record utf8_body (b : registerBody) : Prop := {
  ub_Node : utf8 (rb_Node b); ub_Address : utf8 (rb_Address b); ub_Datacenter : utf8 (rb_Datacenter b);
  ub_NodeMeta : utf8_map (rb_NodeMeta b);
  ub_ID : utf8 (sb_ID (rb_Service b)); ub_Name : utf8 (sb_Name (rb_Service b)); ub_SAddress : utf8 (sb_Address (rb_Service b));
  ub_Tags : Forall utf8 (sb_Tags (rb_Service b)); ub_Meta : utf8_map (sb_Meta (rb_Service b));
  ub_Port : - 2 ^ 63 <= sb_Port (rb_Service b) < 2 ^ 63
}.

(** The handler reads the body the importer writes. *)
Lemma decode_body nil b : utf8_body b →
  Decode zero_catalogRegisterInput d_catalogRegisterInput (Marshal (registerBody_json nil b)) = Some (body_input b).
Proof.
  intros []. rewrite Decode_Marshal; [by apply read_body| |].
  - assert (clean (serviceBody_json nil (rb_Service b))).
    { unfold serviceBody_json. clean_members; try (apply clean_or_nil; auto with json). apply clean_int. lia. }
    unfold registerBody_json. clean_members. apply clean_or_nil; auto with json.
  - assert (nesting (serviceBody_json nil (rb_Service b)) <= 2).
    { unfold serviceBody_json. nest_members 1; (apply nesting_or_nil; [lia|]); [apply nesting_strings|apply nesting_string_map]. }
    transitivity (1 + 2); [|unfold maxNestingDepth; lia]. unfold registerBody_json.
    nest_members 2; [|lia]. apply nesting_or_nil; [lia|]. etrans; [apply nesting_string_map|lia].
Qed.

Lemma utf8_imported e : json_entry e → utf8_body (entry_body (imported_entry e)).
Proof.
  intros He. pose proof (utf8_Reachable e He). destruct He as [Hn Hs]. pose proof (utf8_DisplayName _ Hn).
  destruct Hn, Hs. split; try done. simpl. lia.
Qed.

(** ** Lemmas of the import *)

(** The import depends on the client only through its requests. *)
Section Same.
Context {W : Type} (client client' : HttpClient W).

Lemma import_entries_ext to entries : ∀ written w,
  (∀ e w, e ∈ entries → putJSON client (to +:+ "/v1/catalog/register") (entry_body e) w =
                        putJSON client' (to +:+ "/v1/catalog/register") (entry_body e) w) →
  import_entries client to entries written w = import_entries client' to entries written w.
Proof.
  induction entries as [|e entries IH]; intros written w Hput; [done|]. cbn [import_entries].
  rewrite Hput by (by left). destruct (putJSON client' _ _ w) as [[err|] w']; [done|].
  apply IH. intros e' w0 He. apply Hput. by right.
Qed.

Lemma import_services_ext from to names : ∀ written w,
  (∀ name w, name ∈ names → getJSON client decode_entries (from +:+ "/v1/health/service/" +:+ name) w =
                            getJSON client' decode_entries (from +:+ "/v1/health/service/" +:+ name) w) →
  (∀ name w w' entries e w'', name ∈ names → getJSON client' decode_entries (from +:+ "/v1/health/service/" +:+ name) w = (inr entries, w') →
     e ∈ entries → putJSON client (to +:+ "/v1/catalog/register") (entry_body e) w'' =
                   putJSON client' (to +:+ "/v1/catalog/register") (entry_body e) w'') →
  import_services client from to names written w = import_services client' from to names written w.
Proof.
  induction names as [|name names IH]; intros written w Hget Hput; [done|]. cbn [import_services].
  rewrite Hget by (by left). destruct (getJSON client' _ _ w) as [[err|entries] w'] eqn:E; [done|].
  rewrite import_entries_ext.
  - destruct (import_entries client' to entries written w') as [[n [err|]] w1]; [done|].
    apply IH; [intros; apply Hget; by right|intros * Hn; eapply Hput; by right].
  - intros e w0 He. eapply Hput; [by left|done|done].
Qed.
End Same.

Lemma bind_fmap_in {A B C} (f : A → list C) (g : A → list B) (h : B → C) l :
  (∀ x, x ∈ l → f x = h <$> g x) → l ≫= f = h <$> (l ≫= g).
Proof.
  induction l as [|x l IH]; intros Hf; [done|]. rewrite !bind_cons, fmap_app, (Hf x) by (by left).
  f_equal. apply IH. intros y Hy. apply Hf. by right.
Qed.

(** A registry whose strings are UTF-8 and whose integers fit their types. *)
Definition json_memory (m : Memory) : Prop :=
  map_Forall (λ _ n, utf8_node (meta n) ∧ map_Forall (λ _ svc, json_service (def svc)) (services n)) (nodes m).

Lemma json_lookup `{MapRange} clk q m e : wf m → json_memory m → e ∈ Lookup_Entries (Lookup clk q m) →
  json_entry e ∧ DisplayName (Entry_Node e) ≠ ""%string ∧ Svc_ID (Entry_Service e) ≠ ""%string ∧
  (Query_Name q = ""%string ∨ Svc_Name (Entry_Service e) = Query_Name q).
Proof.
  intros Hwf Hj (nid & n & id & svc & Hn & Hs & Ha & ->)%elem_of_Lookup; [|done].
  destruct (Hj _ _ Hn) as [Hun Hsv]. destruct (wf_node m Hwf _ _ Hn) as [Hid Hne].
  destruct (wf_svc m Hwf nid id svc) as (Hsid & Hsne & _); [unfold lookup_service; by rewrite Hn|].
  split_and!; [split; [done|by apply (Hsv id)]| | |by destruct Ha].
  - simpl. unfold DisplayName. case_bool_decide; [done|]. congruence.
  - simpl. congruence.
Qed.

Lemma clampPort_small p : 0 <= p < 2 ^ 16 → clampPort p = p.
Proof. intros. unfold clampPort. destruct (Z.ltb_spec p 0), (Z.ltb_spec 65535 p); lia. Qed.

(** A base whose requests need no escapes. *)
Definition plain_base (base : string) : Prop := no_byte "%" base = true ∧ no_byte "?" base = true.

Section Between.
Context `{MapRange} (dur : string → option Z) (parse_query : string → list (string * string)).
Context (clkA : string → Clock) (nA : Node) (sfA : Surface Seed) (sA : Seed) (clkB : nat → Clock) (nB : Node).
Context (sfB : Surface Seed) (hdr : string → string) (nil : string → bool) (from to : string).

Notation client := (http_client dur parse_query clkA nA sfA sA clkB nB sfB hdr nil from to).

(** What is listed, and the entries of a name at the instant it is read. *)
Definition listed : gmap string (list string) :=
  services_of (Lookup_Entries (Lookup (clkA (from +:+ "/v1/catalog/services")) (mkQuery "" "" [] false) (sd_store sA))).

Definition entries_of (name : string) : list ServiceEntry :=
  Lookup_Entries (Lookup (clkA (from +:+ "/v1/health/service/" +:+ name)) (mkQuery name "" [] false) (sd_store sA)).

(** The write of the importer, as the target's handler sees it. *)
Definition write_request : HttpRequest :=
  http_request (mkRaw "PUT" "/v1/catalog/register" [] hdr "") "/v1/catalog/register" [].

(** The catalogue the importer sees, for the client of [Migrate]. *)
Definition seen_catalog : gmap string (list healthEntry) := map_imap (λ name _, Some (imported_entry <$> entries_of name)) listed.

Notation client' := (import_client clkB nB (sf_handler sfB) write_request seen_catalog from to).

Context (Hwf : wf (sd_store sA)) (Hjson : json_memory (sd_store sA)) (Hfrom : plain_base from) (Hto : plain_base to).
Context (Hnames : ∀ name, is_Some (listed !! name) → url_name name).

Lemma raw_plain method base path body : no_byte "?" path = true →
  raw_request parse_query method base (base +:+ path) hdr body = mkRaw method path [] hdr body.
Proof.
  intros Hp. unfold raw_request. rewrite TrimPrefix_app. pose proof (Cut_plain path "?" Hp) as Hc.
  assert (Hf : (Cut path "?").1.2 = ""%string).
  { clear Hc. induction path as [|c path IH]; [done|]. cbn [no_byte Cut] in *. apply andb_true_iff in Hp as [Hc%negb_true_iff Hp].
    rewrite Hc. specialize (IH Hp). by destruct (Cut path "?") as [[a b] f]. }
  destruct (Cut path "?") as [[a b] f]. simpl in *. by subst.
Qed.

(** The URL of a plain base and path is accepted. *)
Lemma url_accepted base path : plain_base base → no_byte "%" path = true → no_byte "?" path = true →
  cl_NewRequest client (base +:+ path) = true.
Proof.
  intros [Hb1 Hb2] Hp1 Hp2. cbn [cl_NewRequest http_client].
  rewrite Cut_plain by (by rewrite no_byte_app, Hb2, Hp2). rewrite PathUnescape_plain by (by rewrite no_byte_app, Hb1, Hp1).
  by apply bool_decide_eq_true_2.
Qed.

(** A read of the source. *)
Lemma get_text path k vals w (body : Body) :
  no_byte "%" path = true → no_byte "?" path = true →
  route "GET" path = Found (ERead k) vals →
  render k (http_request (mkRaw "GET" path [] hdr "") path vals)
    (Lookup_Entries (Lookup (clkA (from +:+ path)) (mkQuery (value_of vals "service") "" [] false) (sd_store sA))) = body →
  cl_Get client (from +:+ path) w =
    (Some (200, payload_of_text (body_text nil (λ _, ""%string) body)), w).
Proof.
  intros Hp1 Hp2 Hr <-. cbn [cl_Get http_client]. rewrite HasPrefix_app, raw_plain by done.
  unfold serve_mux. cbn [raw_path raw_method raw_body]. rewrite PathUnescape_plain by done. by rewrite Hr.
Qed.

Lemma listed_utf8 : map_Forall (λ name tags, utf8 name ∧ Forall utf8 tags) listed.
Proof.
  intros name tags Hl. unfold listed in Hl.
  pose proof (services_of_spec (Lookup_Entries (Lookup (clkA (from +:+ "/v1/catalog/services")) (mkQuery "" "" [] false) (sd_store sA))) name) as Hs.
  rewrite Hl in Hs. destruct Hs as ((e & He & Hn) & _ & _ & Ht).
  assert (Hje : ∀ e, e ∈ Lookup_Entries (Lookup (clkA (from +:+ "/v1/catalog/services")) (mkQuery "" "" [] false) (sd_store sA)) → json_entry e)
    by (intros x Hx; by apply json_lookup in Hx as (? & _)).
  split; [rewrite <-Hn; apply (js_Name _ (je_service _ (Hje e He)))|].
  apply Forall_forall. intros t (x & Hx & _ & Hxt)%Ht. pose proof (js_Tags _ (je_service _ (Hje x Hx))) as Hu.
  rewrite Forall_forall in Hu. auto.
Qed.

Lemma get_services w : getJSON client decode_services (from +:+ "/v1/catalog/services") w = (inr listed, w).
Proof.
  unfold getJSON. rewrite url_accepted by done. erewrite get_text; [|done|done|apply route_services|reflexivity].
  cbn [negb Z.eqb Pos.eqb]. rewrite payload_services. cbn [render].
  change (body_text nil _ (ServicesBody ?m)) with (Encode (e_map strings_json m)).
  change (services_of _) with listed. by rewrite (decode_services_e listed listed_utf8).
Qed.

Lemma health_path_plain name : url_name name →
  no_byte "%" ("/v1/health/service/" +:+ name) = true ∧ no_byte "?" ("/v1/health/service/" +:+ name) = true.
Proof. intros [Hb _ _ _]. split; rewrite no_byte_app; by rewrite (unreserved_no_byte _ _ Hb). Qed.

Lemma get_health name w : url_name name →
  getJSON client decode_entries (from +:+ "/v1/health/service/" +:+ name) w = (inr (imported_entry <$> entries_of name), w).
Proof.
  intros Hn. destruct (health_path_plain name Hn) as [H1 H2]. unfold getJSON. rewrite url_accepted by done.
  erewrite get_text; [|done|done|by apply route_health|reflexivity].
  cbn [negb Z.eqb Pos.eqb]. rewrite payload_entries. cbn [render].
  change (body_text nil _ (health_body _ ?l)) with (Encode (e_slice healthServiceEntry_json (toHealth <$> l))).
  change (Lookup_Entries _) with (entries_of name). rewrite decode_health; [done|].
  apply Forall_forall. intros e He. by apply json_lookup in He as (? & _).
Qed.

Lemma seen_lookup name : is_Some (listed !! name) → default [] (seen_catalog !! name) = imported_entry <$> entries_of name.
Proof. intros [tags Hl]. unfold seen_catalog. by rewrite map_lookup_imap, Hl. Qed.

Lemma put_body e w : json_entry e →
  putJSON client (to +:+ "/v1/catalog/register") (entry_body (imported_entry e)) w =
  putJSON client' (to +:+ "/v1/catalog/register") (entry_body (imported_entry e)) w.
Proof.
  intros He. unfold putJSON. rewrite url_accepted by done. cbn [cl_NewRequest cl_Put import_client http_client negb].
  rewrite HasPrefix_app, raw_plain, bool_decide_eq_true_2 by done. unfold serve_mux. cbn [raw_path raw_method raw_body].
  rewrite PathUnescape_plain, route_register by done. cbn [serve_endpoint serve_write].
  rewrite decode_body by (by apply utf8_imported). by destruct (catalogRegister _ _ _ _ _).
Qed.
(** The entries the importer writes, in its order. *)
Definition source_entries : list ServiceEntry := (range listed).*1 ≫= entries_of.

Lemma elem_of_names name : name ∈ (range listed).*1 ↔ is_Some (listed !! name).
Proof.
  rewrite list_elem_of_fmap. split.
  - intros ([k0 v] & -> & Hv%elem_of_range). by exists v.
  - intros [v Hv]. exists (name, v). split; [done|by apply elem_of_range].
Qed.

Lemma source_entry e : e ∈ source_entries →
  json_entry e ∧ DisplayName (Entry_Node e) ≠ ""%string ∧ Svc_ID (Entry_Service e) ≠ ""%string ∧ Svc_Name (Entry_Service e) ≠ ""%string.
Proof.
  intros (name & He & Hn)%list_elem_of_bind. pose proof (json_lookup _ _ _ _ Hwf Hjson He) as (Hj & Hd & Hi & Hq).
  split_and!; try done. assert (name ≠ ""%string) by (apply Hnames; by apply elem_of_names). simpl in Hq. destruct Hq; congruence.
Qed.

Lemma seen_entries : (range listed).*1 ≫= (λ name, default [] (seen_catalog !! name)) = imported_entry <$> source_entries.
Proof. apply bind_fmap_in. intros name Hn%elem_of_names. by apply seen_lookup. Qed.

Definition id_of (e : ServiceEntry) : string * string := (DisplayName (Entry_Node e), Svc_ID (Entry_Service e)).

Lemma imported_id e : e ∈ source_entries → entry_id (imported_entry e) = id_of e.
Proof. intros He. unfold entry_id. simpl. by rewrite bool_decide_eq_false_2 by (by apply source_entry). Qed.

Lemma imported_ids : entry_id <$> (imported_entry <$> source_entries) = id_of <$> source_entries.
Proof.
  rewrite <-list_fmap_compose. apply list_fmap_ext. intros i e He%list_elem_of_lookup_2. by apply imported_id.
Qed.

(** The import over texts is the import of [Migrate] from the catalogue it sees. *)
Lemma import_texts written w :
  import_services client from to (range listed).*1 written w = import_services client' from to (range listed).*1 written w.
Proof.
  apply import_services_ext.
  - intros name w0 Hn%elem_of_names. rewrite get_health by auto.
    unfold getJSON. cbn [cl_NewRequest cl_Get import_client negb].
    rewrite source_service by (apply Hnames in Hn as [Hb _ _ _]; by apply unreserved_no_byte).
    cbn [Z.eqb Pos.eqb negb decode_entries]. by rewrite seen_lookup.
  - intros name w0 w' es e w'' Hn Hget He. pose proof (proj1 (elem_of_names name) Hn) as Hl.
    unfold getJSON in Hget. cbn [cl_NewRequest cl_Get import_client negb] in Hget.
    rewrite source_service in Hget by (apply Hnames in Hl as [Hb _ _ _]; by apply unreserved_no_byte).
    cbn [Z.eqb Pos.eqb negb decode_entries] in Hget. injection Hget as <- _. rewrite seen_lookup in He by done.
    apply list_elem_of_fmap in He as (e' & -> & He'). apply put_body.
    apply source_entry, list_elem_of_bind. eauto.
Qed.
End Between.

Lemma registered_wf `{MapRange} clk n dur h r i s s' calls : wf (sd_store s) →
  registerService (StoreRegistry clk n) dur h r (Some i) s = (http_ok, s', calls) → wf (sd_store s').
Proof.
  intros Hwf. unfold registerService. destruct (negb _); [done|]. destruct (bool_decide _); [done|]. cbn [r_RegisterServices StoreRegistry].
  pose proof (seed_result_store (Register clk (mkRegistration n [inputToService dur i] 1) (sd_store s)) s) as Hst.
  destruct (seed_result _ s) as [[err|] s1]; [done|]. intros [= <- _]. simpl in Hst. rewrite Hst.
  pose proof (wf_apply clk (OpRegister (mkRegistration n [inputToService dur i] 1)) (sd_store s) Hwf) as Hw. cbn [apply] in Hw.
  by destruct (Register _ _ _) as [[? ?] ?].
Qed.

(** ** Claims *)

(** C25: registering and reading over HTTP, text to text.  If the body of a PUT to
    [/v1/agent/service/register], whatever else it says, decodes to a registration of a new
    instance and is answered 200, then a GET of the passing entries of its name is answered
    200 with a text from which a client decodes an entry of that instance on the seed's
    node: its ID, name, tags and metadata, its own address or the node's, and its port cut
    to the range of ports.  The registry holds UTF-8 and ports. *)
Theorem http_register_read `{MapRange} (clk : Clock) (n : Node) (dur : string → option Z) (sf : Surface Seed)
    (hdr hdr' : string → string) (body : string) (i : registerInput) (s s' : Seed) (calls : list ChecksCall)
    (nil : string → bool) (time_text : Z → string) :
  let serve := serve_mux (StoreRegistry clk n) dur sf in
  Decode zero_registerInput d_registerInput body = Some i → url_name (ri_Name i) →
  wf (sd_store s) → lookup_service (sd_store s) (Node_ID n) (Svc_ID (inputToService dur i)) = None →
  serve (mkRaw "PUT" "/v1/agent/service/register" [] hdr body) s = (http_ok, s', calls) → json_memory (sd_store s') →
  ∃ idx b es, serve (mkRaw "GET" ("/v1/health/service/" +:+ ri_Name i) [("passing", "")%string] hdr' "") s' =
      (mkHttp 200 (Some idx) (Some 0) b, s', []) ∧
    idx = Z.max 1 (CurrentIndex (sd_watcher s') (mkQuery (ri_Name i) "" [] false)) ∧
    decode_entries_text (body_text nil time_text b) = Some es ∧
    ∃ e, e ∈ es ∧ mn_Node (me_Node e) = DisplayName n ∧ ms_ID (me_Service e) = Svc_ID (inputToService dur i) ∧
      ms_Service (me_Service e) = ri_Name i ∧ ms_Tags (me_Service e) = ri_Tags i ∧ ms_Meta (me_Service e) = ri_Meta i ∧
      ms_Address (me_Service e) = (if bool_decide (ri_Address i ≠ ""%string) then ri_Address i else Node_Address n) ∧
      ms_Port (me_Service e) = clampPort (ri_Port i) ∧ 0 <= ms_Port (me_Service e) <= 65535.
Proof.
  intros serve Hbody Hname Hwf Hnone Hput Hj.
  assert (Hreg : registerService (StoreRegistry clk n) dur (sf_handler sf)
    (http_request (mkRaw "PUT" "/v1/agent/service/register" [] hdr body) "/v1/agent/service/register" []) (Some i) s = (http_ok, s', calls))
    by (rewrite <-Hbody; exact Hput).
  assert (Hwf' : wf (sd_store s')) by (eapply registered_wf; [exact Hwf|exact Hreg]).
  destruct (registered_listed clk n dur _ _ i s s' calls Hwf Hnone Hreg) as (ttl & idx & Hin).
  set (q := mkQuery (ri_Name i) "" [] false) in *. set (found := Lookup_Entries (Lookup clk q (sd_store s'))) in *.
  exists (if CurrentIndex (sd_watcher s') q <? 1 then 1 else CurrentIndex (sd_watcher s') q).
  exists (HealthBody (toHealth <$> Filter found (mkFilterOptions true))), (imported_entry <$> Filter found (mkFilterOptions true)).
  split; [|split; [|split]].
  - unfold serve, serve_mux. cbn [raw_path raw_method raw_body]. destruct (health_path_plain _ Hname) as [Hp _].
    rewrite PathUnescape_plain, route_health by done. reflexivity.
  - destruct (Z.ltb_spec (CurrentIndex (sd_watcher s') q) 1); lia.
  - apply decode_health, Forall_forall. intros e [He _]%Filter_spec. by apply json_lookup in He as (? & _).
  - eexists. split; [by apply list_elem_of_fmap_2, Filter_spec; split; [exact Hin|]|].
    simpl. split_and!; try done; unfold clampPort; destruct (Z.ltb_spec (ri_Port i) 0), (Z.ltb_spec 65535 (ri_Port i)); lia.
Qed.

Definition sampleSurface (m : Mode) : Surface Seed := mkSurface Seed (sampleHandler m) "dev" None None.

(** A body as clients send it: fields the handler does not know, names in another case. *)
Definition sampleBody : string :=
  print (JObject [("name"%string, JString "web"); ("ID"%string, JString "web-1"); ("Port"%string, JNumber "8080");
    ("Tags"%string, JArray [JString "a<b"]); ("Connect"%string, JObject [("Native"%string, JBool true)]);
    ("Check"%string, JObject [("TTL"%string, JString "15s"); ("Notes"%string, JNull)])]).

Lemma http_register_read_witness :
  let serve := @serve_mux Seed StoreError (@StoreRegistry list_order (frozen 5) (sampleNode "n1")) (λ _, None) (sampleSurface ModeAllow) in
  let s' := (serve (mkRaw "PUT" "/v1/agent/service/register" [] (λ _, ""%string) sampleBody) (NewSeed sampleOptions)).1.2 in
  ∃ idx b es, serve (mkRaw "GET" "/v1/health/service/web" [("passing", "")%string] (λ _, ""%string) "") s' =
      (mkHttp 200 (Some idx) (Some 0) b, s', []) ∧
    decode_entries_text (body_text (λ _, true) (λ _, ""%string) b) = Some es ∧
    ∃ e, e ∈ es ∧ ms_Tags (me_Service e) = ["a<b"%string] ∧ ms_Port (me_Service e) = 8080.
Proof.
  intros serve s'.
  destruct (@http_register_read list_order (frozen 5) (sampleNode "n1") (λ _, None) (sampleSurface ModeAllow)
    (λ _, ""%string) (λ _, ""%string) sampleBody
    (mkRegisterInput "web-1" "web" ["a<b"%string] "" 8080 ∅ None (Some (mkCheckInput "15s" "" "" ∅ "" "" [] "" "" false)) [])
    (NewSeed sampleOptions) s' [] (λ _, true) (λ _, ""%string)) as (idx & b & es & H1 & _ & H2 & e & He & _ & _ & _ & H3 & _ & _ & H4 & _).
  - vm_compute. reflexivity.
  - by repeat constructor.
  - apply (wf_reachable sampleOptions _ []). constructor.
  - vm_compute. reflexivity.
  - vm_compute. reflexivity.
  - apply (bool_decide_unpack _). vm_compute. exact I.
  - exists idx, b, es. split; [exact H1|]. split; [exact H2|]. exists e. split; [exact He|]. split; [exact H3|exact H4].
Defined.

Lemma last_imported_node nid l :
  last (filter (λ e, mn_Node (me_Node e) = nid) (imported_entry <$> l)) =
  imported_entry <$> last (filter (λ e, DisplayName (Entry_Node e) = nid) l).
Proof.
  induction l as [|e l IH] using rev_ind; [done|]. rewrite fmap_app, !filter_app, !last_app, IH.
  rewrite list_fmap_singleton, !filter_cons, !filter_nil. simpl. case_decide; done.
Qed.

(** C26: the import between two yellow-pages seeds, over HTTP and JSON.  The importer lists
    the services of a seed, reads the entries of each and registers them with another seed,
    as texts that the one's routes and encoders produce and the other's read.  Whatever
    instants the requests find, if the names are plain path segments, the nodes' names
    distinguish the instances (the importer has no other identity), and the target accepts
    writes and is not full, it reports no error and the number of entries it was answered,
    and each of them is in the target under its node's name and its ID, with its name, its
    reachable address, its port, tags and metadata, and no other instance record has
    changed.  Every node of an entry is in the target under its name, with the address,
    datacenter (the target's own, when it has none) and metadata the last entry read of it
    carries, and without tagged addresses; the metadata of every other node is as it was. *)
Theorem import_between_seeds `{MapRange} (dur : string → option Z) (parse_query : string → list (string * string))
    (clkA : string → Clock) (nA : Node) (sfA : Surface Seed) (sA : Seed) (clkB : nat → Clock) (nB : Node)
    (sfB : Surface Seed) (hdr : string → string) (nil : string → bool) (from to : string) (k : nat) (sB : Seed) :
  let src := trim_right_byte "/" from in
  let dst := trim_right_byte "/" to in
  let client := http_client dur parse_query clkA nA sfA sA clkB nB sfB hdr nil src dst in
  let names := (range (listed clkA sA src)).*1 in
  let entries := source_entries clkA sA src in
  let ids := id_of <$> entries in
  wf (sd_store sA) → json_memory (sd_store sA) → plain_base src → plain_base dst →
  Forall url_name names → NoDup ids →
  authorizeWrite (sf_handler sfB) (write_request hdr) = true → MaxServices (opts (sd_store sB)) <= 0 →
  ∃ k' s', Import client from to (k, sB) = (Z.of_nat (length entries), None, (k', s')) ∧
    (∀ e, e ∈ entries → ∃ svc, at_id s' (id_of e) = Some svc ∧
       Svc_Name (def svc) = Svc_Name (Entry_Service e) ∧ Svc_Address (def svc) = ReachableAddress e ∧
       Svc_Port (def svc) = Svc_Port (Entry_Service e) ∧ Svc_Tags (def svc) = Svc_Tags (Entry_Service e) ∧
       equalMap (Svc_Meta (def svc)) (Svc_Meta (Entry_Service e)) = true) ∧
    (∀ id, id ∉ ids → at_id s' id = at_id sB id) ∧
    (∀ nid, node_at s' nid =
       match last (filter (λ e, DisplayName (Entry_Node e) = nid) entries) with
       | Some e =>
           let n := Entry_Node e in
           Some (mkNode nid nid (Node_Address n)
             (if decide (Node_Datacenter n = "")%string then info_Datacenter (h_info (sf_handler sfB)) else Node_Datacenter n)
             (Node_Meta n) ∅)
       | None => node_at sB nid
       end).
Proof.
  intros src dst client names entries ids Hwf Hjson Hsrc Hdst Hnames Hnd Hauth Hmax.
  assert (Hurl : ∀ name, is_Some (listed clkA sA src !! name) → url_name name)
    by (intros name Hl%elem_of_names; rewrite Forall_forall in Hnames; by apply Hnames).
  pose proof (source_entry clkA sA src Hwf Hjson Hurl) as Hents.
  pose proof (imported_ids clkA sA src Hwf Hjson Hurl) as Hid.
  destruct (import_services_seed clkB nB (sf_handler sfB) (write_request hdr) (seen_catalog clkA sA src) src dst Hauth names k sB 0)
    as (k' & s' & HI & [_ Ha Hf Hns]).
  - eapply Forall_impl; [exact Hnames|]. intros name [Hb _ _ _]. by apply unreserved_no_byte.
  - done.
  - unfold names. rewrite seen_entries by done. apply Forall_fmap, Forall_forall. intros e He.
    destruct (Hents e He) as (_ & ? & _ & ?). by split.
  - unfold names in *. rewrite seen_entries in * by done. rewrite Hid in *. exists k', s'.
    unfold Import. fold src dst. unfold client. rewrite get_services, import_texts by done. rewrite HI, length_fmap.
    split; [done|]. split; [|split; [exact Hf|]].
    2: { intros nid. rewrite Hns, last_imported_node. fold entries. destruct (last (filter _ entries)) as [e|] eqn:E; [|done].
         simpl. apply last_Some_elem_of, list_elem_of_filter in E as [<- _]. done. }
    intros e He. destruct (Hents e He) as (Hj & _ & Hne & _).
    destruct (Ha Hnd (imported_entry e)) as (svc & Hl & H1 & H2 & H3 & H4 & H5 & _); [by apply list_elem_of_fmap_2|].
    rewrite (imported_id clkA sA src) in Hl by done. exists svc. split_and!; try done. rewrite H3. apply clampPort_small, (je_service _ Hj).
Qed.

(** *** Two seeds (used by the witness) *)

Definition sampleSource : Seed := @seed_op list_order (frozen (1000 * second)) sampleOp (NewSeed sampleOptions).

Definition sampleBetween : HttpClient (nat * Seed) :=
  @http_client list_order (λ _, None) (λ _, []) (λ _, frozen (1001 * second)) (sampleNode "n1") (sampleSurface ModeAllow) sampleSource
    (λ _, frozen (1002 * second)) (sampleNode "s2") (sampleSurface ModeAllow) (λ _, ""%string) (λ _, true)
    "http://a:8500" "http://b:8500".

Lemma import_between_seeds_witness :
  ∃ k' s', @Import _ sampleBetween list_order "http://a:8500/" "http://b:8500" (0%nat, NewSeed uncapped) = (2, None, (k', s')) ∧
    (∃ svc, at_id s' ("n1", "db-1")%string = Some svc ∧ Svc_Name (def svc) = "db"%string ∧ Svc_Address (def svc) = "10.0.0.1"%string) ∧
    node_at s' "n1" = Some (mkNode "n1" "n1" "10.0.0.1" "dc1" ∅ ∅).
Proof.
  pose proof (@import_between_seeds list_order (λ _, None) (λ _, []) (λ _, frozen (1001 * second)) (sampleNode "n1")
    (sampleSurface ModeAllow) sampleSource (λ _, frozen (1002 * second)) (sampleNode "s2") (sampleSurface ModeAllow)
    (λ _, ""%string) (λ _, true) "http://a:8500/" "http://b:8500" 0%nat (NewSeed uncapped)) as Hi.
  cbv zeta in Hi. destruct Hi as (k' & s' & HI & Ha & _ & Hns).
  - assert (E : sd_store sampleSource = sampleRun.1) by (vm_compute; reflexivity). rewrite E.
    eapply wf_reachable, sampleRun_reachable.
  - apply (bool_decide_unpack _). vm_compute. exact I.
  - done.
  - done.
  - assert (E : (@range list_order _ _ _ _ (@listed list_order (λ _, frozen (1001 * second)) sampleSource
      (trim_right_byte "/" "http://a:8500/"))).*1 = ["web"; "db"]%string) by (vm_compute; reflexivity).
    rewrite E. repeat constructor; done.
  - apply (bool_decide_unpack _). vm_compute. exact I.
  - done.
  - apply Z.leb_le. vm_compute. reflexivity.
  - exists k', s'. split; [exact HI|]. split.
    2: { rewrite Hns. set (l := last _). assert (El : ∃ e, l = Some e ∧ Entry_Node e = sampleNode "n1").
         { eexists. split; vm_compute; reflexivity. }
         destruct El as (e & -> & En). simpl. rewrite En. vm_compute. reflexivity. }
    assert (He : Exists (λ e, DisplayName (Entry_Node e) = "n1"%string ∧ Svc_ID (Entry_Service e) = "db-1"%string ∧
        Svc_Name (Entry_Service e) = "db"%string ∧ ReachableAddress e = "10.0.0.1"%string)
      ((@range list_order _ _ _ _ (@listed list_order (λ _, frozen (1001 * second)) sampleSource
        (trim_right_byte "/" "http://a:8500/"))).*1 ≫=
       @entries_of list_order (λ _, frozen (1001 * second)) sampleSource (trim_right_byte "/" "http://a:8500/")))
      by (apply (bool_decide_unpack _); vm_compute; exact I).
    apply Exists_exists in He as (e & He & Hn & Hi & Hs & Hr).
    destruct (Ha e He) as (svc & Hl & H1 & H2 & _). exists svc. unfold id_of in Hl. rewrite Hn, Hi in Hl.
    split; [exact Hl|]. split; [exact (eq_trans H1 Hs)|exact (eq_trans H2 Hr)].
Defined.
