(* ===== verification/Cutover.v ===== *)
(** The cutover from one registry to another, as [docs/migration.md] prescribes it and
    [e2e/migrate_test.go] runs it: the import ([Migration]), then the comparison of the
    health entries of every service, read from both sides, by the shadow diff. *)

From Stdlib Require Import ZArith Lia Ascii.
From stdpp Require Import base gmap sorting list strings.
From S2P Require Import Prelude GoStrings GoText GoNet GoJson GoMux JsonType Model Health Store StoreSteps StoreInv StoreSpec.
From S2P Require Import StoreLookup StoreOps Watch Cred Server ConsulFilter Consul ConsulJson ConsulHttp Migrate Migration.

#[local] Open Scope Z_scope.

(** ** The reader of the comparison *)

(** What [shadowOf] uses of an entry as Consul's client decodes it: the node, the service
    and the statuses of the checks. *)
Record validEntry := mkValid { ve_entry : healthEntry; ve_statuses : list string }.

Definition d_status : Decoder string := d_struct [field "Status" (λ s : string, s) (λ v _, v) d_string].

Definition validEntry_fields : Fields validEntry :=
  [field "Node" (λ v, me_Node (ve_entry v)) (λ n v, mkValid (mkHealthEntry n (me_Service (ve_entry v))) (ve_statuses v)) d_consulNode;
   field "Service" (λ v, me_Service (ve_entry v)) (λ s v, mkValid (mkHealthEntry (me_Node (ve_entry v)) s) (ve_statuses v)) d_consulService;
   field "Checks" ve_statuses (λ l v, mkValid (ve_entry v) l) (d_slice ""%string d_status)].

Definition zero_validEntry : validEntry := mkValid zero_healthEntry [].

Definition d_validEntry : Decoder validEntry := d_struct validEntry_fields.

(** Two listings with the same entries, and one that is empty. *)
Lemma ShadowDiff_same `{MapRange} l r : (∀ a, a ∈ l ↔ a ∈ r) → Empty (ShadowDiff l r) = true.
Proof.
  intros Hlr. unfold Empty. rewrite andb_true_iff, !Nat.eqb_eq, !length_zero_iff_nil. unfold ShadowDiff. cbn [OnlyLeft OnlyRight].
  rewrite !diff_loop_nil. split; intros e He%Hlr; by apply list_elem_of_fmap_2.
Qed.

Lemma ShadowDiff_nil `{MapRange} l : Empty (ShadowDiff l []) = bool_decide (l = []).
Proof.
  destruct l as [|a l]; [by apply ShadowDiff_same|]. rewrite bool_decide_eq_false_2 by done. apply not_true_iff_false.
  unfold Empty. rewrite andb_true_iff, Nat.eqb_eq, length_zero_iff_nil. unfold ShadowDiff. cbn [OnlyLeft].
  intros [Hn _]. apply diff_loop_nil with (e := a) in Hn; [|by left]. by apply elem_of_nil in Hn.
Qed.

Section Compare.
(** [HealthChecks.AggregatedStatus] of Consul's client. *)
Context (AggregatedStatus : list string → string).

Definition shadowOf (v : validEntry) : ShadowEntry :=
  let n := me_Node (ve_entry v) in
  let s := me_Service (ve_entry v) in
  mkShadowEntry (mn_Node n) (ms_ID s) (if bool_decide (ms_Address s = ""%string) then mn_Address n else ms_Address s)
    (ms_Port s) (ms_Tags s) (AggregatedStatus (ve_statuses v)).

(** A health listing read from its text. *)
Definition read_shadows (text : string) : option (list ShadowEntry) :=
  (λ l : list validEntry, shadowOf <$> l) <$> Decode [] (d_slice zero_validEntry d_validEntry) text.

Definition shadow_entry (e : ServiceEntry) : ShadowEntry :=
  mkShadowEntry (DisplayName (Entry_Node e)) (Svc_ID (Entry_Service e)) (ReachableAddress e) (Svc_Port (Entry_Service e))
    (Svc_Tags (Entry_Service e)) (AggregatedStatus (hc_Status <$> synthChecks e)).

(** What a seed answers to the listing of a name. *)
Definition health_text `{MapRange} (nil : string → bool) (dur : string → option Z) (hdr : string → string)
    (clk : Clock) (n : Node) (sf : Surface Seed) (name : string) (s : Seed) : string :=
  body_text nil (λ _, ""%string)
    (http_body (serve_mux (StoreRegistry clk n) dur sf (mkRaw "GET" ("/v1/health/service/" +:+ name) [] hdr "") s).1.1).

(** ** Lemmas of the reader *)

Lemma read_checks l : d_slice ""%string d_status (e_slice healthCheck_json l) [] = Some (hc_Status <$> l).
Proof.
  unfold e_slice. change (d_slice _ _ (JArray ?x) []) with (d_elements ""%string d_status x []).
  induction l as [|c l IH]; [done|]. cbn [List.map d_elements head tail fmap list_fmap].
  assert (Hc : d_status (healthCheck_json c) (default ""%string None) = Some (hc_Status c)).
  { unfold d_status, healthCheck_json, e_struct, d_struct, always. cbn [concat app].
    rewrite !d_fields_miss by reflexivity. erewrite d_fields_hit by reflexivity. cbn [field snd d_string mbind option_bind].
    by rewrite !d_fields_miss by reflexivity. }
  rewrite Hc. cbn [mbind option_bind]. by rewrite IH.
Qed.

Lemma read_valid e : json_entry e →
  d_validEntry (healthServiceEntry_json (toHealth e)) zero_validEntry = Some (mkValid (imported_entry e) (hc_Status <$> synthChecks e)).
Proof.
  intros [_ []]. unfold d_validEntry, healthServiceEntry_json, e_struct, d_struct, always. cbn [concat app].
  erewrite d_fields_hit by reflexivity. cbn [field snd ve_entry zero_validEntry zero_healthEntry me_Node].
  rewrite (read_node (Entry_Node e) : d_consulNode (cnode_json (he_Node (toHealth e))) zero_consulNode = _).
  cbn [mbind option_bind]. erewrite d_fields_hit by reflexivity. cbn [field snd ve_entry me_Service].
  rewrite read_service by done. cbn [mbind option_bind]. erewrite d_fields_hit by reflexivity.
  cbn [field snd ve_statuses zero_validEntry].
  rewrite (read_checks (synthChecks e) : d_slice _ _ (e_slice healthCheck_json (he_Checks (toHealth e))) [] = _).
  done.
Qed.

Lemma shadow_of_entry e : shadowOf (mkValid (imported_entry e) (hc_Status <$> synthChecks e)) = shadow_entry e.
Proof.
  unfold shadowOf, shadow_entry. cbn. f_equal. unfold ReachableAddress. by repeat case_bool_decide.
Qed.

Lemma read_listing l : Forall json_entry l →
  read_shadows (Encode (e_slice healthServiceEntry_json (toHealth <$> l))) = Some (shadow_entry <$> l).
Proof.
  intros Hl. unfold read_shadows. rewrite Decode_Encode.
  - assert (Hd : d_slice zero_validEntry d_validEntry (e_slice healthServiceEntry_json (toHealth <$> l)) [] =
      Some ((λ e, mkValid (imported_entry e) (hc_Status <$> synthChecks e)) <$> l)).
    { unfold e_slice. change (d_slice _ _ (JArray ?x) []) with (d_elements zero_validEntry d_validEntry x []).
      induction Hl as [|e l He Hl IH]; [done|]. cbn [fmap list_fmap List.map d_elements head tail].
      change (default zero_validEntry None) with zero_validEntry. rewrite read_valid by done.
      cbn [mbind option_bind]. fold (list_fmap _ _ toHealth l). by rewrite IH. }
    rewrite Hd. cbn. f_equal. rewrite <-list_fmap_compose. apply list_fmap_ext. intros i e _. apply shadow_of_entry.
  - apply clean_slice. apply Forall_fmap. eapply Forall_impl; [exact Hl|]. apply clean_health.
  - etrans; [apply (nesting_slice 3); [lia|apply nesting_health]|]. unfold maxNestingDepth. lia.
Qed.

(** The listing of a name, read: the entries of the lookup. *)
Lemma read_health_text `{MapRange} nil dur hdr clk n sf name s :
  url_name name → wf (sd_store s) → json_memory (sd_store s) →
  read_shadows (health_text nil dur hdr clk n sf name s) =
    Some (shadow_entry <$> Lookup_Entries (Lookup clk (mkQuery name "" [] false) (sd_store s))).
Proof.
  intros Hn Hwf Hj. destruct (health_path_plain name Hn) as [Hp _]. unfold health_text, serve_mux. cbn [raw_path raw_method raw_body].
  rewrite PathUnescape_plain, route_health by done.
  change (body_text nil _ _) with (Encode (e_slice healthServiceEntry_json (toHealth <$> Lookup_Entries (Lookup clk (mkQuery name "" [] false) (sd_store s))))).
  apply read_listing, Forall_forall. intros e He. by apply json_lookup in He as (? & _).
Qed.

(** The statuses of a passing entry. *)
Lemma passing_shadow e e' :
  Entry_Health e = HealthPassing → Entry_Maintenance e = false → Entry_Health e' = HealthPassing → Entry_Maintenance e' = false →
  id_of e = id_of e' → ReachableAddress e = ReachableAddress e' → Svc_Port (Entry_Service e) = Svc_Port (Entry_Service e') →
  Svc_Tags (Entry_Service e) = Svc_Tags (Entry_Service e') → shadow_entry e = shadow_entry e'.
Proof.
  intros H1 H2 H3 H4 [= Hd Hi] Ha Hp Ht. unfold shadow_entry. rewrite Hd, Hi, Ha, Hp, Ht. f_equal. f_equal.
  unfold synthChecks. by rewrite H1, H2, H3, H4.
Qed.
End Compare.

(** ** What the import leaves in a target that held none of it *)

Section Landing.
Context `{MapRange} (clks : nat → Clock) (n : Node) (h : Handler) (r : HttpRequest).
Context (src : ConsulCatalog) (from to : string).
Context (Hauth : authorizeWrite h r = true).

Notation client := (import_client clks n h r src from to).

(** The record of an entry written at [now]. *)
Definition landed_service (m : Memory) (now : Z) (e : healthEntry) (idx : Z) : service :=
  mkSvc (incoming m 1 now (instance_of e)) false false HealthPassing idx idx.

(** The writes number [k] to [k'] have put [entries] where they were not. *)
Record landed (k k' : nat) (entries : list healthEntry) (s s' : Seed) : Prop := {
  ld_le : (k <= k')%nat;
  ld_opts : opts (sd_store s') = opts (sd_store s);
  ld_wf : wf (sd_store s) → wf (sd_store s');
  ld_at : NoDup (entry_id <$> entries) → (∀ e, e ∈ entries → at_id s (entry_id e) = None) →
    ∀ e, e ∈ entries → ∃ j idx, (k <= j < k')%nat ∧ at_id s' (entry_id e) = Some (landed_service (sd_store s) (clks j O) e idx);
  ld_frame : ∀ id, id ∉ entry_id <$> entries → at_id s' id = at_id s id;
  ld_nodes : ∀ nid x, nodes (sd_store s') !! nid = Some x →
    (∃ e, e ∈ entries ∧ meta x = node_of h e) ∨ ∃ y, nodes (sd_store s) !! nid = Some y ∧ meta x = meta y
}.

Lemma landed_opts m m' now e idx : opts m = opts m' → landed_service m now e idx = landed_service m' now e idx.
Proof. intros Ho. unfold landed_service. by rewrite (incoming_opts m m'). Qed.

Lemma landed_nil k s : landed k k [] s s.
Proof.
  split; [done|done|done| |done|].
  - intros _ _ e He. by apply elem_of_nil in He.
  - intros nid x Hx. right. eauto.
Qed.

Lemma landed_app k k1 k2 l l' s s1 s2 : landed k k1 l s s1 → landed k1 k2 l' s1 s2 → landed k k2 (l ++ l') s s2.
Proof.
  intros [L1 O1 W1 A1 F1 N1] [L2 O2 W2 A2 F2 N2]. split; [lia|by rewrite O2|auto| | |].
  - rewrite fmap_app. intros (Hn1 & Hd & Hn2)%NoDup_app Hnone e [He|He]%elem_of_app.
    + destruct (A1 Hn1 (λ e He, Hnone e (proj2 (elem_of_app _ _ _) (or_introl He))) e He) as (j & idx & Hj & Hat).
      exists j, idx. split; [lia|]. rewrite F2; [done|]. by apply Hd, list_elem_of_fmap_2.
    + destruct (A2 Hn2) with e as (j & idx & Hj & Hat); [|done|].
      * intros e' He'. rewrite F1; [apply Hnone, elem_of_app; by right|].
        intros Hin. eapply Hd; [exact Hin|by apply list_elem_of_fmap_2].
      * exists j, idx. split; [lia|]. rewrite Hat. f_equal. by apply landed_opts.
  - intros id. rewrite fmap_app, not_elem_of_app. intros [H1 H2]. by rewrite F2, F1.
  - intros nid x [(e & He & Hm)|(y & Hy & Hm)]%N2; [left; exists e; split; [apply elem_of_app; by right|done]|].
    apply N1 in Hy as [(e & He & Hm')|(z & Hz & Hm')]; rewrite Hm.
    + left. exists e. split; [apply elem_of_app; by left|done].
    + right. eauto.
Qed.

Lemma put_landed k s e : valid_entry e → MaxServices (opts (sd_store s)) <= 0 →
  ∃ s', putJSON client (to +:+ "/v1/catalog/register") (entry_body e) (k, s) = (None, (S k, s')) ∧ landed k (S k) [e] s s'.
Proof.
  intros Hv Hmax. destruct (put_entry clks n h r src from to Hauth k s e Hv Hmax) as (s0 & Hput0 & _ & _ & Hfr).
  destruct (put_store clks n h r src from to Hauth k s e Hv Hmax) as (s' & Hput & (evs & HR) & [Hop Hnode _ _ Hsto] & Hri).
  rewrite Hput in Hput0. injection Hput0 as <-. exists s'. split; [done|].
  split; [lia|done| | | |].
  - intros Hwf. pose proof (wf_apply (clks k) (OpRegister (mkRegistration (node_of h e) [instance_of e] 1)) (sd_store s) Hwf) as Hw.
    cbn [apply] in Hw. by rewrite HR in Hw.
  - intros _ Hnone e' ->%list_elem_of_singleton. specialize (Hnone e ltac:(by apply list_elem_of_singleton)).
    destruct (Hsto eq_refl ltac:(apply NoDup_singleton) (instance_of e)) as (svc & Hl & Hsv); [by apply list_elem_of_singleton|].
    rewrite Hri in Hl, Hsv. change (lookup_service _ (Node_ID (node_of h e)) (entry_id e).2) with (at_id s (entry_id e)) in Hsv.
    rewrite Hnone in Hsv. destruct Hsv as (idx & ->). exists k, idx. split; [lia|exact Hl].
  - intros id. rewrite list_fmap_singleton, list_elem_of_singleton. apply Hfr.
  - intros nid x Hx. destruct (decide (nid = Node_ID (node_of h e))) as [->|Hne].
    + destruct Hnode as (x' & Hx' & Hm). left. exists e. split; [by apply list_elem_of_singleton|congruence].
    + right. exists x. split; [|done]. rewrite <-Hx. symmetry.
      pose proof (Register_only (clks k) (mkRegistration (node_of h e) [instance_of e] 1) (sd_store s) nid Hne) as Ho.
      by rewrite HR in Ho.
Qed.

Lemma import_services_landed names k s written :
  Forall plain_name names → MaxServices (opts (sd_store s)) <= 0 →
  Forall valid_entry (names ≫= λ name, default [] (src !! name)) →
  let entries := names ≫= λ name, default [] (src !! name) in
  ∃ k' s', import_services client from to names written (k, s) = (written + Z.of_nat (length entries), None, (k', s')) ∧
    landed k k' entries s s'.
Proof.
  apply (import_services_rel clks n h r src from to landed); [|apply landed_nil|apply landed_app|apply put_landed].
  intros k0 k' l s0 s' L. apply L.
Qed.
End Landing.

(** ** The target after the import *)

Section Target.
Context `{MapRange} (clks : nat → Clock) (h : Handler) (entries : list ServiceEntry) (k k' : nat) (s s' : Seed).
Context (Hwf : wf (sd_store s)) (Hempty : nodes (sd_store s) = ∅) (Hdc : utf8 (info_Datacenter (h_info h))).
Context (L : landed clks h k k' (imported_entry <$> entries) s s').
Context (Hents : ∀ e, e ∈ entries → json_entry e ∧ Svc_ID (Entry_Service e) ≠ ""%string).
Context (Hnd : NoDup (id_of <$> entries)).

Notation record e j idx := (landed_service (sd_store s) (clks j O) (imported_entry e) idx).

Lemma entry_id_of e : e ∈ entries → entry_id (imported_entry e) = id_of e.
Proof. intros [_ Hi]%Hents. unfold entry_id. simpl. by rewrite bool_decide_eq_false_2. Qed.

Lemma entry_ids_of : entry_id <$> (imported_entry <$> entries) = id_of <$> entries.
Proof. rewrite <-list_fmap_compose. apply list_fmap_ext. intros i e He%list_elem_of_lookup_2. by apply entry_id_of. Qed.

Lemma nothing_before id : at_id s id = None.
Proof. unfold at_id, lookup_service. by rewrite Hempty, lookup_empty. Qed.

Lemma target_holds e : e ∈ entries → ∃ j idx, (k <= j < k')%nat ∧ at_id s' (id_of e) = Some (record e j idx).
Proof.
  intros He. destruct (ld_at _ _ _ _ _ _ _ L) with (imported_entry e) as (j & idx & Hj & Hat).
  - by rewrite entry_ids_of.
  - intros. apply nothing_before.
  - by apply list_elem_of_fmap_2.
  - rewrite entry_id_of in Hat by done. eauto.
Qed.

Lemma target_only nid id svc : lookup_service (sd_store s') nid id = Some svc →
  ∃ e j idx, e ∈ entries ∧ id_of e = (nid, id) ∧ (k <= j < k')%nat ∧ svc = record e j idx.
Proof.
  intros Hl. destruct (decide ((nid, id) ∈ id_of <$> entries)) as [(e & He & Hin)%list_elem_of_fmap|Hn].
  - destruct (target_holds e Hin) as (j & idx & Hj & Hat). rewrite <-He in Hat. exists e, j, idx.
    split_and!; try done; [lia..|]. unfold at_id in Hat. simpl in Hat. congruence.
  - rewrite <-entry_ids_of in Hn. pose proof (ld_frame _ _ _ _ _ _ _ L (nid, id) Hn) as Hf.
    rewrite nothing_before in Hf. unfold at_id in Hf. simpl in Hf. congruence.
Qed.

(** The nodes are those of the entries, under their names. *)
Lemma target_node nid x : nodes (sd_store s') !! nid = Some x →
  utf8_node (meta x) ∧ DisplayName (meta x) = nid.
Proof.
  intros Hx. destruct (wf_node _ (ld_wf _ _ _ _ _ _ _ L Hwf) _ _ Hx) as [Hid _].
  destruct (ld_nodes _ _ _ _ _ _ _ L _ _ Hx) as [(he & (e & -> & He)%list_elem_of_fmap & Hm)|(y & Hy & _)].
  2: { by rewrite Hempty, lookup_empty in Hy. }
  destruct (Hents e He) as [[Hun Hsv] _]. pose proof (utf8_DisplayName _ Hun) as Hd. destruct Hun.
  rewrite Hm in *. simpl in Hid. subst nid. split.
  - split; try done; simpl. by case_bool_decide.
  - unfold DisplayName at 1. simpl. by case_bool_decide.
Qed.

Lemma target_json : json_memory (sd_store s').
Proof.
  intros nid x Hx. destruct (target_node nid x Hx) as [Hu _]. split; [done|]. intros id svc Hs.
  destruct (target_only nid id svc) as (e & j & idx & He & _ & _ & ->); [unfold lookup_service; by rewrite Hx|].
  destruct (Hents e He) as [Hj Hi]. pose proof (utf8_Reachable e Hj) as Hr. destruct Hj as [_ []].
  cbn. unfold incoming. rewrite bool_decide_eq_false_2 by (cbn; by rewrite bool_decide_eq_false_2).
  split; try done; cbn; [by rewrite bool_decide_eq_false_2|by rewrite clampPort_small|lia..].
Qed.

(** What the target answers for a name. *)
Lemma elem_of_target clk name e' : name ≠ ""%string →
  e' ∈ Lookup_Entries (Lookup clk (mkQuery name "" [] false) (sd_store s')) ↔
  ∃ e j idx x, e ∈ entries ∧ Svc_Name (Entry_Service e) = name ∧ (k <= j < k')%nat ∧
    nodes (sd_store s') !! DisplayName (Entry_Node e) = Some x ∧ at_id s' (id_of e) = Some (record e j idx) ∧
    (lease (sd_store s') (record e j idx) (clk O)).2 = false ∧
    e' = entry (meta x) (record e j idx) (lease (sd_store s') (record e j idx) (clk O)).1.
Proof.
  intros Hname. rewrite elem_of_Lookup by (by apply (ld_wf _ _ _ _ _ _ _ L)). split.
  - intros (nid & x & id & svc & Hx & Hs & Ha & ->).
    assert (Hl : lookup_service (sd_store s') nid id = Some svc) by (unfold lookup_service; by rewrite Hx).
    destruct (target_only _ _ _ Hl) as (e & j & idx & He & Hid & Hj & ->). injection Hid as Hd Hi.
    destruct Ha as [[?|Hn] _ _ Hlive]; [done|]. exists e, j, idx, x. rewrite Hd. split_and!; try done; [|lia..|].
    + cbn in Hn. unfold incoming in Hn. by case_bool_decide.
    + unfold at_id, id_of. simpl. by rewrite Hd, Hi.
  - intros (e & j & idx & x & He & Hn & Hj & Hx & Hat & Hlive & ->).
    exists (DisplayName (Entry_Node e)), x, (Svc_ID (Entry_Service e)), (record e j idx). split; [done|].
    unfold at_id, lookup_service, id_of in Hat. simpl in Hat. rewrite Hx in Hat. split; [exact Hat|]. split; [|done]. split.
    + right. cbn. unfold incoming. by case_bool_decide.
    + by left.
    + intros t Ht. by apply elem_of_nil in Ht.
    + done.
Qed.

Lemma record_lease e j idx now :
  lease (sd_store s') (record e j idx) now =
    let age := Time_Sub now (clks j O) in
    if age <=? clampTTL (sd_store s) 0 then (HealthPassing, false)
    else if age <=? i64 (clampTTL (sd_store s) 0 + GracePeriod (opts (sd_store s))) then (HealthCritical, false)
    else (HealthCritical, true).
Proof.
  unfold lease. rewrite (ld_opts _ _ _ _ _ _ _ L). cbn. unfold incoming. by case_bool_decide.
Qed.

(** An entry of the target against the entry it was made from. *)
Lemma record_entry e j idx x : e ∈ entries → nodes (sd_store s') !! DisplayName (Entry_Node e) = Some x →
  ReachableAddress e ≠ ""%string → ∀ st,
  let e' := entry (meta x) (record e j idx) st in
  id_of e' = id_of e ∧ ReachableAddress e' = ReachableAddress e ∧ Entry_Maintenance e' = false ∧ Entry_Health e' = st ∧
  Svc_Port (Entry_Service e') = Svc_Port (Entry_Service e) ∧ Svc_Tags (Entry_Service e') = Svc_Tags (Entry_Service e).
Proof.
  intros He Hx Ha st e'. destruct (Hents e He) as [[_ Hsv] Hi]. destruct (target_node _ _ Hx) as [_ Hd].
  assert (Hdef : def (record e j idx) = with_Generation 1 (with_LastSeen (clks j O) (with_TTL (clampTTL (sd_store s) 0) (instance_of (imported_entry e))))).
  { cbn. unfold incoming. by rewrite bool_decide_eq_false_2 by (cbn; by rewrite bool_decide_eq_false_2). }
  unfold e', id_of, ReachableAddress at 1. cbn [Entry_Node Entry_Service Entry_Maintenance Entry_Health entry]. rewrite Hdef, Hd. cbn.
  rewrite bool_decide_eq_false_2 by done. split_and!; try done.
  - rewrite bool_decide_eq_true_2 by done. done.
  - apply clampPort_small, Hsv.
Qed.
End Target.

(** ** Claims *)

(** C27: the import validates, and then lapses.  After an import between two seeds (as in
    [Migration]), into a seed that held nothing, the health listing of any imported service
    is compared on both sides, read from the texts of both surfaces.  As long as the target
    is read within its default lease of every write, and the source's entries are passing,
    the shadow diff is empty.  Once the lease and the grace period are over, the target
    answers none of them: the import makes no lease longer than the default, and nothing
    renews what it wrote. *)
Theorem import_validates `{MapRange} (Agg : list string → string) (dur : string → option Z)
    (parse_query : string → list (string * string)) (clkA : string → Clock) (nA : Node) (sfA : Surface Seed) (sA : Seed)
    (clkB : nat → Clock) (nB : Node) (sfB : Surface Seed) (hdr : string → string) (nil : string → bool) (from to : string)
    (k : nat) (sB : Seed) :
  let src := trim_right_byte "/" from in
  let dst := trim_right_byte "/" to in
  let client := http_client dur parse_query clkA nA sfA sA clkB nB sfB hdr nil src dst in
  let names := (range (listed clkA sA src)).*1 in
  let entries := source_entries clkA sA src in
  let ttl := clampTTL (sd_store sB) 0 in
  let grace := GracePeriod (opts (sd_store sB)) in
  wf (sd_store sA) → json_memory (sd_store sA) → plain_base src → plain_base dst →
  Forall url_name names → NoDup (id_of <$> entries) → Forall (λ e, ReachableAddress e ≠ ""%string) entries →
  authorizeWrite (sf_handler sfB) (write_request hdr) = true → MaxServices (opts (sd_store sB)) <= 0 →
  wf (sd_store sB) → nodes (sd_store sB) = ∅ → utf8 (info_Datacenter (h_info (sf_handler sfB))) →
  ∃ k' s', Import client from to (k, sB) = (Z.of_nat (length entries), None, (k', s')) ∧
    ∀ name (clk : Clock), name ∈ names →
    ∃ l r,
      read_shadows Agg (health_text nil dur hdr (clkA (src +:+ "/v1/health/service/" +:+ name)) nA sfA name sA) = Some l ∧
      read_shadows Agg (health_text nil dur hdr clk nB sfB name s') = Some r ∧
      ((∀ e, e ∈ entries_of clkA sA src name → Entry_Health e = HealthPassing ∧ Entry_Maintenance e = false) →
       (∀ j, (k <= j < k')%nat → Time_Sub (clk O) (clkB j O) <= ttl) →
       Empty (ShadowDiff l r) = true) ∧
      ((∀ j, (k <= j < k')%nat → ttl < Time_Sub (clk O) (clkB j O) ∧ i64 (ttl + grace) < Time_Sub (clk O) (clkB j O)) →
       r = [] ∧ Empty (ShadowDiff l r) = bool_decide (l = [])).
Proof.
  intros src dst client names entries ttl grace HwfA Hjson Hsrc Hdst Hnames Hnd Haddr Hauth Hmax HwfB Hempty Hdc.
  assert (Hurl : ∀ name, is_Some (listed clkA sA src !! name) → url_name name)
    by (intros name Hl%elem_of_names; rewrite Forall_forall in Hnames; by apply Hnames).
  pose proof (source_entry clkA sA src HwfA Hjson Hurl) as Hents.
  destruct (import_services_landed clkB nB (sf_handler sfB) (write_request hdr) (seen_catalog clkA sA src) src dst Hauth names k sB 0)
    as (k' & s' & HI & L).
  { eapply Forall_impl; [exact Hnames|]. intros name [Hb _ _ _]. by apply unreserved_no_byte. }
  { done. }
  { unfold names. rewrite seen_entries by done. apply Forall_fmap, Forall_forall. intros e He.
    destruct (Hents e He) as (_ & ? & _ & ?). by split. }
  unfold names in HI, L. rewrite seen_entries in HI, L by done. exists k', s'. split.
  { unfold Import. fold src dst. unfold client. rewrite get_services, import_texts by done. by rewrite HI, length_fmap. }
  intros name clk Hn. assert (Hname : url_name name) by (rewrite Forall_forall in Hnames; by apply Hnames).
  assert (Hents' : ∀ e, e ∈ entries → json_entry e ∧ Svc_ID (Entry_Service e) ≠ ""%string)
    by (intros e (? & _ & ? & _)%Hents; done).
  pose proof (ld_wf _ _ _ _ _ _ _ L HwfB) as Hwf'.
  pose proof (target_json clkB (sf_handler sfB) entries k k' sB s' HwfB Hempty Hdc L Hents' Hnd) as Hj'.
  exists (shadow_entry Agg <$> entries_of clkA sA src name).
  eexists. split; [by apply read_health_text|]. split; [by apply read_health_text|].
  set (found := Lookup_Entries (Lookup clk (mkQuery name "" [] false) (sd_store s'))).
  pose proof (λ e', elem_of_target clkB (sf_handler sfB) entries k k' sB s' HwfB Hempty L Hents' Hnd clk name e' (url_nonempty _ Hname)) as Hfound.
  assert (Hof : ∀ e, e ∈ entries_of clkA sA src name ↔ e ∈ entries ∧ Svc_Name (Entry_Service e) = name).
  { intros e. split.
    - intros He. split; [apply list_elem_of_bind; eauto|].
      pose proof (json_lookup _ _ _ _ HwfA Hjson He) as (_ & _ & _ & [Hq|Hq]); [by destruct (url_nonempty _ Hname)|exact Hq].
    - intros [(name' & He & Hn')%list_elem_of_bind Hsn].
      pose proof (json_lookup _ _ _ _ HwfA Hjson He) as (_ & _ & _ & [Hq|Hq]); simpl in Hq; [|congruence].
      subst name'. rewrite Forall_forall in Hnames. by destruct (url_nonempty _ (Hnames _ Hn')). }
  assert (Hrec : ∀ e j idx x, e ∈ entries → nodes (sd_store s') !! DisplayName (Entry_Node e) = Some x →
    ReachableAddress e ≠ ""%string → Entry_Health e = HealthPassing → Entry_Maintenance e = false →
    shadow_entry Agg (entry (meta x) (landed_service (sd_store sB) (clkB j O) (imported_entry e) idx) HealthPassing) = shadow_entry Agg e).
  { intros e j idx x He Hx Hr Hh Hm.
    destruct (record_entry clkB (sf_handler sfB) entries k k' sB s' HwfB Hempty Hdc L Hents' e j idx x He Hx Hr HealthPassing)
      as (H1 & H2 & H3 & H4 & H5 & H6). by apply passing_shadow. }
  rewrite Forall_forall in Haddr. split.
  - intros Hpass Hage.
    assert (Hlease : ∀ e j idx, (k <= j < k')%nat →
      lease (sd_store s') (landed_service (sd_store sB) (clkB j O) (imported_entry e) idx) (clk O) = (HealthPassing, false)).
    { intros e j idx Hj. erewrite record_lease by done. cbv zeta. specialize (Hage j Hj). unfold ttl in Hage.
      by rewrite (proj2 (Z.leb_le _ _) Hage). }
    apply ShadowDiff_same. intros a. rewrite !list_elem_of_fmap. split.
    + intros (e & -> & Hin). destruct (Hpass e Hin) as [Hh Hm]. apply Hof in Hin as [He Hsn].
      destruct (target_holds clkB (sf_handler sfB) entries k k' sB s' Hempty L Hents' Hnd e He) as (j & idx & Hj & Hat).
      destruct (nodes (sd_store s') !! DisplayName (Entry_Node e)) as [x|] eqn:Hx.
      2: { unfold at_id, lookup_service, id_of in Hat. simpl in Hat. by rewrite Hx in Hat. }
      eexists. split; [symmetry; apply (Hrec e j idx x); auto|]. apply Hfound. exists e, j, idx, x. rewrite Hlease by done. split_and!; done || lia.
    + intros (e' & -> & (e & j & idx & x & He & Hsn & Hj & Hx & Hat & Hl & ->)%Hfound).
      assert (Hin : e ∈ entries_of clkA sA src name) by (by apply Hof). destruct (Hpass e Hin) as [Hh Hm].
      exists e. split; [|done]. rewrite Hlease by done. apply Hrec; auto.
  - intros Hage. assert (Hf : found = []).
    { destruct found as [|e' l] eqn:Hfe; [done|]. assert (Hin : e' ∈ found) by (rewrite Hfe; by left).
      apply Hfound in Hin as (e & j & idx & x & _ & _ & Hj & _ & _ & Hl & _).
      erewrite record_lease in Hl by done. cbv zeta in Hl. destruct (Hage j Hj) as [H1 H2]. unfold ttl, grace in *.
      rewrite (proj2 (Z.leb_gt _ _) H1), (proj2 (Z.leb_gt _ _) H2) in Hl. done. }
    rewrite Hf. split; [done|]. apply ShadowDiff_nil.
Qed.

(** What Consul's client makes of the statuses of the checks, without the maintenance. *)
Definition sampleAggregate (l : list string) : string :=
  if existsb (λ s, bool_decide (s = "critical"%string)) l then "critical"
  else if existsb (λ s, bool_decide (s = "warning"%string)) l then "warning" else "passing".

Definition sampleListing (clk : Clock) (n : string) (name : string) (s : Seed) : option (list ShadowEntry) :=
  read_shadows sampleAggregate (@health_text list_order (λ _, true) (λ _, None) (λ _, ""%string) clk (sampleNode n)
    (sampleSurface ModeAllow) name s).

Lemma import_validates_witness :
  ∃ k' s', @Import _ sampleBetween list_order "http://a:8500/" "http://b:8500" (0%nat, NewSeed uncapped) = (2, None, (k', s')) ∧
    (∃ l r, sampleListing (frozen (1001 * second)) "n1" "db" sampleSource = Some l ∧
       sampleListing (frozen (1010 * second)) "s2" "db" s' = Some r ∧ Empty (@ShadowDiff list_order l r) = true) ∧
    sampleListing (frozen (1100 * second)) "s2" "db" s' = Some [].
Proof.
  pose proof (@import_validates list_order sampleAggregate (λ _, None) (λ _, []) (λ _, frozen (1001 * second)) (sampleNode "n1")
    (sampleSurface ModeAllow) sampleSource (λ _, frozen (1002 * second)) (sampleNode "s2") (sampleSurface ModeAllow)
    (λ _, ""%string) (λ _, true) "http://a:8500/" "http://b:8500" 0%nat (NewSeed uncapped)) as Hi.
  assert (En : (@range list_order _ _ _ _ (@listed list_order (λ _, frozen (1001 * second)) sampleSource
      (trim_right_byte "/" "http://a:8500/"))).*1 = ["web"; "db"]%string) by (vm_compute; reflexivity).
  cbv zeta in Hi. destruct Hi as (k' & s' & HI & Hv).
  - assert (E : sd_store sampleSource = sampleRun.1) by (vm_compute; reflexivity). rewrite E.
    eapply wf_reachable, sampleRun_reachable.
  - apply (bool_decide_unpack _). vm_compute. exact I.
  - split; reflexivity.
  - split; reflexivity.
  - rewrite En. repeat constructor; clear; done.
  - apply (bool_decide_unpack _). vm_compute. exact I.
  - apply (bool_decide_unpack _). vm_compute. exact I.
  - vm_compute. reflexivity.
  - apply Z.leb_le. vm_compute. reflexivity.
  - apply (wf_reachable uncapped _ []). constructor.
  - reflexivity.
  - apply (bool_decide_unpack _). vm_compute. exact I.
  - exists k', s'. split; [exact HI|].
    assert (Hdb : "db"%string ∈ (@range list_order _ _ _ _ (@listed list_order (λ _, frozen (1001 * second)) sampleSource
      (trim_right_byte "/" "http://a:8500/"))).*1) by (rewrite En; right; left).
    split.
    + destruct (Hv "db"%string (frozen (1010 * second)) Hdb) as (l & r & Hl & Hr & Hsame & _). exists l, r.
      split; [exact Hl|]. split; [exact Hr|]. apply Hsame.
      * apply Forall_forall. apply (bool_decide_unpack _). vm_compute. exact I.
      * intros j _. apply Z.leb_le. vm_compute. reflexivity.
    + destruct (Hv "db"%string (frozen (1100 * second)) Hdb) as (l & r & _ & Hr & _ & Hgone).
      destruct Hgone as [-> _]; [|exact Hr]. intros j _. split; apply Z.ltb_lt; vm_compute; reflexivity.
Defined.
