(* ===== verification/Metrics.v ===== *)
(** The [/metrics] surface ([internal/observability/metrics_server.go]): the registry the
    RPC metrics and the propagation series share, and the HTTP component that serves it.

    How Prometheus gathers and prints a registry is the library's, a parameter. *)

From Stdlib Require Import ZArith Lia.
From stdpp Require Import base gmap list strings.
From S2P Require Import Prelude GoMux Model Protoconv Cred Server Observability Listen.

#[local] Open Scope Z_scope.

(** What is registered with a [prometheus.Registry]: the vectors of [NewPrometheus] and,
    once [NewPropagation] was called, those of the propagation series. *)
Record PromRegistry := mkPromRegistry { reg_rpc : Prometheus; reg_series : option Propagation }.

(** [Registry], before and after [NewPropagation] with it. *)
Definition Prometheus_Registry (p : Prometheus) : PromRegistry := mkPromRegistry p None.

Definition register_series (pr : Propagation) (r : PromRegistry) : PromRegistry := mkPromRegistry (reg_rpc r) (Some pr).

Inductive MetricsEndpoint := EMetrics.

Definition metrics_routes : list (string * list Segment * MetricsEndpoint) := [("GET", [Lit "metrics"], EMetrics)]%string.

Section Exposition.
(** [promhttp.HandlerFor]: the text of the gathered series, [None] when gathering fails. *)
Context (gather : PromRegistry → option string).

Definition metrics_handler (r : PromRegistry) : Z * string :=
  match gather r with
  | Some text => (200, text)
  | None => (500, "An error has occurred while serving metrics")%string
  end.

(** The answer to a method and an escaped path: its status and text. *)
Definition metrics_mux (r : PromRegistry) (method path : string) : Z * string :=
  match PathUnescape path with
  | None => (400, "400 Bad Request")
  | Some _ =>
      match mux_route metrics_routes method path with
      | Found EMetrics _ => metrics_handler r
      | Redirected => (301, "")
      | NotAllowed => (405, "Method Not Allowed")
      | NotFound => (404, "404 page not found")
      end
  end%string.

(** The component and its handler; the registry is read when a request comes. *)
Definition NewMetricsServer (addr : string) : HttpComp * (PromRegistry → string → string → Z * string) :=
  (httpcomp_New "metrics-http" addr, metrics_mux).

(** Nothing but a GET (or HEAD) reads the registry. *)
Lemma metrics_get_only r r' method path : method ∉ ["GET"; "HEAD"]%string → metrics_mux r method path = metrics_mux r' method path.
Proof.
  intros Hm. unfold metrics_mux. destruct (PathUnescape _); [|done].
  destruct (mux_route _ _ _) as [e vals| | |] eqn:E; try done.
  apply mux_route_in in E as (m & pat & Hin & Hmm). exfalso. apply Hm.
  apply list_elem_of_singleton in Hin. injection Hin as -> _. unfold method_matches in Hmm.
  rewrite orb_true_iff, andb_true_iff, !bool_decide_eq_true in Hmm. destruct Hmm as [<-|[_ ->]]; set_solver.
Qed.

(** What a scrape shows once a server has answered some calls: a registry whose counter of
    a method and code has grown by the number of its answers. *)
Theorem scrape_after_calls {S : Type} (handler : Request → S → Outcome * S) id authz calls s p series addr :
  let '(l, _, o') := serve_calls handler id authz calls s (NewObs (Some p)) in
  ∃ p', o_metrics o' = Some p' ∧
    (NewMetricsServer addr).2 (mkPromRegistry p' series) "GET" "/metrics" = metrics_handler (mkPromRegistry p' series) ∧
    ∀ method code, default 0 (pm_total p' !! (SideServer, method, Code_String code)) =
      default 0 (pm_total p !! (SideServer, method, Code_String code)) + Z.of_nat (length (filter (λ x, x = (method, code)) l)).
Proof.
  pose proof (serve_calls_obs handler id authz calls s (NewObs (Some p)) p eq_refl) as Ho.
  destruct (serve_calls _ _ _ _ _ _) as [[l s'] o']. destruct Ho as (p' & Hp & _ & Ht & _).
  exists p'. split; [done|]. split; [reflexivity|]. intros method code. by rewrite Ht, answered_code.
Qed.
End Exposition.
