(* ===== verification/ClockApi.v ===== *)
(** The time seam ([internal/clock/clock.go]): the interfaces [Clock], [Timer] and [Ticker]
    as a class with its promises, the system clock over Go's [time], and the fake clock of
    [FakeClock] as an instance.

    A clock is a value whose state holds its timers and tickers, each named by a number.
    What blocks ([Sleep], a receive) is what it waits on, and [ck_recv] the receive, when
    there is a value. *)

From Stdlib Require Import ZArith Lia.
From stdpp Require Import base gmap list.
From S2P Require Import Prelude FakeClock.

#[local] Open Scope Z_scope.

(** ** The interfaces *)

(** [None] of [ck_NewTicker] and [tk_Reset]: it panics. *)
Class ClockImpl (C : Type) := {
  ck_Now : C → Z;
  ck_Since : Z → C → Z;
  ck_Sleep : Z → C → nat * C;
  ck_After : Z → C → nat * C;
  ck_NewTimer : Z → C → nat * C;
  ck_NewTicker : Z → C → option (nat * C);
  tm_Stop : nat → C → bool * C;
  tm_Reset : nat → Z → C → bool * C;
  tk_Stop : nat → C → C;
  tk_Reset : nat → Z → C → option C;
  ck_recv : nat → C → option (Z * C)
}.

(** Nothing is received from [p] before [d] has passed. *)
Definition not_before {C} `{ClockImpl C} (pass : Z → C → C) (d : Z) (p : nat * C) : Prop :=
  ∀ e, 0 <= e → e < d → ck_recv p.1 (pass e p.2) = None.

(** The promises of the comments.  [ck_pass]: time passes, and nothing else happens;
    [ck_ok]: the states a clock can be in. *)
Class ClockLaws (C : Type) `{ClockImpl C} := {
  ck_ok : C → Prop;
  ck_pass : Z → C → C;
  pass_ok c d : ck_ok c → 0 <= d → ck_ok (ck_pass d c) ∧ ck_Now (ck_pass d c) = ck_Now c + d;
  since_now t c : ck_Since t c = Time_Sub (ck_Now c) t;
  sleep_at_least d c : ck_ok c → ck_ok (ck_Sleep d c).2 ∧ not_before ck_pass d (ck_Sleep d c);
  after_at_least d c : ck_ok c → ck_ok (ck_After d c).2 ∧ not_before ck_pass d (ck_After d c);
  timer_at_least d c : ck_ok c → ck_ok (ck_NewTimer d c).2 ∧ not_before ck_pass d (ck_NewTimer d c);
  ticker_panics d c : ck_NewTicker d c = None ↔ d <= 0;
  ticker_at_least d c p : ck_ok c → ck_NewTicker d c = Some p → ck_ok p.2 ∧ not_before ck_pass d p
}.

(** ** The system clock *)

(** [systemClock], [systemTimer] and [systemTicker] hold nothing of their own but what the
    package [time] gives them, here its state [T]. *)
Record systemClock (T : Type) := System { sys_time : T }.
Arguments System {T}.
Arguments sys_time {T}.

#[export] Instance system_clock {T} `{ClockImpl T} : ClockImpl (systemClock T) := {|
  ck_Now c := ck_Now (sys_time c);
  ck_Since t c := ck_Since t (sys_time c);
  ck_Sleep d c := prod_map id System (ck_Sleep d (sys_time c));
  ck_After d c := prod_map id System (ck_After d (sys_time c));
  ck_NewTimer d c := prod_map id System (ck_NewTimer d (sys_time c));
  ck_NewTicker d c := prod_map id System <$> ck_NewTicker d (sys_time c);
  tm_Stop i c := prod_map id System (tm_Stop i (sys_time c));
  tm_Reset i d c := prod_map id System (tm_Reset i d (sys_time c));
  tk_Stop i c := System (tk_Stop i (sys_time c));
  tk_Reset i d c := System <$> tk_Reset i d (sys_time c);
  ck_recv i c := prod_map id System <$> ck_recv i (sys_time c)
|}.

(** The default every constructor takes for a nil clock. *)
Definition clock_or {T} (now : T) (c : option (systemClock T)) : systemClock T := default (System now) c.

Lemma system_not_before {T} `{ClockImpl T} pass d p : not_before pass d p →
  not_before (λ e c, System (pass e (sys_time c))) d (prod_map id System p).
Proof. destruct p as [i c]. intros Hp e He Hd. specialize (Hp e He Hd). cbn in *. by rewrite Hp. Qed.

#[export] Instance system_laws {T} `{ClockLaws T} : ClockLaws (systemClock T).
Proof.
  refine {| ck_ok c := ck_ok (sys_time c); ck_pass d c := System (ck_pass d (sys_time c)) |}.
  - intros [c] d. exact (pass_ok c d).
  - intros t [c]. exact (since_now t c).
  - intros d c [Hc Hb]%(sleep_at_least d). split; [exact Hc|by apply system_not_before].
  - intros d c [Hc Hb]%(after_at_least d). split; [exact Hc|by apply system_not_before].
  - intros d c [Hc Hb]%(timer_at_least d). split; [exact Hc|by apply system_not_before].
  - intros d [c]. rewrite <-(ticker_panics d c). cbn. by destruct (ck_NewTicker d c).
  - intros d [c] p Hc. cbn. destruct (ck_NewTicker d c) as [q|] eqn:Hq; [|done]. intros [= <-].
    destruct (ticker_at_least d c q Hc Hq) as [Hk Hb]. split; [exact Hk|by apply system_not_before].
Defined.

(** ** The fake clock *)

#[export] Instance fake_clock : ClockImpl Fake := {|
  ck_Now := Fake_Now;
  ck_Since := Fake_Since;
  ck_Sleep := After;
  ck_After := After;
  ck_NewTimer := After;
  ck_NewTicker := NewTicker;
  tm_Stop := Timer_Stop;
  tm_Reset := Timer_Reset;
  tk_Stop := Ticker_Stop;
  tk_Reset := Ticker_Reset;
  ck_recv := recv
|}.

Lemma Advance_now d f : clock_wf f → f_now (Advance d f) = f_now f + d.
Proof. unfold Advance. by destruct (advance_loop _ _ _ _). Qed.

(** A waiter keeps an empty channel until its deadline. *)
Lemma waiter_not_before d period f : clock_wf f → 0 <= period → not_before Advance d (newWaiter d period f).
Proof.
  intros Hw Hp e He Hd. assert (H0 : 0 < d) by lia. pose proof (newWaiter_queued d period f H0) as Hn.
  pose proof (wf_newWaiter d period f Hp Hw) as Hw1. destruct (newWaiter d period f) as [i f1]. cbn [fst snd] in *.
  destruct Hn as (Hq & Hh & Hnow). destruct (Advance_queued e f1 i _ Hw1 Hq Hh) as [E _].
  cbn. unfold recv. rewrite E, fire_spec, Hnow by done. cbn. unfold ticked. cbn.
  destruct (Z.ltb_spec (f_now f + e) (f_now f + d)); [|lia]. by destruct (0 <? period).
Qed.

#[export] Instance fake_laws : ClockLaws Fake.
Proof.
  assert (Ha : ∀ d f, clock_wf f → clock_wf (After d f).2 ∧ not_before Advance d (After d f)).
  { intros d f Hw. split; [by apply wf_newWaiter|by apply waiter_not_before]. }
  refine {| ck_ok := clock_wf; ck_pass := Advance |}; [|reflexivity|exact Ha|exact Ha|exact Ha| |].
  - intros f d Hw Hd. split; [by apply wf_Advance|by apply Advance_now].
  - intros d f. cbn. unfold NewTicker. destruct (Z.leb_spec d 0); split; done || lia.
  - intros d f p Hw. cbn. unfold NewTicker. destruct (Z.leb_spec d 0); [done|]. intros [= <-].
    split; [by apply wf_newWaiter; [lia|]|by apply waiter_not_before; [|lia]].
Defined.

(** ** Against the interface *)

Section Client.
Context {C : Type} `{ClockLaws C}.

(** Whoever has slept for [d] measures [d] at least, on any clock. *)
Theorem slept_at_least (c : C) (d e : Z) :
  ck_ok c → ck_Now (ck_Sleep d c).2 = ck_Now c → 0 <= e → is_i64 e →
  let '(i, c') := ck_Sleep d c in
  is_Some (ck_recv i (ck_pass e c')) → d <= ck_Since (ck_Now c) (ck_pass e c').
Proof.
  intros Hok Hnow He Hi. destruct (sleep_at_least d c Hok) as [Hok' Hb]. destruct (ck_Sleep d c) as [i c'] eqn:E.
  intros Hr. rewrite since_now. destruct (pass_ok c' e Hok' He) as [_ ->]. cbn [snd] in Hnow. rewrite Hnow.
  replace (Time_Sub (ck_Now c + e) (ck_Now c)) with e by (rewrite Time_Sub_small; [|replace (ck_Now c + e - ck_Now c) with e by lia; done]; lia).
  destruct (decide (e < d)) as [Hlt|]; [|lia]. specialize (Hb e He Hlt). cbn in Hb. rewrite Hb in Hr. by destruct Hr.
Qed.
End Client.
